(** * Sequences: a shallow embedding of [sequences/core.py]

    The development follows the layout of the Python module:
    - Python string helpers used by the module ([str.isdigit], [int],
      [lstrip], [rstrip], [startswith], [endswith], slicing, [replace]);
    - a small backtracking matcher for the regular-expression constructs
      that occur in [DEFAULT_SEQUENCE_PATTERN] and
      [DEFAULT_FILE_SEQUENCE_PATTERN], with the priorities of Python's [re]
      (greedy and lazy repetition, ordered alternation, named groups);
    - [validate_path], [_parse_values], the renderers, [num],
      [is_part_of_sequence], the item index, [range], [missing],
      [get_next_item], [get_previous_item] and [rename]. *)

From Stdlib Require Import Ascii String Decimal DecimalNat.
From Stdlib Require Import List ZArith Lia Bool Arith PeanoNat.
Import ListNotations.

Local Open Scope char_scope.
Local Open Scope list_scope.

(** Python byte strings are lists of characters. *)
Definition str := list ascii.

(** Literals are written through [String.string]. *)
Definition lit (s : string) : str := list_ascii_of_string s.

(* ================================================================== *)
(** ** Python string helpers *)

Module Py.

Definition is_digit (c : ascii) : bool :=
  let n := nat_of_ascii c in ((48 <=? n) && (n <=? 57))%nat.

Definition is_alpha (c : ascii) : bool :=
  let n := nat_of_ascii c in
  (((65 <=? n) && (n <=? 90)) || ((97 <=? n) && (n <=? 122)))%nat.

(** [\w] of a byte pattern without flags: [[a-zA-Z0-9_]]. *)
Definition is_word (c : ascii) : bool :=
  is_digit c || is_alpha c || Ascii.eqb c "_".

(** [\s]: space, tab, newline, carriage return, form feed, vertical tab. *)
Definition is_space (c : ascii) : bool :=
  let n := nat_of_ascii c in
  ((n =? 32) || ((9 <=? n) && (n <=? 13)))%nat.

Definition newline : ascii := ascii_of_nat 10.

(** [.] without DOTALL: anything but a newline. *)
Definition is_dot (c : ascii) : bool := negb (Ascii.eqb c newline).

Definition is_char (x : ascii) (c : ascii) : bool := Ascii.eqb c x.

(** [s.isdigit()]: non-empty and every character a decimal digit. *)
Definition isdigit (s : str) : bool :=
  match s with
  | [] => false
  | _ => forallb is_digit s
  end.

Fixpoint str_eqb (a b : str) : bool :=
  match a, b with
  | [], [] => true
  | x :: a', y :: b' => Ascii.eqb x y && str_eqb a' b'
  | _, _ => false
  end.

(** [s.startswith(p)] *)
Fixpoint startswith (s p : str) : bool :=
  match p, s with
  | [], _ => true
  | x :: p', y :: s' => Ascii.eqb x y && startswith s' p'
  | _ :: _, [] => false
  end.

(** [s.endswith(p)] *)
Definition endswith (s p : str) : bool :=
  (length p <=? length s)%nat && str_eqb (skipn (length s - length p) s) p.

(** [s[a:b]] for non-negative indices. *)
Definition slice (s : str) (a b : nat) : str :=
  firstn (b - a) (skipn a s).

(** [s.lstrip(chars)]: drop leading characters that occur in [chars]. *)
Fixpoint lstrip (chars : str) (s : str) : str :=
  match s with
  | [] => []
  | c :: s' => if existsb (Ascii.eqb c) chars then lstrip chars s' else s
  end.

(** [s.rstrip(chars)] *)
Definition rstrip (chars : str) (s : str) : str :=
  rev (lstrip chars (rev s)).

(** [s.replace(old, new)] for a one-character [old]. *)
Definition replace1 (old : ascii) (new : str) (s : str) : str :=
  flat_map (fun c => if Ascii.eqb c old then new else [c]) s.

Definition digit_of_char (c : ascii) (k : uint) : option uint :=
  match (nat_of_ascii c - 48)%nat with
  | 0 => if is_digit c then Some (D0 k) else None
  | 1 => Some (D1 k) | 2 => Some (D2 k) | 3 => Some (D3 k)
  | 4 => Some (D4 k) | 5 => Some (D5 k) | 6 => Some (D6 k)
  | 7 => Some (D7 k) | 8 => Some (D8 k) | 9 => Some (D9 k)
  | _ => None
  end.

Fixpoint uint_of_chars (s : str) : option uint :=
  match s with
  | [] => Some Nil
  | c :: s' =>
      match uint_of_chars s' with
      | Some k => digit_of_char c k
      | None => None
      end
  end.

Fixpoint chars_of_uint (d : uint) : str :=
  match d with
  | Nil => []
  | D0 k => "0" :: chars_of_uint k
  | D1 k => "1" :: chars_of_uint k
  | D2 k => "2" :: chars_of_uint k
  | D3 k => "3" :: chars_of_uint k
  | D4 k => "4" :: chars_of_uint k
  | D5 k => "5" :: chars_of_uint k
  | D6 k => "6" :: chars_of_uint k
  | D7 k => "7" :: chars_of_uint k
  | D8 k => "8" :: chars_of_uint k
  | D9 k => "9" :: chars_of_uint k
  end.

(** [int(s)] on a string of decimal digits; [None] stands for the
    [ValueError] Python raises on the empty string and on any other
    character (signs and surrounding blanks never reach [int] in this
    module: its arguments are matched by [\d+]). *)
Definition int (s : str) : option nat :=
  match s with
  | [] => None
  | _ => option_map Nat.of_uint (uint_of_chars s)
  end.

(** [str(n)] / ["{0}".format(n)] for a non-negative integer. *)
Definition str_nat (n : nat) : str := chars_of_uint (Nat.to_uint n).

(** ["%0{w}d" % n] and ["{:0{w}d}".format(n)]: the sign, then zeros up to
    the width, then the digits; never truncated. *)
Definition zero_pad (w : nat) (n : Z) : str :=
  let ds := str_nat (Z.abs_nat n) in
  if (n <? 0)%Z
  then "-" :: repeat "0" (w - 1 - length ds) ++ ds
  else repeat "0" (w - length ds) ++ ds.

End Py.

(* ================================================================== *)
(** ** The regular expressions of the module

    Only the constructs that occur in the two patterns are modelled.
    Repetition is always over a single character class, so the matcher
    is structurally recursive: on the expression, and on the remaining
    input inside a repetition.  The matcher is written in
    continuation-passing style; a continuation is tried at every
    candidate end position in the order Python's backtracking matcher
    tries them, so the first success is the match [re] reports. *)

Module Re.

Inductive regex : Type :=
| Bol                                   (* ^  *)
| Eol                                   (* $  *)
| Chr (c : ascii)                       (* a literal character *)
| Plus (cls : ascii -> bool)            (* cls+   greedy *)
| Star (cls : ascii -> bool)            (* cls*   greedy *)
| StarLazy (cls : ascii -> bool)        (* cls*?  lazy   *)
| Seq (a b : regex)
| Alt (a b : regex)                     (* a|b, left first *)
| Group (name : string) (a : regex).    (* (?P<name>a) *)

(** Group spans are absolute offsets [start, end) into the subject. *)
Definition caps := list (string * (nat * nat)).
Definition cont := nat -> str -> caps -> option caps.

(** [$] without MULTILINE: at the end, or before a final newline. *)
Definition at_eol (rest : str) : bool :=
  match rest with
  | [] => true
  | [c] => Ascii.eqb c Py.newline
  | _ => false
  end.

(** Greedy [cls*]: the longest run first, then shorter ones. *)
Fixpoint star_greedy (cls : ascii -> bool) (pos : nat) (rest : str)
         (k : nat -> str -> option caps) : option caps :=
  match rest with
  | c :: rest' =>
      if cls c then
        match star_greedy cls (S pos) rest' k with
        | Some r => Some r
        | None => k pos rest
        end
      else k pos rest
  | [] => k pos rest
  end.

(** Lazy [cls*?]: the empty run first, then longer ones. *)
Fixpoint star_lazy (cls : ascii -> bool) (pos : nat) (rest : str)
         (k : nat -> str -> option caps) : option caps :=
  match k pos rest with
  | Some r => Some r
  | None =>
      match rest with
      | c :: rest' => if cls c then star_lazy cls (S pos) rest' k else None
      | [] => None
      end
  end.

Fixpoint rmatch (r : regex) (pos : nat) (rest : str) (c : caps)
         (k : cont) : option caps :=
  match r with
  | Bol => if (pos =? 0)%nat then k pos rest c else None
  | Eol => if at_eol rest then k pos rest c else None
  | Chr x =>
      match rest with
      | y :: rest' => if Ascii.eqb y x then k (S pos) rest' c else None
      | [] => None
      end
  | Plus cls =>
      match rest with
      | y :: rest' =>
          if cls y
          then star_greedy cls (S pos) rest' (fun p s => k p s c)
          else None
      | [] => None
      end
  | Star cls => star_greedy cls pos rest (fun p s => k p s c)
  | StarLazy cls => star_lazy cls pos rest (fun p s => k p s c)
  | Seq a b =>
      rmatch a pos rest c (fun p s c' => rmatch b p s c' k)
  | Alt a b =>
      match rmatch a pos rest c k with
      | Some res => Some res
      | None => rmatch b pos rest c k
      end
  | Group name a =>
      rmatch a pos rest c (fun p s c' => k p s ((name, (pos, p)) :: c'))
  end.

(** [regex.search(s)]: the first start offset at which the expression
    matches. *)
Fixpoint search_from (r : regex) (pos : nat) (rest : str) : option caps :=
  match rmatch r pos rest [] (fun _ _ c => Some c) with
  | Some c => Some c
  | None =>
      match rest with
      | _ :: rest' => search_from r (S pos) rest'
      | [] => None
      end
  end.

Definition search (r : regex) (s : str) : option caps := search_from r 0 s.

(** [match.start(name)], [match.end(name)]; [None] when the group did
    not take part in the match. *)
Fixpoint span (name : string) (c : caps) : option (nat * nat) :=
  match c with
  | [] => None
  | (n, sp) :: c' => if String.eqb n name then Some sp else span name c'
  end.

(** [match.groupdict()[name]] *)
Definition group (s : str) (name : string) (c : caps) : option str :=
  match span name c with
  | Some (a, b) => Some (Py.slice s a b)
  | None => None
  end.

End Re.

(** The five alternatives of the [sequence] group, shared by both
    patterns: [(?P<nums>(?:\d)+)], [(?P<pounds>(?:#)+)],
    [(?P<regex>\\d{\d+})], [(?P<formatstring>{\w+:\d+d})] and
    [(?P<percent>%\d+d)]. *)
Definition ALT_nums : Re.regex := Re.Group "nums" (Re.Plus Py.is_digit).

Definition ALT_pounds : Re.regex :=
  Re.Group "pounds" (Re.Plus (Py.is_char "#")).

Definition ALT_regex : Re.regex :=
  Re.Group "regex"
    (Re.Seq (Re.Chr "\") (Re.Seq (Re.Chr "d") (Re.Seq (Re.Chr "{")
    (Re.Seq (Re.Plus Py.is_digit) (Re.Chr "}"))))).

Definition ALT_formatstring : Re.regex :=
  Re.Group "formatstring"
    (Re.Seq (Re.Chr "{") (Re.Seq (Re.Plus Py.is_word)
    (Re.Seq (Re.Chr ":") (Re.Seq (Re.Plus Py.is_digit)
    (Re.Seq (Re.Chr "d") (Re.Chr "}")))))).

Definition ALT_percent : Re.regex :=
  Re.Group "percent"
    (Re.Seq (Re.Chr "%") (Re.Seq (Re.Plus Py.is_digit) (Re.Chr "d"))).

Definition SEQUENCE_ALTERNATIVES : Re.regex :=
  Re.Alt ALT_nums
 (Re.Alt ALT_pounds
 (Re.Alt ALT_regex
 (Re.Alt ALT_formatstring
         ALT_percent))).

(** [^(?P<prefix>.*?)(?P<sequence>...)$] *)
Definition DEFAULT_SEQUENCE_PATTERN : Re.regex :=
  Re.Seq Re.Bol
 (Re.Seq (Re.Group "prefix" (Re.StarLazy Py.is_dot))
 (Re.Seq (Re.Group "sequence" SEQUENCE_ALTERNATIVES)
         Re.Eol)).

(** [^(?P<prefix>.*?)(?:\.(?P<sequence>...)(?P<suffix>.*(?P<ext>\.\S+$)|$))] *)
Definition DEFAULT_FILE_SEQUENCE_PATTERN : Re.regex :=
  Re.Seq Re.Bol
 (Re.Seq (Re.Group "prefix" (Re.StarLazy Py.is_dot))
 (Re.Seq (Re.Chr ".")
 (Re.Seq (Re.Group "sequence" SEQUENCE_ALTERNATIVES)
         (Re.Group "suffix"
            (Re.Alt (Re.Seq (Re.Star Py.is_dot)
                            (Re.Group "ext"
                               (Re.Seq (Re.Chr ".")
                               (Re.Seq (Re.Plus (fun c => negb (Py.is_space c)))
                                       Re.Eol))))
                    Re.Eol))))).

(* ================================================================== *)
(** ** Exceptions, the file system and the object state *)

Inductive exn : Type :=
| TypeError | ValueError | AttributeError | KeyError | IndexError | OSError.

Inductive result (A : Type) : Type :=
| Ok (a : A)
| Raise (e : exn).
Arguments Ok {A} a.
Arguments Raise {A} e.

(** [SEQUENCE_FORMAT_TYPES] *)
Inductive format_type : Type :=
| nums | pounds | regex | formatstring | percent.

Definition format_type_name (t : format_type) : string :=
  match t with
  | nums => "nums" | pounds => "pounds" | regex => "regex"
  | formatstring => "formatstring" | percent => "percent"
  end.

Definition SEQUENCE_FORMAT_TYPES : list format_type :=
  [nums; pounds; regex; formatstring; percent].

Definition format_type_eqb (a b : format_type) : bool :=
  String.eqb (format_type_name a) (format_type_name b).

(** The three classes differ in their pattern, their format key and in
    what [FileSequence] overrides. *)
Inductive kind : Type := Abstract | File.

Record seq_class : Type := {
  cls_kind : kind;
  cls_regex : Re.regex;
  formatStringKey : str
}.

Definition AbstractSequence : seq_class :=
  {| cls_kind := Abstract; cls_regex := DEFAULT_SEQUENCE_PATTERN;
     formatStringKey := lit "item" |}.

Definition FileSequence : seq_class :=
  {| cls_kind := File; cls_regex := DEFAULT_FILE_SEQUENCE_PATTERN;
     formatStringKey := lit "item" |}.

(** The disk as the module sees it through [os.path.exists],
    [scandir.scandir] and [os.rename]: the files and the folders that
    exist. *)
Record disk : Type := {
  files : list str;
  folders : list str
}.

Definition mem (p : str) (l : list str) : bool := existsb (Py.str_eqb p) l.

Definition path_exists (d : disk) (p : str) : bool :=
  mem p (files d) || mem p (folders d).

(** Item numbers are Python integers; a key of the item index is an
    integer or [None] (what [num] returns for a slot that is not made of
    digits). *)
Definition key := option Z.

(** The instance attributes set by [_clearProperties], [__init__] and
    [_parse_values]. *)
Record Sequence : Type := {
  cls : seq_class;
  _string : str;
  _input_items : option (list str);
  validateExists : bool;
  _primary_match : option Re.caps;
  _format_type : option format_type;
  _current_item : option str;
  _current_item_number : option Z;
  _padding : nat;
  _base_sequence_items : str * str;
  _sequence_items : list (key * str);
  _regex_string : option str;
  _parsed : bool;
  _built : bool;
  _range : option (list (list Z))
}.

(** Calls that leave the module: [os.rename(old, new)], and the line
    [rename] logs for each planned move of a dry run. *)
Inductive event : Type :=
| OsRename (old new : str)
| LogCopying (old new : str).

(** What a call can observe and change: the object, the disk, and the
    calls made so far (latest first).  A raised exception keeps the
    changes made before it. *)
Record world : Type := {
  obj : Sequence;
  fs : disk;
  events : list event
}.

Definition M (A : Type) : Type := world -> result A * world.

Definition ret {A} (a : A) : M A := fun w => (Ok a, w).
Definition raise {A} (e : exn) : M A := fun w => (Raise e, w).
Definition bind {A B} (m : M A) (f : A -> M B) : M B :=
  fun w => match m w with
           | (Ok a, w') => f a w'
           | (Raise e, w') => (Raise e, w')
           end.
Definition get : M Sequence := fun w => (Ok (obj w), w).
Definition put (s : Sequence) : M unit :=
  fun w => (Ok tt, {| obj := s; fs := fs w; events := events w |}).
Definition get_fs : M disk := fun w => (Ok (fs w), w).
Definition put_fs (d : disk) : M unit :=
  fun w => (Ok tt, {| obj := obj w; fs := d; events := events w |}).
Definition emit (e : event) : M unit :=
  fun w => (Ok tt, {| obj := obj w; fs := fs w; events := e :: events w |}).

Declare Scope seq_scope.
Delimit Scope seq_scope with seq.
Notation "x <- m ;; f" := (bind m (fun x => f))
  (at level 61, m at next level, right associativity) : seq_scope.
Notation "m ;;; f" := (bind m (fun _ => f))
  (at level 61, right associativity) : seq_scope.
Local Open Scope seq_scope.

Definition lift_opt {A} (e : exn) (o : option A) : M A :=
  match o with Some a => ret a | None => raise e end.

(* ================================================================== *)
(** ** Attribute updates *)

Definition with_parse (s : Sequence) (m : option Re.caps)
           (ft : option format_type) (ci : option str) : Sequence :=
  {| cls := cls s; _string := _string s; _input_items := _input_items s;
     validateExists := validateExists s;
     _primary_match := m; _format_type := ft; _current_item := ci;
     _current_item_number := _current_item_number s;
     _padding := _padding s;
     _base_sequence_items := _base_sequence_items s;
     _sequence_items := _sequence_items s;
     _regex_string := _regex_string s;
     _parsed := _parsed s; _built := _built s; _range := _range s |}.

Definition with_current_item (s : Sequence) (ci : option str)
           (n : option Z) : Sequence :=
  {| cls := cls s; _string := _string s; _input_items := _input_items s;
     validateExists := validateExists s;
     _primary_match := _primary_match s; _format_type := _format_type s;
     _current_item := ci; _current_item_number := n;
     _padding := _padding s;
     _base_sequence_items := _base_sequence_items s;
     _sequence_items := _sequence_items s;
     _regex_string := _regex_string s;
     _parsed := _parsed s; _built := _built s; _range := _range s |}.

Definition with_padding (s : Sequence) (p : nat) : Sequence :=
  {| cls := cls s; _string := _string s; _input_items := _input_items s;
     validateExists := validateExists s;
     _primary_match := _primary_match s; _format_type := _format_type s;
     _current_item := _current_item s;
     _current_item_number := _current_item_number s;
     _padding := p;
     _base_sequence_items := _base_sequence_items s;
     _sequence_items := _sequence_items s;
     _regex_string := _regex_string s;
     _parsed := _parsed s; _built := _built s; _range := _range s |}.

Definition with_base (s : Sequence) (b : str * str) (parsed : bool)
  : Sequence :=
  {| cls := cls s; _string := _string s; _input_items := _input_items s;
     validateExists := validateExists s;
     _primary_match := _primary_match s; _format_type := _format_type s;
     _current_item := _current_item s;
     _current_item_number := _current_item_number s;
     _padding := _padding s;
     _base_sequence_items := b;
     _sequence_items := _sequence_items s;
     _regex_string := _regex_string s;
     _parsed := parsed; _built := _built s; _range := _range s |}.

Definition with_items (s : Sequence) (it : list (key * str)) (built : bool)
  : Sequence :=
  {| cls := cls s; _string := _string s; _input_items := _input_items s;
     validateExists := validateExists s;
     _primary_match := _primary_match s; _format_type := _format_type s;
     _current_item := _current_item s;
     _current_item_number := _current_item_number s;
     _padding := _padding s;
     _base_sequence_items := _base_sequence_items s;
     _sequence_items := it;
     _regex_string := _regex_string s;
     _parsed := _parsed s; _built := built; _range := _range s |}.

Definition with_regex_string (s : Sequence) (r : option str) : Sequence :=
  {| cls := cls s; _string := _string s; _input_items := _input_items s;
     validateExists := validateExists s;
     _primary_match := _primary_match s; _format_type := _format_type s;
     _current_item := _current_item s;
     _current_item_number := _current_item_number s;
     _padding := _padding s;
     _base_sequence_items := _base_sequence_items s;
     _sequence_items := _sequence_items s;
     _regex_string := r;
     _parsed := _parsed s; _built := _built s; _range := _range s |}.

Definition with_range (s : Sequence) (r : option (list (list Z)))
  : Sequence :=
  {| cls := cls s; _string := _string s; _input_items := _input_items s;
     validateExists := validateExists s;
     _primary_match := _primary_match s; _format_type := _format_type s;
     _current_item := _current_item s;
     _current_item_number := _current_item_number s;
     _padding := _padding s;
     _base_sequence_items := _base_sequence_items s;
     _sequence_items := _sequence_items s;
     _regex_string := _regex_string s;
     _parsed := _parsed s; _built := _built s; _range := r |}.

Definition with_source (s : Sequence) (string : str)
           (items : option (list str)) : Sequence :=
  {| cls := cls s; _string := string; _input_items := items;
     validateExists := validateExists s;
     _primary_match := _primary_match s; _format_type := _format_type s;
     _current_item := _current_item s;
     _current_item_number := _current_item_number s;
     _padding := _padding s;
     _base_sequence_items := _base_sequence_items s;
     _sequence_items := _sequence_items s;
     _regex_string := _regex_string s;
     _parsed := _parsed s; _built := _built s; _range := _range s |}.

(** [_clearProperties] *)
Definition clearProperties (s : Sequence) : Sequence :=
  {| cls := cls s; _string := _string s; _input_items := _input_items s;
     validateExists := validateExists s;
     _primary_match := None; _format_type := None;
     _current_item := None; _current_item_number := None;
     _padding := _padding s;
     _base_sequence_items := _base_sequence_items s;
     _sequence_items := [];
     _regex_string := None;
     _parsed := false; _built := false; _range := None |}.

Definition modify (f : Sequence -> Sequence) : M unit :=
  fun w => (Ok tt, {| obj := f (obj w); fs := fs w; events := events w |}).

(* ================================================================== *)
(** ** Paths *)

(** [os.path.dirname] (posixpath). *)
Fixpoint rfind_slash (rs : str) : str :=
  (* on the reversed path: drop up to, not including, the last slash *)
  match rs with
  | [] => []
  | c :: rs' => if Ascii.eqb c "/" then rs else rfind_slash rs'
  end.

Definition dirname (p : str) : str :=
  let head := rev (rfind_slash (rev p)) in
  if forallb (Ascii.eqb "/") head then head
  else Py.rstrip ["/"] head.

(** [utils.path_normalize] with its default arguments: backslashes become
    slashes, and, past the first character, doubled slashes become one
    ([str.replace] scans left to right without overlap). *)
Fixpoint replace_double_slash (s : str) : str :=
  match s with
  | c1 :: ((c2 :: s'') as s') =>
      if Ascii.eqb c1 "/" && Ascii.eqb c2 "/"
      then "/" :: replace_double_slash s''
      else c1 :: replace_double_slash s'
  | _ => s
  end.

Definition path_normalize (filename : str) : str :=
  let f := Py.replace1 "\" ["/"] filename in
  match f with
  | [] => []
  | c :: f' => c :: replace_double_slash f'
  end.

(* ================================================================== *)
(** ** Classification: [validate_path] and [_parse_values] *)

(** [groups[key][1:].split(':')[0]] *)
Fixpoint upto_colon (s : str) : str :=
  match s with
  | [] => []
  | c :: s' => if Ascii.eqb c ":" then [] else c :: upto_colon s'
  end.

Definition format_key_of (g : str) : str := upto_colon (tl g).

(** Truth value of [groups[key]]: the group took part and is not empty. *)
Definition group_truthy (path : str) (m : Re.caps) (t : format_type) : bool :=
  match Re.group path (format_type_name t) m with
  | Some (_ :: _) => true
  | _ => false
  end.

(** The loop over [groups] in [validate_path].  The alternatives of the
    pattern exclude each other, so at most one of the five groups is set
    and the order in which the dictionary is walked does not matter. *)
Fixpoint pick_format_type (c : seq_class) (path : str) (m : Re.caps)
         (keys : list format_type) (acc : option format_type)
  : result (option format_type) :=
  match keys with
  | [] => Ok acc
  | k :: keys' =>
      if group_truthy path m k then
        match k, Re.group path (format_type_name k) m with
        | formatstring, Some g =>
            if Py.str_eqb (format_key_of g) (formatStringKey c)
            then pick_format_type c path m keys' (Some k)
            else Raise ValueError
        | _, _ => pick_format_type c path m keys' (Some k)
        end
      else pick_format_type c path m keys' acc
  end.

(** [cls.validate_path(path)]; [FileSequence] adds the check that the
    folder exists. *)
Definition validate_path (c : seq_class) (check_exists : bool) (d : disk)
           (path : str) : result (Re.caps * format_type) :=
  match Re.search (cls_regex c) path with
  | None => Raise ValueError
  | Some m =>
      match pick_format_type c path m SEQUENCE_FORMAT_TYPES None with
      | Raise e => Raise e
      | Ok None => Raise ValueError
      | Ok (Some ft) =>
          match cls_kind c with
          | File =>
              if check_exists && negb (path_exists d (dirname path))
              then Raise ValueError
              else Ok (m, ft)
          | Abstract => Ok (m, ft)
          end
      end
  end.

(** [_parse_padding_from_match] *)
Definition parse_padding_from_match (c : seq_class) (path : str)
           (m : Re.caps) (ft : format_type) : result nat :=
  let g := match Re.group path (format_type_name ft) m with
           | Some g => g | None => []
           end in
  let of_int (s : str) :=
    match Py.int s with Some n => Ok n | None => Raise ValueError end in
  match ft with
  | nums => Ok (length g)
  | pounds => Ok (length g)
  | regex =>
      of_int (Py.rstrip (lit "}}") (Py.lstrip (lit "\d+{{") g))
  | formatstring =>
      of_int (Py.rstrip (lit "d}}")
                (Py.lstrip ("{" :: formatStringKey c ++ [":"]) g))
  | percent =>
      of_int (Py.rstrip (lit "d") (Py.lstrip (lit "%") g))
  end.

Definition lift {A} (r : result A) : M A :=
  match r with Ok a => ret a | Raise e => raise e end.

Definition seq_span (m : Re.caps) : nat * nat :=
  match Re.span "sequence" m with Some sp => sp | None => (0, 0) end.

(** [_parse_values()] *)
Definition parse_values : M unit :=
  modify (fun s => with_range s None) ;;;
  s <- get ;;
  d <- get_fs ;;
  mf <- lift (validate_path (cls s) (validateExists s) d (_string s)) ;;
  let '(m, ft) := mf in
  let current := Re.group (_string s) "sequence" m in
  modify (fun s => with_parse s (Some m) (Some ft) current) ;;;
  match ft with
  | nums =>
      n <- lift_opt ValueError
             (Py.int (match current with Some g => g | None => [] end)) ;;
      modify (fun s => with_current_item s current (Some (Z.of_nat n)))
  | _ => ret tt
  end ;;;
  p <- lift (parse_padding_from_match (cls s) (_string s) m ft) ;;
  modify (fun s => with_padding s p) ;;;
  let '(a, b) := seq_span m in
  modify (fun s =>
            with_base s (firstn a (_string s), skipn b (_string s)) true).

(** The guard [if not self.parsed: self._parse_values()] that opens every
    accessor. *)
Definition ensure_parsed : M unit :=
  s <- get ;;
  if _parsed s then ret tt else parse_values.

(** [__init__]; for [FileSequence] the path is normalized first. *)
Definition new_sequence (c : seq_class) (string : str)
           (items : option (list str)) (check_exists : bool) : Sequence :=
  clearProperties
    {| cls := c;
       _string := match cls_kind c with
                  | File => path_normalize string
                  | Abstract => string
                  end;
       _input_items := items;
       validateExists := check_exists;
       _primary_match := None; _format_type := None;
       _current_item := None; _current_item_number := None;
       _padding := 0; _base_sequence_items := ([], []);
       _sequence_items := []; _regex_string := None;
       _parsed := false; _built := false; _range := None |}.

(** [validate()] *)
Definition validate : M unit := ensure_parsed.

(** Accessors. *)
Definition formatType : M (option format_type) :=
  ensure_parsed ;;; s <- get ;; ret (_format_type s).

Definition currentItem : M (option str) :=
  ensure_parsed ;;; s <- get ;; ret (_current_item s).

Definition currentItemNumber : M (option Z) :=
  ensure_parsed ;;; s <- get ;; ret (_current_item_number s).

Definition padding : M nat :=
  ensure_parsed ;;; s <- get ;; ret (_padding s).

Definition the_match (s : Sequence) : Re.caps :=
  match _primary_match s with Some m => m | None => [] end.

(** [prefix]/[suffix]: the named group, or the empty string when the
    pattern has no such group or it did not take part. *)
Definition group_or_empty (s : Sequence) (name : string) : str :=
  match Re.group (_string s) name (the_match s) with
  | Some g => g
  | None => []
  end.

Definition prefix : M str :=
  ensure_parsed ;;; s <- get ;; ret (group_or_empty s "prefix").

Definition suffix : M str :=
  ensure_parsed ;;; s <- get ;; ret (group_or_empty s "suffix").

(** The setter of [currentItemNumber] (its argument is an integer here,
    so the [TypeError] branch is excluded by typing).  The number is
    stored first; [self.padding] is read next, which parses an object
    that is not parsed yet; the item is then formatted from the number
    the object holds at that point. *)
Definition set_currentItemNumber (value : Z) : M unit :=
  modify (fun s => with_current_item s (_current_item s) (Some value)) ;;;
  p <- padding ;;
  s <- get ;;
  match _current_item_number s with
  | Some n =>
      modify (fun s => with_current_item s (Some (Py.zero_pad p n))
                                         (_current_item_number s))
  | None => raise TypeError
  end.

(* ================================================================== *)
(** ** Renderers *)

(** [substr.join(self._base_sequence_items)] *)
Definition join_base (s : Sequence) (substr : str) : str :=
  fst (_base_sequence_items s) ++ substr ++ snd (_base_sequence_items s).

Definition default_padding (p : option nat) : M nat :=
  match p with Some p => ret p | None => padding end.

Definition get_pound_string (p : option nat) : M str :=
  ensure_parsed ;;;
  p <- default_padding p ;;
  s <- get ;;
  ret (join_base s (repeat "#" p)).

(** ['{{{0}:0{1}d}}'.format(formatKey, int(padding))] *)
Definition format_substr (k : str) (p : nat) : str :=
  "{" :: k ++ lit ":0" ++ Py.str_nat p ++ lit "d}".

Definition get_format_string (p : option nat) (formatKey : option str)
  : M str :=
  ensure_parsed ;;;
  s <- get ;;
  let k := match formatKey with
           | Some k => k | None => formatStringKey (cls s) end in
  p <- default_padding p ;;
  ret (join_base s (format_substr k p)).

(** ['%0{0}d'.format(int(padding))] *)
Definition percent_substr (p : nat) : str :=
  lit "%0" ++ Py.str_nat p ++ lit "d".

Definition get_percent_string (p : option nat) : M str :=
  ensure_parsed ;;;
  p <- default_padding p ;;
  s <- get ;;
  ret (join_base s (percent_substr p)).

(** ['\d{{{0}}}'.format(int(padding))] *)
Definition regex_substr (p : nat) : str :=
  lit "\d{" ++ Py.str_nat p ++ lit "}".

(** [get_regex_string]: the first result is memoized in [_regex_string]
    and returned by every later call, whatever its padding. *)
Definition get_regex_string (p : option nat) : M str :=
  s <- get ;;
  match _regex_string s with
  | Some (c :: r) => ret (c :: r)
  | _ =>
      ensure_parsed ;;;
      p <- default_padding p ;;
      s <- get ;;
      let result := Py.replace1 "[" (lit "\[") (join_base s (regex_substr p)) in
      modify (fun s => with_regex_string s (Some result)) ;;;
      ret result
  end.

(** [str.format] with the one keyword argument [key = n], for the
    templates the module builds.
    Literal text is copied, [{{] and [}}] stand for one brace, and the
    replacement field [{key:0Wd}] is the number zero-padded to width [W].
    Any other replacement field is outside the model: it is answered by
    [KeyError] when it names another key and by [ValueError] otherwise
    (Python may raise a different exception there, or substitute). *)
Definition render_field (k : str) (n : Z) (field : str) : result str :=
  if Py.str_eqb (upto_colon field) k then
    match skipn (S (length (upto_colon field))) field with
    | c0 :: spec =>
        let w := removelast spec in
        if Ascii.eqb c0 "0" && Py.isdigit w
           && Py.str_eqb (skipn (length w) spec) ["d"]
        then match Py.int w with
             | Some w => Ok (Py.zero_pad w n)
             | None => Raise ValueError
             end
        else Raise ValueError
    | [] => Raise ValueError
    end
  else Raise KeyError.

Fixpoint py_format (k : str) (n : Z) (t : str) (field : option str)
  : result str :=
  match t with
  | [] => match field with None => Ok [] | Some _ => Raise ValueError end
  | c :: t' =>
      let next (x : result str) (y : result str) : result str :=
        match x, y with
        | Ok a, Ok b => Ok (a ++ b)
        | Raise e, _ => Raise e
        | _, Raise e => Raise e
        end in
      match field with
      | Some acc =>
          if Ascii.eqb c "}"
          then next (render_field k n (rev acc)) (py_format k n t' None)
          else if Ascii.eqb c "{" then Raise ValueError
          else py_format k n t' (Some (c :: acc))
      | None =>
          match t' with
          | c' :: t'' =>
              if Ascii.eqb c "{" && Ascii.eqb c' "{"
              then next (Ok ["{"]) (py_format k n t'' None)
              else if Ascii.eqb c "}" && Ascii.eqb c' "}"
              then next (Ok ["}"]) (py_format k n t'' None)
              else if Ascii.eqb c "{" then py_format k n t' (Some [])
              else if Ascii.eqb c "}" then Raise ValueError
              else next (Ok [c]) (py_format k n t' None)
          | [] =>
              if Ascii.eqb c "{" || Ascii.eqb c "}" then Raise ValueError
              else Ok [c]
          end
      end
  end.

(** [get_string(itemNumber, padding)] *)
Definition get_string (itemNumber : Z) (p : option nat) : M str :=
  ensure_parsed ;;;
  template <- get_format_string p None ;;
  s <- get ;;
  lift (py_format (formatStringKey (cls s)) itemNumber template None).

(* ================================================================== *)
(** ** Membership and item numbers *)

Definition is_part_of_sequence (string : str) : M bool :=
  s <- get ;;
  if negb (length (_string s) =? length string)%nat then ret false
  else
    ensure_parsed ;;;
    pre <- prefix ;;
    if negb (Py.startswith string pre) then ret false
    else
      suf <- suffix ;;
      if negb (Py.endswith string suf) then ret false
      else ret true.

(** [num(string)]: [None] when the characters at the slot are not all
    digits (the function falls off its end). *)
Definition num (string : str) : M key :=
  ensure_parsed ;;;
  part <- is_part_of_sequence string ;;
  if negb part then raise ValueError
  else
    s <- get ;;
    let start := fst (seq_span (the_match s)) in
    p <- padding ;;
    let n := Py.slice string start (start + p) in
    if Py.isdigit n
    then match Py.int n with
         | Some v => ret (Some (Z.of_nat v))
         | None => raise ValueError
         end
    else ret None.

(* ================================================================== *)
(** ** The item index *)

(** Order of the keys under Python 2's [sorted]: [None] sorts before
    every integer. *)
Definition key_eqb (a b : key) : bool :=
  match a, b with
  | None, None => true
  | Some x, Some y => (x =? y)%Z
  | _, _ => false
  end.

Definition key_leb (a b : key) : bool :=
  match a, b with
  | None, _ => true
  | Some _, None => false
  | Some x, Some y => (x <=? y)%Z
  end.

(** [d[k] = v] on a dictionary kept as an association list: an existing
    key keeps its place, a new one is appended.  The same function is
    [OrderedDict.__setitem__]. *)
Fixpoint dict_set (k : key) (v : str) (d : list (key * str))
  : list (key * str) :=
  match d with
  | [] => [(k, v)]
  | (k', v') :: d' =>
      if key_eqb k' k then (k, v) :: d' else (k', v') :: dict_set k v d'
  end.

(** [d.update(pairs)] *)
Definition dict_update (d : list (key * str)) (pairs : list (key * str))
  : list (key * str) :=
  fold_left (fun acc kv => dict_set (fst kv) (snd kv) acc) pairs d.

(** [sorted(items, key=lambda i: i[0])] (stable). *)
Fixpoint insert_sorted (kv : key * str) (l : list (key * str))
  : list (key * str) :=
  match l with
  | [] => [kv]
  | kv' :: l' =>
      if key_leb (fst kv') (fst kv)
      then kv' :: insert_sorted kv l'
      else kv :: l
  end.

Definition sorted_items (d : list (key * str)) : list (key * str) :=
  fold_left (fun acc kv => insert_sorted kv acc) d [].

(** A loop over a list in the monad. *)
Fixpoint for_each {A S : Type} (l : list A) (acc : S)
         (body : A -> S -> M S) : M S :=
  match l with
  | [] => ret acc
  | a :: l' => acc' <- body a acc ;; for_each l' acc' body
  end.

(** [sourcePath], [sourceNumber] ([FileSequence] only). *)
Definition sourcePath : M str := s <- get ;; ret (_string s).

Definition sourceNumber : M key :=
  s <- get ;;
  match cls_kind (cls s) with
  | Abstract => raise AttributeError
  | File => p <- sourcePath ;; num p
  end.

(** [AbstractSequence._build_sequence_items_from_input] *)
Definition build_from_input_abstract (input : list str)
  : M (list (key * str)) :=
  result <- for_each input []
              (fun item result => n <- num item ;;
                                  ret (dict_set n item result)) ;;
  cur <- currentItemNumber ;;
  match cur with
  | Some c =>
      (* [if self.currentItemNumber:] is false for [None] and for [0] *)
      if (c =? 0)%Z then ret result
      else s <- get ;; ret (dict_set (Some c) (_string s) result)
  | None => ret result
  end.

(** [FileSequence._build_sequence_items_from_input] *)
Definition build_from_input_file (input : list str)
  : M (list (key * str)) :=
  result <- for_each input []
              (fun path result =>
                 part <- is_part_of_sequence path ;;
                 if part then n <- num path ;; ret (dict_set n path result)
                 else ret result) ;;
  src <- sourcePath ;;
  part <- is_part_of_sequence src ;;
  if part then n <- sourceNumber ;; ret (dict_set n src result)
  else ret result.

(** [get_path(number)]: the same text as [get_string]. *)
Definition get_path (number : Z) (p : option nat) : M str :=
  ensure_parsed ;;;
  template <- get_format_string p None ;;
  s <- get ;;
  lift (py_format (formatStringKey (cls s)) number template None).

(** [scandir.scandir(folder)] followed by [join_paths(folder, name)] and
    the [is_file] test: the files of the disk that lie directly in
    [folder]; [OSError] when the folder does not exist. *)
Definition scan_files (folder : str) : M (list str) :=
  d <- get_fs ;;
  if mem folder (folders d)
  then ret (filter (fun p => Py.str_eqb (dirname p) folder) (files d))
  else raise OSError.

(** [FileSequence._build_sequence_items_from_disk] *)
Definition build_from_disk : M (list (key * str)) :=
  s <- get ;;
  let folderPath := dirname (_string s) in
  let start := fst (seq_span (the_match s)) in
  p <- padding ;;
  let e := start + p in
  entries <- scan_files folderPath ;;
  for_each entries []
    (fun path result =>
       part <- is_part_of_sequence path ;;
       if negb part then ret result
       else if (length path <? e)%nat then ret result
       else
         let n := Py.slice path start e in
         if negb (Py.isdigit n) then ret result
         else if Py.isdigit (Py.slice path start (e + 1)) then ret result
         else
           match Py.int n with
           | None => raise ValueError
           | Some v =>
               path' <- get_path (Z.of_nat v) None ;;
               ret (dict_set (Some (Z.of_nat v)) path' result)
           end).

(** [_loadSequenceItems]: [AbstractSequence] builds only from explicit
    items; [FileSequence] falls back to the disk ([isInPerforce] is false
    without the optional P4 module). *)
Definition loadSequenceItems : M (list (key * str)) :=
  ensure_parsed ;;;
  s <- get ;;
  (if _built s then ret tt
   else
     match cls_kind (cls s), _input_items s with
     | Abstract, Some input =>
         items <- build_from_input_abstract input ;;
         modify (fun s => with_items s
                            (dict_update (_sequence_items s)
                                         (sorted_items items)) true)
     | Abstract, None => ret tt
     | File, Some input =>
         items <- build_from_input_file input ;;
         modify (fun s => with_items s (_sequence_items s) true) ;;;
         modify (fun s => with_items s
                            (dict_update (_sequence_items s)
                                         (sorted_items items)) true)
     | File, None =>
         items <- build_from_disk ;;
         modify (fun s => with_items s (_sequence_items s) true) ;;;
         modify (fun s => with_items s
                            (dict_update (_sequence_items s)
                                         (sorted_items items)) true)
     end) ;;;
  s <- get ;;
  ret (_sequence_items s).

(** [items] *)
Definition items : M (list (key * str)) :=
  s <- get ;;
  (if _built s then ret tt else (loadSequenceItems ;;; ret tt)) ;;;
  s <- get ;;
  ret (_sequence_items s).

(** [numbers]: [num] of every value, in the order of the index. *)
Definition numbers : M (list key) :=
  s <- get ;;
  (if _built s then ret tt else (loadSequenceItems ;;; ret tt)) ;;;
  its <- items ;;
  for_each its [] (fun kv acc => n <- num (snd kv) ;; ret (acc ++ [n])).

(** [paths], [firstPath], [firstNumber] ([FileSequence] only). *)
Definition paths : M (list str) :=
  s <- get ;;
  (if _built s then ret tt else (loadSequenceItems ;;; ret tt)) ;;;
  s <- get ;;
  ret (map snd (_sequence_items s)).

Definition firstPath : M str :=
  ps <- paths ;;
  match ps with
  | [] => sourcePath
  | p :: _ => ret p
  end.

Definition firstNumber : M key :=
  s <- get ;;
  match cls_kind (cls s) with
  | Abstract => raise AttributeError
  | File => p <- firstPath ;; num p
  end.

(* ================================================================== *)
(** ** Ranges and gaps *)

(** [itertools.groupby] over a list of (key, value) pairs: maximal runs
    of neighbours with equal keys. *)
Fixpoint groupby (l : list (Z * Z)) : list (list Z) :=
  match l with
  | [] => []
  | (k, x) :: l' =>
      let rest := groupby l' in
      match l', rest with
      | (k', _) :: _, g :: gs =>
          if (k =? k')%Z then (x :: g) :: gs else [x] :: g :: gs
      | _, _ => [x] :: rest
      end
  end.

(** The key [lambda x, c=count(): next(c)-x]: the counter advances once
    per element, so the i-th number [x] gets the key [i - x]. *)
Fixpoint count_keys (i : Z) (l : list Z) : list (Z * Z) :=
  match l with
  | [] => []
  | x :: l' => ((i - x)%Z, x) :: count_keys (i + 1)%Z l'
  end.

(** [as_range] *)
Definition as_range (g : list Z) : list Z :=
  match g with
  | [] => []
  | x :: _ => let y := last g x in if (x =? y)%Z then [x] else [x; y]
  end.

Definition range_of (ns : list Z) : list (list Z) :=
  map as_range (groupby (count_keys 0 ns)).

(** Arithmetic on a number that is [None] raises [TypeError]. *)
Fixpoint all_ints (ks : list key) : option (list Z) :=
  match ks with
  | [] => Some []
  | Some z :: ks' => option_map (cons z) (all_ints ks')
  | None :: _ => None
  end.

(** The [range] property, memoized in [_range]. *)
Definition range : M (list (list Z)) :=
  s <- get ;;
  match _range s with
  | Some r => ret r
  | None =>
      ensure_parsed ;;;
      ns <- numbers ;;
      zs <- lift_opt TypeError (all_ints ns) ;;
      let r := range_of zs in
      modify (fun s => with_range s (Some r)) ;;;
      ret r
  end.

(** [xrange(a, b)] as a list. *)
Definition xrange (a b : Z) : list Z :=
  map (fun i => (a + Z.of_nat i)%Z) (seq 0 (Z.to_nat (b - a))).

(** The generator of [missing]: [diff] runs over
    [imap(sub, numbers[1:], numbers)], [i] over its indices. *)
Fixpoint missing_of (ns : list Z) : list Z :=
  match ns with
  | x :: ((y :: _) as ns') =>
      let diff := (y - x)%Z in
      (if (1 <? diff)%Z
       then map (fun d => (x + d)%Z) (xrange 1 diff)
       else [])
      ++ missing_of ns'
  | _ => []
  end.

Definition missing : M (list Z) :=
  ns <- numbers ;;
  zs <- lift_opt TypeError (all_ints ns) ;;
  ret (missing_of zs).

(* ================================================================== *)
(** ** Neighbours *)

(** [nums.index(n)] *)
Fixpoint index_of (n : key) (l : list key) : option nat :=
  match l with
  | [] => None
  | k :: l' =>
      if key_eqb k n then Some 0
      else option_map S (index_of n l')
  end.

(** The shared body of [get_next_item] and [get_previous_item]; [step]
    is [+1] or [-1], [edge] tells whether the index found is the end at
    which [None] is returned. *)
Definition neighbour (step : Z) (edge : nat -> nat -> bool)
           (itemNumber : option Z) : M (option str) :=
  ensure_parsed ;;;
  n <- match itemNumber with
       | Some n => ret n
       | None =>
           c <- currentItemNumber ;;
           match c with Some c => ret c | None => raise ValueError end
       end ;;
  ns <- numbers ;;
  match index_of (Some n) ns with
  | None => raise ValueError
  | Some itemIndex =>
      if edge itemIndex (length ns) then ret None
      else
        its <- items ;;
        match nth_error its itemIndex with
        | Some (Some k, _) => r <- get_string (k + step)%Z None ;; ret (Some r)
        | Some (None, _) => raise TypeError
        | None => raise KeyError
        end
  end.

Definition get_next_item (itemNumber : option Z) : M (option str) :=
  neighbour 1 (fun i len => (i =? len - 1)%nat) itemNumber.

Definition get_previous_item (itemNumber : option Z) : M (option str) :=
  neighbour (-1) (fun i _ => (i =? 0)%nat) itemNumber.

(* ================================================================== *)
(** ** Renaming *)

(** [setSource] then [reload]: [AbstractSequence] reloads its items,
    [FileSequence] normalizes the path and only clears. *)
Definition setSource (string : str) : M unit :=
  s <- get ;;
  match cls_kind (cls s) with
  | Abstract =>
      modify (fun s => clearProperties (with_source s string (_input_items s))) ;;;
      loadSequenceItems ;;; ret tt
  | File =>
      modify (fun s => clearProperties
                         (with_source s (path_normalize string)
                                      (_input_items s)))
  end.

(** [item.path] where [item] is a key of the item index: integers and
    [None] have no such attribute. *)
Definition key_path (item : key) : M str := raise AttributeError.

(** [int(x)] of a number that may be [None]. *)
Definition int_of_key (k : key) : M Z :=
  match k with Some z => ret z | None => raise TypeError end.

(** [os.path.exists] and [os.rename] (POSIX: an existing destination is
    replaced; a missing source raises [OSError]). *)
Definition os_path_exists (p : str) : M bool :=
  d <- get_fs ;; ret (path_exists d p).

Definition os_rename (old new : str) : M unit :=
  emit (OsRename old new) ;;;
  d <- get_fs ;;
  if mem old (files d)
  then put_fs {| files := new :: filter (fun p => negb (Py.str_eqb p old)
                                                  && negb (Py.str_eqb p new))
                                        (files d);
                 folders := folders d |}
  else raise OSError.

(** [try: m  except Exception: handler]. *)
Definition try_except {A} (m : M A) (handler : M A) : M A :=
  fun w => match m w with
           | (Ok a, w') => (Ok a, w')
           | (Raise _, w') => handler w'
           end.

(** [completedOps], a dictionary from the old path to the pair of paths.
    Python does not fix the order of [values()]; insertion order is used
    here. *)
Definition ops := list (str * (str * str)).

Fixpoint ops_set (k : str) (v : str * str) (d : ops) : ops :=
  match d with
  | [] => [(k, v)]
  | (k', v') :: d' =>
      if Py.str_eqb k' k then (k, v) :: d' else (k', v') :: ops_set k v d'
  end.

(** [os.path.basename] *)
Definition basename (p : str) : str :=
  skipn (length (rev (rfind_slash (rev p)))) p.

(** The loop "Rename the files": returns [completedOps] and [errored]. *)
Fixpoint rename_loop (replace dryrun progressCB : bool) (total : nat)
         (index : nat) (renamePaths : list (str * str)) (completedOps : ops)
  : M (ops * bool) :=
  match renamePaths with
  | [] => ret (completedOps, false)
  | (oldPath, newPath) :: rest =>
      collide <-
        (if dryrun && mem newPath (map fst completedOps) then ret false
         else e <- os_path_exists newPath ;; ret (e && negb replace)) ;;
      if collide then ret (completedOps, true)
      else if dryrun then
        emit (LogCopying (basename oldPath) (basename newPath)) ;;;
        rename_loop replace dryrun progressCB total (S index) rest
                    (ops_set oldPath (oldPath, newPath) completedOps)
      else
        moved <- try_except (os_rename oldPath newPath ;;; ret true)
                            (ret false) ;;
        if negb moved then ret (completedOps, true)
        else
          (* [progressCB(index, len(renamePaths))]; the default [None]
             is not callable *)
          (if progressCB then ret tt else raise TypeError) ;;;
          rename_loop replace dryrun progressCB total (S index) rest
                      (ops_set oldPath (oldPath, newPath) completedOps)
  end.

(** "Build list of paths of new rename paths": the loop over
    [zip(self.items, self.numbers)].  Iterating the index yields its
    keys, so [item.path] is an attribute lookup on a key. *)
Definition rename_plan_step (pad : nat) (frameOffset : Z)
           (item_num : key * key) (acc : list (str * str))
  : M (list (str * str)) :=
  n <- int_of_key (snd item_num) ;;
  let newNum := (n + frameOffset)%Z in
  pre <- prefix ;;
  suf <- suffix ;;
  let newPath := pre ++ "." :: Py.zero_pad pad newNum ++ suf in
  old <- key_path (fst item_num) ;;
  ret (acc ++ [(old, newPath)]).

Definition rename_plan (pad : nat) (frameOffset : Z) : M (list (str * str)) :=
  its <- items ;;
  ns <- numbers ;;
  for_each (combine (map fst its) ns) [] (rename_plan_step pad frameOffset).

(** "If it errored Undo what we managed to rename", else "Change source
    sequence path". *)
Definition rename_finish (dryrun : bool) (pad : nat) (frameOffset : Z)
           (completedOps : ops) (errored : bool) : M unit :=
  if errored then
    for_each (map snd completedOps) tt
      (fun op _ => if dryrun then ret tt
                   else os_rename (snd op) (fst op))
  else
    s <- get ;;
    newPath <-
      match _format_type s with
      | Some nums =>
          sn <- sourceNumber ;; sn <- int_of_key sn ;;
          get_string (sn + frameOffset)%Z (Some pad)
      | Some pounds => get_pound_string (Some pad)
      | Some regex => get_regex_string (Some pad)
      | Some formatstring => get_format_string (Some pad) None
      | Some percent => get_percent_string (Some pad)
      | None => raise ValueError
      end ;;
    setSource newPath.

(** [self.numbers[0]] *)
Definition first_of (ns : list key) : M key :=
  match ns with
  | k :: _ => ret k
  | [] => raise IndexError
  end.

(** The chain of tests "Validate we have something to rename": [true]
    when [rename] returns at once. *)
Definition rename_nothing_to_do (padding_arg : option nat)
           (startFrame : option Z) : M bool :=
  match padding_arg, startFrame with
  | None, None => ret true
  | _, _ =>
  its <- items ;;
  empty <- match its with
           | [] => ret true
           | _ => ns <- numbers ;;
                  ret (match ns with [] => true | _ => false end)
           end ;;
  if empty then ret true else
  same_padding <-
    match startFrame, padding_arg with
    | None, Some p => cur <- padding ;; ret (p =? cur)%nat
    | None, None => raise TypeError
    | Some _, _ => ret false
    end ;;
  if same_padding then ret true else
  same_start <-
    match padding_arg, startFrame with
    | None, Some sf => f <- firstNumber ;; f <- int_of_key f ;;
                       ret (sf =? f)%Z
    | None, None => raise TypeError
    | Some _, _ => ret false
    end ;;
  if same_start then ret true else
  match padding_arg with
  | None => raise TypeError                     (* int(None) *)
  | Some p =>
      cur <- padding ;;
      if (p =? cur)%nat then
        match startFrame with
        | None => raise TypeError
        | Some sf => f <- firstNumber ;; f <- int_of_key f ;;
                     ret (sf =? f)%Z
        end
      else ret false
  end
  end.

(** What [rename] does once it has decided to go on: defaults, offset,
    plan, order, moves, and the end. *)
Definition rename_body (padding_arg : option nat) (startFrame : option Z)
           (replace dryrun progressCB : bool) : M unit :=
  (* Set defaults if not defined *)
  pad <- match padding_arg with Some p => ret p | None => padding end ;;
  startFrame <- match startFrame with
                | Some sf => ret (Some sf)
                | None => ns <- numbers ;; first_of ns
                end ;;
  (* Get the offset/change from current startFrame and new startFrame *)
  frameOffset <-
    match startFrame with
    | None => ret 0%Z
    | Some sf =>
        if (sf =? 0)%Z then ret 0%Z
        else ns <- numbers ;; n0 <- first_of ns ;; n0 <- int_of_key n0 ;;
             ret (sf - n0)%Z
    end ;;
  (* Build list of paths of new rename paths *)
  renamePaths <- rename_plan pad frameOffset ;;
  (* Reverse the order of renaming so we don't overwrite as we rename *)
  reverse <-
    match startFrame with
    | None => ret false
    | Some sf =>
        if (sf =? 0)%Z then ret false
        else ns <- numbers ;; n0 <- first_of ns ;;
             match n0 with
             | None => ret true        (* an integer never sorts below None *)
             | Some n0 => ret (negb (sf <? n0)%Z)
             end
    end ;;
  let renamePaths := if reverse then rev renamePaths else renamePaths in
  (* Rename the files *)
  done <- rename_loop replace dryrun progressCB (length renamePaths) 0
                      renamePaths [] ;;
  rename_finish dryrun pad frameOffset (fst done) (snd done).

(** [rename(padding, startFrame, ignoreMissing, replace, dryrun,
    progressCB)]; [progressCB] tells whether a callback was passed. *)
Definition rename (padding_arg : option nat) (startFrame : option Z)
           (ignoreMissing replace dryrun progressCB : bool) : M unit :=
  nothing <- rename_nothing_to_do padding_arg startFrame ;;
  if nothing then ret tt else
  (if negb ignoreMissing
   then r <- range ;; if (1 <? length r)%nat then raise ValueError else ret tt
   else ret tt) ;;;
  rename_body padding_arg startFrame replace dryrun progressCB.

(* ================================================================== *)
(** * Vocabulary of the properties *)

(** Strictly ascending numbers, as the keys of the item index are. *)
Fixpoint ascending (l : list Z) : Prop :=
  match l with
  | x :: ((y :: _) as l') => (x < y)%Z /\ ascending l'
  | _ => True
  end.

(** A run of consecutive integers. *)
Fixpoint consecutive (g : list Z) : Prop :=
  match g with
  | x :: ((y :: _) as g') => y = (x + 1)%Z /\ consecutive g'
  | _ => True
  end.

(** The integers an interval [[n]] or [[lo, hi]] stands for. *)
Definition expand (iv : list Z) : list Z :=
  match iv with
  | [n] => [n]
  | [lo; hi] => xrange lo (hi + 1)
  | _ => []
  end.

(** The shape of an interval: [[n]], or [[lo, hi]] with [lo < hi]. *)
Definition interval (iv : list Z) : Prop :=
  (exists n, iv = [n]) \/ (exists lo hi, iv = [lo; hi] /\ (lo < hi)%Z).

(** Neighbouring intervals are separated by at least one absent number. *)
Fixpoint separated (r : list (list Z)) : Prop :=
  match r with
  | a :: ((b :: _) as r') =>
      (exists x, hd_error b = Some x /\ (last a x + 1 < x)%Z)
      /\ separated r'
  | _ => True
  end.

(** [b] follows [a] immediately in [l]. *)
Definition adjacent (a b : Z) (l : list Z) : Prop :=
  exists l1 l2, l = l1 ++ a :: b :: l2.

(** Grouping by [i - x] cuts exactly where two neighbours are not
    consecutive. *)
Fixpoint runs (l : list Z) : list (list Z) :=
  match l with
  | [] => []
  | x :: l' =>
      let rest := runs l' in
      match l', rest with
      | y :: _, g :: gs =>
          if (y =? x + 1)%Z then (x :: g) :: gs else [x] :: g :: gs
      | _, _ => [x] :: rest
      end
  end.

Definition is_part_pure (s : Sequence) (x : str) : bool :=
  (length (_string s) =? length x)%nat
  && Py.startswith x (group_or_empty s "prefix")
  && Py.endswith x (group_or_empty s "suffix").

Definition slot_of (s : Sequence) (x : str) : str :=
  let start := fst (seq_span (the_match s)) in
  Py.slice x start (start + _padding s).

Definition num_pure (s : Sequence) (x : str) : result key :=
  if is_part_pure s x then
    if Py.isdigit (slot_of s x)
    then match Py.int (slot_of s x) with
         | Some v => Ok (Some (Z.of_nat v))
         | None => Raise ValueError
         end
    else Ok None
  else Raise ValueError.

Fixpoint nums_of (s : Sequence) (its : list (key * str)) (acc : list key)
  : result (list key) :=
  match its with
  | [] => Ok acc
  | kv :: its' =>
      match num_pure s (snd kv) with
      | Ok n => nums_of s its' (acc ++ [n])
      | Raise e => Raise e
      end
  end.

Definition numbers_pure (s : Sequence) : result (list key) :=
  nums_of s (_sequence_items s) [].

Definition firstNumber_pure (s : Sequence) : result key :=
  match cls_kind (cls s) with
  | Abstract => Raise AttributeError
  | File =>
      num_pure s match map snd (_sequence_items s) with
                 | [] => _string s
                 | p :: _ => p
                 end
  end.

(** The value of [range], and the object once [_range] is filled. *)
Definition range_pure (s : Sequence) : result (list (list Z)) :=
  match _range s with
  | Some r => Ok r
  | None =>
      match numbers_pure s with
      | Raise e => Raise e
      | Ok ns =>
          match all_ints ns with
          | Some zs => Ok (range_of zs)
          | None => Raise TypeError
          end
      end
  end.

Definition cache_range (w : world) : world :=
  match _range (obj w), range_pure (obj w) with
  | None, Ok r =>
      {| obj := with_range (obj w) (Some r); fs := fs w; events := events w |}
  | _, _ => w
  end.

Definition ready (s : Sequence) : Prop :=
  _parsed s = true /\ _built s = true.

(** A sequence object on an empty disk, created with
    [validateExists=False]. *)
Definition world_of (c : seq_class) (string : string)
           (items : option (list String.string)) : world :=
  {| obj := new_sequence c (lit string) (option_map (map lit) items) false;
     fs := {| files := []; folders := [] |};
     events := [] |}.

(** The same object once its item index has been requested. *)
Definition built_world (c : seq_class) (string : string)
           (its : option (list String.string)) : world :=
  snd (items (world_of c string its)).

(** A computation is quiet when it neither changes the disk nor leaves
    the module. *)
Definition quiet {A} (m : M A) : Prop :=
  forall w, fs (snd (m w)) = fs w /\ events (snd (m w)) = events w.

Definition rbind {A B} (r : result A) (f : A -> result B) : result B :=
  match r with Ok a => f a | Raise e => Raise e end.

Definition int_of_key_pure (k : key) : result Z :=
  match k with Some z => Ok z | None => Raise TypeError end.

Definition first_int_pure (s : Sequence) : result Z :=
  rbind (firstNumber_pure s) int_of_key_pure.

(** The value of [rename_nothing_to_do] once every accessor is pure. *)
Definition nothing_to_do_pure (s : Sequence) (p : option nat)
           (sf : option Z) : result bool :=
  match p, sf with
  | None, None => Ok true
  | _, _ =>
  rbind (match _sequence_items s with
         | [] => Ok true
         | _ => rbind (numbers_pure s)
                      (fun ns => Ok (match ns with [] => true | _ => false end))
         end)
    (fun empty =>
  if empty then Ok true else
  rbind (match sf, p with
         | None, Some q => Ok (q =? _padding s)%nat
         | None, None => Raise TypeError
         | Some _, _ => Ok false
         end)
    (fun same_padding =>
  if same_padding then Ok true else
  rbind (match p, sf with
         | None, Some n => rbind (first_int_pure s) (fun f => Ok (n =? f)%Z)
         | None, None => Raise TypeError
         | Some _, _ => Ok false
         end)
    (fun same_start =>
  if same_start then Ok true else
  match p with
  | None => Raise TypeError
  | Some q =>
      if (q =? _padding s)%nat then
        match sf with
        | None => Raise TypeError
        | Some n => rbind (first_int_pure s) (fun f => Ok (n =? f)%Z)
        end
      else Ok false
  end)))
  end.

(** The exception that ends the plan: arithmetic on a first number that
    is [None], or [item.path] on a key. *)
Definition plan_exn (k : key) : exn :=
  match k with Some _ => AttributeError | None => TypeError end.

(** The outcome of [rename] on a parsed and built sequence. *)
Definition rename_outcome (s : Sequence) (p : option nat) (sf : option Z)
           (ign : bool) : result unit :=
  match nothing_to_do_pure s p sf with
  | Raise e => Raise e
  | Ok true => Ok tt
  | Ok false =>
      let body :=
        Raise match numbers_pure s with
              | Ok (k :: _) => plan_exn k
              | _ => IndexError
              end in
      if ign then body
      else match range_pure s with
           | Raise e => Raise e
           | Ok r => if (1 <? length r)%nat then Raise ValueError else body
           end
  end.

Definition rename_world (w : world) (p : option nat) (sf : option Z)
           (ign : bool) : world :=
  match nothing_to_do_pure (obj w) p sf with
  | Ok false => if ign then w else cache_range w
  | _ => w
  end.

(** The strings an expression can consume (anchors consume nothing). *)
Fixpoint lang (r : Re.regex) (u : str) : Prop :=
  match r with
  | Re.Bol | Re.Eol => u = []
  | Re.Chr x => u = [x]
  | Re.Plus cls => u <> [] /\ forallb cls u = true
  | Re.Star cls | Re.StarLazy cls => forallb cls u = true
  | Re.Seq a b => exists u1 u2, u = u1 ++ u2 /\ lang a u1 /\ lang b u2
  | Re.Alt a b => lang a u \/ lang b u
  | Re.Group _ a => lang a u
  end.

(** The shape of the text a slot alternative consumes. *)
Definition slot_shape (ft : format_type) (u : str) : Prop :=
  match ft with
  | nums => u <> [] /\ forallb Py.is_digit u = true
  | pounds => u <> [] /\ forallb (Py.is_char "#") u = true
  | regex =>
      exists ds, ds <> [] /\ forallb Py.is_digit ds = true
                 /\ u = "\" :: "d" :: "{" :: ds ++ ["}"]
  | formatstring =>
      exists ws ds, ws <> [] /\ forallb Py.is_word ws = true
                    /\ ds <> [] /\ forallb Py.is_digit ds = true
                    /\ u = "{" :: ws ++ ":" :: ds ++ ["d"; "}"]
  | percent =>
      exists ds, ds <> [] /\ forallb Py.is_digit ds = true
                 /\ u = "%" :: ds ++ ["d"]
  end.

(** What follows the prefix: the [sequence] group, then [$]. *)
Definition plain_tail (p : nat) (r : str) (c : Re.caps) : option Re.caps :=
  Re.rmatch (Re.Seq (Re.Group "sequence" SEQUENCE_ALTERNATIVES) Re.Eol)
            p r c (fun _ _ c => Some c).

(** Whether the last character of a text is in a class. *)
Definition ends_with (cls : ascii -> bool) (u : str) : bool :=
  match rev u with
  | x :: _ => cls x
  | [] => false
  end.

(** The class of the last character of a slot. *)
Definition last_class (ft : format_type) : ascii -> bool :=
  match ft with
  | nums => Py.is_digit
  | pounds => Py.is_char "#"
  | regex | formatstring => Py.is_char "}"
  | percent => Py.is_char "d"
  end.

(** The flavors whose slots end with the same character. *)
Definition same_last (ft ft' : format_type) : bool :=
  match ft, ft' with
  | nums, nums | pounds, pounds | percent, percent => true
  | (regex | formatstring), (regex | formatstring) => true
  | _, _ => false
  end.

(** The groups set by a match of the slot [u] at offset [p]. *)
Definition slot_caps (ft : format_type) (p n : nat) (c : Re.caps) : Re.caps :=
  ("sequence"%string, (p, p + n))
    :: (format_type_name ft, (p, p + n)) :: c.

(** A new object for the string [s], without explicit items, on an empty
    disk, created with [validateExists=False]. *)
Definition fresh (c : seq_class) (s : str) : world :=
  {| obj := new_sequence c s None false;
     fs := {| files := []; folders := [] |};
     events := [] |}.

(** Classifying a string: the flavor and the padding of a new object
    made from it. *)
Definition classify (c : seq_class) (s : str)
  : result (option format_type * nat) :=
  match formatType (fresh c s) with
  | (Ok ft, w) =>
      match padding w with
      | (Ok p, _) => Ok (ft, p)
      | (Raise e, _) => Raise e
      end
  | (Raise e, _) => Raise e
  end.

(** What a successful [_parse_values] has read, and what it leaves in
    the object. *)
Record parsed_as (w w' : world) (m : Re.caps) (ft : format_type) (p : nat)
  : Prop := {
  pa_validate :
    validate_path (cls (obj w)) (validateExists (obj w)) (fs w)
                  (_string (obj w)) = Ok (m, ft);
  pa_padding :
    parse_padding_from_match (cls (obj w)) (_string (obj w)) m ft = Ok p;
  pa_parsed : _parsed (obj w') = true;
  pa_format : _format_type (obj w') = Some ft;
  pa_pad : _padding (obj w') = p;
  pa_base : _base_sequence_items (obj w')
            = (firstn (fst (seq_span m)) (_string (obj w)),
               skipn (snd (seq_span m)) (_string (obj w)));
  pa_string : _string (obj w') = _string (obj w);
  pa_cls : cls (obj w') = cls (obj w);
  pa_regex : _regex_string (obj w') = _regex_string (obj w);
  pa_match : _primary_match (obj w') = Some m
}.

(** The object made from [src] once [validate] has succeeded. *)
Record plain_source (src : str) (w : world) (pre t : str) : Prop := {
  ps_parsed : _parsed (obj w) = true;
  ps_cls : cls (obj w) = AbstractSequence;
  ps_base : _base_sequence_items (obj w) = (pre, t);
  ps_pre : forallb Py.is_dot pre = true;
  ps_eol : Re.at_eol t = true;
  ps_regex : _regex_string (obj w) = None
}.

(** Text without braces, for [str.format]. *)
Definition no_braces (x : str) : bool :=
  forallb (fun c => negb (Ascii.eqb c "{" || Ascii.eqb c "}")) x.

(** The claim of C1 for one renderer, one flavor and one padding: what
    the renderer returns classifies with that flavor and that padding. *)
Definition roundtrip (render : M str) (ft : format_type) (P : nat)
           (w : world) : Prop :=
  forall s, fst (render w) = Ok s ->
            classify AbstractSequence s = Ok (Some ft, P).

(* ================================================================== *)
(** * Further operations of the module, and their vocabulary *)

(** The text [u] an expression consumes at offset [pos] when [rest]
    follows, and the groups it adds to [c]. *)
Fixpoint consumes (r : Re.regex) (pos : nat) (u rest : str)
         (c c' : Re.caps) : Prop :=
  match r with
  | Re.Bol => u = [] /\ pos = 0 /\ c' = c
  | Re.Eol => u = [] /\ Re.at_eol rest = true /\ c' = c
  | Re.Chr x => u = [x] /\ c' = c
  | Re.Plus cls => u <> [] /\ forallb cls u = true /\ c' = c
  | Re.Star cls | Re.StarLazy cls => forallb cls u = true /\ c' = c
  | Re.Seq a b =>
      exists u1 u2 c1,
        u = u1 ++ u2 /\ consumes a pos u1 (u2 ++ rest) c c1
        /\ consumes b (pos + length u1) u2 rest c1 c'
  | Re.Alt a b => consumes a pos u rest c c' \/ consumes b pos u rest c c'
  | Re.Group name a =>
      exists c1, consumes a pos u rest c c1
                 /\ c' = (name, (pos, pos + length u)) :: c1
  end.

(** What separates the prefix from the slot: the [\.] of the path
    pattern. *)
Definition separator (c : seq_class) : str :=
  match cls_kind c with File => ["."] | Abstract => [] end.

(** The two classes of the module. *)
Definition known_class (c : seq_class) : Prop :=
  c = AbstractSequence \/ c = FileSequence.

(** What a match of the class pattern on [s] has read: the prefix, the
    slot, the suffix and what [$] left (nothing, or a final newline),
    with the spans of the groups. *)
Record match_split (c : seq_class) (s : str) (m : Re.caps)
       (pre u sf t : str) (ft : format_type) : Prop := {
  ms_string : s = pre ++ separator c ++ u ++ sf ++ t;
  ms_pre : forallb Py.is_dot pre = true;
  ms_shape : slot_shape ft u;
  ms_eol : Re.at_eol t = true;
  ms_plain : cls_kind c = Abstract -> sf = [];
  ms_prefix : Re.span "prefix" m = Some (0, length pre);
  ms_sequence :
    Re.span "sequence" m
    = Some (length pre + length (separator c),
            length pre + length (separator c) + length u);
  ms_flavor : forall k,
    Re.span (format_type_name k) m
    = if format_type_eqb ft k
      then Some (length pre + length (separator c),
                 length pre + length (separator c) + length u)
      else None;
  ms_suffix :
    Re.span "suffix" m
    = match cls_kind c with
      | File => Some (length pre + length (separator c) + length u,
                      length pre + length (separator c) + length u
                      + length sf)
      | Abstract => None
      end;
  ms_ext :
    (sf = [] /\ Re.span "ext" m = None)
    \/ (exists x e,
          sf = x ++ "." :: e /\ e <> []
          /\ forallb (fun a => negb (Py.is_space a)) e = true
          /\ forallb Py.is_dot x = true
          /\ Re.span "ext" m
             = Some (length pre + length (separator c) + length u
                     + length x,
                     length pre + length (separator c) + length u
                     + length sf))
}.

(** The object after a successful [_parse_values]: what the match has
    read, and the attributes set from it. *)
Record source_split (s : Sequence) (pre u sf t : str) (ft : format_type)
  : Prop := {
  ss_match : match_split (cls s) (_string s) (the_match s) pre u sf t ft;
  ss_parsed : _parsed s = true;
  ss_format : _format_type s = Some ft;
  ss_item : _current_item s = Some u;
  ss_number :
    ft = nums ->
    exists n, Py.int u = Some n
              /\ _current_item_number s = Some (Z.of_nat n);
  ss_padding :
    parse_padding_from_match (cls s) (_string s) (the_match s) ft
    = Ok (_padding s);
  ss_base :
    _base_sequence_items s = (pre ++ separator (cls s), sf ++ t);
  ss_key : ft = formatstring -> format_key_of u = lit "item"
}.

(** The attributes [_parse_values] does not write. *)
Definition same_source (w w' : world) : Prop :=
  fs w' = fs w /\ events w' = events w
  /\ cls (obj w') = cls (obj w)
  /\ _string (obj w') = _string (obj w)
  /\ _input_items (obj w') = _input_items (obj w)
  /\ validateExists (obj w') = validateExists (obj w)
  /\ _sequence_items (obj w') = _sequence_items (obj w)
  /\ _built (obj w') = _built (obj w)
  /\ _regex_string (obj w') = _regex_string (obj w).

(** An object as [__init__] and [reload] leave it. *)
Definition cleared (s : Sequence) : Prop := clearProperties s = s.

(** ** The mapping interface *)

(** [d[k]] on a dictionary kept as an association list; [None] stands
    for [KeyError]. *)
Fixpoint dict_get (k : key) (d : list (key * str)) : option str :=
  match d with
  | [] => None
  | (k', v) :: d' => if key_eqb k' k then Some v else dict_get k d'
  end.

(** [del d[k]] for a key that is present. *)
Fixpoint dict_del (k : key) (d : list (key * str)) : list (key * str) :=
  match d with
  | [] => []
  | (k', v) :: d' => if key_eqb k' k then d' else (k', v) :: dict_del k d'
  end.

(** [k in d] *)
Definition dict_mem (k : key) (d : list (key * str)) : bool :=
  existsb (fun kv => key_eqb (fst kv) k) d.

(** [firstItemNumber], [midItemNumber], [lastItemNumber]: [None] on an
    empty index. *)
Definition firstItemNumber : M key :=
  its <- items ;;
  match its with
  | [] => ret None
  | _ => its <- items ;; lift_opt IndexError (nth_error (map fst its) 0)
  end.

Definition midItemNumber : M key :=
  its <- items ;;
  match its with
  | [] => ret None
  | _ =>
      its <- items ;; its' <- items ;;
      lift_opt IndexError
               (nth_error (map fst its) (Nat.div (length (map fst its')) 2))
  end.

Definition lastItemNumber : M key :=
  its <- items ;;
  match its with
  | [] => ret None
  | _ => its <- items ;;
         lift_opt IndexError
                  (nth_error (map fst its) (length its - 1))
  end.

(** [__getitem__] for an index that is not a slice. *)
Definition getitem (index : key) : M str :=
  its <- items ;; lift_opt KeyError (dict_get index its).

(** [firstItem], [midItem], [lastItem] *)
Definition firstItem : M (option str) :=
  its <- items ;;
  match its with
  | [] => ret None
  | _ => its <- items ;;
         k <- lift_opt IndexError (nth_error (map fst its) 0) ;;
         v <- getitem k ;; ret (Some v)
  end.

Definition lastItem : M (option str) :=
  its <- items ;;
  match its with
  | [] => ret None
  | _ => its <- items ;;
         k <- lift_opt IndexError (nth_error (map fst its) (length its - 1)) ;;
         v <- getitem k ;; ret (Some v)
  end.

(** [range(a, b, step)] for a step that is not zero. *)
Definition py_range (a b step : Z) : list Z :=
  let n := if (0 <? step)%Z
           then ((b - a + step - 1) / step)%Z
           else ((a - b - step - 1) / (- step))%Z in
  map (fun i => (a + Z.of_nat i * step)%Z) (seq 0 (Z.to_nat n)).

(** [_parse_slice_indices]: a component of the slice that is not an
    integer ([None] here) is replaced by its default. *)
Definition parse_slice_indices (start stop step : option Z)
  : M (key * key * Z) :=
  let step := match step with Some s => s | None => 1%Z end in
  start <- match start with
           | Some a => ret (Some a)
           | None => firstItemNumber
           end ;;
  stop <- match stop with
          | Some b => ret (Some b)
          | None => lastItemNumber
          end ;;
  ret (start, stop, step).

(** The numbers a slice walks through: [range(start, end + 1, step)];
    arithmetic on [None] and a [None] bound raise [TypeError], a zero
    step raises [ValueError]. *)
Definition slice_range (start stop : key) (step : Z) : M (list Z) :=
  match stop with
  | None => raise TypeError
  | Some e =>
      match start with
      | None => raise TypeError
      | Some a =>
          if (step =? 0)%Z then raise ValueError
          else ret (py_range a (e + 1) step)
      end
  end.

(** [__getitem__] for a slice. *)
Definition getitem_slice (start stop step : option Z) : M (list str) :=
  idx <- parse_slice_indices start stop step ;;
  let '(start, stop, step) := idx in
  xs <- slice_range start stop step ;;
  for_each xs []
    (fun x result =>
       its <- items ;;
       if dict_mem (Some x) its
       then its <- items ;;
            v <- lift_opt KeyError (dict_get (Some x) its) ;;
            ret (result ++ [v])
       else ret result).

(** [__len__] and [__iter__] *)
Definition len : M nat := its <- items ;; ret (length its).

Definition iter : M (list key) :=
  its <- items ;; ret (map fst (sorted_items its)).

(** [BaseSequence]: the patterns and the key of [AbstractSequence],
    with [__setitem__] and [__delitem__]. *)
Definition BaseSequence : seq_class := AbstractSequence.

(** [collections.OrderedDict(pairs)] *)
Definition ordered_dict (pairs : list (key * str)) : list (key * str) :=
  dict_update [] pairs.

(** [BaseSequence.__setitem__] *)
Definition setitem (index : key) (value : str) : M unit :=
  part <- is_part_of_sequence value ;;
  if negb part then raise ValueError
  else
    n <- num value ;;
    if negb (key_eqb n index) then raise ValueError
    else
      its <- items ;;
      let updated := dict_mem index its in
      (if updated
       then modify (fun s => with_items s
                               (dict_set index value (_sequence_items s))
                               (_built s))
       else ret tt) ;;;
      its <- items ;;
      let its := if updated then its else its ++ [(index, value)] in
      modify (fun s => with_items s (ordered_dict (sorted_items its))
                                  (_built s)).

(** [BaseSequence.__delitem__] for an index that is not a slice, and for
    a slice. *)
Definition delitem (index : key) : M unit :=
  its <- items ;;
  if dict_mem index its
  then items ;;;
       modify (fun s => with_items s (dict_del index (_sequence_items s))
                                   (_built s))
  else ret tt.

Definition delitem_slice (start stop step : option Z) : M unit :=
  idx <- parse_slice_indices start stop step ;;
  let '(start, stop, step) := idx in
  xs <- slice_range start stop step ;;
  for_each xs tt (fun x _ => delitem (Some x)).

(** A computation is steady when it leaves a parsed object, the disk
    and the log as they are. *)
Definition steady {A} (m : M A) : Prop :=
  forall w, _parsed (obj w) = true -> snd (m w) = w.

(** The world once the item index has been stored. *)
Definition store_items (w : world) (its : list (key * str)) : world :=
  {| obj := with_items (obj w) its true; fs := fs w; events := events w |}.

(** The strict order of the keys: [None] first, then the integers. *)
Definition key_ltb (a b : key) : bool := key_leb a b && negb (key_eqb a b).

(** Keys in strictly ascending order, as [sorted] leaves the keys of a
    dictionary. *)
Fixpoint key_ascending (l : list key) : Prop :=
  match l with
  | x :: ((y :: _) as l') => key_ltb x y = true /\ key_ascending l'
  | _ => True
  end.

Definition keys (d : list (key * str)) : list key := map fst d.

(** Every entry of an index is filed under the number [num] reads in
    its value. *)
Definition filed (s : Sequence) (d : list (key * str)) : Prop :=
  forall kv, In kv d -> num_pure s (snd kv) = Ok (fst kv).

(** An object whose [items] is its stored index: parsed, and either
    built or a plain sequence without explicit items (which is never
    built). *)
Definition settled (s : Sequence) : Prop :=
  _parsed s = true
  /\ (_built s = true
      \/ (cls_kind (cls s) = Abstract /\ _input_items s = None)).

(** The key is an integer between [a] and [b], both included. *)
Definition between (a b : Z) (k : key) : bool :=
  match k with
  | Some z => (a <=? z)%Z && (z <=? b)%Z
  | None => false
  end.

(** The world with another item index. *)
Definition put_index (w : world) (its : list (key * str)) : world :=
  {| obj := with_items (obj w) its (_built (obj w));
     fs := fs w; events := events w |}.

(** A new object of the same class, with the same explicit items, for
    another source string. *)
Definition renewed (w : world) (string : str) : world :=
  {| obj := new_sequence (cls (obj w)) string (_input_items (obj w))
                         (validateExists (obj w));
     fs := fs w; events := events w |}.

(** No doubled slash. *)
Fixpoint single_slashes (s : str) : bool :=
  match s with
  | c1 :: ((c2 :: _) as s') =>
      negb (Ascii.eqb c1 "/" && Ascii.eqb c2 "/") && single_slashes s'
  | _ => true
  end.

(** The key is one of the integers [xs]. *)
Definition visited (xs : list Z) (k : key) : bool :=
  match k with
  | Some z => existsb (Z.eqb z) xs
  | None => false
  end.

(** The key is an integer of [a .. b] at a multiple of [step] from [a]. *)
Definition on_stride (a b step : Z) (k : key) : bool :=
  match k with
  | Some z => (a <=? z)%Z && (z <=? b)%Z && ((z - a) mod step =? 0)%Z
  | None => false
  end.

(** ** Flattening a list of paths *)

(** [FileSequence(path, validateExists=check_exists,
    normalizeInput=normalize)]: the attributes are set and cleared, then
    [validate()] runs on the new object. *)
Definition FileSequence_init (path : str) (check_exists normalize : bool)
           (d : disk) (ev : list event) : result unit * world :=
  validate
    {| obj := clearProperties
                {| cls := FileSequence;
                   _string := if normalize then path_normalize path else path;
                   _input_items := None;
                   validateExists := check_exists;
                   _primary_match := None; _format_type := None;
                   _current_item := None; _current_item_number := None;
                   _padding := 0; _base_sequence_items := ([], []);
                   _sequence_items := []; _regex_string := None;
                   _parsed := false; _built := false; _range := None |};
       fs := d; events := ev |}.

(** A dictionary with string keys, kept as an association list. *)
Fixpoint str_dict_get {V} (k : str) (r : list (str * V)) : option V :=
  match r with
  | [] => None
  | (k', v) :: r' => if Py.str_eqb k' k then Some v else str_dict_get k r'
  end.

Fixpoint str_dict_set {V} (k : str) (v : V) (r : list (str * V))
  : list (str * V) :=
  match r with
  | [] => [(k, v)]
  | (k', v') :: r' =>
      if Py.str_eqb k' k then (k', v) :: r'
      else (k', v') :: str_dict_set k v r'
  end.

Definition str_dict_mem {V} (k : str) (r : list (str * V)) : bool :=
  existsb (fun kv => Py.str_eqb (fst kv) k) r.

(** [list.remove(x)]: the first element equal to [x] goes; [None] stands
    for the [ValueError] of a list without it. *)
Fixpoint list_remove (x : str) (l : list str) : option (list str) :=
  match l with
  | [] => None
  | y :: l' =>
      if Py.str_eqb y x then Some l'
      else option_map (cons y) (list_remove x l')
  end.

(** The loop [for path in paths: if seq.is_part_of_sequence(path):
    paths.remove(path)].  The iterator of a list is an index into it:
    it stops when the index reaches the end of the list as the body has
    left it, so the element that slides into the place of a removed one
    is not visited.  [None] is returned when [fuel] runs out. *)
Fixpoint drop_parts (fuel idx : nat) (paths : list str)
  : M (option (list str)) :=
  match fuel with
  | O => ret None
  | S fuel =>
      match nth_error paths idx with
      | None => ret (Some paths)
      | Some path =>
          part <- is_part_of_sequence path ;;
          if part
          then paths <- lift_opt ValueError (list_remove path paths) ;;
               drop_parts fuel (S idx) paths
          else drop_parts fuel (S idx) paths
      end
  end.

(** The loop [while paths:] of [flatten_sequences]; [paths.pop()] takes
    the last path.  The dictionary holds the sequence object itself, so
    the entry is the object as the inner loop leaves it.  [None] is
    returned when [fuel] runs out. *)
Fixpoint flatten_loop (fuel : nat) (check_exists normalize : bool)
         (paths : list str) (results : list (str * option Sequence))
         (d : disk) (ev : list event)
  : option (result (list (str * option Sequence)) * disk * list event) :=
  match fuel with
  | O => None
  | S fuel =>
      match rev paths with
      | [] => Some (Ok results, d, ev)
      | path :: rest =>
          let paths := rev rest in
          match FileSequence_init path check_exists normalize d ev with
          | (Raise _, w) =>
              flatten_loop fuel check_exists normalize paths
                (str_dict_set path None results) (fs w) (events w)
          | (Ok _, w) =>
              match get_pound_string None w with
              | (Raise e, w) => Some (Raise e, fs w, events w)
              | (Ok new_path, w) =>
                  match drop_parts (S (length paths)) 0 paths w with
                  | (Raise e, w) => Some (Raise e, fs w, events w)
                  | (Ok None, _) => None
                  | (Ok (Some paths), w) =>
                      flatten_loop fuel check_exists normalize paths
                        (if str_dict_mem new_path results then results
                         else str_dict_set new_path (Some (obj w)) results)
                        (fs w) (events w)
                  end
              end
          end
      end
  end.

(** [flatten_sequences(paths, validateExists, normalizeInput)] *)
Definition flatten_sequences (paths : list str)
           (check_exists normalize : bool) (d : disk) (ev : list event)
  : option (result (list (str * option Sequence)) * disk * list event) :=
  flatten_loop (S (length paths)) check_exists normalize paths [] d ev.

(** The path makes a sequence object, or fails to. *)
Definition makes (check_exists normalize : bool) (d : disk)
           (ev : list event) (p : str) (w : world) : Prop :=
  FileSequence_init p check_exists normalize d ev = (Ok tt, w).

Definition fails (check_exists normalize : bool) (d : disk)
           (ev : list event) (p : str) : Prop :=
  exists e w, FileSequence_init p check_exists normalize d ev = (Raise e, w).

(** What a run of the outer loop over [paths] adds to the dictionary. *)
Record flattened (check_exists normalize : bool) (d : disk)
       (ev : list event) (paths : list str)
       (results results' : list (str * option Sequence)) : Prop := {
  fl_old : forall k, str_dict_mem k results = true ->
                     str_dict_mem k results' = true;
  fl_none : forall k, str_dict_get k results = Some None ->
                      str_dict_get k results' = Some None;
  fl_entry : forall k val,
      str_dict_get k results' = Some val ->
      str_dict_get k results = Some val
      \/ (val = None /\ In k paths /\ fails check_exists normalize d ev k)
      \/ (exists p w, In p paths /\ makes check_exists normalize d ev p w
                      /\ val = Some (obj w)
                      /\ get_pound_string None w = (Ok k, w));
  fl_path : forall p,
      In p paths ->
      (fails check_exists normalize d ev p
       /\ str_dict_get p results' = Some None)
      \/ (exists q w k, In q paths /\ makes check_exists normalize d ev q w
                        /\ get_pound_string None w = (Ok k, w)
                        /\ str_dict_mem k results' = true
                        /\ (p = q \/ is_part_of_sequence p w = (Ok true, w)))
}.

(** ** Making a sequence from the paths of its items *)

(** [_parse_values(match, groups, formatType)]: a match that is given is
    used as it is, with the groups of the string it was made on, in
    place of a match on [self.string]; the text before and after the
    current item is cut out of [self.string] in both cases. *)
Definition parse_values_given (given : option (str * Re.caps * format_type))
  : M unit :=
  modify (fun s => with_range s None) ;;;
  s <- get ;;
  d <- get_fs ;;
  g <- match given with
       | Some g => ret g
       | None =>
           mf <- lift (validate_path (cls s) (validateExists s) d
                                     (_string s)) ;;
           ret (_string s, fst mf, snd mf)
       end ;;
  let '(path, m, ft) := g in
  let current := Re.group path "sequence" m in
  modify (fun s => with_parse s (Some m) (Some ft) current) ;;;
  match ft with
  | nums =>
      n <- lift_opt ValueError
             (Py.int (match current with Some g => g | None => [] end)) ;;
      modify (fun s => with_current_item s current (Some (Z.of_nat n)))
  | _ => ret tt
  end ;;;
  p <- lift (parse_padding_from_match (cls s) path m ft) ;;
  modify (fun s => with_padding s p) ;;;
  let '(a, b) := seq_span m in
  modify (fun s =>
            with_base s (firstn a (_string s), skipn b (_string s)) true).

(** [FileSequence.from_item_paths(paths, skipValidate, validateExists)]:
    the object it returns, or the exception; [paths[0]] of an empty list
    raises [IndexError]. *)
Definition from_item_paths (paths : list str)
           (skipValidate check_exists : bool) (d : disk) (ev : list event)
  : result Sequence * disk * list event :=
  let paths := map path_normalize paths in
  match paths with
  | [] => (Raise IndexError, d, ev)
  | first :: _ =>
      match (if skipValidate then Ok None
             else match validate_path FileSequence check_exists d first with
                  | Ok (m, ft) => Ok (Some (first, m, ft))
                  | Raise e => Raise e
                  end) with
      | Raise e => (Raise e, d, ev)
      | Ok given =>
          let w := {| obj := new_sequence FileSequence first (Some paths)
                                          check_exists;
                      fs := d; events := ev |} in
          match parse_values_given given w with
          | (Ok _, w') => (Ok (obj w'), fs w', events w')
          | (Raise e, w') => (Raise e, fs w', events w')
          end
      end
  end.

(** [FileSequence(path, items=items, validateExists=check_exists)]: the
    object after its [validate()], or the exception. *)
Definition FileSequence_new (path : str) (items : option (list str))
           (check_exists : bool) (d : disk) (ev : list event)
  : result Sequence * disk * list event :=
  match validate {| obj := new_sequence FileSequence path items check_exists;
                    fs := d; events := ev |} with
  | (Ok _, w') => (Ok (obj w'), fs w', events w')
  | (Raise e, w') => (Raise e, fs w', events w')
  end.

(** ** Image sequences *)

(** [IMAGE_EXTENSIONS] *)
Definition IMAGE_EXTENSIONS : list str :=
  map lit ["tiff"; "tif"; "png"; "tga"; "jpg"; "jpeg";
           "raw"; "bmp"; "gif"; "dpx"; "exr"; "psd"]%string.

(** The class attributes of [ImageSequence]: the pattern of
    [FileSequence] and its own format key.  [validate_path ImageSequence]
    is the inherited [FileSequence.validate_path] bound to this class,
    as [super(ImageSequence, cls).validate_path] calls it; the method of
    the class itself is [ImageSequence_validate_path] below. *)
Definition ImageSequence : seq_class :=
  {| cls_kind := File; cls_regex := DEFAULT_FILE_SEQUENCE_PATTERN;
     formatStringKey := lit "frame" |}.

(** [s.rfind(c)] for a character [c]; [None] stands for [-1]. *)
Fixpoint rfind (c : ascii) (s : str) : option nat :=
  match s with
  | [] => None
  | x :: s' =>
      match rfind c s' with
      | Some i => Some (S i)
      | None => if Ascii.eqb x c then Some 0 else None
      end
  end.

(** [os.path.splitext(p)[-1]] (posixpath): the text from the last dot
    on, when that dot comes after the last slash and after a character
    of the file name that is not a dot; the empty string otherwise. *)
Definition splitext_ext (p : str) : str :=
  match rfind "." p with
  | None => []
  | Some dotIndex =>
      let filenameIndex :=
        match rfind "/" p with Some sepIndex => S sepIndex | None => 0 end in
      if (filenameIndex <=? dotIndex)%nat
      then if forallb (Ascii.eqb ".")
                      (firstn (dotIndex - filenameIndex)
                              (skipn filenameIndex p))
           then []
           else skipn dotIndex p
      else []
  end.

(** [ImageSequence.validate_path(path, validateExists)] *)
Definition ImageSequence_validate_path (check_exists : bool) (d : disk)
           (path : str) : result (Re.caps * format_type) :=
  match validate_path ImageSequence check_exists d path with
  | Raise e => Raise e
  | Ok r =>
      let ext := splitext_ext path in
      let ext := Py.lstrip ["."] ext in
      if negb (mem ext IMAGE_EXTENSIONS) then Raise ValueError
      else Ok r
  end.

(** The character does not occur in the string. *)
Definition without (c : ascii) (s : str) : bool :=
  forallb (fun x => negb (Ascii.eqb x c)) s.

(** The number the scan of the folder reads in a directory entry: the
    digits at the place of the current item of the source, when the
    entry passes [is_part_of_sequence], is long enough, and has no
    further digit behind them. *)
Definition frame_number (s : Sequence) (path : str) : option nat :=
  let start := fst (seq_span (the_match s)) in
  let e := start + _padding s in
  if negb (is_part_pure s path) then None
  else if (length path <? e)%nat then None
  else if negb (Py.isdigit (Py.slice path start e)) then None
  else if Py.isdigit (Py.slice path start (e + 1)) then None
  else Py.int (Py.slice path start e).

(* ================================================================== *)
(** * Properties *)

(** ** Ranges and gaps *)

Section RangeGap.

Lemma groupby_count_keys i l : groupby (count_keys i l) = runs l.
Proof.
  revert i; induction l as [|x l IH]; intro i; [reflexivity|].
  cbn [count_keys groupby runs].
  rewrite IH.
  destruct l as [|y l']; [reflexivity|].
  cbn [count_keys].
  destruct (runs (y :: l')) as [|g gs]; [reflexivity|].
  replace (i - x =? i + 1 - y)%Z with (y =? x + 1)%Z; [reflexivity|].
  destruct (Z.eqb_spec y (x + 1)), (Z.eqb_spec (i - x) (i + 1 - y)); lia.
Qed.

Lemma runs_nonempty x l : exists g gs, runs (x :: l) = (x :: g) :: gs.
Proof.
  cbn [runs]. destruct l as [|y l'].
  - exists [], []. reflexivity.
  - destruct (runs (y :: l')) as [|g gs].
    + exists [], []. reflexivity.
    + destruct (y =? x + 1)%Z; eauto.
Qed.

Lemma runs_concat l : concat (runs l) = l.
Proof.
  induction l as [|x l IH]; [reflexivity|].
  cbn [runs]. destruct l as [|y l']; [reflexivity|].
  destruct (runs (y :: l')) as [|g gs] eqn:E.
  - destruct (runs_nonempty y l') as (g & gs & E'); congruence.
  - destruct (y =? x + 1)%Z; cbn [concat app] in *; now rewrite IH.
Qed.

Lemma runs_consecutive l : Forall consecutive (runs l).
Proof.
  induction l as [|x l IH]; [constructor|].
  cbn [runs]. destruct l as [|y l'].
  - repeat constructor.
  - destruct (runs_nonempty y l') as (g & gs & E).
    rewrite E in *. inversion IH; subst.
    destruct (Z.eqb_spec y (x + 1)).
    + constructor; [|assumption]. cbn [consecutive]. auto.
    + repeat constructor; assumption.
Qed.

Lemma last_cons_ge (g : list Z) x d :
  consecutive (x :: g) -> last (x :: g) d = (x + Z.of_nat (length g))%Z.
Proof.
  revert x; induction g as [|y g IH]; intros x H.
  - cbn [last length Z.of_nat]. lia.
  - destruct H as [-> H]. change (last (x :: (x + 1)%Z :: g) d)
      with (last ((x + 1)%Z :: g) d).
    rewrite IH by assumption. cbn [length]. lia.
Qed.

Lemma consecutive_xrange x g :
  consecutive (x :: g) ->
  x :: g = xrange x (x + Z.of_nat (length g) + 1).
Proof.
  unfold xrange. revert x; induction g as [|y g IH]; intros x H.
  - replace (x + Z.of_nat (length (@nil Z)) + 1 - x)%Z with 1%Z
      by (cbn [length Z.of_nat]; lia).
    change (Z.to_nat 1) with 1%nat. cbn [seq map Z.of_nat].
    f_equal. lia.
  - destruct H as [-> H]. specialize (IH _ H).
    replace (Z.to_nat (x + Z.of_nat (length ((x + 1)%Z :: g)) + 1 - x))
      with (S (Z.to_nat (x + 1 + Z.of_nat (length g) + 1 - (x + 1))))
      by (cbn [length]; lia).
    cbn [seq map]. f_equal; [lia|].
    rewrite IH at 1. rewrite <- seq_shift, map_map.
    apply map_ext. intros; lia.
Qed.

Lemma expand_as_range g : consecutive g -> expand (as_range g) = g.
Proof.
  destruct g as [|x g]; [reflexivity|]. intro H.
  unfold as_range. rewrite (last_cons_ge g x x H).
  destruct (Z.eqb_spec x (x + Z.of_nat (length g))) as [E|E].
  - destruct g; [reflexivity|cbn [length] in E; lia].
  - cbn [expand]. symmetry. now apply consecutive_xrange.
Qed.

Lemma interval_as_range x g : consecutive (x :: g) -> interval (as_range (x :: g)).
Proof.
  intro H. unfold as_range. rewrite (last_cons_ge g x x H).
  destruct (Z.eqb_spec x (x + Z.of_nat (length g))) as [E|E].
  - left. eauto.
  - right. exists x, (x + Z.of_nat (length g))%Z. split; [reflexivity|lia].
Qed.

Lemma runs_separated l : ascending l -> separated (runs l).
Proof.
  induction l as [|x l IH]; [constructor|].
  intro H. cbn [runs]. destruct l as [|y l']; [exact I|].
  destruct H as [Hxy H]. specialize (IH H).
  destruct (runs_nonempty y l') as (g & gs & E). rewrite E in *.
  destruct (Z.eqb_spec y (x + 1)) as [->|N].
  - destruct gs as [|b gs']; [exact I|].
    destruct IH as [(x0 & Hb & Hl) IH]. split; [|exact IH].
    exists x0. split; [exact Hb|exact Hl].
  - split; [|exact IH]. exists y. split; [reflexivity|].
    cbn [last]. lia.
Qed.

Lemma last_default (y : Z) g d d' : last (y :: g) d = last (y :: g) d'.
Proof.
  revert y; induction g as [|z g IH]; intro y; [reflexivity|].
  change (last (z :: g) d = last (z :: g) d'). apply IH.
Qed.

Lemma last_as_range x g d : last (as_range (x :: g)) d = last (x :: g) d.
Proof.
  unfold as_range. rewrite (last_default x g d x).
  destruct (Z.eqb_spec x (last (x :: g) x)) as [E|E]; reflexivity || exact E.
Qed.

Lemma hd_as_range g : hd_error (as_range g) = hd_error g.
Proof.
  destruct g as [|x g]; [reflexivity|]. unfold as_range.
  now destruct (x =? last (x :: g) x)%Z.
Qed.

Lemma separated_as_range r :
  Forall (fun g => g <> []) r -> separated r -> separated (map as_range r).
Proof.
  induction r as [|a r IH]; [constructor|].
  intros Hne Hs. inversion Hne as [|? ? Ha Hr]; subst.
  destruct r as [|b r']; [exact I|].
  destruct Hs as [(x0 & Hb & Hl) Hs].
  cbn [map separated]. split; [|apply IH; assumption].
  exists x0. rewrite hd_as_range. split; [exact Hb|].
  destruct a as [|x a]; [contradiction|]. now rewrite last_as_range.
Qed.

Lemma runs_groups_nonempty l : Forall (fun g => g <> []) (runs l).
Proof.
  induction l as [|x l IH]; [constructor|].
  destruct (runs_nonempty x l) as (g & gs & E).
  assert (H : concat (runs (x :: l)) = x :: l) by apply runs_concat.
  cbn [runs] in *. destruct l as [|y l']; [repeat constructor; discriminate|].
  destruct (runs (y :: l')) as [|g' gs'].
  - repeat constructor; discriminate.
  - inversion IH; subst.
    destruct (y =? x + 1)%Z; repeat constructor; try discriminate; assumption.
Qed.

Lemma in_xrange z a b : In z (xrange a b) <-> (a <= z < b)%Z.
Proof.
  unfold xrange. rewrite in_map_iff. split.
  - intros (i & <- & Hi). apply in_seq in Hi. lia.
  - intros H. exists (Z.to_nat (z - a)). split; [lia|].
    apply in_seq. lia.
Qed.

Lemma in_missing_of z ns :
  In z (missing_of ns) <->
  exists a b, adjacent a b ns /\ (1 < b - a)%Z /\ (a < z < b)%Z.
Proof.
  induction ns as [|x ns IH]; cbn [missing_of].
  - split; [contradiction|].
    intros (a & b & (l1 & l2 & E) & _). destruct l1; discriminate.
  - destruct ns as [|y ns'].
    + split; [contradiction|].
      intros (a & b & (l1 & l2 & E) & _).
      destruct l1 as [|? [|]]; discriminate.
    + rewrite in_app_iff, IH. split.
      * intros [H|(a & b & (l1 & l2 & E) & H)].
        -- exists x, y. split; [exists [], ns'; reflexivity|].
           destruct (Z.ltb_spec 1 (y - x)); [|contradiction].
           split; [assumption|].
           apply in_map_iff in H. destruct H as (d & <- & Hd).
           apply in_xrange in Hd. lia.
        -- exists a, b. split; [|exact H].
           exists (x :: l1), l2. now rewrite E.
      * intros (a & b & (l1 & l2 & E) & Hd & Hz).
        destruct l1 as [|x' l1].
        -- injection E as -> -> _. left.
           destruct (Z.ltb_spec 1 (b - a)); [|lia].
           apply in_map_iff. exists (z - a)%Z. split; [lia|].
           apply in_xrange. lia.
        -- right. injection E as _ E. exists a, b.
           split; [exists l1, l2; exact E|]. split; assumption.
Qed.

Lemma ascending_above x l : ascending (x :: l) -> forall a, In a l -> (x < a)%Z.
Proof.
  revert x; induction l as [|y l IH]; intros x H a Ha; [contradiction|].
  destruct H as [Hxy H]. destruct Ha as [<-|Ha]; [assumption|].
  specialize (IH y H a Ha). lia.
Qed.

Lemma ascending_tail x l : ascending (x :: l) -> ascending l.
Proof. destruct l; [trivial|]. now intros [_ H]. Qed.

Lemma ascending_app l1 l2 :
  ascending l1 -> ascending l2 ->
  (forall a b, In a l1 -> In b l2 -> (a < b)%Z) ->
  ascending (l1 ++ l2).
Proof.
  induction l1 as [|x l1 IH]; intros H1 H2 H; [assumption|].
  destruct l1 as [|y l1'].
  - destruct l2 as [|b l2']; [exact I|].
    split; [apply H; now left|assumption].
  - destruct H1 as [Hxy H1]. split; [assumption|].
    apply IH; [assumption|assumption|].
    intros a b Ha Hb. apply H; [now right|assumption].
Qed.

Lemma ascending_map_seq (a : Z) s n :
  ascending (map (fun i => (a + Z.of_nat i)%Z) (seq s n)).
Proof.
  revert s; induction n as [|n IH]; intro s; [exact I|].
  cbn [seq map]. specialize (IH (S s)).
  destruct n as [|n']; [exact I|].
  cbn [seq map] in *. split; [lia|exact IH].
Qed.

Lemma missing_of_cons x y l :
  missing_of (x :: y :: l) =
  (if (1 <? y - x)%Z then map (fun d => (x + d)%Z) (xrange 1 (y - x))
   else []) ++ missing_of (y :: l).
Proof. reflexivity. Qed.

Lemma ascending_missing_of ns : ascending ns -> ascending (missing_of ns).
Proof.
  induction ns as [|x ns IH]; intro H; [exact I|].
  destruct ns as [|y ns']; [exact I|].
  rewrite missing_of_cons. apply ascending_app.
  - destruct (1 <? y - x)%Z; [|exact I].
    unfold xrange. rewrite map_map.
    rewrite (map_ext _ (fun i => (x + 1 + Z.of_nat i)%Z)) by (intros; lia).
    apply ascending_map_seq.
  - apply IH. now apply ascending_tail in H.
  - intros a b Ha Hb.
    assert (a < y)%Z.
    { destruct (1 <? y - x)%Z; [|contradiction].
      apply in_map_iff in Ha. destruct Ha as (d & <- & Hd).
      apply in_xrange in Hd. lia. }
    apply in_missing_of in Hb.
    destruct Hb as (a' & b' & (l1 & l2 & E) & _ & Hb).
    apply ascending_tail in H.
    destruct l1 as [|y' l1].
    + injection E as -> _. lia.
    + injection E as -> E.
      assert (y' < a')%Z.
      { apply (ascending_above y' ns' H). rewrite E.
        apply in_or_app. right. now left. }
      lia.
Qed.



End RangeGap.

(* ================================================================== *)
(** ** Accessors on a parsed sequence are pure *)

Ltac unfold_monad :=
  unfold bind, ret, raise, get, get_fs, lift, lift_opt in *.

Section Parsed.

Variable w : world.
Hypothesis Hparsed : _parsed (obj w) = true.

Lemma ensure_parsed_parsed : ensure_parsed w = (Ok tt, w).
Proof. unfold ensure_parsed. unfold_monad. now rewrite Hparsed. Qed.

Lemma padding_parsed : padding w = (Ok (_padding (obj w)), w).
Proof. unfold padding, bind. now rewrite ensure_parsed_parsed. Qed.

Lemma prefix_parsed : prefix w = (Ok (group_or_empty (obj w) "prefix"), w).
Proof. unfold prefix, bind. now rewrite ensure_parsed_parsed. Qed.

Lemma suffix_parsed : suffix w = (Ok (group_or_empty (obj w) "suffix"), w).
Proof. unfold suffix, bind. now rewrite ensure_parsed_parsed. Qed.

Lemma currentItemNumber_parsed :
  currentItemNumber w = (Ok (_current_item_number (obj w)), w).
Proof. unfold currentItemNumber, bind. now rewrite ensure_parsed_parsed. Qed.

Lemma is_part_of_sequence_parsed x :
  is_part_of_sequence x w = (Ok (is_part_pure (obj w) x), w).
Proof.
  unfold is_part_of_sequence, is_part_pure, bind at 1, get.
  destruct (length (_string (obj w)) =? length x)%nat; [|reflexivity].
  cbn [negb andb]. unfold bind at 1. rewrite ensure_parsed_parsed.
  unfold bind at 1. rewrite prefix_parsed.
  destruct (Py.startswith x _); [|reflexivity].
  cbn [negb andb]. unfold bind. rewrite suffix_parsed.
  now destruct (Py.endswith x _).
Qed.

Lemma num_parsed x : num x w = (num_pure (obj w) x, w).
Proof.
  unfold num, num_pure, bind at 1. rewrite ensure_parsed_parsed.
  unfold bind at 1. rewrite is_part_of_sequence_parsed.
  destruct (is_part_pure (obj w) x); [|reflexivity].
  cbn [negb]. unfold bind at 1, get. unfold bind. rewrite padding_parsed.
  unfold slot_of. destruct (Py.isdigit _); [|reflexivity].
  now destruct (Py.int _).
Qed.

End Parsed.

(** ** Accessors on a parsed and built sequence *)

Section Ready.

Variable w : world.
Hypothesis Hready : ready (obj w).

Let Hparsed : _parsed (obj w) = true := proj1 Hready.
Let Hbuilt : _built (obj w) = true := proj2 Hready.

Lemma items_ready : items w = (Ok (_sequence_items (obj w)), w).
Proof. unfold items. unfold_monad. now rewrite Hbuilt. Qed.

Lemma paths_ready : paths w = (Ok (map snd (_sequence_items (obj w))), w).
Proof. unfold paths. unfold_monad. now rewrite Hbuilt. Qed.

Lemma for_each_num its acc :
  for_each its acc (fun kv acc => n <- num (snd kv) ;; ret (acc ++ [n])) w
  = (nums_of (obj w) its acc, w).
Proof.
  revert acc; induction its as [|kv its IH]; intro acc; [reflexivity|].
  cbn [for_each nums_of]. unfold bind at 1. unfold bind at 1.
  rewrite (num_parsed w Hparsed).
  destruct (num_pure (obj w) (snd kv)); [|reflexivity].
  unfold ret at 1. apply IH.
Qed.

Lemma numbers_ready : numbers w = (numbers_pure (obj w), w).
Proof.
  unfold numbers. unfold bind at 1, get. rewrite Hbuilt.
  unfold bind at 1, ret at 1. unfold bind at 1. rewrite items_ready.
  apply for_each_num.
Qed.

Lemma firstNumber_ready : firstNumber w = (firstNumber_pure (obj w), w).
Proof.
  unfold firstNumber, firstNumber_pure, bind at 1, get.
  destruct (cls_kind (cls (obj w))); [reflexivity|].
  unfold bind, firstPath. unfold bind. rewrite paths_ready.
  destruct (map snd (_sequence_items (obj w))).
  - unfold sourcePath. unfold_monad. apply (num_parsed w Hparsed).
  - unfold ret. apply (num_parsed w Hparsed).
Qed.

Lemma range_ready : range w = (range_pure (obj w), cache_range w).
Proof.
  unfold range, range_pure, cache_range, bind at 1, get.
  destruct (_range (obj w)) eqn:E; [reflexivity|].
  unfold bind at 1. rewrite (ensure_parsed_parsed w Hparsed).
  unfold bind at 1. rewrite numbers_ready.
  unfold range_pure. rewrite E.
  destruct (numbers_pure (obj w)) as [ns|e]; [|reflexivity].
  unfold bind at 1, lift_opt.
  destruct (all_ints ns); reflexivity.
Qed.

End Ready.

Lemma ready_cache_range w : ready (obj w) -> ready (obj (cache_range w)).
Proof.
  unfold cache_range.
  destruct (_range (obj w)); [trivial|].
  destruct (range_pure (obj w)); trivial.
Qed.

(* ================================================================== *)
(** ** Neighbours *)

Section Neighbours.

Lemma index_of_absent n ns : ~ In n ns -> index_of n ns = None.
Proof.
  induction ns as [|k ns IH]; intro H; [reflexivity|].
  cbn [index_of].
  assert (key_eqb k n = false) as ->.
  { destruct k as [x|], n as [y|]; cbn; try reflexivity.
    - apply Z.eqb_neq. intros ->. apply H. now left.
    - exfalso. apply H. now left. }
  rewrite IH; [reflexivity|]. intro; apply H; now right.
Qed.

Lemma index_of_max zs n :
  ascending zs -> In n zs -> (forall m, In m zs -> (m <= n)%Z) ->
  index_of (Some n) (map Some zs) = Some (length zs - 1).
Proof.
  induction zs as [|x zs IH]; intros Ha Hin Hmax; [contradiction|].
  destruct zs as [|y zs'].
  - destruct Hin as [->|[]]. cbn. now rewrite Z.eqb_refl.
  - assert (x < n)%Z.
    { destruct Ha as [Hxy _]. specialize (Hmax y (or_intror (or_introl eq_refl))). lia. }
    change (index_of (Some n) (map Some (x :: y :: zs')))
      with (if (x =? n)%Z then Some 0
            else option_map S (index_of (Some n) (map Some (y :: zs')))).
    destruct (Z.eqb_spec x n); [lia|].
    rewrite IH.
    + cbn [option_map length]. f_equal. lia.
    + now apply ascending_tail in Ha.
    + destruct Hin as [->|Hin]; [lia|assumption].
    + intros m Hm. apply Hmax. now right.
Qed.

Lemma index_of_min zs n :
  ascending zs -> In n zs -> (forall m, In m zs -> (n <= m)%Z) ->
  index_of (Some n) (map Some zs) = Some 0.
Proof.
  destruct zs as [|x zs]; intros Ha Hin Hmin; [contradiction|].
  cbn [map index_of key_eqb].
  destruct (Z.eqb_spec x n); [reflexivity|].
  destruct Hin as [->|Hin]; [congruence|].
  pose proof (ascending_above x zs Ha n Hin).
  specialize (Hmin x (or_introl eq_refl)). lia.
Qed.

Variable w : world.
Hypothesis Hready : ready (obj w).

Lemma neighbour_unknown step edge n ns :
  numbers_pure (obj w) = Ok ns -> ~ In (Some n) ns ->
  neighbour step edge (Some n) w = (Raise ValueError, w).
Proof.
  intros Hns Habs. unfold neighbour.
  unfold bind at 1. rewrite (ensure_parsed_parsed w (proj1 Hready)).
  unfold bind at 1, ret at 1. unfold bind at 1.
  rewrite (numbers_ready w Hready), Hns.
  now rewrite (index_of_absent _ _ Habs).
Qed.

Lemma neighbour_edge step edge n ns i :
  numbers_pure (obj w) = Ok ns -> index_of (Some n) ns = Some i ->
  edge i (length ns) = true ->
  neighbour step edge (Some n) w = (Ok None, w).
Proof.
  intros Hns Hi He. unfold neighbour.
  unfold bind at 1. rewrite (ensure_parsed_parsed w (proj1 Hready)).
  unfold bind at 1, ret at 1. unfold bind at 1.
  rewrite (numbers_ready w Hready), Hns, Hi, He. reflexivity.
Qed.


End Neighbours.


(* ================================================================== *)
(** ** Membership does not look at the slot *)

(** C10. On a parsed sequence, a string of the source string's length
    that starts with the parsed prefix and ends with the parsed suffix is
    accepted by [is_part_of_sequence], whatever stands at the slot; and
    when the characters at the slot are not all digits, [num] returns
    [None] instead of raising.  Neither call changes the object. *)
Theorem membership_ignores_slot (w : world) (x : str) :
  _parsed (obj w) = true ->
  length x = length (_string (obj w)) ->
  Py.startswith x (group_or_empty (obj w) "prefix") = true ->
  Py.endswith x (group_or_empty (obj w) "suffix") = true ->
  is_part_of_sequence x w = (Ok true, w)
  /\ (Py.isdigit (slot_of (obj w) x) = false -> num x w = (Ok None, w)).
Proof.
  intros Hp Hlen Hpre Hsuf.
  assert (Hpart : is_part_pure (obj w) x = true).
  { unfold is_part_pure. rewrite Hlen, Nat.eqb_refl, Hpre, Hsuf. reflexivity. }
  split.
  - now rewrite (is_part_of_sequence_parsed w Hp), Hpart.
  - intro Hslot. rewrite (num_parsed w Hp). unfold num_pure.
    now rewrite Hpart, Hslot.
Qed.

(** The sequence ["aaa010.0001"] accepts its own pound string
    ["aaa010.####"] as a member, and its number is [None]. *)
Lemma membership_ignores_slot_witness :
  let w0 := world_of AbstractSequence "aaa010.0001" None in
  let w := snd (get_pound_string None w0) in
  let x := lit "aaa010.####" in
  fst (get_pound_string None w0) = Ok x
  /\ _parsed (obj w) = true
  /\ length x = length (_string (obj w))
  /\ Py.isdigit (slot_of (obj w) x) = false
  /\ is_part_of_sequence x w = (Ok true, w)
  /\ num x w = (Ok None, w).
Proof.
  intros w0 w x.
  assert (Hp : _parsed (obj w) = true) by reflexivity.
  assert (Hl : length x = length (_string (obj w))) by reflexivity.
  assert (Hd : Py.isdigit (slot_of (obj w) x) = false) by reflexivity.
  destruct (membership_ignores_slot w x Hp Hl eq_refl eq_refl) as [H1 H2].
  exact (conj eq_refl (conj Hp (conj Hl (conj Hd (conj H1 (H2 Hd)))))).
Defined.

(* ================================================================== *)
(** ** The source string's own number in the item index *)

(** C6, at the input where the code departs from it: the sequence
    ["aaa010.0000"] has the current number 0, yet the index built from
    the explicit items [["aaa010.0001"]] has no key 0, because
    [if self.currentItemNumber:] is false for 0.  With any other current
    number, and in [FileSequence], the source string is added. *)
Theorem current_number_zero_is_left_out :
  let w := world_of AbstractSequence "aaa010.0000"
             (Some ["aaa010.0001"]%string) in
  fst (currentItemNumber w) = Ok (Some 0%Z)
  /\ fst (items w) = Ok [(Some 1%Z, lit "aaa010.0001")]
  /\ fst (items (world_of AbstractSequence "aaa010.0004"
                          (Some ["aaa010.0001"]%string)))
     = Ok [(Some 1%Z, lit "aaa010.0001"); (Some 4%Z, lit "aaa010.0004")]
  /\ fst (items (world_of FileSequence "/p/a.0000.jpg"
                          (Some ["/p/a.0001.jpg"]%string)))
     = Ok [(Some 0%Z, lit "/p/a.0000.jpg"); (Some 1%Z, lit "/p/a.0001.jpg")].
Proof. repeat split; vm_compute; reflexivity. Qed.

(* ================================================================== *)
(** ** Which digit run is the slot *)

(** C2, at the input where the code departs from it: the docstring's own
    example ["mySequence.0020.something.0001"].  The plain pattern takes
    the last run, [0001] at offsets 26 to 30; the path pattern takes the
    first run, [0020] at offsets 11 to 15, and leaves the rest to the
    suffix. *)
Theorem path_pattern_takes_first_run :
  let s := lit "mySequence.0020.something.0001" in
  let d := {| files := []; folders := [] |} in
  (exists m, validate_path AbstractSequence false d s = Ok (m, nums)
             /\ seq_span m = (26, 30)
             /\ Re.group s "sequence" m = Some (lit "0001"))
  /\ (exists m, validate_path FileSequence false d s = Ok (m, nums)
                /\ seq_span m = (11, 15)
                /\ Re.group s "sequence" m = Some (lit "0020")
                /\ Re.group s "suffix" m = Some (lit ".something.0001")).
Proof.
  split; eexists; repeat split; vm_compute; reflexivity.
Qed.

(* ================================================================== *)
(** ** What a call leaves on the disk *)

Lemma quiet_ret {A} (a : A) : quiet (ret a).
Proof. intro w; split; reflexivity. Qed.

Lemma quiet_raise {A} (e : exn) : quiet (@raise A e).
Proof. intro w; split; reflexivity. Qed.

Lemma quiet_lift {A} (r : result A) : quiet (lift r).
Proof. destruct r; [apply quiet_ret|apply quiet_raise]. Qed.

Lemma quiet_lift_opt {A} e (o : option A) : quiet (lift_opt e o).
Proof. destruct o; [apply quiet_ret|apply quiet_raise]. Qed.

(** Sequencing, when the continuation is quiet on every value the first
    part can return. *)
Lemma quiet_bind_on {A B} (P : A -> Prop) (m : M A) (f : A -> M B) :
  quiet m ->
  (forall w a w', m w = (Ok a, w') -> P a) ->
  (forall a, P a -> quiet (f a)) ->
  quiet (bind m f).
Proof.
  intros Hm HP Hf w. unfold bind.
  pose proof (Hm w) as [H1 H2].
  destruct (m w) as [[a|e] w'] eqn:E; cbn [snd] in *.
  - destruct (Hf a (HP _ _ _ E) w') as [H3 H4]. split; congruence.
  - split; assumption.
Qed.

Lemma quiet_bind {A B} (m : M A) (f : A -> M B) :
  quiet m -> (forall a, quiet (f a)) -> quiet (bind m f).
Proof.
  intros Hm Hf. apply (quiet_bind_on (fun _ => True)); auto.
Qed.

Lemma quiet_for_each {A B} (l : list A) (acc : B) (body : A -> B -> M B) :
  (forall a b, quiet (body a b)) -> quiet (for_each l acc body).
Proof.
  intro Hb. revert acc; induction l as [|a l IH]; intro acc; cbn [for_each].
  - apply quiet_ret.
  - apply quiet_bind; [apply Hb|apply IH].
Qed.

Lemma quiet_get : quiet get.
Proof. intro w; split; reflexivity. Qed.

Lemma quiet_get_fs : quiet get_fs.
Proof. intro w; split; reflexivity. Qed.

Lemma quiet_modify f : quiet (modify f).
Proof. intro w; split; reflexivity. Qed.

Lemma quiet_try_except {A} (m h : M A) : quiet m -> quiet h -> quiet (try_except m h).
Proof.
  intros Hm Hh w. unfold try_except.
  pose proof (Hm w) as [H1 H2].
  destruct (m w) as [[a|e] w'] eqn:E; cbn [snd] in *; [split; assumption|].
  destruct (Hh w') as [H3 H4]. split; congruence.
Qed.

(** One step of a quietness proof: split the computation at its head. *)
Ltac quiet_step :=
  first
    [ apply quiet_ret | apply quiet_raise | apply quiet_get
    | apply quiet_get_fs | apply quiet_modify | apply quiet_lift
    | apply quiet_lift_opt
    | assumption
    | match goal with H : _ |- quiet _ => apply H end
    | apply quiet_bind; [|intro]
    | apply quiet_for_each; intros
    | match goal with
      | |- quiet (let '(_, _) := ?x in _) => destruct x
      | |- quiet (if ?b then _ else _) => destruct b
      | |- quiet (match ?x with _ => _ end) => destruct x
      end ].

Ltac quiet_tac := repeat quiet_step.

Lemma quiet_parse_values : quiet parse_values.
Proof. unfold parse_values. quiet_tac. Qed.

Lemma quiet_ensure_parsed : quiet ensure_parsed.
Proof.
  pose proof quiet_parse_values. unfold ensure_parsed. quiet_tac.
Qed.

Lemma quiet_padding : quiet padding.
Proof. pose proof quiet_ensure_parsed. unfold padding. quiet_tac. Qed.

Lemma quiet_prefix : quiet prefix.
Proof. pose proof quiet_ensure_parsed. unfold prefix. quiet_tac. Qed.

Lemma quiet_suffix : quiet suffix.
Proof. pose proof quiet_ensure_parsed. unfold suffix. quiet_tac. Qed.

Lemma quiet_currentItemNumber : quiet currentItemNumber.
Proof. pose proof quiet_ensure_parsed. unfold currentItemNumber. quiet_tac. Qed.

Lemma quiet_is_part_of_sequence x : quiet (is_part_of_sequence x).
Proof.
  pose proof quiet_ensure_parsed. pose proof quiet_prefix.
  pose proof quiet_suffix. unfold is_part_of_sequence. quiet_tac.
Qed.

Lemma quiet_num x : quiet (num x).
Proof.
  pose proof quiet_ensure_parsed. pose proof (quiet_is_part_of_sequence x).
  pose proof quiet_padding. unfold num. quiet_tac.
Qed.

Lemma quiet_default_padding p : quiet (default_padding p).
Proof. pose proof quiet_padding. unfold default_padding. quiet_tac. Qed.

Lemma quiet_get_pound_string p : quiet (get_pound_string p).
Proof.
  pose proof quiet_ensure_parsed. pose proof (quiet_default_padding p).
  unfold get_pound_string. quiet_tac.
Qed.

Lemma quiet_get_format_string p k : quiet (get_format_string p k).
Proof.
  pose proof quiet_ensure_parsed. pose proof (quiet_default_padding p).
  unfold get_format_string. quiet_tac.
Qed.

Lemma quiet_get_percent_string p : quiet (get_percent_string p).
Proof.
  pose proof quiet_ensure_parsed. pose proof (quiet_default_padding p).
  unfold get_percent_string. quiet_tac.
Qed.

Lemma quiet_get_regex_string p : quiet (get_regex_string p).
Proof.
  pose proof quiet_ensure_parsed. pose proof (quiet_default_padding p).
  unfold get_regex_string. quiet_tac.
Qed.

Lemma quiet_get_string n p : quiet (get_string n p).
Proof.
  pose proof quiet_ensure_parsed. pose proof (quiet_get_format_string p None).
  unfold get_string. quiet_tac.
Qed.

Lemma quiet_get_path n p : quiet (get_path n p).
Proof.
  pose proof quiet_ensure_parsed. pose proof (quiet_get_format_string p None).
  unfold get_path. quiet_tac.
Qed.

Lemma quiet_sourcePath : quiet sourcePath.
Proof. unfold sourcePath. quiet_tac. Qed.

Lemma quiet_sourceNumber : quiet sourceNumber.
Proof.
  pose proof quiet_sourcePath. pose proof quiet_num.
  unfold sourceNumber. quiet_tac.
Qed.

Lemma quiet_build_from_input_abstract input :
  quiet (build_from_input_abstract input).
Proof.
  pose proof quiet_num. pose proof quiet_currentItemNumber.
  unfold build_from_input_abstract. quiet_tac.
Qed.

Lemma quiet_build_from_input_file input :
  quiet (build_from_input_file input).
Proof.
  pose proof quiet_num. pose proof quiet_is_part_of_sequence.
  pose proof quiet_sourcePath. pose proof quiet_sourceNumber.
  unfold build_from_input_file. quiet_tac.
Qed.

Lemma quiet_scan_files folder : quiet (scan_files folder).
Proof. unfold scan_files. quiet_tac. Qed.

Lemma quiet_build_from_disk : quiet build_from_disk.
Proof.
  pose proof quiet_padding. pose proof quiet_scan_files.
  pose proof quiet_is_part_of_sequence. pose proof quiet_get_path.
  unfold build_from_disk. quiet_tac.
Qed.

Lemma quiet_loadSequenceItems : quiet loadSequenceItems.
Proof.
  pose proof quiet_ensure_parsed. pose proof quiet_build_from_input_abstract.
  pose proof quiet_build_from_input_file. pose proof quiet_build_from_disk.
  unfold loadSequenceItems. quiet_tac.
Qed.

Lemma quiet_items : quiet items.
Proof. pose proof quiet_loadSequenceItems. unfold items. quiet_tac. Qed.

Lemma quiet_numbers : quiet numbers.
Proof.
  pose proof quiet_loadSequenceItems. pose proof quiet_items.
  pose proof quiet_num. unfold numbers. quiet_tac.
Qed.

Lemma quiet_paths : quiet paths.
Proof. pose proof quiet_loadSequenceItems. unfold paths. quiet_tac. Qed.

Lemma quiet_firstNumber : quiet firstNumber.
Proof.
  pose proof quiet_paths. pose proof quiet_sourcePath. pose proof quiet_num.
  unfold firstNumber, firstPath. quiet_tac.
Qed.

Lemma quiet_range : quiet range.
Proof.
  pose proof quiet_ensure_parsed. pose proof quiet_numbers.
  unfold range. quiet_tac.
Qed.

Lemma quiet_setSource x : quiet (setSource x).
Proof. pose proof quiet_loadSequenceItems. unfold setSource. quiet_tac. Qed.

Lemma quiet_int_of_key k : quiet (int_of_key k).
Proof. unfold int_of_key. quiet_tac. Qed.

Lemma quiet_first_of ns : quiet (first_of ns).
Proof. unfold first_of. quiet_tac. Qed.

Lemma quiet_rename_nothing_to_do p sf : quiet (rename_nothing_to_do p sf).
Proof.
  pose proof quiet_items. pose proof quiet_numbers. pose proof quiet_padding.
  pose proof quiet_firstNumber. pose proof quiet_int_of_key.
  unfold rename_nothing_to_do. quiet_tac.
Qed.

Lemma quiet_rename_plan_step pad off x acc :
  quiet (rename_plan_step pad off x acc).
Proof.
  pose proof quiet_int_of_key. pose proof quiet_prefix.
  pose proof quiet_suffix. unfold rename_plan_step, key_path. quiet_tac.
Qed.

Lemma quiet_rename_plan pad off : quiet (rename_plan pad off).
Proof.
  pose proof quiet_items. pose proof quiet_numbers.
  pose proof quiet_rename_plan_step. unfold rename_plan. quiet_tac.
Qed.

(** A step of the plan never returns: arithmetic on [None] raises
    [TypeError], and [item.path] raises [AttributeError]. *)
Lemma rename_plan_step_raises pad off x acc w :
  exists e w', rename_plan_step pad off x acc w = (Raise e, w').
Proof.
  unfold rename_plan_step, bind, int_of_key, key_path, raise, ret.
  destruct (snd x); [|eauto].
  destruct (prefix w) as [[pre|e] w1]; [|eauto].
  destruct (suffix w1) as [[suf|e] w2]; eauto.
Qed.

Lemma rename_plan_empty pad off w a w' :
  rename_plan pad off w = (Ok a, w') -> a = [].
Proof.
  unfold rename_plan, bind.
  destruct (items w) as [[its|e] w1]; [|discriminate].
  destruct (numbers w1) as [[ns|e] w2]; [|discriminate].
  destruct (combine (map fst its) ns) as [|x l]; cbn [for_each].
  - unfold ret. now intros [= <- _].
  - unfold bind.
    destruct (rename_plan_step_raises pad off x [] w2) as (e & w3 & ->).
    discriminate.
Qed.

Lemma quiet_rename_finish_clean dryrun pad off :
  quiet (rename_finish dryrun pad off [] false).
Proof.
  pose proof quiet_sourceNumber. pose proof quiet_int_of_key.
  pose proof quiet_get_string. pose proof quiet_get_pound_string.
  pose proof quiet_get_regex_string. pose proof quiet_get_format_string.
  pose proof quiet_get_percent_string. pose proof quiet_setSource.
  unfold rename_finish. quiet_tac.
Qed.

(** [rename] is quiet: the plan it builds is never anything but empty,
    so the loop over the plan has nothing to move. *)
Lemma quiet_rename_body p sf repl dry cb : quiet (rename_body p sf repl dry cb).
Proof.
  pose proof quiet_padding. pose proof quiet_numbers.
  pose proof quiet_first_of. pose proof quiet_int_of_key.
  unfold rename_body.
  apply quiet_bind; [quiet_tac|]. intro pad.
  apply quiet_bind; [quiet_tac|]. intro sf'.
  apply quiet_bind; [quiet_tac|]. intro off.
  apply (quiet_bind_on (fun a => a = []));
    [apply quiet_rename_plan|apply rename_plan_empty|].
  intros renamePaths ->.
  apply quiet_bind; [quiet_tac|]. intro reverse.
  replace (if reverse then rev [] else []) with (@nil (str * str))
    by now destruct reverse.
  cbn [rename_loop length].
  intro w. unfold bind at 1, ret at 1. cbn [fst snd].
  apply quiet_rename_finish_clean.
Qed.

Lemma quiet_rename p sf ign repl dry cb : quiet (rename p sf ign repl dry cb).
Proof.
  pose proof quiet_rename_nothing_to_do. pose proof quiet_range.
  pose proof quiet_rename_body.
  unfold rename. quiet_tac.
Qed.


(* ================================================================== *)
(** ** [rename] on a parsed and built sequence *)

Lemma rename_nothing_to_do_ready w p sf :
  ready (obj w) ->
  rename_nothing_to_do p sf w = (nothing_to_do_pure (obj w) p sf, w).
Proof.
  intro Hr. pose proof (proj1 Hr) as Hp.
  assert (Hfirst : forall (n : Z),
             (f <- firstNumber ;; f <- int_of_key f ;; ret (n =? f)%Z) w
             = (rbind (first_int_pure (obj w)) (fun f => Ok (n =? f)%Z), w)).
  { intro n. unfold bind at 1. rewrite (firstNumber_ready w Hr).
    unfold first_int_pure.
    destruct (firstNumber_pure (obj w)) as [[f|]|e]; reflexivity. }
  unfold rename_nothing_to_do, nothing_to_do_pure.
  destruct p as [q|], sf as [n|]; try reflexivity.
  all: unfold bind at 1; rewrite (items_ready w Hr).
  all: unfold bind at 1.
  all: destruct (_sequence_items (obj w)) as [|kv its] eqn:Eits;
    [reflexivity|].
  all: unfold bind at 1; rewrite (numbers_ready w Hr).
  all: destruct (numbers_pure (obj w)) as [[|k ns]|e]; try reflexivity.
  all: cbn [rbind]; unfold ret at 1.
  - (* padding and start *)
    unfold bind at 1, ret at 1. unfold bind at 1, ret at 1.
    unfold bind at 1. rewrite (padding_parsed w Hp).
    destruct (q =? _padding (obj w))%nat; [|reflexivity].
    rewrite Hfirst.
    now destruct (rbind (first_int_pure (obj w)) _).
  - (* padding only *)
    unfold bind at 1. unfold bind at 1. rewrite (padding_parsed w Hp).
    unfold ret at 1.
    destruct (q =? _padding (obj w))%nat eqn:E; [reflexivity|].
    unfold bind at 1, ret at 1. unfold bind. rewrite (padding_parsed w Hp).
    now rewrite E.
  - (* start only *)
    unfold bind at 1, ret at 1. unfold bind at 1. rewrite Hfirst.
    destruct (rbind (first_int_pure (obj w)) _) as [[|]|e]; reflexivity.
Qed.

Section RenameReady.

Variable w : world.
Hypothesis Hready : ready (obj w).
Variables (kv : key * str) (its : list (key * str)) (k : key) (ns : list key).
Hypothesis Hitems : _sequence_items (obj w) = kv :: its.
Hypothesis Hnumbers : numbers_pure (obj w) = Ok (k :: ns).

Lemma rename_plan_ready pad off :
  rename_plan pad off w = (Raise (plan_exn k), w).
Proof.
  unfold rename_plan. unfold bind at 1. rewrite (items_ready w Hready).
  unfold bind at 1. rewrite (numbers_ready w Hready), Hnumbers, Hitems.
  cbn [map combine for_each]. unfold bind at 1, rename_plan_step.
  cbn [fst snd]. unfold bind at 1, int_of_key.
  destruct k as [z|]; [|reflexivity].
  unfold ret at 1. unfold bind at 1. rewrite (prefix_parsed w (proj1 Hready)).
  unfold bind at 1. rewrite (suffix_parsed w (proj1 Hready)).
  reflexivity.
Qed.

Lemma rename_body_ready p sf repl dry cb :
  rename_body p sf repl dry cb w = (Raise (plan_exn k), w).
Proof.
  pose proof (proj1 Hready) as Hp.
  assert (Hpad : exists pad,
             match p with Some q => ret q | None => padding end w = (Ok pad, w)).
  { destruct p; [eexists; reflexivity|].
    rewrite (padding_parsed w Hp). eauto. }
  destruct Hpad as (pad & Hpad).
  assert (Hfirst : (ns <- numbers ;; first_of ns) w = (Ok k, w)).
  { unfold bind. now rewrite (numbers_ready w Hready), Hnumbers. }
  unfold rename_body. unfold bind at 1. rewrite Hpad.
  unfold bind at 1.
  assert (Hsf : exists sf', match sf with
                            | Some n => ret (Some n)
                            | None => ns <- numbers ;; first_of ns
                            end w = (Ok sf', w)
                            /\ (sf = None -> sf' = k)).
  { destruct sf; [eexists; split; [reflexivity|discriminate]|].
    rewrite Hfirst. eauto. }
  destruct Hsf as (sf' & -> & Hsf').
  unfold bind at 1.
  assert (Hoff : match sf' with
                 | None => ret 0%Z
                 | Some n =>
                     if (n =? 0)%Z then ret 0%Z
                     else ns <- numbers ;; n0 <- first_of ns ;;
                          n0 <- int_of_key n0 ;; ret (n - n0)%Z
                 end w
                 = (match sf', k with
                    | None, _ => Ok 0%Z
                    | Some n, Some z => Ok (if (n =? 0)%Z then 0 else n - z)%Z
                    | Some n, None =>
                        if (n =? 0)%Z then Ok 0%Z else Raise TypeError
                    end, w)).
  { destruct sf' as [n|]; [|reflexivity].
    destruct (n =? 0)%Z; [now destruct k|].
    unfold bind at 1. rewrite (numbers_ready w Hready), Hnumbers.
    cbn [first_of]. unfold bind at 1, ret at 1. unfold bind at 1.
    now destruct k. }
  rewrite Hoff.
  assert (Hplan : forall off,
             (renamePaths <- rename_plan pad off ;;
              reverse <-
                match sf' with
                | None => ret false
                | Some sf =>
                    if (sf =? 0)%Z then ret false
                    else ns <- numbers ;; n0 <- first_of ns ;;
                         match n0 with
                         | None => ret true
                         | Some n0 => ret (negb (sf <? n0)%Z)
                         end
                end ;;
              let renamePaths :=
                if reverse then rev renamePaths else renamePaths in
              done <- rename_loop repl dry cb (length renamePaths) 0
                                  renamePaths [] ;;
              rename_finish dry pad off (fst done) (snd done)) w
             = (Raise (plan_exn k), w)).
  { intro off. unfold bind at 1. now rewrite rename_plan_ready. }
  destruct sf' as [n|], k as [z|]; try apply Hplan.
  destruct (n =? 0)%Z; [apply Hplan|reflexivity].
Qed.

End RenameReady.

(** Filling the [_range] cache changes nothing else. *)
Lemma nums_of_with_range s r its acc :
  nums_of (with_range s r) its acc = nums_of s its acc.
Proof.
  revert acc; induction its as [|kv its IH]; intro acc; [reflexivity|].
  cbn [nums_of]. change (num_pure (with_range s r) (snd kv))
    with (num_pure s (snd kv)).
  destruct (num_pure s (snd kv)); [apply IH|reflexivity].
Qed.

Lemma numbers_pure_cache_range w :
  numbers_pure (obj (cache_range w)) = numbers_pure (obj w).
Proof.
  unfold cache_range. destruct (_range (obj w)); [reflexivity|].
  destruct (range_pure (obj w)); [|reflexivity].
  apply nums_of_with_range.
Qed.

Lemma items_cache_range w :
  _sequence_items (obj (cache_range w)) = _sequence_items (obj w).
Proof.
  unfold cache_range. destruct (_range (obj w)); [reflexivity|].
  destruct (range_pure (obj w)); reflexivity.
Qed.

Lemma string_cache_range w :
  _string (obj (cache_range w)) = _string (obj w).
Proof.
  unfold cache_range. destruct (_range (obj w)); [reflexivity|].
  destruct (range_pure (obj w)); reflexivity.
Qed.

Lemma range_pure_cache_range w :
  range_pure (obj (cache_range w)) = range_pure (obj w).
Proof.
  unfold cache_range. destruct (_range (obj w)) eqn:E; [reflexivity|].
  destruct (range_pure (obj w)) eqn:R; [|exact R].
  reflexivity.
Qed.

Lemma cache_range_idem w : cache_range (cache_range w) = cache_range w.
Proof.
  unfold cache_range at 2 3.
  destruct (_range (obj w)) eqn:E.
  - unfold cache_range. now rewrite E.
  - destruct (range_pure (obj w)) eqn:R.
    + reflexivity.
    + unfold cache_range. now rewrite E, R.
Qed.

Lemma nothing_to_do_cache_range w p sf :
  nothing_to_do_pure (obj (cache_range w)) p sf
  = nothing_to_do_pure (obj w) p sf.
Proof.
  unfold nothing_to_do_pure, first_int_pure, firstNumber_pure.
  rewrite numbers_pure_cache_range, items_cache_range.
  unfold cache_range. destruct (_range (obj w)); [reflexivity|].
  destruct (range_pure (obj w)); reflexivity.
Qed.

Lemma nothing_to_do_false s p sf :
  nothing_to_do_pure s p sf = Ok false ->
  exists kv its k ns,
    _sequence_items s = kv :: its /\ numbers_pure s = Ok (k :: ns).
Proof.
  unfold nothing_to_do_pure.
  destruct (_sequence_items s) as [|kv its].
  - destruct p, sf; discriminate.
  - destruct (numbers_pure s) as [[|k ns]|e].
    + destruct p, sf; discriminate.
    + intros _. exists kv, its, k, ns. split; reflexivity.
    + destruct p, sf; discriminate.
Qed.

Lemma rename_ready w p sf ign repl dry cb :
  ready (obj w) ->
  rename p sf ign repl dry cb w
  = (rename_outcome (obj w) p sf ign, rename_world w p sf ign).
Proof.
  intro Hr. unfold rename, rename_outcome, rename_world.
  unfold bind at 1. rewrite (rename_nothing_to_do_ready w p sf Hr).
  destruct (nothing_to_do_pure (obj w) p sf) as [[|]|e] eqn:E;
    [reflexivity| |reflexivity].
  destruct (nothing_to_do_false _ _ _ E) as (kv & its & k & ns & Hi & Hn).
  rewrite Hn. destruct ign; cbn [negb].
  - unfold bind at 1, ret at 1.
    apply (rename_body_ready w Hr kv its k ns Hi Hn).
  - unfold bind at 1. unfold bind at 1. rewrite (range_ready w Hr).
    destruct (range_pure (obj w)) as [r|e]; [|reflexivity].
    destruct (1 <? length r)%nat; [reflexivity|].
    unfold ret at 1.
    apply (rename_body_ready (cache_range w) (ready_cache_range w Hr)
                             kv its k ns).
    + now rewrite items_cache_range.
    + now rewrite numbers_pure_cache_range.
Qed.

(** With a change requested through [padding] (so that the tests at the
    head of [rename] are passed), gaps in the numbers and
    [ignoreMissing] false, [rename] raises [ValueError]; the only
    attribute it has touched is the [_range] cache. *)
Lemma rename_refuses_gaps w p sf repl dry cb r :
  ready (obj w) ->
  nothing_to_do_pure (obj w) p sf = Ok false ->
  range_pure (obj w) = Ok r -> (1 < length r)%nat ->
  rename p sf false repl dry cb w = (Raise ValueError, cache_range w).
Proof.
  intros Hr Hn Hrange Hlen. rewrite (rename_ready w p sf false repl dry cb Hr).
  unfold rename_outcome, rename_world. rewrite Hn, Hrange.
  now apply Nat.ltb_lt in Hlen as ->.
Qed.

(** C4, at the input where the code departs from it: a sequence with the
    numbers 1 and 3, asked only for a new start number.  The chain of
    tests ends in [int(padding)] with [padding] being [None], so the call
    raises [TypeError] before the test for gaps is reached; asked for a
    new padding instead, the same sequence raises [ValueError].  In both
    cases the disk, the source string and the item index are as before. *)
Theorem rename_start_only_raises_type_error :
  let w := built_world FileSequence "/p/a.0001.jpg"
             (Some ["/p/a.0001.jpg"; "/p/a.0003.jpg"]%string) in
  fst (range w) = Ok [[1]; [3]]%Z
  /\ rename None (Some 5%Z) false false false false w = (Raise TypeError, w)
  /\ rename (Some 5) None false false false false w
     = (Raise ValueError, cache_range w)
  /\ _string (obj (cache_range w)) = _string (obj w)
  /\ _sequence_items (obj (cache_range w)) = _sequence_items (obj w)
  /\ fs (cache_range w) = fs w.
Proof.
  cbv zeta.
  refine (conj _ (conj _ (conj _ (conj _ (conj _ _)))));
    vm_compute; reflexivity.
Qed.





(* ================================================================== *)
(** ** Decimal strings *)

Section Decimal.

Lemma chars_of_uint_digits d : forallb Py.is_digit (Py.chars_of_uint d) = true.
Proof. induction d; cbn [Py.chars_of_uint forallb]; try rewrite IHd; reflexivity. Qed.

Lemma uint_of_chars_of_uint d : Py.uint_of_chars (Py.chars_of_uint d) = Some d.
Proof.
  induction d; cbn [Py.chars_of_uint Py.uint_of_chars];
    try rewrite IHd; reflexivity.
Qed.

Lemma to_uint_not_nil n : Nat.to_uint n <> Nil.
Proof.
  intro H. pose proof (Unsigned.to_of (Nat.to_uint n)) as E.
  rewrite Unsigned.of_to, H in E. discriminate.
Qed.

Lemma str_nat_digits n : forallb Py.is_digit (Py.str_nat n) = true.
Proof. apply chars_of_uint_digits. Qed.

Lemma str_nat_not_nil n : Py.str_nat n <> [].
Proof.
  unfold Py.str_nat. pose proof (to_uint_not_nil n).
  destruct (Nat.to_uint n); cbn; congruence.
Qed.

Lemma int_str_nat n : Py.int (Py.str_nat n) = Some n.
Proof.
  unfold Py.int. pose proof (str_nat_not_nil n).
  destruct (Py.str_nat n) eqn:E; [contradiction|].
  rewrite <- E. unfold Py.str_nat. rewrite uint_of_chars_of_uint.
  cbn [option_map]. now rewrite Unsigned.of_to.
Qed.

(** Leading zeros do not change the value. *)
Lemma int_zeros k s n : Py.int s = Some n -> Py.int (repeat "0" k ++ s) = Some n.
Proof.
  intro H. induction k as [|k IH]; [exact H|].
  cbn [repeat app]. unfold Py.int in *.
  destruct (repeat "0" k ++ s) eqn:E; [discriminate|].
  cbn [Py.uint_of_chars] in *.
  destruct (match Py.uint_of_chars l with
            | Some k0 => Py.digit_of_char a k0
            | None => None
            end) as [u|]; [|discriminate].
  cbn in IH |- *. exact IH.
Qed.

Lemma isdigit_digits s : s <> [] -> forallb Py.is_digit s = true -> Py.isdigit s = true.
Proof. destruct s; [contradiction|]. trivial. Qed.

Lemma repeat_zero_digits k : forallb Py.is_digit (repeat "0" k) = true.
Proof. induction k; [reflexivity|exact IHk]. Qed.

End Decimal.

(* ================================================================== *)
(** ** The matcher *)

Section Matcher.

Lemma star_greedy_sound cls rest : forall pos k res,
  Re.star_greedy cls pos rest k = Some res ->
  exists u rest', rest = u ++ rest' /\ forallb cls u = true
                  /\ k (pos + length u) rest' = Some res.
Proof.
  induction rest as [|c rest IH]; intros pos k res H; cbn [Re.star_greedy] in H.
  - exists [], []. rewrite Nat.add_0_r. auto.
  - destruct (cls c) eqn:Ec.
    + destruct (Re.star_greedy cls (S pos) rest k) as [r|] eqn:E.
      * injection H as ->. apply IH in E.
        destruct E as (u & rest' & -> & Hu & Hk).
        exists (c :: u), rest'. cbn [app forallb length]. rewrite Ec, Hu.
        rewrite Nat.add_succ_r. auto.
      * exists [], (c :: rest). rewrite Nat.add_0_r. auto.
    + exists [], (c :: rest). rewrite Nat.add_0_r. auto.
Qed.

Lemma star_lazy_sound cls rest : forall pos k res,
  Re.star_lazy cls pos rest k = Some res ->
  exists u rest', rest = u ++ rest' /\ forallb cls u = true
                  /\ k (pos + length u) rest' = Some res.
Proof.
  induction rest as [|c rest IH]; intros pos k res H; cbn [Re.star_lazy] in H.
  - destruct (k pos []) eqn:E; [|discriminate].
    injection H as ->. exists [], []. rewrite Nat.add_0_r. auto.
  - destruct (k pos (c :: rest)) eqn:E.
    + injection H as ->. exists [], (c :: rest). rewrite Nat.add_0_r. auto.
    + destruct (cls c) eqn:Ec; [|discriminate].
      apply IH in H. destruct H as (u & rest' & -> & Hu & Hk).
      exists (c :: u), rest'. cbn [app forallb length]. rewrite Ec, Hu.
      rewrite Nat.add_succ_r. auto.
Qed.

(** A successful match consumed a string of the expression's language
    and then ran its continuation on what is left. *)
Lemma rmatch_sound r : forall pos rest c k res,
  Re.rmatch r pos rest c k = Some res ->
  exists u rest' c', rest = u ++ rest' /\ lang r u
                     /\ k (pos + length u) rest' c' = Some res.
Proof.
  induction r as [| |x|cls|cls|cls|a IHa b IHb|a IHa b IHb|name a IHa];
    intros pos rest c k res H; cbn [Re.rmatch] in H.
  - destruct (pos =? 0)%nat; [|discriminate].
    exists [], rest, c. rewrite Nat.add_0_r. cbn; auto.
  - destruct (Re.at_eol rest); [|discriminate].
    exists [], rest, c. rewrite Nat.add_0_r. cbn; auto.
  - destruct rest as [|y rest]; [discriminate|].
    destruct (Ascii.eqb_spec y x) as [->|]; [|discriminate].
    exists [x], rest, c. cbn [length app lang]. rewrite Nat.add_1_r. auto.
  - destruct rest as [|y rest]; [discriminate|].
    destruct (cls y) eqn:Ey; [|discriminate].
    apply star_greedy_sound in H. destruct H as (u & rest' & -> & Hu & Hk).
    exists (y :: u), rest', c. cbn [app lang forallb length].
    rewrite Ey, Hu, Nat.add_succ_r. repeat split; auto. discriminate.
  - apply star_greedy_sound in H. destruct H as (u & rest' & -> & Hu & Hk).
    exists u, rest', c. cbn [lang]. auto.
  - apply star_lazy_sound in H. destruct H as (u & rest' & -> & Hu & Hk).
    exists u, rest', c. cbn [lang]. auto.
  - apply IHa in H. destruct H as (u1 & r1 & c1 & -> & H1 & H).
    apply IHb in H. destruct H as (u2 & r2 & c2 & -> & H2 & H).
    exists (u1 ++ u2), r2, c2. rewrite <- app_assoc, length_app, Nat.add_assoc.
    repeat split; auto. cbn [lang]. eauto.
  - destruct (Re.rmatch a pos rest c k) eqn:E.
    + injection H as ->. apply IHa in E.
      destruct E as (u & r' & c' & -> & Hu & Hk).
      exists u, r', c'. cbn [lang]. auto.
    + apply IHb in H. destruct H as (u & r' & c' & -> & Hu & Hk).
      exists u, r', c'. cbn [lang]. auto.
  - apply IHa in H. destruct H as (u & r' & c' & -> & Hu & Hk).
    exists u, r', ((name, (pos, pos + length u)) :: c'). cbn [lang]. auto.
Qed.

Lemma star_greedy_max cls u : forall pos rest k res,
  forallb cls u = true ->
  match rest with [] => True | c :: _ => cls c = false end ->
  k (pos + length u) rest = Some res ->
  Re.star_greedy cls pos (u ++ rest) k = Some res.
Proof.
  induction u as [|x u IH]; intros pos rest k res Hu Hrest Hk.
  - cbn [app length] in *. rewrite Nat.add_0_r in Hk.
    destruct rest as [|c rest]; cbn [Re.star_greedy]; [exact Hk|].
    now rewrite Hrest.
  - cbn [forallb] in Hu. apply andb_prop in Hu as [Hx Hu].
    cbn [app Re.star_greedy]. rewrite Hx.
    rewrite (IH (S pos) rest k res); auto.
    cbn [length] in Hk. now rewrite Nat.add_succ_r in Hk.
Qed.

Lemma star_lazy_first cls pre : forall pos rest k res,
  forallb cls pre = true ->
  (forall x y, pre = x ++ y -> y <> [] ->
               k (pos + length x) (y ++ rest) = None) ->
  k (pos + length pre) rest = Some res ->
  Re.star_lazy cls pos (pre ++ rest) k = Some res.
Proof.
  induction pre as [|c pre IH]; intros pos rest k res Hp Hfail Hk.
  - cbn [app length] in *. rewrite Nat.add_0_r in Hk.
    destruct rest; cbn [Re.star_lazy]; now rewrite Hk.
  - cbn [forallb] in Hp. apply andb_prop in Hp as [Hc Hp].
    cbn [app Re.star_lazy].
    pose proof (Hfail [] (c :: pre) eq_refl ltac:(discriminate)) as H0.
    cbn [length app] in H0. rewrite Nat.add_0_r in H0. rewrite H0, Hc.
    apply IH; auto.
    + intros x y -> Hy. specialize (Hfail (c :: x) y eq_refl Hy).
      cbn [length] in Hfail. now rewrite Nat.add_succ_r in Hfail.
    + cbn [length] in Hk. now rewrite Nat.add_succ_r in Hk.
Qed.

(** An expression that starts with [^] can only match at offset 0. *)
Lemma search_bol r s :
  Re.search (Re.Seq Re.Bol r) s
  = Re.rmatch (Re.Seq Re.Bol r) 0 s [] (fun _ _ c => Some c).
Proof.
  assert (H : forall rest n, Re.search_from (Re.Seq Re.Bol r) (S n) rest = None).
  { induction rest as [|c rest IH]; intro n; cbn; [reflexivity|apply IH]. }
  unfold Re.search. destruct s as [|c s]; cbn [Re.search_from].
  - now destruct (Re.rmatch _ _ _ _ _).
  - destruct (Re.rmatch _ _ _ _ _); [reflexivity|apply H].
Qed.

End Matcher.

(* ================================================================== *)
(** ** The plain pattern *)

Section PlainPattern.

Lemma lang_alternatives u :
  lang SEQUENCE_ALTERNATIVES u -> exists ft, slot_shape ft u.
Proof.
  cbn [lang SEQUENCE_ALTERNATIVES ALT_nums ALT_pounds ALT_regex
       ALT_formatstring ALT_percent].
  intros [H|[H|[H|[H|H]]]].
  - exists nums. exact H.
  - exists pounds. exact H.
  - exists regex.
    destruct H as (u1 & r1 & -> & -> & u2 & r2 & -> & -> & u3 & r3 & -> & ->
                   & ds & u4 & -> & [Hne Hds] & ->).
    exists ds. auto.
  - exists formatstring.
    destruct H as (u1 & r1 & -> & -> & ws & r2 & -> & [Hw1 Hw2]
                   & u3 & r3 & -> & -> & ds & r4 & -> & [Hd1 Hd2]
                   & u5 & u6 & -> & -> & ->).
    exists ws, ds. cbn [app]. auto 10.
  - exists percent.
    destruct H as (u1 & r1 & -> & -> & ds & u3 & -> & [Hne Hds] & ->).
    exists ds. auto.
Qed.

Lemma search_plain s :
  Re.search DEFAULT_SEQUENCE_PATTERN s
  = Re.star_lazy Py.is_dot 0 s
      (fun p r => plain_tail p r [("prefix"%string, (0, p))]).
Proof. unfold DEFAULT_SEQUENCE_PATTERN. rewrite search_bol. reflexivity. Qed.

Lemma plain_tail_sound p r c res :
  plain_tail p r c = Some res ->
  exists u t ft c',
    r = u ++ t /\ slot_shape ft u /\ Re.at_eol t = true
    /\ res = ("sequence"%string, (p, p + length u)) :: c'.
Proof.
  unfold plain_tail. cbn [Re.rmatch]. intro H.
  apply rmatch_sound in H. destruct H as (u & t & c' & -> & Hu & H).
  apply lang_alternatives in Hu. destruct Hu as [ft Hft].
  destruct (Re.at_eol t) eqn:E; [|discriminate].
  injection H as <-. exists u, t, ft, c'. auto.
Qed.

(** A slot contains no newline. *)
Lemma slot_shape_no_newline ft u : slot_shape ft u -> forallb Py.is_dot u = true.
Proof.
  assert (Hd : forall l, forallb Py.is_digit l = true ->
                         forallb Py.is_dot l = true).
  { induction l as [|c l IH]; [reflexivity|]. cbn [forallb].
    intro H. apply andb_prop in H as [Hc Hl]. rewrite (IH Hl), andb_true_r.
    unfold Py.is_dot. destruct (Ascii.eqb_spec c Py.newline) as [->|];
      [discriminate|reflexivity]. }
  assert (Hw : forall l, forallb Py.is_word l = true ->
                         forallb Py.is_dot l = true).
  { induction l as [|c l IH]; [reflexivity|]. cbn [forallb].
    intro H. apply andb_prop in H as [Hc Hl]. rewrite (IH Hl), andb_true_r.
    unfold Py.is_dot. destruct (Ascii.eqb_spec c Py.newline) as [->|];
      [discriminate|reflexivity]. }
  assert (Hp : forall l, forallb (Py.is_char "#") l = true ->
                         forallb Py.is_dot l = true).
  { induction l as [|c l IH]; [reflexivity|]. cbn [forallb].
    intro H. apply andb_prop in H as [Hc Hl]. rewrite (IH Hl), andb_true_r.
    unfold Py.is_dot. destruct (Ascii.eqb_spec c Py.newline) as [->|];
      [discriminate|reflexivity]. }
  destruct ft; cbn [slot_shape].
  - intros [_ H]. auto.
  - intros [_ H]. auto.
  - intros (ds & _ & H & ->). cbn [forallb]. rewrite forallb_app, (Hd _ H).
    reflexivity.
  - intros (ws & ds & _ & H1 & _ & H2 & ->). cbn [forallb].
    rewrite forallb_app, (Hw _ H1). cbn [forallb].
    rewrite forallb_app, (Hd _ H2). reflexivity.
  - intros (ds & _ & H & ->). cbn [forallb]. rewrite forallb_app, (Hd _ H).
    reflexivity.
Qed.

(** The place where the text ends and [$] holds is unique. *)
Lemma split_at_eol a : forall b t t',
  forallb Py.is_dot a = true -> forallb Py.is_dot b = true ->
  Re.at_eol t = true -> Re.at_eol t' = true ->
  a ++ t = b ++ t' -> a = b /\ t = t'.
Proof.
  assert (Heol : forall c l, Re.at_eol (c :: l) = true ->
                             Py.is_dot c = false).
  { intros c l H. unfold Re.at_eol in H. destruct l; [|discriminate].
    unfold Py.is_dot. now rewrite H. }
  induction a as [|x a IH]; intros b t t' Ha Hb Ht Ht' E.
  - destruct b as [|y b]; [auto|]. cbn [app] in E. subst t.
    apply Heol in Ht. cbn [forallb] in Hb. rewrite Ht in Hb. discriminate.
  - destruct b as [|y b].
    + cbn [app] in E. subst t'.
      apply Heol in Ht'. cbn [forallb] in Ha. rewrite Ht' in Ha. discriminate.
    + cbn [app] in E. injection E as -> E.
      cbn [forallb] in Ha, Hb.
      apply andb_prop in Ha as [_ Ha]. apply andb_prop in Hb as [_ Hb].
      destruct (IH b t t' Ha Hb Ht Ht' E) as [-> ->]. auto.
Qed.

End PlainPattern.

Section NoEarlierSlot.

Lemma ends_with_app cls x y : y <> [] -> ends_with cls (x ++ y) = ends_with cls y.
Proof.
  intro H. unfold ends_with. rewrite rev_app_distr.
  destruct (rev y) eqn:E; [|reflexivity].
  apply (f_equal (@rev ascii)) in E. rewrite rev_involutive in E. contradiction.
Qed.

Lemma ends_with_all cls u :
  u <> [] -> forallb cls u = true -> ends_with cls u = true.
Proof.
  intros Hne H. unfold ends_with.
  destruct (rev u) as [|x l] eqn:E.
  - apply (f_equal (@rev ascii)) in E. rewrite rev_involutive in E. contradiction.
  - rewrite forallb_forall in H. apply H. apply in_rev. rewrite E. now left.
Qed.

Lemma ends_with_both c1 c2 u :
  ends_with c1 u = true -> ends_with c2 u = true ->
  exists x, c1 x = true /\ c2 x = true.
Proof. unfold ends_with. destruct (rev u); [discriminate|eauto]. Qed.

Lemma ends_with_snoc cls u x : ends_with cls (u ++ [x]) = cls x.
Proof. unfold ends_with. now rewrite rev_app_distr. Qed.

Lemma slot_shape_last ft u : slot_shape ft u -> ends_with (last_class ft) u = true.
Proof.
  destruct ft; cbn [slot_shape last_class].
  - intros [H1 H2]. now apply ends_with_all.
  - intros [H1 H2]. now apply ends_with_all.
  - intros (ds & _ & _ & ->).
    change ("\" :: "d" :: "{" :: ds ++ ["}"])
      with (("\" :: "d" :: "{" :: ds) ++ ["}"]).
    now rewrite ends_with_snoc.
  - intros (ws & ds & _ & _ & _ & _ & ->).
    replace ("{" :: ws ++ ":" :: ds ++ ["d"; "}"])
      with (("{" :: ws ++ ":" :: ds ++ ["d"]) ++ ["}"])
      by (cbn [app]; rewrite <- !app_assoc; cbn [app];
          now rewrite <- !app_assoc).
    now rewrite ends_with_snoc.
  - intros (ds & _ & _ & ->).
    change ("%" :: ds ++ ["d"]) with (("%" :: ds) ++ ["d"]).
    now rewrite ends_with_snoc.
Qed.

Lemma last_class_disjoint ft ft' x :
  last_class ft x = true -> last_class ft' x = true -> same_last ft ft' = true.
Proof.
  destruct ft, ft'; cbn [last_class same_last]; try reflexivity; intros H1 H2;
    unfold Py.is_char in *;
    repeat match goal with
           | H : Ascii.eqb _ _ = true |- _ => apply Ascii.eqb_eq in H; subst
           end;
    discriminate.
Qed.

Lemma forallb_In (cls : ascii -> bool) l x :
  forallb cls l = true -> In x l -> cls x = true.
Proof. intros H. now apply forallb_forall. Qed.

Lemma slot_shape_not_nil ft u : slot_shape ft u -> u <> [].
Proof.
  destruct ft; cbn [slot_shape].
  - now intros [H _].
  - now intros [H _].
  - intros (ds & _ & _ & ->). discriminate.
  - intros (ws & ds & _ & _ & _ & _ & ->). discriminate.
  - intros (ds & _ & _ & ->). discriminate.
Qed.

(** A digit run or a pound run cannot be extended to the left by a text
    that does not end with a digit, or a pound. *)
Lemma no_longer_run (cls : ascii -> bool) y sub :
  y <> [] -> ends_with cls y = false -> forallb cls (y ++ sub) = false.
Proof.
  intros Hy He. destruct (forallb cls (y ++ sub)) eqn:E; [|reflexivity].
  rewrite forallb_app in E. apply andb_prop in E as [E _].
  now rewrite (ends_with_all cls y Hy E) in He.
Qed.

(** The three bracketed flavors start with a character that does not
    occur again in them. *)
Lemma no_longer_regex y ds ds' :
  y <> [] -> forallb Py.is_digit ds' = true ->
  y ++ "\" :: "d" :: "{" :: ds ++ ["}"] <> "\" :: "d" :: "{" :: ds' ++ ["}"].
Proof.
  intros Hy Hd E. destruct y as [|c y]; [contradiction|].
  cbn [app] in E. injection E as -> E.
  assert (H : In "\" (y ++ "\" :: "d" :: "{" :: ds ++ ["}"]))
    by (apply in_or_app; right; now left).
  rewrite E in H. destruct H as [H|[H|H]]; try discriminate.
  apply in_app_or in H as [H|[H|[]]]; [|discriminate].
  now apply (forallb_In _ _ _ Hd) in H.
Qed.

Lemma no_longer_formatstring y k ds ws ds' :
  y <> [] -> forallb Py.is_word ws = true -> forallb Py.is_digit ds' = true ->
  y ++ "{" :: k ++ ":" :: ds ++ ["d"; "}"]
  <> "{" :: ws ++ ":" :: ds' ++ ["d"; "}"].
Proof.
  intros Hy Hw Hd E. destruct y as [|c y]; [contradiction|].
  cbn [app] in E. injection E as -> E.
  assert (H : In "{" (y ++ "{" :: k ++ ":" :: ds ++ ["d"; "}"]))
    by (apply in_or_app; right; now left).
  rewrite E in H. apply in_app_or in H as [H|[H|H]]; try discriminate.
  - now apply (forallb_In _ _ _ Hw) in H.
  - apply in_app_or in H as [H|[H|[H|[]]]]; try discriminate.
    now apply (forallb_In _ _ _ Hd) in H.
Qed.

Lemma no_longer_percent y ds ds' :
  y <> [] -> forallb Py.is_digit ds' = true ->
  y ++ "%" :: ds ++ ["d"] <> "%" :: ds' ++ ["d"].
Proof.
  intros Hy Hd E. destruct y as [|c y]; [contradiction|].
  cbn [app] in E. injection E as -> E.
  assert (H : In "%" (y ++ "%" :: ds ++ ["d"]))
    by (apply in_or_app; right; now left).
  rewrite E in H. apply in_app_or in H as [H|[H|[]]]; [|discriminate].
  now apply (forallb_In _ _ _ Hd) in H.
Qed.

(** A pattern literal ends with a digit and a brace, a template
    placeholder with [d] and a brace. *)
Lemma regex_is_not_formatstring a ds b ds' :
  ds <> [] -> forallb Py.is_digit ds = true ->
  a ++ ds ++ ["}"] <> b ++ ds' ++ ["d"; "}"].
Proof.
  intros Hne Hd E.
  replace (a ++ ds ++ ["}"]) with ((a ++ ds) ++ ["}"]) in E
    by now rewrite <- app_assoc.
  replace (b ++ ds' ++ ["d"; "}"]) with ((b ++ ds' ++ ["d"]) ++ ["}"]) in E
    by now rewrite <- !app_assoc.
  apply app_inj_tail in E as [E _].
  assert (H : ends_with Py.is_digit (a ++ ds) = true)
    by (rewrite ends_with_app by assumption; now apply ends_with_all).
  rewrite E, app_assoc, ends_with_snoc in H. discriminate.
Qed.

End NoEarlierSlot.

(** A slot cannot be extended to the left: no text [y ++ sub] is a slot
    when [sub] is one, unless [sub] is a digit run or a pound run and [y]
    ends with a digit, or a pound. *)
Lemma no_longer_slot ft sub y ft' :
  slot_shape ft sub -> y <> [] ->
  match ft with
  | nums | pounds => ends_with (last_class ft) y = false
  | _ => True
  end ->
  ~ slot_shape ft' (y ++ sub).
Proof.
  intros Hs Hy Hc Hl.
  pose proof (slot_shape_last _ _ Hs) as H1.
  pose proof (slot_shape_last _ _ Hl) as H2.
  rewrite <- (ends_with_app _ y sub (slot_shape_not_nil _ _ Hs)) in H1.
  destruct (ends_with_both _ _ _ H1 H2) as (x & Hx1 & Hx2).
  pose proof (last_class_disjoint _ _ _ Hx1 Hx2) as Hsame.
  clear H1 H2 x Hx1 Hx2.
  destruct ft, ft'; try discriminate Hsame; cbn [slot_shape last_class] in *.
  - (* digits in digits *)
    destruct Hl as [_ Hl]. now rewrite (no_longer_run _ y sub Hy Hc) in Hl.
  - (* pounds in pounds *)
    destruct Hl as [_ Hl]. now rewrite (no_longer_run _ y sub Hy Hc) in Hl.
  - (* pattern literal in pattern literal *)
    destruct Hs as (ds & _ & _ & ->). destruct Hl as (ds' & _ & Hd & E).
    exact (no_longer_regex y ds ds' Hy Hd E).
  - (* pattern literal in template placeholder *)
    destruct Hs as (ds & Hne & Hd & ->).
    destruct Hl as (ws & ds' & _ & _ & _ & _ & E).
    apply (regex_is_not_formatstring (y ++ ["\"; "d"; "{"]) ds
                                     ("{" :: ws ++ [":"]) ds' Hne Hd).
    rewrite <- !app_assoc. cbn [app]. rewrite <- !app_assoc. exact E.
  - (* template placeholder in pattern literal *)
    destruct Hs as (ws & ds & _ & _ & _ & _ & ->).
    destruct Hl as (ds' & Hne & Hd & E).
    apply (regex_is_not_formatstring ["\"; "d"; "{"] ds'
                                     (y ++ "{" :: ws ++ [":"]) ds Hne Hd).
    rewrite <- !app_assoc. cbn [app]. rewrite <- !app_assoc. cbn [app].
    symmetry. exact E.
  - (* template placeholder in template placeholder *)
    destruct Hs as (ws & ds & _ & _ & _ & _ & ->).
    destruct Hl as (ws' & ds' & _ & Hw & _ & Hd & E).
    exact (no_longer_formatstring y ws ds ws' ds' Hy Hw Hd E).
  - (* printf-style in printf-style *)
    destruct Hs as (ds & _ & _ & ->). destruct Hl as (ds' & _ & Hd & E).
    exact (no_longer_percent y ds ds' Hy Hd E).
Qed.

(** After a text [y] that is not empty, a slot that reaches the end
    leaves nothing for the [sequence] group to match from the start of
    [y]. *)
Lemma plain_tail_fails ft sub y t p c :
  slot_shape ft sub -> y <> [] -> forallb Py.is_dot y = true ->
  Re.at_eol t = true ->
  match ft with
  | nums | pounds => ends_with (last_class ft) y = false
  | _ => True
  end ->
  plain_tail p (y ++ sub ++ t) c = None.
Proof.
  intros Hs Hy Hdot Ht Hc.
  destruct (plain_tail p (y ++ sub ++ t) c) as [res|] eqn:E; [|reflexivity].
  exfalso. apply plain_tail_sound in E.
  destruct E as (u & t' & ft' & c' & E & Hu & Ht' & _).
  rewrite app_assoc in E.
  apply split_at_eol in E as [E _]; auto.
  - subst u. exact (no_longer_slot ft sub y ft' Hs Hy Hc Hu).
  - rewrite forallb_app, Hdot. cbn [andb].
    exact (slot_shape_no_newline _ _ Hs).
  - exact (slot_shape_no_newline _ _ Hu).
Qed.

Section SlotMatches.

Lemma rmatch_group n a p r c k :
  Re.rmatch (Re.Group n a) p r c k
  = Re.rmatch a p r c (fun p' s c' => k p' s ((n, (p, p')) :: c')).
Proof. reflexivity. Qed.

Lemma rmatch_seq a b p r c k :
  Re.rmatch (Re.Seq a b) p r c k
  = Re.rmatch a p r c (fun p' s c' => Re.rmatch b p' s c' k).
Proof. reflexivity. Qed.

Lemma rmatch_chr x p r c k : Re.rmatch (Re.Chr x) p (x :: r) c k = k (S p) r c.
Proof. cbn [Re.rmatch]. now rewrite Ascii.eqb_refl. Qed.

Lemma rmatch_chr_fail x y p r c k :
  Ascii.eqb y x = false -> Re.rmatch (Re.Chr x) p (y :: r) c k = None.
Proof. intro H. cbn [Re.rmatch]. now rewrite H. Qed.

Lemma rmatch_plus_fail cls y p r c k :
  cls y = false -> Re.rmatch (Re.Plus cls) p (y :: r) c k = None.
Proof. intro H. cbn [Re.rmatch]. now rewrite H. Qed.

(** A greedy run that takes all of [u] and stops there. *)
Lemma rmatch_plus cls u rest p c k res :
  u <> [] -> forallb cls u = true ->
  match rest with [] => True | x :: _ => cls x = false end ->
  k (p + length u) rest c = Some res ->
  Re.rmatch (Re.Plus cls) p (u ++ rest) c k = Some res.
Proof.
  intros Hne Hu Hrest Hk. destruct u as [|x u]; [contradiction|].
  cbn [forallb] in Hu. apply andb_prop in Hu as [Hx Hu].
  cbn [app Re.rmatch]. rewrite Hx.
  apply star_greedy_max; auto.
  cbn [length] in Hk. now rewrite Nat.add_succ_r in Hk.
Qed.

Lemma rmatch_alternatives p r c k :
  Re.rmatch SEQUENCE_ALTERNATIVES p r c k
  = match Re.rmatch ALT_nums p r c k with
    | Some x => Some x
    | None =>
    match Re.rmatch ALT_pounds p r c k with
    | Some x => Some x
    | None =>
    match Re.rmatch ALT_regex p r c k with
    | Some x => Some x
    | None =>
    match Re.rmatch ALT_formatstring p r c k with
    | Some x => Some x
    | None => Re.rmatch ALT_percent p r c k
    end end end end.
Proof. reflexivity. Qed.

(** An alternative fails on a first character that is not its own. *)
Lemma alt_nums_fail y p r c k :
  Py.is_digit y = false -> Re.rmatch ALT_nums p (y :: r) c k = None.
Proof. intro H. unfold ALT_nums. rewrite rmatch_group. now apply rmatch_plus_fail. Qed.

Lemma alt_pounds_fail y p r c k :
  Ascii.eqb y "#" = false -> Re.rmatch ALT_pounds p (y :: r) c k = None.
Proof.
  intro H. unfold ALT_pounds. rewrite rmatch_group.
  now apply rmatch_plus_fail.
Qed.

Lemma alt_regex_fail y p r c k :
  Ascii.eqb y "\" = false -> Re.rmatch ALT_regex p (y :: r) c k = None.
Proof.
  intro H. unfold ALT_regex. rewrite rmatch_group, rmatch_seq.
  now apply rmatch_chr_fail.
Qed.

Lemma alt_formatstring_fail y p r c k :
  Ascii.eqb y "{" = false -> Re.rmatch ALT_formatstring p (y :: r) c k = None.
Proof.
  intro H. unfold ALT_formatstring. rewrite rmatch_group, rmatch_seq.
  now apply rmatch_chr_fail.
Qed.

Lemma at_eol_head (cls : ascii -> bool) t :
  Re.at_eol t = true -> cls Py.newline = false ->
  match t with [] => True | x :: _ => cls x = false end.
Proof.
  intros Ht Hc. destruct t as [|x [|]]; [exact I| |discriminate].
  unfold Re.at_eol in Ht. now apply Ascii.eqb_eq in Ht as ->.
Qed.

End SlotMatches.

Section SlotMatched.

Ltac same_position H :=
  cbv beta; rewrite <- H;
  repeat (f_equal; try reflexivity);
  cbn [length]; repeat (rewrite length_app; cbn [length]); lia.

Variables (p : nat) (rest : str) (c : Re.caps) (k : Re.cont) (res : Re.caps).

Lemma alt_nums_ok u :
  slot_shape nums u ->
  match rest with [] => True | x :: _ => Py.is_digit x = false end ->
  k (p + length u) rest (("nums"%string, (p, p + length u)) :: c) = Some res ->
  Re.rmatch ALT_nums p (u ++ rest) c k = Some res.
Proof.
  intros [Hne Hu] Hrest Hk. unfold ALT_nums. rewrite rmatch_group.
  apply rmatch_plus; auto.
Qed.

Lemma alt_pounds_ok u :
  slot_shape pounds u ->
  match rest with [] => True | x :: _ => Py.is_char "#" x = false end ->
  k (p + length u) rest (("pounds"%string, (p, p + length u)) :: c)
  = Some res ->
  Re.rmatch ALT_pounds p (u ++ rest) c k = Some res.
Proof.
  intros [Hne Hu] Hrest Hk. unfold ALT_pounds. rewrite rmatch_group.
  apply rmatch_plus; auto.
Qed.

Lemma alt_regex_ok u :
  slot_shape regex u ->
  k (p + length u) rest (("regex"%string, (p, p + length u)) :: c) = Some res ->
  Re.rmatch ALT_regex p (u ++ rest) c k = Some res.
Proof.
  intros (ds & Hne & Hd & ->) Hk. unfold ALT_regex.
  rewrite rmatch_group, rmatch_seq. cbn [app].
  rewrite rmatch_chr, rmatch_seq, rmatch_chr, rmatch_seq, rmatch_chr,
    rmatch_seq.
  rewrite <- app_assoc. cbn [app].
  apply rmatch_plus; auto. rewrite rmatch_chr.
  same_position Hk.
Qed.

Lemma alt_formatstring_ok u :
  slot_shape formatstring u ->
  k (p + length u) rest (("formatstring"%string, (p, p + length u)) :: c)
  = Some res ->
  Re.rmatch ALT_formatstring p (u ++ rest) c k = Some res.
Proof.
  intros (ws & ds & Hw1 & Hw2 & Hd1 & Hd2 & ->) Hk. unfold ALT_formatstring.
  rewrite rmatch_group, rmatch_seq. cbn [app].
  rewrite rmatch_chr, rmatch_seq.
  rewrite <- app_assoc. cbn [app].
  apply rmatch_plus; auto. rewrite rmatch_seq, rmatch_chr, rmatch_seq.
  rewrite <- app_assoc. cbn [app].
  apply rmatch_plus; auto. rewrite rmatch_seq, rmatch_chr, rmatch_chr.
  same_position Hk.
Qed.

Lemma alt_percent_ok u :
  slot_shape percent u ->
  k (p + length u) rest (("percent"%string, (p, p + length u)) :: c)
  = Some res ->
  Re.rmatch ALT_percent p (u ++ rest) c k = Some res.
Proof.
  intros (ds & Hne & Hd & ->) Hk. unfold ALT_percent.
  rewrite rmatch_group, rmatch_seq. cbn [app].
  rewrite rmatch_chr, rmatch_seq.
  rewrite <- app_assoc. cbn [app].
  apply rmatch_plus; auto. rewrite rmatch_chr.
  same_position Hk.
Qed.

End SlotMatched.

(** At the start of a slot that reaches the end, the [sequence] group
    matches it, in its own alternative. *)
Lemma plain_tail_matches ft sub t p c :
  slot_shape ft sub -> Re.at_eol t = true ->
  plain_tail p (sub ++ t) c = Some (slot_caps ft p (length sub) c).
Proof.
  intros Hs Ht. unfold plain_tail, slot_caps.
  rewrite rmatch_seq, rmatch_group, rmatch_alternatives.
  match goal with
  | |- context [Re.rmatch ALT_nums _ _ _ ?k] => set (K := k)
  end.
  assert (Hk : forall name,
             K (p + length sub) t ((name, (p, p + length sub)) :: c)
             = Some (("sequence"%string, (p, p + length sub))
                       :: (name, (p, p + length sub)) :: c)).
  { intro name. subst K. cbn [Re.rmatch]. now rewrite Ht. }
  clearbody K.
  destruct ft; cbn [format_type_name].
  - rewrite (alt_nums_ok _ _ _ _ _ sub Hs (at_eol_head _ t Ht eq_refl)
                         (Hk "nums"%string)).
    reflexivity.
  - assert (Hh : exists u, sub = "#" :: u).
    { destruct Hs as [Hne Hu]. destruct sub as [|x u]; [contradiction|].
      cbn [forallb] in Hu. apply andb_prop in Hu as [Hx _].
      apply Ascii.eqb_eq in Hx as ->. eauto. }
    destruct Hh as (u & Eu).
    rewrite Eu. cbn [app]. rewrite alt_nums_fail by reflexivity.
    change ("#" :: u ++ t) with (("#" :: u) ++ t). rewrite <- Eu.
    rewrite (alt_pounds_ok _ _ _ _ _ sub Hs (at_eol_head _ t Ht eq_refl)
                           (Hk "pounds"%string)).
    reflexivity.
  - pose proof Hs as (ds & _ & _ & Eu).
    rewrite Eu. cbn [app].
    rewrite alt_nums_fail, alt_pounds_fail by reflexivity.
    change ("\" :: "d" :: "{" :: (ds ++ ["}"]) ++ t)
      with (("\" :: "d" :: "{" :: ds ++ ["}"]) ++ t). rewrite <- Eu.
    rewrite (alt_regex_ok _ _ _ _ _ sub Hs (Hk "regex"%string)).
    reflexivity.
  - pose proof Hs as (ws & ds & _ & _ & _ & _ & Eu).
    rewrite Eu. cbn [app].
    rewrite alt_nums_fail, alt_pounds_fail, alt_regex_fail by reflexivity.
    change ("{" :: (ws ++ ":" :: ds ++ ["d"; "}"]) ++ t)
      with (("{" :: ws ++ ":" :: ds ++ ["d"; "}"]) ++ t). rewrite <- Eu.
    rewrite (alt_formatstring_ok _ _ _ _ _ sub Hs (Hk "formatstring"%string)).
    reflexivity.
  - pose proof Hs as (ds & _ & _ & Eu).
    rewrite Eu. cbn [app].
    rewrite alt_nums_fail, alt_pounds_fail, alt_regex_fail,
      alt_formatstring_fail by reflexivity.
    change ("%" :: (ds ++ ["d"]) ++ t) with (("%" :: ds ++ ["d"]) ++ t).
    rewrite <- Eu.
    rewrite (alt_percent_ok _ _ _ _ _ sub Hs (Hk "percent"%string)).
    reflexivity.
Qed.

(** Classification of [pre ++ sub ++ t] by the plain pattern, where
    [sub] is a slot, [t] an end of line, and [pre] a text without newline
    that does not end with a digit when [sub] is a digit run, nor with a
    pound when it is a pound run. *)
Lemma search_plain_slot ft pre sub t :
  slot_shape ft sub -> Re.at_eol t = true ->
  forallb Py.is_dot pre = true ->
  match ft with
  | nums | pounds => ends_with (last_class ft) pre = false
  | _ => True
  end ->
  Re.search DEFAULT_SEQUENCE_PATTERN (pre ++ sub ++ t)
  = Some (slot_caps ft (length pre) (length sub)
                    [("prefix"%string, (0, length pre))]).
Proof.
  intros Hs Ht Hpre Hend. rewrite search_plain.
  apply star_lazy_first; [assumption| |].
  - intros x y -> Hy. cbn [Nat.add].
    rewrite forallb_app in Hpre. apply andb_prop in Hpre as [_ Hy'].
    apply (plain_tail_fails ft); auto.
    destruct ft; auto; now rewrite ends_with_app in Hend.
  - cbn [Nat.add]. now apply plain_tail_matches.
Qed.

(* ================================================================== *)
(** ** Classifying a rendered string *)

Section Classify.

Lemma slice_mid (pre sub t : str) :
  Py.slice (pre ++ sub ++ t) (length pre) (length pre + length sub) = sub.
Proof.
  unfold Py.slice. rewrite skipn_app, skipn_all, Nat.sub_diag. cbn [skipn app].
  replace (length pre + length sub - length pre) with (length sub) by lia.
  rewrite firstn_app, firstn_all, Nat.sub_diag. cbn [firstn]. apply app_nil_r.
Qed.

Variables (pre sub t : str) (ft : format_type).

Let caps : Re.caps :=
  slot_caps ft (length pre) (length sub) [("prefix"%string, (0, length pre))].

Lemma group_sequence :
  Re.group (pre ++ sub ++ t) "sequence" caps = Some sub.
Proof. unfold Re.group, caps, slot_caps. cbn [Re.span String.eqb Ascii.eqb Bool.eqb].
  now rewrite slice_mid. Qed.

Lemma group_flavor ft' :
  Re.group (pre ++ sub ++ t) (format_type_name ft') caps
  = if format_type_eqb ft ft' then Some sub else None.
Proof.
  unfold Re.group, caps, slot_caps.
  destruct ft, ft'; cbn; try reflexivity; now rewrite slice_mid.
Qed.

Lemma seq_span_caps : seq_span caps = (length pre, length pre + length sub).
Proof. reflexivity. Qed.

Hypothesis Hsub : sub <> [].

Lemma group_truthy_flavor ft' :
  group_truthy (pre ++ sub ++ t) caps ft' = format_type_eqb ft ft'.
Proof.
  unfold group_truthy. rewrite group_flavor.
  destruct (format_type_eqb ft ft'); [|reflexivity].
  destruct sub; [contradiction|reflexivity].
Qed.

Lemma pick_format_type_slot c :
  (ft = formatstring -> Py.str_eqb (format_key_of sub) (formatStringKey c) = true) ->
  pick_format_type c (pre ++ sub ++ t) caps SEQUENCE_FORMAT_TYPES None
  = Ok (Some ft).
Proof.
  intro Hkey. unfold SEQUENCE_FORMAT_TYPES. cbn [pick_format_type].
  rewrite !group_truthy_flavor, !group_flavor.
  destruct ft; cbn; try reflexivity.
  now rewrite Hkey.
Qed.

End Classify.

Section Strip.

Variable chars : str.
Hypothesis Hchars : forallb (fun c => negb (Py.is_digit c)) chars = true.

Lemma digit_not_stripped x :
  Py.is_digit x = true -> existsb (Ascii.eqb x) chars = false.
Proof.
  intro Hx. induction chars as [|c l IH]; [reflexivity|].
  cbn [forallb existsb] in *. apply andb_prop in Hchars as [Hc Hl].
  rewrite (IH Hl), orb_false_r.
  destruct (Ascii.eqb_spec x c) as [->|]; [|reflexivity].
  now rewrite Hx in Hc.
Qed.

Lemma lstrip_digits ds rest :
  ds <> [] -> forallb Py.is_digit ds = true ->
  Py.lstrip chars (ds ++ rest) = ds ++ rest.
Proof.
  intros Hne Hd. destruct ds as [|x ds]; [contradiction|].
  cbn [forallb] in Hd. apply andb_prop in Hd as [Hx _].
  cbn [app Py.lstrip]. now rewrite (digit_not_stripped x Hx).
Qed.

Lemma rstrip_digits ds :
  ds <> [] -> forallb Py.is_digit ds = true -> Py.rstrip chars ds = ds.
Proof.
  intros Hne Hd. unfold Py.rstrip.
  rewrite <- (app_nil_r (rev ds)), lstrip_digits, app_nil_r.
  - apply rev_involutive.
  - intro E. apply Hne. apply (f_equal (@rev ascii)) in E.
    now rewrite rev_involutive in E.
  - rewrite forallb_forall in *. intros x Hx. apply Hd. now apply in_rev.
Qed.

Lemma rstrip_snoc s c :
  existsb (Ascii.eqb c) chars = true ->
  Py.rstrip chars (s ++ [c]) = Py.rstrip chars s.
Proof.
  intro Hc. unfold Py.rstrip. rewrite rev_app_distr. cbn [rev app Py.lstrip].
  now rewrite Hc.
Qed.

End Strip.

Section RenderedPadding.

Variables (pre t : str) (P : nat).

Let ds : str := Py.str_nat P.
Let Hne : ds <> [] := str_nat_not_nil P.
Let Hd : forallb Py.is_digit ds = true := str_nat_digits P.

Lemma zero_ds_digits : forallb Py.is_digit ("0" :: ds) = true.
Proof. cbn [forallb]. now rewrite Hd. Qed.

Lemma int_zero_ds : Py.int ("0" :: ds) = Some P.
Proof. apply (int_zeros 1). apply int_str_nat. Qed.

Lemma regex_substr_shape : slot_shape regex (regex_substr P).
Proof. exists ds. auto. Qed.

Lemma percent_substr_shape : slot_shape percent (percent_substr P).
Proof.
  exists ("0" :: ds).
  split; [discriminate|split; [apply zero_ds_digits|reflexivity]].
Qed.

Lemma format_substr_shape :
  slot_shape formatstring (format_substr (lit "item") P).
Proof.
  exists (lit "item"), ("0" :: ds).
  split; [discriminate|]. split; [reflexivity|].
  split; [discriminate|]. split; [apply zero_ds_digits|reflexivity].
Qed.

Lemma regex_substr_padding :
  Py.int (Py.rstrip (lit "}}") (Py.lstrip (lit "\d+{{") (regex_substr P)))
  = Some P.
Proof.
  change (Py.int (Py.rstrip (lit "}}") (Py.lstrip (lit "\d+{{") (ds ++ ["}"])))
          = Some P).
  rewrite (lstrip_digits (lit "\d+{{") eq_refl ds ["}"] Hne Hd).
  rewrite (rstrip_snoc (lit "}}") ds "}" eq_refl).
  rewrite (rstrip_digits (lit "}}") eq_refl ds Hne Hd).
  apply int_str_nat.
Qed.

Lemma percent_substr_padding :
  Py.int (Py.rstrip (lit "d") (Py.lstrip (lit "%") (percent_substr P)))
  = Some P.
Proof.
  assert (Hz : "0" :: ds <> []) by discriminate.
  change (Py.int (Py.rstrip (lit "d")
                    (Py.lstrip (lit "%") (("0" :: ds) ++ ["d"]))) = Some P).
  rewrite (lstrip_digits (lit "%") eq_refl _ ["d"] Hz zero_ds_digits).
  rewrite (rstrip_snoc (lit "d") _ "d" eq_refl).
  rewrite (rstrip_digits (lit "d") eq_refl _ Hz zero_ds_digits).
  apply int_zero_ds.
Qed.

Lemma format_substr_padding :
  Py.int (Py.rstrip (lit "d}}")
            (Py.lstrip ("{" :: lit "item" ++ [":"])
                       (format_substr (lit "item") P)))
  = Some P.
Proof.
  assert (Hz : "0" :: ds <> []) by discriminate.
  change (Py.int (Py.rstrip (lit "d}}")
                    (Py.lstrip ("{" :: lit "item" ++ [":"])
                               (("0" :: ds) ++ ["d"; "}"]))) = Some P).
  rewrite (lstrip_digits ("{" :: lit "item" ++ [":"]) eq_refl _ ["d"; "}"]
                         Hz zero_ds_digits).
  replace (("0" :: ds) ++ ["d"; "}"]) with ((("0" :: ds) ++ ["d"]) ++ ["}"])
    by now rewrite <- app_assoc.
  rewrite (rstrip_snoc (lit "d}}") _ "}" eq_refl).
  rewrite (rstrip_snoc (lit "d}}") _ "d" eq_refl).
  rewrite (rstrip_digits (lit "d}}") eq_refl _ Hz zero_ds_digits).
  apply int_zero_ds.
Qed.

Lemma pounds_shape : 1 <= P -> slot_shape pounds (repeat "#" P).
Proof.
  intro H. split.
  - destruct P; [lia|discriminate].
  - clear. induction P; [reflexivity|exact IHn].
Qed.

End RenderedPadding.

(* ================================================================== *)
(** ** Parsing an object *)

Lemma parse_values_inv w w' :
  parse_values w = (Ok tt, w') -> exists m ft p, parsed_as w w' m ft p.
Proof.
  unfold parse_values, bind, modify, get, get_fs, lift, lift_opt, ret, raise.
  cbn [obj fs events with_range cls validateExists _string].
  destruct (validate_path _ _ _ _) as [[m ft]|e] eqn:Ev; [|discriminate].
  cbn [obj fs events with_parse cls _string].
  destruct (parse_padding_from_match _ _ m ft) as [p|e] eqn:Ep.
  - destruct (seq_span m) as [a b] eqn:Es.
    destruct ft;
      [destruct (Py.int _); [|discriminate]| | | |];
      intros [= <-]; exists m; eexists; exists p;
        (split; cbn; rewrite ?Es; try reflexivity; assumption).
  - destruct ft; [destruct (Py.int _)| | | |]; discriminate.
Qed.

Lemma parse_values_ok w m ft p :
  validate_path (cls (obj w)) (validateExists (obj w)) (fs w)
                (_string (obj w)) = Ok (m, ft) ->
  parse_padding_from_match (cls (obj w)) (_string (obj w)) m ft = Ok p ->
  (ft = nums ->
   exists n, Py.int match Re.group (_string (obj w)) "sequence" m with
                    | Some g => g
                    | None => []
                    end = Some n) ->
  exists w', parse_values w = (Ok tt, w') /\ parsed_as w w' m ft p.
Proof.
  intros Hv Hp Hn.
  unfold parse_values, bind, modify, get, get_fs, lift, lift_opt, ret, raise.
  cbn [obj fs events with_range cls validateExists _string].
  rewrite Hv. cbn [obj fs events with_parse cls _string]. rewrite Hp.
  destruct (seq_span m) as [a b] eqn:Es.
  destruct ft; [destruct (Hn eq_refl) as [n ->]| | | |];
    eexists; (split; [reflexivity|]);
      (split; cbn; rewrite ?Es; try reflexivity; assumption).
Qed.

Section ClassifySlot.

Variables (ft : format_type) (pre sub t : str) (p : nat).

Let s : str := pre ++ sub ++ t.
Let caps : Re.caps :=
  slot_caps ft (length pre) (length sub) [("prefix"%string, (0, length pre))].

Hypothesis Hshape : slot_shape ft sub.
Hypothesis Heol : Re.at_eol t = true.
Hypothesis Hpre : forallb Py.is_dot pre = true.
Hypothesis Hend :
  match ft with
  | nums | pounds => ends_with (last_class ft) pre = false
  | _ => True
  end.
Hypothesis Hkey :
  ft = formatstring -> Py.str_eqb (format_key_of sub) (lit "item") = true.

Lemma validate_path_slot d :
  validate_path AbstractSequence false d s = Ok (caps, ft).
Proof.
  unfold validate_path, s. cbn [cls_regex AbstractSequence].
  rewrite (search_plain_slot ft pre sub t Hshape Heol Hpre Hend).
  rewrite (pick_format_type_slot pre sub t ft
             (slot_shape_not_nil _ _ Hshape) AbstractSequence Hkey).
  reflexivity.
Qed.

Hypothesis Hpad : parse_padding_from_match AbstractSequence s caps ft = Ok p.
Hypothesis Hint : ft = nums -> exists n, Py.int sub = Some n.

(** The string [pre ++ sub ++ t] classifies with the flavor of [sub]. *)
Lemma classify_slot : classify AbstractSequence s = Ok (Some ft, p).
Proof.
  unfold classify.
  destruct (parse_values_ok (fresh AbstractSequence s) caps ft p)
    as (w' & Hparse & Hw').
  - apply validate_path_slot.
  - exact Hpad.
  - intro E. destruct (Hint E) as [n Hn]. exists n.
    change (_string (obj (fresh AbstractSequence s))) with (pre ++ sub ++ t).
    unfold caps. now rewrite group_sequence.
  - unfold formatType, bind at 1, ensure_parsed, bind at 1, get.
    change (_parsed (obj (fresh AbstractSequence s))) with false.
    cbv iota. rewrite Hparse. unfold ret, bind. cbv beta iota.
    rewrite (padding_parsed w' (pa_parsed _ _ _ _ _ Hw')).
    now rewrite (pa_format _ _ _ _ _ Hw'), (pa_pad _ _ _ _ _ Hw').
Qed.

End ClassifySlot.

(* ================================================================== *)
(** ** The parsed source of a plain sequence *)

Lemma validate_plain_search d s m ft :
  validate_path AbstractSequence false d s = Ok (m, ft) ->
  Re.search DEFAULT_SEQUENCE_PATTERN s = Some m.
Proof.
  unfold validate_path. cbn [cls_regex AbstractSequence cls_kind].
  destruct (Re.search DEFAULT_SEQUENCE_PATTERN s) as [m'|]; [|discriminate].
  destruct (pick_format_type _ _ _ _ _) as [[ft'|]|]; try discriminate.
  now intros [= -> _].
Qed.

(** A string the plain pattern accepts is a text without newline, a
    slot, and an end of line. *)
Lemma search_plain_sound s m :
  Re.search DEFAULT_SEQUENCE_PATTERN s = Some m ->
  exists pre u t,
    s = pre ++ u ++ t /\ forallb Py.is_dot pre = true
    /\ Re.at_eol t = true
    /\ seq_span m = (length pre, length pre + length u).
Proof.
  rewrite search_plain. intro H.
  apply star_lazy_sound in H. destruct H as (pre & r & -> & Hpre & H).
  apply plain_tail_sound in H.
  destruct H as (u & t & ft & c' & -> & _ & Ht & ->).
  exists pre, u, t. cbn [Nat.add]. repeat split; auto.
Qed.

Lemma firstn_skipn_mid (pre u t : str) :
  firstn (length pre) (pre ++ u ++ t) = pre
  /\ skipn (length pre + length u) (pre ++ u ++ t) = t.
Proof.
  split.
  - rewrite firstn_app, firstn_all, Nat.sub_diag. cbn [firstn]. apply app_nil_r.
  - rewrite app_assoc, skipn_app, <- length_app, skipn_all, Nat.sub_diag.
    reflexivity.
Qed.

Lemma validate_plain_source src w :
  validate (fresh AbstractSequence src) = (Ok tt, w) ->
  exists pre t, plain_source src w pre t.
Proof.
  unfold validate, ensure_parsed, bind, get.
  change (_parsed (obj (fresh AbstractSequence src))) with false. cbv iota.
  intro H. apply parse_values_inv in H. destruct H as (m & ft & p & H).
  pose proof (pa_validate _ _ _ _ _ H) as Hv.
  apply validate_plain_search, search_plain_sound in Hv.
  destruct Hv as (pre & u & t & E & Hpre & Ht & Hspan).
  exists pre, t. split; auto.
  - exact (pa_parsed _ _ _ _ _ H).
  - exact (pa_cls _ _ _ _ _ H).
  - rewrite (pa_base _ _ _ _ _ H), Hspan. cbn [fst snd].
    rewrite E. now destruct (firstn_skipn_mid pre u t) as [-> ->].
  - now rewrite (pa_regex _ _ _ _ _ H).
Qed.

(* ================================================================== *)
(** ** Rendering *)

Section Format.

Variables (k : str) (n : Z).

Let bindr (x : str) (r : result str) : result str :=
  match r with Ok b => Ok (x ++ b) | Raise e => Raise e end.

Lemma py_format_literal x rest :
  no_braces x = true ->
  py_format k n (x ++ rest) None = bindr x (py_format k n rest None).
Proof.
  unfold no_braces. induction x as [|c x IH]; intro H.
  - cbn [app]. unfold bindr. now destruct (py_format k n rest None).
  - cbn [forallb] in H. apply andb_prop in H as [Hc Hx].
    apply negb_true_iff, orb_false_elim in Hc as [Hc1 Hc2].
    specialize (IH Hx). cbn [app py_format].
    destruct (x ++ rest) as [|c' t''] eqn:E.
    + apply app_eq_nil in E as [-> ->]. rewrite Hc1, Hc2. reflexivity.
    + rewrite Hc1, Hc2. cbn [andb]. rewrite IH. unfold bindr.
      now destruct (py_format k n rest None).
Qed.

Lemma py_format_field_digits ds rest acc :
  forallb Py.is_digit ds = true ->
  py_format k n (ds ++ rest) (Some acc)
  = py_format k n rest (Some (rev ds ++ acc)).
Proof.
  revert acc; induction ds as [|c ds IH]; intros acc H; [reflexivity|].
  cbn [forallb] in H. apply andb_prop in H as [Hc Hds].
  cbn [app py_format rev].
  assert (Ascii.eqb c "}" = false) as ->
    by (destruct (Ascii.eqb_spec c "}") as [->|]; [discriminate|reflexivity]).
  assert (Ascii.eqb c "{" = false) as ->
    by (destruct (Ascii.eqb_spec c "{") as [->|]; [discriminate|reflexivity]).
  rewrite IH by assumption. now rewrite <- app_assoc.
Qed.

End Format.

Lemma removelast_snoc (x : str) c : removelast (x ++ [c]) = x.
Proof. now rewrite removelast_app, app_nil_r by discriminate. Qed.

(** The field [{item:0Pd}] followed by an end of line. *)
Lemma py_format_field P n t :
  Re.at_eol t = true ->
  py_format (lit "item") n (format_substr (lit "item") P ++ t) None
  = Ok (Py.zero_pad P n ++ t).
Proof.
  intro Ht. pose proof (str_nat_digits P) as Hd.
  pose proof (str_nat_not_nil P) as Hne.
  assert (Et : py_format (lit "item") n t None = Ok t).
  { destruct t as [|c [|]]; [reflexivity| |discriminate].
    unfold Re.at_eol in Ht. apply Ascii.eqb_eq in Ht as ->. reflexivity. }
  change (py_format (lit "item") n ((Py.str_nat P ++ ["d"; "}"]) ++ t)
                    (Some ["0"; ":"; "m"; "e"; "t"; "i"])
          = Ok (Py.zero_pad P n ++ t)).
  rewrite <- (app_assoc (Py.str_nat P) ["d"; "}"] t).
  rewrite py_format_field_digits by assumption.
  cbn [app py_format Ascii.eqb Bool.eqb]. rewrite Et.
  cbn [rev]. rewrite rev_app_distr, rev_involutive. cbn [rev app].
  unfold render_field.
  change (upto_colon ("i" :: "t" :: "e" :: "m" :: ":" :: "0"
                          :: Py.str_nat P ++ ["d"]))
    with (lit "item").
  cbn [Py.str_eqb lit list_ascii_of_string Ascii.eqb Bool.eqb andb length
       skipn].
  rewrite removelast_snoc.
  rewrite (isdigit_digits _ Hne Hd).
  rewrite skipn_app, skipn_all, Nat.sub_diag. cbn [skipn app].
  cbn [Py.str_eqb Ascii.eqb Bool.eqb andb].
  now rewrite int_str_nat.
Qed.

Lemma replace1_app old new (x y : str) :
  Py.replace1 old new (x ++ y) = Py.replace1 old new x ++ Py.replace1 old new y.
Proof. unfold Py.replace1. apply flat_map_app. Qed.

Lemma replace1_id old new (x : str) :
  forallb (fun c => negb (Ascii.eqb c old)) x = true ->
  Py.replace1 old new x = x.
Proof.
  induction x as [|c x IH]; [reflexivity|]. cbn [forallb].
  intro H. apply andb_prop in H as [Hc Hx].
  unfold Py.replace1 in *. cbn [flat_map].
  apply negb_true_iff in Hc. rewrite Hc, (IH Hx). reflexivity.
Qed.

Lemma replace1_no_newline (x : str) :
  forallb Py.is_dot x = true ->
  forallb Py.is_dot (Py.replace1 "[" (lit "\[") x) = true.
Proof.
  induction x as [|c x IH]; [reflexivity|]. cbn [forallb].
  intro H. apply andb_prop in H as [Hc Hx].
  unfold Py.replace1 in *. cbn [flat_map]. rewrite forallb_app, (IH Hx).
  destruct (Ascii.eqb c "["); cbn [forallb]; [reflexivity|].
  now rewrite Hc.
Qed.

Lemma digits_no_bracket (x : str) :
  forallb Py.is_digit x = true ->
  forallb (fun c => negb (Ascii.eqb c "[")) x = true.
Proof.
  induction x as [|c x IH]; [reflexivity|]. cbn [forallb].
  intro H. apply andb_prop in H as [Hc Hx]. rewrite (IH Hx), andb_true_r.
  destruct (Ascii.eqb_spec c "[") as [->|]; [discriminate|reflexivity].
Qed.

(* ================================================================== *)
(** ** Rendering, then classifying *)

Section RenderedClassify.

Variables (pre t : str) (P : nat).
Hypothesis Hpre : forallb Py.is_dot pre = true.
Hypothesis Heol : Re.at_eol t = true.

Lemma classify_regex :
  classify AbstractSequence (pre ++ regex_substr P ++ t) = Ok (Some regex, P).
Proof.
  apply classify_slot; auto using regex_substr_shape; try discriminate.
  unfold parse_padding_from_match. rewrite group_flavor. cbn [format_type_eqb].
  change (format_type_eqb regex regex) with true. cbv iota.
  now rewrite regex_substr_padding.
Qed.

Lemma classify_percent :
  classify AbstractSequence (pre ++ percent_substr P ++ t)
  = Ok (Some percent, P).
Proof.
  apply classify_slot; auto using percent_substr_shape; try discriminate.
  unfold parse_padding_from_match. rewrite group_flavor.
  change (format_type_eqb percent percent) with true. cbv iota.
  now rewrite percent_substr_padding.
Qed.

Lemma classify_formatstring :
  classify AbstractSequence (pre ++ format_substr (lit "item") P ++ t)
  = Ok (Some formatstring, P).
Proof.
  apply classify_slot; auto using format_substr_shape; try discriminate.
  unfold parse_padding_from_match. rewrite group_flavor.
  change (format_type_eqb formatstring formatstring) with true. cbv iota.
  cbn [formatStringKey AbstractSequence].
  now rewrite format_substr_padding.
Qed.

Lemma classify_pounds :
  1 <= P -> ends_with (Py.is_char "#") pre = false ->
  classify AbstractSequence (pre ++ repeat "#" P ++ t) = Ok (Some pounds, P).
Proof.
  intros HP Hend.
  apply classify_slot; auto using pounds_shape; try discriminate.
  unfold parse_padding_from_match. rewrite group_flavor.
  change (format_type_eqb pounds pounds) with true. cbv iota.
  now rewrite repeat_length.
Qed.

Lemma zero_pad_nonneg n :
  (0 <= n)%Z -> length (Py.str_nat (Z.abs_nat n)) <= P ->
  slot_shape nums (Py.zero_pad P n)
  /\ length (Py.zero_pad P n) = P
  /\ exists v, Py.int (Py.zero_pad P n) = Some v.
Proof.
  intros Hn Hlen. unfold Py.zero_pad.
  destruct (Z.ltb_spec n 0); [lia|].
  pose proof (str_nat_not_nil (Z.abs_nat n)) as Hne.
  pose proof (str_nat_digits (Z.abs_nat n)) as Hd.
  repeat split.
  - intro E. apply app_eq_nil in E as [_ E]. contradiction.
  - now rewrite forallb_app, repeat_zero_digits, Hd.
  - rewrite length_app, repeat_length. lia.
  - exists (Z.abs_nat n). apply int_zeros, int_str_nat.
Qed.

Lemma classify_nums n :
  (0 <= n)%Z -> length (Py.str_nat (Z.abs_nat n)) <= P ->
  ends_with Py.is_digit pre = false ->
  classify AbstractSequence (pre ++ Py.zero_pad P n ++ t) = Ok (Some nums, P).
Proof.
  intros Hn Hlen Hend.
  destruct (zero_pad_nonneg n Hn Hlen) as (Hs & Hl & Hi).
  apply classify_slot; auto; try discriminate.
  unfold parse_padding_from_match. rewrite group_flavor.
  change (format_type_eqb nums nums) with true. cbv iota.
  now rewrite Hl.
Qed.

End RenderedClassify.

Section RenderSource.

Variables (src : str) (w : world) (pre t : str).
Hypothesis Hsrc : plain_source src w pre t.

Let Hparsed : _parsed (obj w) = true := ps_parsed _ _ _ _ Hsrc.

Lemma join_base_source sub : join_base (obj w) sub = pre ++ sub ++ t.
Proof. unfold join_base. now rewrite (ps_base _ _ _ _ Hsrc). Qed.

Lemma get_pound_string_source P :
  get_pound_string (Some P) w = (Ok (pre ++ repeat "#" P ++ t), w).
Proof.
  unfold get_pound_string, bind at 1. rewrite (ensure_parsed_parsed w Hparsed).
  unfold default_padding, bind, ret, get. now rewrite join_base_source.
Qed.

Lemma get_percent_string_source P :
  get_percent_string (Some P) w = (Ok (pre ++ percent_substr P ++ t), w).
Proof.
  unfold get_percent_string, bind at 1. rewrite (ensure_parsed_parsed w Hparsed).
  unfold default_padding, bind, ret, get. now rewrite join_base_source.
Qed.

Lemma get_format_string_source P :
  get_format_string (Some P) None w
  = (Ok (pre ++ format_substr (lit "item") P ++ t), w).
Proof.
  unfold get_format_string, bind at 1. rewrite (ensure_parsed_parsed w Hparsed).
  unfold default_padding, bind, ret, get.
  now rewrite join_base_source, (ps_cls _ _ _ _ Hsrc).
Qed.

Lemma get_regex_string_source P :
  exists w',
    get_regex_string (Some P) w
    = (Ok (Py.replace1 "[" (lit "\[") pre ++ regex_substr P ++ t), w').
Proof.
  unfold get_regex_string, bind at 1, get.
  rewrite (ps_regex _ _ _ _ Hsrc).
  unfold bind at 1. rewrite (ensure_parsed_parsed w Hparsed).
  unfold default_padding, bind, ret, get, modify. cbn [obj].
  rewrite join_base_source, !replace1_app.
  rewrite (replace1_id _ _ (regex_substr P)).
  - rewrite (replace1_id _ _ t); [eauto|].
    pose proof (ps_eol _ _ _ _ Hsrc) as Ht.
    destruct t as [|c [|]]; [reflexivity| |discriminate].
    unfold Re.at_eol in Ht. apply Ascii.eqb_eq in Ht as ->. reflexivity.
  - unfold regex_substr. rewrite !forallb_app.
    now rewrite (digits_no_bracket _ (str_nat_digits P)).
Qed.

Lemma get_string_source P n :
  no_braces pre = true ->
  get_string n (Some P) w = (Ok (pre ++ Py.zero_pad P n ++ t), w).
Proof.
  intro Hb. unfold get_string, bind at 1.
  rewrite (ensure_parsed_parsed w Hparsed).
  unfold bind at 1. rewrite get_format_string_source.
  unfold bind, get, lift. rewrite (ps_cls _ _ _ _ Hsrc).
  cbn [formatStringKey AbstractSequence].
  rewrite py_format_literal by assumption.
  now rewrite (py_format_field P n t (ps_eol _ _ _ _ Hsrc)).
Qed.

End RenderSource.




(* ================================================================== *)
(** * Further properties *)

Lemma rmatch_consumes r : forall pos rest c k res,
  Re.rmatch r pos rest c k = Some res ->
  exists u rest' c', rest = u ++ rest' /\ consumes r pos u rest' c c'
                     /\ k (pos + length u) rest' c' = Some res.
Proof.
  induction r as [| |x|cls|cls|cls|a IHa b IHb|a IHa b IHb|name a IHa];
    intros pos rest c k res H; cbn [Re.rmatch] in H.
  - destruct (Nat.eqb_spec pos 0) as [->|]; [|discriminate].
    exists [], rest, c. cbn; auto.
  - destruct (Re.at_eol rest) eqn:E; [|discriminate].
    exists [], rest, c. rewrite Nat.add_0_r. cbn; auto.
  - destruct rest as [|y rest]; [discriminate|].
    destruct (Ascii.eqb_spec y x) as [->|]; [|discriminate].
    exists [x], rest, c. cbn [length app consumes]. rewrite Nat.add_1_r. auto.
  - destruct rest as [|y rest]; [discriminate|].
    destruct (cls y) eqn:Ey; [|discriminate].
    apply star_greedy_sound in H. destruct H as (u & rest' & -> & Hu & Hk).
    exists (y :: u), rest', c. cbn [app consumes forallb length].
    rewrite Ey, Hu, Nat.add_succ_r. repeat split; auto. discriminate.
  - apply star_greedy_sound in H. destruct H as (u & rest' & -> & Hu & Hk).
    exists u, rest', c. cbn [consumes]. auto.
  - apply star_lazy_sound in H. destruct H as (u & rest' & -> & Hu & Hk).
    exists u, rest', c. cbn [consumes]. auto.
  - apply IHa in H. destruct H as (u1 & r1 & c1 & -> & H1 & H).
    apply IHb in H. destruct H as (u2 & r2 & c2 & -> & H2 & H).
    exists (u1 ++ u2), r2, c2. rewrite <- app_assoc, length_app, Nat.add_assoc.
    repeat split; auto. cbn [consumes]. eauto 7.
  - destruct (Re.rmatch a pos rest c k) eqn:E.
    + injection H as ->. apply IHa in E.
      destruct E as (u & r' & c' & -> & Hu & Hk).
      exists u, r', c'. cbn [consumes]. auto.
    + apply IHb in H. destruct H as (u & r' & c' & -> & Hu & Hk).
      exists u, r', c'. cbn [consumes]. auto.
  - apply IHa in H. destruct H as (u & r' & c' & -> & Hu & Hk).
    exists u, r', ((name, (pos, pos + length u)) :: c'). cbn [consumes]. eauto.
Qed.

Lemma consumes_alternatives pos u rest c c' :
  consumes SEQUENCE_ALTERNATIVES pos u rest c c' ->
  exists ft, slot_shape ft u
             /\ c' = (format_type_name ft, (pos, pos + length u)) :: c.
Proof.
  unfold SEQUENCE_ALTERNATIVES, ALT_nums, ALT_pounds, ALT_regex,
    ALT_formatstring, ALT_percent.
  cbn [consumes].
  intros [H|[H|[H|[H|H]]]].
  - destruct H as (c1 & (Hne & Hd & ->) & ->). exists nums. cbn; auto.
  - destruct H as (c1 & (Hne & Hd & ->) & ->). exists pounds. cbn; auto.
  - destruct H as (c1 & H & ->).
    destruct H as (u1 & r1 & c2 & -> & [-> ->] & H).
    destruct H as (u2 & r2 & c3 & -> & [-> ->] & H).
    destruct H as (u3 & r3 & c4 & -> & [-> ->] & H).
    destruct H as (u4 & r4 & c5 & -> & (Hne & Hd & ->) & [-> ->]).
    exists regex. split; [|reflexivity]. exists u4. cbn. auto.
  - destruct H as (c1 & H & ->).
    destruct H as (u1 & r1 & c2 & -> & [-> ->] & H).
    destruct H as (u2 & r2 & c3 & -> & (Hne & Hw & ->) & H).
    destruct H as (u3 & r3 & c4 & -> & [-> ->] & H).
    destruct H as (u4 & r4 & c5 & -> & (Hne' & Hd & ->) & H).
    destruct H as (u5 & r5 & c6 & -> & [-> ->] & [-> ->]).
    exists formatstring. split; [|reflexivity]. exists u2, u4.
    cbn. auto 6.
  - destruct H as (c1 & H & ->).
    destruct H as (u1 & r1 & c2 & -> & [-> ->] & H).
    destruct H as (u2 & r2 & c3 & -> & (Hne & Hd & ->) & [-> ->]).
    exists percent. split; [|reflexivity]. exists u2. cbn. auto.
Qed.

Lemma search_plain_split s m :
  Re.search DEFAULT_SEQUENCE_PATTERN s = Some m ->
  exists pre u sf t ft, match_split AbstractSequence s m pre u sf t ft.
Proof.
  unfold DEFAULT_SEQUENCE_PATTERN. rewrite search_bol. intro H.
  apply rmatch_consumes in H.
  destruct H as (w & rest & c' & -> & H & [= ->]).
  cbn [consumes] in H.
  destruct H as (u0 & w1 & c0 & -> & (-> & _ & ->) & H).
  destruct H as (pre & w2 & c1 & -> & (cp & (Hpre & ->) & ->) & H).
  destruct H as (u & w3 & c2 & -> & (cs & H & ->) & (-> & Ht & ->)).
  apply consumes_alternatives in H. destruct H as (ft & Hshape & ->).
  cbn [length Nat.add app] in *. rewrite app_nil_r.
  exists pre, u, [], rest, ft.
  split; cbn [separator cls_kind AbstractSequence app length];
    rewrite ?Nat.add_0_r; auto.
  - now rewrite <- app_assoc.
  - now destruct ft.
  - intro k. now destruct ft, k.
  - now destruct ft.
  - left. split; [reflexivity|]. now destruct ft.
Qed.

Lemma search_file_split s m :
  Re.search DEFAULT_FILE_SEQUENCE_PATTERN s = Some m ->
  exists pre u sf t ft, match_split FileSequence s m pre u sf t ft.
Proof.
  unfold DEFAULT_FILE_SEQUENCE_PATTERN. rewrite search_bol. intro H.
  apply rmatch_consumes in H.
  destruct H as (w & rest & c' & -> & H & [= ->]).
  cbn [consumes] in H.
  destruct H as (u0 & w1 & c0 & -> & (-> & _ & ->) & H).
  destruct H as (pre & w2 & c1 & -> & (cp & (Hpre & ->) & ->) & H).
  destruct H as (dot & w3 & c2 & -> & (-> & ->) & H).
  destruct H as (u & sf & c3 & -> & (cs & H & ->) & (cf & Hsf & ->)).
  apply consumes_alternatives in H. destruct H as (ft & Hshape & ->).
  cbn [length Nat.add app] in *.
  exists pre, u, sf, rest, ft.
  assert (Ht : Re.at_eol rest = true).
  { destruct Hsf as [H|H].
    - destruct H as (x & e & c4 & _ & _ & (c5 & H & _)).
      destruct H as (d & e1 & c6 & _ & _ & H).
      destruct H as (e2 & e3 & c7 & _ & _ & (_ & H & _)). exact H.
    - now destruct H as (_ & H & _). }
  split; cbn [separator cls_kind FileSequence app length];
    rewrite ?Nat.add_0_r; auto.
  - rewrite <- app_assoc. cbn [app]. now rewrite <- !app_assoc.
  - discriminate.
  - destruct Hsf as [H|H].
    + destruct H as (x & e & c4 & _ & (_ & ->) & (c5 & H & ->)).
      destruct H as (d & e1 & c6 & _ & (_ & ->) & H).
      destruct H as (e2 & e3 & c7 & _ & (_ & _ & ->) & (_ & _ & ->)).
      now destruct ft.
    + destruct H as (_ & _ & ->). now destruct ft.
  - destruct Hsf as [H|H].
    + destruct H as (x & e & c4 & _ & (_ & ->) & (c5 & H & ->)).
      destruct H as (d & e1 & c6 & _ & (_ & ->) & H).
      destruct H as (e2 & e3 & c7 & _ & (_ & _ & ->) & (_ & _ & ->)).
      now destruct ft.
    + destruct H as (_ & _ & ->). now destruct ft.
  - intro k. destruct Hsf as [H|H].
    + destruct H as (x & e & c4 & _ & (_ & ->) & (c5 & H & ->)).
      destruct H as (d & e1 & c6 & _ & (_ & ->) & H).
      destruct H as (e2 & e3 & c7 & _ & (_ & _ & ->) & (_ & _ & ->)).
      now destruct ft, k.
    + destruct H as (_ & _ & ->). now destruct ft, k.
  - destruct Hsf as [H|H].
    + right. destruct H as (x & e & c4 & -> & (Hx & ->) & (c5 & H & ->)).
      destruct H as (d & e1 & c6 & -> & (-> & ->) & H).
      destruct H as (e2 & e3 & c7 & -> & (Hne & He & ->) & (-> & _ & ->)).
      exists x, e2. rewrite app_nil_r. repeat split; auto.
      cbn. f_equal. f_equal; rewrite ?length_app; cbn [length]; lia.
    + left. destruct H as (-> & _ & ->). split; [reflexivity|].
      now destruct ft.
Qed.

Section Split.

Variables (c : seq_class) (s : str) (m : Re.caps) (pre u sf t : str)
          (ft : format_type).
Hypothesis Hm : match_split c s m pre u sf t ft.

Lemma split_slice_slot :
  Py.slice s (length pre + length (separator c))
           (length pre + length (separator c) + length u) = u.
Proof.
  rewrite (ms_string _ _ _ _ _ _ _ _ Hm), app_assoc, <- length_app.
  apply slice_mid.
Qed.

Lemma split_group_sequence : Re.group s "sequence" m = Some u.
Proof.
  unfold Re.group. rewrite (ms_sequence _ _ _ _ _ _ _ _ Hm).
  now rewrite split_slice_slot.
Qed.

Lemma split_group_flavor k :
  Re.group s (format_type_name k) m
  = if format_type_eqb ft k then Some u else None.
Proof.
  unfold Re.group. rewrite (ms_flavor _ _ _ _ _ _ _ _ Hm).
  destruct (format_type_eqb ft k); [|reflexivity].
  now rewrite split_slice_slot.
Qed.

Lemma split_group_truthy k : group_truthy s m k = format_type_eqb ft k.
Proof.
  unfold group_truthy. rewrite split_group_flavor.
  destruct (format_type_eqb ft k); [|reflexivity].
  pose proof (slot_shape_not_nil _ _ (ms_shape _ _ _ _ _ _ _ _ Hm)).
  now destruct u.
Qed.

Lemma split_pick_format_type :
  pick_format_type c s m SEQUENCE_FORMAT_TYPES None
  = match ft with
    | formatstring =>
        if Py.str_eqb (format_key_of u) (formatStringKey c)
        then Ok (Some ft) else Raise ValueError
    | _ => Ok (Some ft)
    end.
Proof.
  unfold SEQUENCE_FORMAT_TYPES. cbn [pick_format_type].
  rewrite !split_group_truthy, !split_group_flavor.
  destruct ft; reflexivity.
Qed.

Lemma split_seq_span :
  seq_span m = (length pre + length (separator c),
                length pre + length (separator c) + length u).
Proof. unfold seq_span. now rewrite (ms_sequence _ _ _ _ _ _ _ _ Hm). Qed.

Lemma split_firstn :
  firstn (length pre + length (separator c)) s = pre ++ separator c.
Proof.
  rewrite (ms_string _ _ _ _ _ _ _ _ Hm), app_assoc, <- length_app.
  apply firstn_skipn_mid.
Qed.

Lemma split_skipn :
  skipn (length pre + length (separator c) + length u) s = sf ++ t.
Proof.
  rewrite (ms_string _ _ _ _ _ _ _ _ Hm), app_assoc, <- length_app.
  apply firstn_skipn_mid.
Qed.

Lemma split_group_prefix : Re.group s "prefix" m = Some pre.
Proof.
  unfold Re.group. rewrite (ms_prefix _ _ _ _ _ _ _ _ Hm).
  unfold Py.slice. rewrite Nat.sub_0_r. cbn [skipn].
  rewrite (ms_string _ _ _ _ _ _ _ _ Hm).
  rewrite firstn_app, firstn_all, Nat.sub_diag. cbn [firstn].
  now rewrite app_nil_r.
Qed.

Lemma split_group_suffix :
  match Re.group s "suffix" m with Some g => g | None => [] end = sf.
Proof.
  unfold Re.group. rewrite (ms_suffix _ _ _ _ _ _ _ _ Hm).
  destruct (cls_kind c) eqn:Ek.
  - symmetry. now apply (ms_plain _ _ _ _ _ _ _ _ Hm).
  - unfold Py.slice. rewrite split_skipn.
    replace (_ + length sf - _) with (length sf) by lia.
    rewrite firstn_app, firstn_all, Nat.sub_diag. cbn [firstn]. apply app_nil_r.
Qed.

End Split.

Lemma str_eqb_eq (a b : str) : Py.str_eqb a b = true <-> a = b.
Proof.
  revert b. induction a as [|x a IH]; intros [|y b]; cbn [Py.str_eqb];
    split; try discriminate; auto.
  - destruct (Ascii.eqb_spec x y) as [->|]; [|discriminate].
    cbn [andb]. intro E. f_equal. now apply IH.
  - intros [= -> ->]. rewrite Ascii.eqb_refl. now apply IH.
Qed.

Lemma search_known_split c s m :
  known_class c -> Re.search (cls_regex c) s = Some m ->
  exists pre u sf t ft, match_split c s m pre u sf t ft.
Proof.
  intros [->| ->]; cbn [cls_regex AbstractSequence FileSequence].
  - apply search_plain_split.
  - apply search_file_split.
Qed.

Lemma validate_path_split c ve d s m ft :
  known_class c -> validate_path c ve d s = Ok (m, ft) ->
  exists pre u sf t,
    match_split c s m pre u sf t ft
    /\ (ft = formatstring -> format_key_of u = lit "item").
Proof.
  intros Hc. unfold validate_path.
  destruct (Re.search (cls_regex c) s) as [m'|] eqn:Es; [|discriminate].
  destruct (search_known_split c s m' Hc Es) as (pre & u & sf & t & ft' & Hm).
  rewrite (split_pick_format_type _ _ _ _ _ _ _ _ Hm).
  assert (Hk : formatStringKey c = lit "item") by (destruct Hc as [->| ->]; reflexivity).
  intro H. exists pre, u, sf, t.
  assert (E : m' = m /\ ft' = ft
              /\ (ft = formatstring -> format_key_of u = lit "item")).
  { destruct ft';
      try (destruct (cls_kind c);
           [|destruct (ve && negb (path_exists d (dirname s)))];
           try discriminate; injection H as <- <-;
           repeat split; auto; discriminate).
    rewrite Hk in H.
    destruct (Py.str_eqb (format_key_of u) (lit "item")) eqn:Ekey;
      [|discriminate].
    apply str_eqb_eq in Ekey.
    destruct (cls_kind c);
      [|destruct (ve && negb (path_exists d (dirname s)))];
      try discriminate; injection H as <- <-; auto. }
  destruct E as (<- & <- & E). auto.
Qed.

Lemma parse_values_split w w' :
  known_class (cls (obj w)) ->
  parse_values w = (Ok tt, w') ->
  exists pre u sf t ft, source_split (obj w') pre u sf t ft.
Proof.
  intros Hc.
  unfold parse_values, bind, modify, get, get_fs, lift, lift_opt, ret, raise.
  cbn [obj fs events with_range cls validateExists _string].
  destruct (validate_path _ _ _ _) as [[m ft]|e] eqn:Ev; [|discriminate].
  destruct (validate_path_split _ _ _ _ _ _ Hc Ev)
    as (pre & u & sf & t & Hm & Hkey).
  cbn [obj fs events with_parse cls _string].
  rewrite (split_group_sequence _ _ _ _ _ _ _ _ Hm).
  destruct (parse_padding_from_match _ _ m ft) as [p|e] eqn:Ep.
  - rewrite (split_seq_span _ _ _ _ _ _ _ _ Hm).
    intro H. exists pre, u, sf, t, ft.
    destruct ft;
      [destruct (Py.int u) as [n|] eqn:En; [|discriminate]| | | |];
      injection H as <-;
      (split; cbn;
       rewrite ?(split_firstn _ _ _ _ _ _ _ _ Hm),
               ?(split_skipn _ _ _ _ _ _ _ _ Hm);
       try reflexivity; try assumption; try discriminate).
    intros _. now exists n.
  - destruct ft; [destruct (Py.int _)| | | |]; discriminate.
Qed.

Lemma parse_values_same w r w' : parse_values w = (r, w') -> same_source w w'.
Proof.
  unfold parse_values, bind, modify, get, get_fs, lift, lift_opt, ret, raise.
  cbn [obj fs events with_range cls validateExists _string].
  destruct (validate_path _ _ _ _) as [[m ft]|e] eqn:Ev.
  - cbn [obj fs events with_parse cls _string].
    destruct (parse_padding_from_match _ _ m ft) as [p|e] eqn:Ep;
      destruct (seq_span m) as [a b];
      destruct ft; try destruct (Py.int _);
        intros [= <- <-]; repeat split.
  - intros [= <- <-]. repeat split.
Qed.

Lemma ensure_parsed_same w r w' : ensure_parsed w = (r, w') -> same_source w w'.
Proof.
  unfold ensure_parsed, bind, get.
  destruct (_parsed (obj w)).
  - intros [= <- <-]. repeat split.
  - apply parse_values_same.
Qed.

Lemma ensure_parsed_split w w' :
  known_class (cls (obj w)) -> _parsed (obj w) = false ->
  ensure_parsed w = (Ok tt, w') ->
  exists pre u sf t ft, source_split (obj w') pre u sf t ft.
Proof.
  intros Hc Hp. unfold ensure_parsed, bind, get. rewrite Hp.
  now apply parse_values_split.
Qed.

Lemma digit_of_char_digit x k :
  Py.is_digit x = true -> exists d, Py.digit_of_char x k = Some d.
Proof.
  destruct x as [[] [] [] [] [] [] [] []]; intro H; vm_compute in H;
    try discriminate; vm_compute; eauto.
Qed.

Lemma uint_of_chars_digits ds :
  forallb Py.is_digit ds = true -> exists d, Py.uint_of_chars ds = Some d.
Proof.
  induction ds as [|x ds IH]; cbn [forallb Py.uint_of_chars]; [eauto|].
  intro H. apply andb_prop in H as [Hx Hd].
  destruct (IH Hd) as [d ->]. now apply digit_of_char_digit.
Qed.

Lemma int_digits ds :
  ds <> [] -> forallb Py.is_digit ds = true -> exists n, Py.int ds = Some n.
Proof.
  intros Hne Hd. destruct (uint_of_chars_digits ds Hd) as [d E].
  unfold Py.int. destruct ds; [contradiction|]. rewrite E. cbn. eauto.
Qed.

Lemma upto_colon_word ws rest :
  forallb Py.is_word ws = true -> upto_colon (ws ++ ":" :: rest) = ws.
Proof.
  induction ws as [|x ws IH]; cbn [forallb app upto_colon].
  - reflexivity.
  - intro H. apply andb_prop in H as [Hx Hw].
    destruct (Ascii.eqb_spec x ":") as [->|]; [discriminate|].
    now rewrite IH.
Qed.

Lemma forallb_repeat (x : ascii) u :
  forallb (Py.is_char x) u = true -> u = repeat x (length u).
Proof.
  induction u as [|y u IH]; cbn [forallb repeat length]; [reflexivity|].
  intro H. apply andb_prop in H as [Hy Hu]. unfold Py.is_char in Hy.
  apply Ascii.eqb_eq in Hy. subst y. f_equal. now apply IH.
Qed.

(** The padding is read off the slot: its length for digits and
    pounds, the number written in it for the other flavors. *)
Lemma slot_padding c s m pre u sf t ft p :
  match_split c s m pre u sf t ft ->
  (ft = formatstring -> format_key_of u = lit "item") ->
  formatStringKey c = lit "item" ->
  parse_padding_from_match c s m ft = Ok p ->
  match ft with
  | nums | pounds => p = length u
  | regex =>
      exists ds, u = "\" :: "d" :: "{" :: ds ++ ["}"]
                 /\ Py.int ds = Some p
  | formatstring =>
      exists ds, u = "{" :: lit "item" ++ ":" :: ds ++ ["d"; "}"]
                 /\ Py.int ds = Some p
  | percent =>
      exists ds, u = "%" :: ds ++ ["d"] /\ Py.int ds = Some p
  end.
Proof.
  intros Hm Hkey Hk. unfold parse_padding_from_match.
  pose proof (split_group_flavor _ _ _ _ _ _ _ _ Hm ft) as Hg.
  replace (format_type_eqb ft ft) with true in Hg by now destruct ft.
  rewrite Hg. pose proof (ms_shape _ _ _ _ _ _ _ _ Hm) as Hshape.
  destruct ft; cbn [slot_shape] in Hshape.
  - now intros [= <-].
  - now intros [= <-].
  - destruct Hshape as (ds & Hne & Hd & ->). intro H. exists ds.
    split; [reflexivity|].
    change (Py.lstrip (lit "\d+{{") ("\" :: "d" :: "{" :: ds ++ ["}"]))
      with (Py.lstrip (lit "\d+{{") (ds ++ ["}"])) in H.
    rewrite (lstrip_digits (lit "\d+{{") eq_refl ds ["}"] Hne Hd) in H.
    rewrite (rstrip_snoc (lit "}}") ds "}" eq_refl) in H.
    rewrite (rstrip_digits (lit "}}") eq_refl ds Hne Hd) in H.
    destruct (Py.int ds); now inversion H.
  - destruct Hshape as (ws & ds & Hnw & Hw & Hne & Hd & ->).
    specialize (Hkey eq_refl). unfold format_key_of in Hkey.
    cbn [tl] in Hkey. rewrite (upto_colon_word ws _ Hw) in Hkey. subst ws.
    rewrite Hk. intro H. exists ds. split; [reflexivity|].
    change (Py.lstrip ("{" :: lit "item" ++ [":"])
                      ("{" :: lit "item" ++ ":" :: ds ++ ["d"; "}"]))
      with (Py.lstrip ("{" :: lit "item" ++ [":"]) (ds ++ ["d"; "}"])) in H.
    rewrite (lstrip_digits ("{" :: lit "item" ++ [":"]) eq_refl ds
                           ["d"; "}"] Hne Hd) in H.
    replace (ds ++ ["d"; "}"]) with ((ds ++ ["d"]) ++ ["}"]) in H
      by now rewrite <- app_assoc.
    rewrite (rstrip_snoc (lit "d}}") _ "}" eq_refl) in H.
    rewrite (rstrip_snoc (lit "d}}") _ "d" eq_refl) in H.
    rewrite (rstrip_digits (lit "d}}") eq_refl ds Hne Hd) in H.
    destruct (Py.int ds); now inversion H.
  - destruct Hshape as (ds & Hne & Hd & ->). intro H. exists ds.
    split; [reflexivity|].
    change (Py.lstrip (lit "%") ("%" :: ds ++ ["d"]))
      with (Py.lstrip (lit "%") (ds ++ ["d"])) in H.
    rewrite (lstrip_digits (lit "%") eq_refl ds ["d"] Hne Hd) in H.
    rewrite (rstrip_snoc (lit "d") ds "d" eq_refl) in H.
    rewrite (rstrip_digits (lit "d") eq_refl ds Hne Hd) in H.
    destruct (Py.int ds); now inversion H.
Qed.

Lemma startswith_app (p x : str) : Py.startswith (p ++ x) p = true.
Proof.
  induction p as [|c p IH]; [now destruct x|].
  cbn [app Py.startswith]. now rewrite Ascii.eqb_refl.
Qed.

Lemma str_eqb_refl (a : str) : Py.str_eqb a a = true.
Proof. now apply str_eqb_eq. Qed.

Lemma endswith_app (x p : str) : Py.endswith (x ++ p) p = true.
Proof.
  unfold Py.endswith. rewrite length_app.
  replace (length x + length p - length p) with (length x) by lia.
  rewrite skipn_app, skipn_all, Nat.sub_diag. cbn [skipn app].
  rewrite str_eqb_refl, andb_true_r. apply Nat.leb_le. lia.
Qed.

Lemma endswith_nil (x : str) : Py.endswith x [] = true.
Proof. rewrite <- (app_nil_r x) at 1. apply endswith_app. Qed.

Lemma at_eol_cases t : Re.at_eol t = true -> t = [] \/ t = [Py.newline].
Proof.
  destruct t as [|c [|]]; cbn; auto; try discriminate.
  intro H. apply Ascii.eqb_eq in H. subst. auto.
Qed.

Lemma no_final_newline (x t : str) :
  Re.at_eol t = true ->
  ends_with (Py.is_char Py.newline) (x ++ t) = false -> t = [].
Proof.
  intros Ht H. destruct (at_eol_cases t Ht) as [->| ->]; [reflexivity|].
  rewrite ends_with_snoc in H. discriminate.
Qed.

Section ParsedSource.

Variables (w : world) (pre u sf t : str) (ft : format_type).
Hypothesis Hs : source_split (obj w) pre u sf t ft.
Hypothesis Hc : known_class (cls (obj w)).

Let sep := separator (cls (obj w)).
Let Hm := ss_match _ _ _ _ _ _ Hs.
Let Hparsed : _parsed (obj w) = true := ss_parsed _ _ _ _ _ _ Hs.

Lemma source_key : formatStringKey (cls (obj w)) = lit "item".
Proof. destruct Hc as [-> | ->]; reflexivity. Qed.

Lemma source_string : _string (obj w) = (pre ++ sep) ++ u ++ sf ++ t.
Proof. rewrite <- app_assoc. exact (ms_string _ _ _ _ _ _ _ _ Hm). Qed.

Lemma source_prefix : group_or_empty (obj w) "prefix" = pre.
Proof.
  unfold group_or_empty. now rewrite (split_group_prefix _ _ _ _ _ _ _ _ Hm).
Qed.

Lemma source_suffix : group_or_empty (obj w) "suffix" = sf.
Proof. exact (split_group_suffix _ _ _ _ _ _ _ _ Hm). Qed.

Lemma source_join sub : join_base (obj w) sub = (pre ++ sep) ++ sub ++ sf ++ t.
Proof. unfold join_base. now rewrite (ss_base _ _ _ _ _ _ Hs). Qed.

Lemma source_start : fst (seq_span (the_match (obj w))) = length (pre ++ sep).
Proof.
  rewrite (split_seq_span _ _ _ _ _ _ _ _ Hm), length_app. reflexivity.
Qed.

Lemma source_padding :
  match ft with
  | nums | pounds => _padding (obj w) = length u
  | regex =>
      exists ds, u = "\" :: "d" :: "{" :: ds ++ ["}"]
                 /\ Py.int ds = Some (_padding (obj w))
  | formatstring =>
      exists ds, u = "{" :: lit "item" ++ ":" :: ds ++ ["d"; "}"]
                 /\ Py.int ds = Some (_padding (obj w))
  | percent =>
      exists ds, u = "%" :: ds ++ ["d"]
                 /\ Py.int ds = Some (_padding (obj w))
  end.
Proof.
  exact (slot_padding _ _ _ _ _ _ _ _ _ Hm (ss_key _ _ _ _ _ _ Hs)
                      source_key (ss_padding _ _ _ _ _ _ Hs)).
Qed.

(** A string with the prefix and the suffix of the source and as many
    characters in between is part of the sequence. *)
Lemma source_part v t' :
  length (v ++ t') = length (u ++ t) -> t' = [] \/ sf = [] ->
  is_part_pure (obj w) ((pre ++ sep) ++ v ++ sf ++ t') = true.
Proof.
  intros Hlen Ht. unfold is_part_pure.
  rewrite source_prefix, source_suffix, source_string.
  rewrite <- !(app_assoc pre sep), startswith_app.
  replace (length (pre ++ sep ++ u ++ sf ++ t)
           =? length (pre ++ sep ++ v ++ sf ++ t'))%nat with true.
  - cbn [andb]. destruct Ht as [-> | ->].
    + rewrite app_nil_r, !app_assoc. apply endswith_app.
    + apply endswith_nil.
  - symmetry. apply Nat.eqb_eq. rewrite !length_app in *. lia.
Qed.

Lemma source_slot v rest :
  length v = _padding (obj w) ->
  slot_of (obj w) ((pre ++ sep) ++ v ++ rest) = v.
Proof.
  intro Hv. unfold slot_of. rewrite source_start, <- Hv. apply slice_mid.
Qed.

Lemma source_slot_short v :
  length v <= _padding (obj w) ->
  slot_of (obj w) ((pre ++ sep) ++ v) = v.
Proof.
  intro Hv. unfold slot_of, Py.slice. rewrite source_start.
  rewrite skipn_app, skipn_all, Nat.sub_diag. cbn [skipn app].
  apply firstn_all2. lia.
Qed.

End ParsedSource.

Lemma chars_of_unorm d :
  d <> Nil ->
  exists k, Py.chars_of_uint d = repeat "0" k ++ Py.chars_of_uint (unorm d).
Proof.
  induction d as [|d IH| | | | | | | | |]; intro Hne;
    try (exists 0; reflexivity); [contradiction|].
  destruct d as [|d'| | | | | | | | |] eqn:E;
    try (exists 1; reflexivity).
  - exists 0. reflexivity.
  - destruct IH as [k Hk]; [discriminate|].
    exists (S k). cbn [Py.chars_of_uint unorm repeat app] in *. now rewrite Hk.
Qed.

Lemma chars_of_uint_inv ds d :
  Py.uint_of_chars ds = Some d -> Py.chars_of_uint d = ds.
Proof.
  revert d. induction ds as [|x ds IH]; cbn [Py.uint_of_chars]; intros d H.
  - now injection H as <-.
  - destruct (Py.uint_of_chars ds) as [k|]; [|discriminate].
    specialize (IH k eq_refl). subst ds. revert H.
    destruct x as [[] [] [] [] [] [] [] []]; vm_compute; try discriminate;
      now intros [= <-].
Qed.

(** Padding the value of a digit string to its own length gives the
    string back. *)
Lemma zero_pad_int ds n :
  forallb Py.is_digit ds = true -> Py.int ds = Some n ->
  Py.zero_pad (length ds) (Z.of_nat n) = ds.
Proof.
  intros Hd Hn. unfold Py.int in Hn.
  destruct ds as [|x ds']; [discriminate|]. set (ds := x :: ds') in *.
  destruct (Py.uint_of_chars ds) as [d|] eqn:Ed; [|discriminate].
  injection Hn as <-. apply chars_of_uint_inv in Ed.
  assert (Hne : d <> Nil) by (intro E; subst d; discriminate).
  destruct (chars_of_unorm d Hne) as [k Hk].
  unfold Py.zero_pad. destruct (Z.ltb_spec (Z.of_nat (Nat.of_uint d)) 0); [lia|].
  rewrite Zabs2Nat.id. unfold Py.str_nat. rewrite Unsigned.to_of.
  rewrite <- Ed, Hk at 1. rewrite length_app, repeat_length.
  replace (k + _ - _) with k by lia. congruence.
Qed.

Lemma validate_split w0 w :
  known_class (cls (obj w0)) -> _parsed (obj w0) = false ->
  validate w0 = (Ok tt, w) ->
  (exists pre u sf t ft, source_split (obj w) pre u sf t ft)
  /\ same_source w0 w.
Proof.
  intros Hc Hp Hv. split.
  - now apply (ensure_parsed_split w0).
  - now apply (ensure_parsed_same w0 (Ok tt)).
Qed.

Lemma formatType_parsed w :
  _parsed (obj w) = true -> formatType w = (Ok (_format_type (obj w)), w).
Proof. intro H. unfold formatType, bind. now rewrite ensure_parsed_parsed. Qed.

Lemma currentItem_parsed w :
  _parsed (obj w) = true -> currentItem w = (Ok (_current_item (obj w)), w).
Proof. intro H. unfold currentItem, bind. now rewrite ensure_parsed_parsed. Qed.

(** X1.  After a successful parse of an AbstractSequence or
    FileSequence, the source string is the prefix, the dot of the path
    pattern (FileSequence only), the current item, the suffix and at
    most one final newline; the current item has the shape of the format
    type, the prefix has no newline, and _base_sequence_items holds the
    text before and after the current item. *)
Theorem parse_splits_the_source (w0 w : world) :
  known_class (cls (obj w0)) -> _parsed (obj w0) = false ->
  validate w0 = (Ok tt, w) ->
  exists pre u sf t ft,
    _string (obj w0) = pre ++ separator (cls (obj w0)) ++ u ++ sf ++ t
    /\ prefix w = (Ok pre, w)
    /\ currentItem w = (Ok (Some u), w)
    /\ suffix w = (Ok sf, w)
    /\ formatType w = (Ok (Some ft), w)
    /\ slot_shape ft u
    /\ forallb Py.is_dot pre = true
    /\ (t = [] \/ t = [Py.newline])
    /\ (cls_kind (cls (obj w0)) = Abstract -> sf = [])
    /\ _base_sequence_items (obj w)
       = (pre ++ separator (cls (obj w0)), sf ++ t).
Proof.
  intros Hc Hp Hv.
  destruct (validate_split w0 w Hc Hp Hv)
    as ((pre & u & sf & t & ft & Hs) & Hsame).
  destruct Hsame as (_ & _ & Ecls & Estr & _).
  pose proof (ss_match _ _ _ _ _ _ Hs) as Hm.
  pose proof (ss_parsed _ _ _ _ _ _ Hs) as Hparsed.
  exists pre, u, sf, t, ft. rewrite <- Ecls, <- Estr.
  split; [exact (ms_string _ _ _ _ _ _ _ _ Hm)|].
  split; [rewrite prefix_parsed by assumption;
          now rewrite (source_prefix _ _ _ _ _ _ Hs)|].
  split; [rewrite currentItem_parsed by assumption;
          now rewrite (ss_item _ _ _ _ _ _ Hs)|].
  split; [rewrite suffix_parsed by assumption;
          now rewrite (source_suffix _ _ _ _ _ _ Hs)|].
  split; [rewrite formatType_parsed by assumption;
          now rewrite (ss_format _ _ _ _ _ _ Hs)|].
  split; [exact (ms_shape _ _ _ _ _ _ _ _ Hm)|].
  split; [exact (ms_pre _ _ _ _ _ _ _ _ Hm)|].
  split; [exact (at_eol_cases _ (ms_eol _ _ _ _ _ _ _ _ Hm))|].
  split; [exact (ms_plain _ _ _ _ _ _ _ _ Hm)|].
  exact (ss_base _ _ _ _ _ _ Hs).
Qed.

Lemma parse_splits_the_source_witness :
  let w0 := world_of FileSequence "/p/shot.0012.exr" None in
  let w := snd (validate w0) in
  known_class (cls (obj w0)) /\ _parsed (obj w0) = false
  /\ validate w0 = (Ok tt, w)
  /\ exists pre u sf t ft,
       _string (obj w0) = pre ++ separator (cls (obj w0)) ++ u ++ sf ++ t
       /\ prefix w = (Ok pre, w)
       /\ currentItem w = (Ok (Some u), w)
       /\ suffix w = (Ok sf, w)
       /\ formatType w = (Ok (Some ft), w)
       /\ slot_shape ft u
       /\ forallb Py.is_dot pre = true
       /\ (t = [] \/ t = [Py.newline])
       /\ (cls_kind (cls (obj w0)) = Abstract -> sf = [])
       /\ _base_sequence_items (obj w)
          = (pre ++ separator (cls (obj w0)), sf ++ t).
Proof.
  cbv zeta.
  assert (Hc : known_class
                 (cls (obj (world_of FileSequence "/p/shot.0012.exr" None))))
    by (right; reflexivity).
  assert (Hp : _parsed (obj (world_of FileSequence "/p/shot.0012.exr" None))
               = false) by reflexivity.
  assert (Hv : validate (world_of FileSequence "/p/shot.0012.exr" None)
               = (Ok tt, snd (validate
                                (world_of FileSequence "/p/shot.0012.exr" None))))
    by (vm_compute; reflexivity).
  refine (conj Hc (conj Hp (conj Hv _))).
  exact (parse_splits_the_source _ _ Hc Hp Hv).
Defined.

(** X2.  After a successful parse the padding is read off the current
    item: its length for digits and pounds, and the integer written in
    it for the pattern literal \d{N}, the template placeholder {item:Nd}
    and the printf form %Nd. *)
Theorem padding_is_read_off_the_slot (w0 w : world) :
  known_class (cls (obj w0)) -> _parsed (obj w0) = false ->
  validate w0 = (Ok tt, w) ->
  exists u ft p,
    currentItem w = (Ok (Some u), w)
    /\ formatType w = (Ok (Some ft), w)
    /\ padding w = (Ok p, w)
    /\ match ft with
       | nums | pounds => p = length u
       | regex =>
           exists ds, u = "\" :: "d" :: "{" :: ds ++ ["}"]
                      /\ Py.int ds = Some p
       | formatstring =>
           exists ds, u = "{" :: lit "item" ++ ":" :: ds ++ ["d"; "}"]
                      /\ Py.int ds = Some p
       | percent =>
           exists ds, u = "%" :: ds ++ ["d"] /\ Py.int ds = Some p
       end.
Proof.
  intros Hc Hp Hv.
  destruct (validate_split w0 w Hc Hp Hv)
    as ((pre & u & sf & t & ft & Hs) & Hsame).
  destruct Hsame as (_ & _ & Ecls & _).
  pose proof (ss_parsed _ _ _ _ _ _ Hs) as Hparsed.
  rewrite <- Ecls in Hc.
  exists u, ft, (_padding (obj w)).
  split; [rewrite currentItem_parsed by assumption;
          now rewrite (ss_item _ _ _ _ _ _ Hs)|].
  split; [rewrite formatType_parsed by assumption;
          now rewrite (ss_format _ _ _ _ _ _ Hs)|].
  split; [now apply padding_parsed|].
  exact (source_padding _ _ _ _ _ _ Hs Hc).
Qed.

Lemma padding_is_read_off_the_slot_witness :
  let w0 := world_of AbstractSequence "shot.%12d" None in
  let w := snd (validate w0) in
  known_class (cls (obj w0)) /\ _parsed (obj w0) = false
  /\ validate w0 = (Ok tt, w)
  /\ padding w = (Ok 12, w)
  /\ exists u ft p,
       currentItem w = (Ok (Some u), w)
       /\ formatType w = (Ok (Some ft), w)
       /\ padding w = (Ok p, w)
       /\ match ft with
          | nums | pounds => p = length u
          | regex =>
              exists ds, u = "\" :: "d" :: "{" :: ds ++ ["}"]
                         /\ Py.int ds = Some p
          | formatstring =>
              exists ds, u = "{" :: lit "item" ++ ":" :: ds ++ ["d"; "}"]
                         /\ Py.int ds = Some p
          | percent =>
              exists ds, u = "%" :: ds ++ ["d"] /\ Py.int ds = Some p
          end.
Proof.
  cbv zeta.
  assert (Hc : known_class
                 (cls (obj (world_of AbstractSequence "shot.%12d" None))))
    by (left; reflexivity).
  assert (Hp : _parsed (obj (world_of AbstractSequence "shot.%12d" None))
               = false) by reflexivity.
  assert (Hv : validate (world_of AbstractSequence "shot.%12d" None)
               = (Ok tt, snd (validate
                                (world_of AbstractSequence "shot.%12d" None))))
    by (vm_compute; reflexivity).
  refine (conj Hc (conj Hp (conj Hv (conj _ _)))).
  - vm_compute. reflexivity.
  - exact (padding_is_read_off_the_slot _ _ Hc Hp Hv).
Defined.

Lemma py_format_plain k n (y : str) :
  no_braces y = true -> py_format k n y None = Ok y.
Proof.
  intro H. rewrite <- (app_nil_r y) at 1.
  rewrite py_format_literal by assumption. cbn. now rewrite app_nil_r.
Qed.

(** The field [{item:0Pd}] followed by text without braces. *)
Lemma py_format_field_then P n y :
  no_braces y = true ->
  py_format (lit "item") n (format_substr (lit "item") P ++ y) None
  = Ok (Py.zero_pad P n ++ y).
Proof.
  intro Hy. pose proof (str_nat_digits P) as Hd.
  pose proof (str_nat_not_nil P) as Hne.
  pose proof (py_format_plain (lit "item") n y Hy) as Et.
  change (py_format (lit "item") n ((Py.str_nat P ++ ["d"; "}"]) ++ y)
                    (Some ["0"; ":"; "m"; "e"; "t"; "i"])
          = Ok (Py.zero_pad P n ++ y)).
  rewrite <- (app_assoc (Py.str_nat P) ["d"; "}"] y).
  rewrite py_format_field_digits by assumption.
  cbn [app py_format Ascii.eqb Bool.eqb]. rewrite Et.
  cbn [rev]. rewrite rev_app_distr, rev_involutive. cbn [rev app].
  unfold render_field.
  change (upto_colon ("i" :: "t" :: "e" :: "m" :: ":" :: "0"
                          :: Py.str_nat P ++ ["d"]))
    with (lit "item").
  cbn [Py.str_eqb lit list_ascii_of_string Ascii.eqb Bool.eqb andb length
       skipn].
  rewrite removelast_snoc.
  rewrite (isdigit_digits _ Hne Hd).
  rewrite skipn_app, skipn_all, Nat.sub_diag. cbn [skipn app].
  cbn [Py.str_eqb Ascii.eqb Bool.eqb andb].
  now rewrite int_str_nat.
Qed.

Section RenderParsed.

Variables (w : world) (pre u sf t : str) (ft : format_type).
Hypothesis Hs : source_split (obj w) pre u sf t ft.
Hypothesis Hc : known_class (cls (obj w)).

Let sep := separator (cls (obj w)).
Let Hparsed : _parsed (obj w) = true := ss_parsed _ _ _ _ _ _ Hs.

Lemma get_pound_string_parsed :
  get_pound_string None w
  = (Ok ((pre ++ sep) ++ repeat "#" (_padding (obj w)) ++ sf ++ t), w).
Proof.
  unfold get_pound_string, bind at 1. rewrite (ensure_parsed_parsed w Hparsed).
  unfold default_padding, bind at 1. rewrite (padding_parsed w Hparsed).
  unfold bind, ret, get. now rewrite (source_join _ _ _ _ _ _ Hs).
Qed.

Lemma get_format_string_parsed :
  get_format_string None None w
  = (Ok ((pre ++ sep) ++ format_substr (lit "item") (_padding (obj w))
                      ++ sf ++ t), w).
Proof.
  unfold get_format_string, bind at 1.
  rewrite (ensure_parsed_parsed w Hparsed).
  unfold default_padding, bind at 1, get. unfold bind at 1.
  rewrite (padding_parsed w Hparsed). unfold ret.
  now rewrite (source_join _ _ _ _ _ _ Hs), (source_key _ Hc).
Qed.

Lemma get_string_parsed n :
  no_braces (pre ++ sep) = true -> no_braces (sf ++ t) = true ->
  get_string n None w
  = (Ok ((pre ++ sep) ++ Py.zero_pad (_padding (obj w)) n ++ sf ++ t), w).
Proof.
  intros Hb1 Hb2. unfold get_string, bind at 1.
  rewrite (ensure_parsed_parsed w Hparsed).
  unfold bind at 1. rewrite get_format_string_parsed.
  unfold bind, get, lift. rewrite (source_key _ Hc).
  rewrite py_format_literal by assumption.
  now rewrite (py_format_field_then _ n _ Hb2).
Qed.

End RenderParsed.

(** X3.  Rendering a parsed source in its own flavor at its own padding
    gives the source string back: get_pound_string() for a pounds
    source, and get_string(currentItemNumber) for a digits source whose
    text around the slot has no brace. *)
Theorem source_renders_back (w0 w : world) :
  known_class (cls (obj w0)) -> _parsed (obj w0) = false ->
  validate w0 = (Ok tt, w) ->
  (_format_type (obj w) = Some pounds ->
   get_pound_string None w = (Ok (_string (obj w0)), w))
  /\ (forall n,
        _format_type (obj w) = Some nums ->
        _current_item_number (obj w) = Some n ->
        no_braces (fst (_base_sequence_items (obj w))) = true ->
        no_braces (snd (_base_sequence_items (obj w))) = true ->
        get_string n None w = (Ok (_string (obj w0)), w)).
Proof.
  intros Hc Hp Hv.
  destruct (validate_split w0 w Hc Hp Hv)
    as ((pre & u & sf & t & ft & Hs) & Hsame).
  destruct Hsame as (_ & _ & Ecls & Estr & _).
  rewrite <- Ecls in Hc. rewrite <- Estr.
  pose proof (source_padding _ _ _ _ _ _ Hs Hc) as Hpad.
  pose proof (ms_shape _ _ _ _ _ _ _ _ (ss_match _ _ _ _ _ _ Hs)) as Hshape.
  rewrite (ss_format _ _ _ _ _ _ Hs), (ss_base _ _ _ _ _ _ Hs).
  cbn [fst snd]. split.
  - intros [= ->]. rewrite (get_pound_string_parsed _ _ _ _ _ _ Hs).
    rewrite Hpad, (source_string _ _ _ _ _ _ Hs).
    destruct Hshape as [_ Hu]. now rewrite <- (forallb_repeat "#" u Hu).
  - intros n [= ->] Hn Hb1 Hb2.
    rewrite (get_string_parsed _ _ _ _ _ _ Hs Hc n Hb1 Hb2).
    rewrite Hpad, (source_string _ _ _ _ _ _ Hs).
    destruct (ss_number _ _ _ _ _ _ Hs eq_refl) as (v & Hv' & Hn').
    rewrite Hn in Hn'. injection Hn' as ->.
    destruct Hshape as [_ Hu]. now rewrite (zero_pad_int u v Hu Hv').
Qed.

Lemma source_renders_back_witness :
  let w0 := world_of FileSequence "/p/shot.0012.exr" None in
  let w := snd (validate w0) in
  known_class (cls (obj w0)) /\ _parsed (obj w0) = false
  /\ validate w0 = (Ok tt, w)
  /\ get_string 12 None w = (Ok (lit "/p/shot.0012.exr"), w).
Proof.
  cbv zeta.
  assert (Hc : known_class
                 (cls (obj (world_of FileSequence "/p/shot.0012.exr" None))))
    by (right; reflexivity).
  assert (Hp : _parsed (obj (world_of FileSequence "/p/shot.0012.exr" None))
               = false) by reflexivity.
  assert (Hv : validate (world_of FileSequence "/p/shot.0012.exr" None)
               = (Ok tt, snd (validate
                                (world_of FileSequence "/p/shot.0012.exr" None))))
    by (vm_compute; reflexivity).
  refine (conj Hc (conj Hp (conj Hv _))).
  refine (proj2 (source_renders_back _ _ Hc Hp Hv) 12%Z _ _ _ _);
    vm_compute; reflexivity.
Defined.

Lemma parse_values_number w w' :
  parse_values w = (Ok tt, w') ->
  _format_type (obj w') <> Some nums ->
  _current_item_number (obj w') = _current_item_number (obj w).
Proof.
  unfold parse_values, bind, modify, get, get_fs, lift, lift_opt, ret, raise.
  cbn [obj fs events with_range cls validateExists _string].
  destruct (validate_path _ _ _ _) as [[m ft]|e] eqn:Ev; [|discriminate].
  cbn [obj fs events with_parse cls _string].
  destruct (parse_padding_from_match _ _ m ft) as [p|e] eqn:Ep;
    destruct (seq_span m) as [a b];
    destruct ft; try destruct (Py.int _); try discriminate;
      intros [= <-]; cbn; congruence.
Qed.

Lemma isdigit_firstn_nondigit p c (rest : str) :
  Py.is_digit c = false -> Py.isdigit (firstn p (c :: rest)) = false.
Proof.
  intro Hc. destruct p; [reflexivity|].
  cbn [firstn Py.isdigit forallb]. now rewrite Hc.
Qed.

Section OwnItem.

Variables (w : world) (pre u sf t : str) (ft : format_type).
Hypothesis Hs : source_split (obj w) pre u sf t ft.
Hypothesis Hc : known_class (cls (obj w)).
Hypothesis Ht : t = [] \/ sf = [].

Let sep := separator (cls (obj w)).

Lemma own_part : is_part_pure (obj w) (_string (obj w)) = true.
Proof.
  rewrite (source_string _ _ _ _ _ _ Hs) at 1.
  now apply (source_part _ _ _ _ _ _ Hs).
Qed.

Lemma own_slot_nums :
  ft = nums -> slot_of (obj w) (_string (obj w)) = u.
Proof.
  intros ->. rewrite (source_string _ _ _ _ _ _ Hs) at 1.
  apply (source_slot _ _ _ _ _ _ Hs).
  symmetry. exact (source_padding _ _ _ _ _ _ Hs Hc).
Qed.

Lemma own_slot_other :
  ft <> nums -> Py.isdigit (slot_of (obj w) (_string (obj w))) = false.
Proof.
  intro Hft. unfold slot_of, Py.slice.
  rewrite (source_start _ _ _ _ _ _ Hs).
  rewrite (source_string _ _ _ _ _ _ Hs) at 1.
  rewrite skipn_app, skipn_all, Nat.sub_diag. cbn [skipn app].
  replace (_ + _padding (obj w) - _) with (_padding (obj w)) by lia.
  pose proof (ms_shape _ _ _ _ _ _ _ _ (ss_match _ _ _ _ _ _ Hs)) as Hshape.
  destruct ft; [contradiction| | | |]; cbn [slot_shape] in Hshape.
  - destruct Hshape as [Hne Hu]. destruct u as [|x u']; [contradiction|].
    cbn [forallb] in Hu. apply andb_prop in Hu as [Hx _].
    unfold Py.is_char in Hx. apply Ascii.eqb_eq in Hx. subst x.
    now apply isdigit_firstn_nondigit.
  - destruct Hshape as (ds & _ & _ & ->). now apply isdigit_firstn_nondigit.
  - destruct Hshape as (ws & ds & _ & _ & _ & _ & ->).
    now apply isdigit_firstn_nondigit.
  - destruct Hshape as (ds & _ & _ & ->). now apply isdigit_firstn_nondigit.
Qed.

Lemma own_num :
  (ft <> nums -> _current_item_number (obj w) = None) ->
  num_pure (obj w) (_string (obj w)) = Ok (_current_item_number (obj w)).
Proof.
  intro Hn. unfold num_pure. rewrite own_part.
  assert (D : ft = nums \/ ft <> nums)
    by (clear; destruct ft; (now left) || (right; discriminate)).
  destruct D as [E|E]; [|now rewrite own_slot_other, Hn].
  rewrite own_slot_nums by assumption.
  pose proof (ms_shape _ _ _ _ _ _ _ _ (ss_match _ _ _ _ _ _ Hs)) as Hshape.
  rewrite E in Hshape. destruct Hshape as [Hne Hu].
  rewrite (isdigit_digits _ Hne Hu).
  destruct (ss_number _ _ _ _ _ _ Hs E) as (v & -> & ->). reflexivity.
Qed.

End OwnItem.

(** X4.  For a new AbstractSequence, or a new FileSequence whose path
    does not end with a newline, once parsed the source string is part
    of its own sequence and num(source) equals currentItemNumber (the
    integer of the slot for a digits source, None for every other
    flavor). *)
Theorem source_is_its_own_item (w0 w : world) :
  known_class (cls (obj w0)) -> cleared (obj w0) ->
  validate w0 = (Ok tt, w) ->
  cls (obj w0) = AbstractSequence
  \/ ends_with (Py.is_char Py.newline) (_string (obj w0)) = false ->
  is_part_of_sequence (_string (obj w0)) w = (Ok true, w)
  /\ num (_string (obj w0)) w = currentItemNumber w.
Proof.
  intros Hc Hcl Hv Hnl.
  assert (Hp : _parsed (obj w0) = false) by (now rewrite <- Hcl).
  assert (Hn0 : _current_item_number (obj w0) = None) by (now rewrite <- Hcl).
  destruct (validate_split w0 w Hc Hp Hv)
    as ((pre & u & sf & t & ft & Hs) & Hsame).
  destruct Hsame as (_ & _ & Ecls & Estr & _).
  pose proof (ss_parsed _ _ _ _ _ _ Hs) as Hparsed.
  pose proof (ss_match _ _ _ _ _ _ Hs) as Hm.
  rewrite <- Ecls in Hc, Hnl. rewrite <- Estr in *.
  assert (Ht : t = [] \/ sf = []).
  { destruct Hnl as [E|E].
    - right. apply (ms_plain _ _ _ _ _ _ _ _ Hm). now rewrite E.
    - left. rewrite (source_string _ _ _ _ _ _ Hs), !app_assoc in E.
      exact (no_final_newline _ _ (ms_eol _ _ _ _ _ _ _ _ Hm) E). }
  rewrite is_part_of_sequence_parsed, num_parsed, currentItemNumber_parsed
    by assumption.
  rewrite (own_part _ _ _ _ _ _ Hs Ht).
  rewrite (own_num _ _ _ _ _ _ Hs Hc Ht); [auto|].
  intro Hft. rewrite <- Hn0.
  unfold validate, ensure_parsed, bind, get in Hv. rewrite Hp in Hv.
  apply (parse_values_number _ _ Hv).
  rewrite (ss_format _ _ _ _ _ _ Hs). congruence.
Qed.

Lemma source_is_its_own_item_witness :
  let w0 := world_of FileSequence "/p/shot.0012.exr" None in
  let w := snd (validate w0) in
  known_class (cls (obj w0)) /\ cleared (obj w0)
  /\ validate w0 = (Ok tt, w)
  /\ is_part_of_sequence (_string (obj w0)) w = (Ok true, w)
  /\ num (_string (obj w0)) w = (Ok (Some 12%Z), w).
Proof.
  cbv zeta.
  assert (Hc : known_class
                 (cls (obj (world_of FileSequence "/p/shot.0012.exr" None))))
    by (right; reflexivity).
  assert (Hp : cleared (obj (world_of FileSequence "/p/shot.0012.exr" None)))
    by reflexivity.
  assert (Hv : validate (world_of FileSequence "/p/shot.0012.exr" None)
               = (Ok tt, snd (validate
                                (world_of FileSequence "/p/shot.0012.exr" None))))
    by (vm_compute; reflexivity).
  assert (Hn : cls (obj (world_of FileSequence "/p/shot.0012.exr" None))
               = AbstractSequence
               \/ ends_with (Py.is_char Py.newline)
                    (_string (obj (world_of FileSequence "/p/shot.0012.exr"
                                            None))) = false)
    by (right; vm_compute; reflexivity).
  refine (conj Hc (conj Hp (conj Hv _))).
  destruct (source_is_its_own_item _ _ Hc Hp Hv Hn) as [H1 H2].
  split; [exact H1|]. rewrite H2. vm_compute. reflexivity.
Defined.

(** X5.  For a parsed digits or pounds source without braces around the
    slot (and, for a FileSequence, without a final newline),
    get_string(n) for 0 <= n with at most padding digits returns a
    string that is part of the sequence and that num reads back as n. *)
Theorem rendered_number_is_read_back (w0 w : world) (n : Z) :
  known_class (cls (obj w0)) -> _parsed (obj w0) = false ->
  validate w0 = (Ok tt, w) ->
  _format_type (obj w) = Some nums \/ _format_type (obj w) = Some pounds ->
  cls (obj w0) = AbstractSequence
  \/ ends_with (Py.is_char Py.newline) (_string (obj w0)) = false ->
  no_braces (fst (_base_sequence_items (obj w))) = true ->
  no_braces (snd (_base_sequence_items (obj w))) = true ->
  (0 <= n)%Z -> length (Py.str_nat (Z.abs_nat n)) <= _padding (obj w) ->
  exists s, get_string n None w = (Ok s, w)
            /\ is_part_of_sequence s w = (Ok true, w)
            /\ num s w = (Ok (Some n), w).
Proof.
  intros Hc Hp Hv Hft Hnl Hb1 Hb2 Hn Hlen.
  destruct (validate_split w0 w Hc Hp Hv)
    as ((pre & u & sf & t & ft & Hs) & Hsame).
  destruct Hsame as (_ & _ & Ecls & Estr & _).
  pose proof (ss_parsed _ _ _ _ _ _ Hs) as Hparsed.
  pose proof (ss_match _ _ _ _ _ _ Hs) as Hm.
  rewrite <- Ecls in Hc, Hnl. rewrite <- Estr in *.
  assert (Ht : t = [] \/ sf = []).
  { destruct Hnl as [E|E].
    - right. apply (ms_plain _ _ _ _ _ _ _ _ Hm). now rewrite E.
    - left. rewrite (source_string _ _ _ _ _ _ Hs), !app_assoc in E.
      exact (no_final_newline _ _ (ms_eol _ _ _ _ _ _ _ _ Hm) E). }
  rewrite (ss_base _ _ _ _ _ _ Hs) in Hb1, Hb2. cbn [fst snd] in Hb1, Hb2.
  assert (Hpad : _padding (obj w) = length u).
  { pose proof (source_padding _ _ _ _ _ _ Hs Hc) as H.
    rewrite (ss_format _ _ _ _ _ _ Hs) in Hft.
    destruct Hft as [[= ->]|[= ->]]; exact H. }
  destruct (zero_pad_nonneg (_padding (obj w)) n Hn Hlen)
    as ((Hzne & Hzd) & Hzl & _).
  eexists. split; [exact (get_string_parsed _ _ _ _ _ _ Hs Hc n Hb1 Hb2)|].
  rewrite is_part_of_sequence_parsed, num_parsed by assumption.
  unfold num_pure.
  rewrite (source_part _ _ _ _ _ _ Hs _ t)
    by (rewrite ?length_app in *; auto; lia).
  rewrite (source_slot _ _ _ _ _ _ Hs _ _ Hzl).
  rewrite (isdigit_digits _ Hzne Hzd).
  split; [reflexivity|].
  unfold Py.zero_pad. destruct (Z.ltb_spec n 0); [lia|].
  rewrite (int_zeros _ _ _ (int_str_nat (Z.abs_nat n))).
  now rewrite Zabs2Nat.id_abs, Z.abs_eq.
Qed.

Lemma rendered_number_is_read_back_witness :
  let w0 := world_of FileSequence "/p/shot.####.exr" None in
  let w := snd (validate w0) in
  known_class (cls (obj w0)) /\ _parsed (obj w0) = false
  /\ validate w0 = (Ok tt, w)
  /\ exists s, get_string 37 None w = (Ok s, w)
               /\ is_part_of_sequence s w = (Ok true, w)
               /\ num s w = (Ok (Some 37%Z), w).
Proof.
  cbv zeta.
  assert (Hc : known_class
                 (cls (obj (world_of FileSequence "/p/shot.####.exr" None))))
    by (right; reflexivity).
  assert (Hp : _parsed (obj (world_of FileSequence "/p/shot.####.exr" None))
               = false) by reflexivity.
  assert (Hv : validate (world_of FileSequence "/p/shot.####.exr" None)
               = (Ok tt, snd (validate
                                (world_of FileSequence "/p/shot.####.exr" None))))
    by (vm_compute; reflexivity).
  refine (conj Hc (conj Hp (conj Hv _))).
  refine (rendered_number_is_read_back _ _ 37%Z Hc Hp Hv _ _ _ _ _ _).
  - right. vm_compute. reflexivity.
  - right. vm_compute. reflexivity.
  - vm_compute. reflexivity.
  - vm_compute. reflexivity.
  - lia.
  - vm_compute. lia.
Defined.

Lemma steady_ret {A} (a : A) : steady (ret a).
Proof. now intros w _. Qed.

Lemma steady_raise {A} (e : exn) : steady (@raise A e).
Proof. now intros w _. Qed.

Lemma steady_lift {A} (r : result A) : steady (lift r).
Proof. destruct r; [apply steady_ret|apply steady_raise]. Qed.

Lemma steady_lift_opt {A} e (o : option A) : steady (lift_opt e o).
Proof. destruct o; [apply steady_ret|apply steady_raise]. Qed.

Lemma steady_get : steady get.
Proof. now intros w _. Qed.

Lemma steady_get_fs : steady get_fs.
Proof. now intros w _. Qed.

Lemma steady_bind {A B} (m : M A) (f : A -> M B) :
  steady m -> (forall a, steady (f a)) -> steady (bind m f).
Proof.
  intros Hm Hf w Hw. unfold bind. specialize (Hm w Hw).
  destruct (m w) as [[a|e] w1]; cbn [snd] in Hm; subst w1.
  - now apply Hf.
  - reflexivity.
Qed.

Lemma steady_for_each {A B} (l : list A) (acc : B) (body : A -> B -> M B) :
  (forall a b, steady (body a b)) -> steady (for_each l acc body).
Proof.
  intro Hb. revert acc; induction l as [|a l IH]; intro acc; cbn [for_each].
  - apply steady_ret.
  - apply steady_bind; [apply Hb|apply IH].
Qed.

Lemma steady_ensure_parsed : steady ensure_parsed.
Proof. intros w Hw. now rewrite ensure_parsed_parsed. Qed.

(** One step of a steadiness proof: split the computation at its head. *)
Ltac steady_step :=
  first
    [ apply steady_ret | apply steady_raise | apply steady_get
    | apply steady_get_fs | apply steady_lift | apply steady_lift_opt
    | apply steady_ensure_parsed
    | assumption
    | match goal with H : _ |- steady _ => apply H end
    | apply steady_bind; [|intro]
    | apply steady_for_each; intros
    | match goal with
      | |- steady (let '(_, _) := ?x in _) => destruct x
      | |- steady (if ?b then _ else _) => destruct b
      | |- steady (match ?x with _ => _ end) => destruct x
      end ].

Ltac steady_tac := repeat steady_step.

Lemma steady_padding : steady padding.
Proof. unfold padding. steady_tac. Qed.

Lemma steady_prefix : steady prefix.
Proof. unfold prefix. steady_tac. Qed.

Lemma steady_suffix : steady suffix.
Proof. unfold suffix. steady_tac. Qed.

Lemma steady_currentItemNumber : steady currentItemNumber.
Proof. unfold currentItemNumber. steady_tac. Qed.

Lemma steady_is_part_of_sequence x : steady (is_part_of_sequence x).
Proof.
  pose proof steady_prefix. pose proof steady_suffix.
  unfold is_part_of_sequence. steady_tac.
Qed.

Lemma steady_num x : steady (num x).
Proof.
  pose proof (steady_is_part_of_sequence x). pose proof steady_padding.
  unfold num. steady_tac.
Qed.

Lemma steady_get_format_string p k : steady (get_format_string p k).
Proof.
  pose proof steady_padding. unfold get_format_string, default_padding.
  steady_tac.
Qed.

Lemma steady_get_pound_string p : steady (get_pound_string p).
Proof.
  pose proof steady_padding. unfold get_pound_string, default_padding.
  steady_tac.
Qed.

Lemma steady_get_percent_string p : steady (get_percent_string p).
Proof.
  pose proof steady_padding. unfold get_percent_string, default_padding.
  steady_tac.
Qed.

Lemma steady_get_string n p : steady (get_string n p).
Proof.
  pose proof (steady_get_format_string p None). unfold get_string.
  steady_tac.
Qed.

Lemma steady_get_path n p : steady (get_path n p).
Proof.
  pose proof (steady_get_format_string p None). unfold get_path. steady_tac.
Qed.

Lemma steady_sourceNumber : steady sourceNumber.
Proof.
  pose proof steady_num. unfold sourceNumber, sourcePath. steady_tac.
Qed.

Lemma steady_build_from_input_abstract input :
  steady (build_from_input_abstract input).
Proof.
  pose proof steady_num. pose proof steady_currentItemNumber.
  unfold build_from_input_abstract. steady_tac.
Qed.

Lemma steady_build_from_input_file input :
  steady (build_from_input_file input).
Proof.
  pose proof steady_num. pose proof steady_is_part_of_sequence.
  pose proof steady_sourceNumber.
  unfold build_from_input_file, sourcePath. steady_tac.
Qed.

Lemma steady_build_from_disk : steady build_from_disk.
Proof.
  pose proof steady_padding. pose proof steady_is_part_of_sequence.
  pose proof steady_get_path.
  unfold build_from_disk, scan_files. steady_tac.
Qed.

Lemma ensure_parsed_ok w w1 :
  ensure_parsed w = (Ok tt, w1) -> _parsed (obj w1) = true.
Proof.
  unfold ensure_parsed, bind, get.
  destruct (_parsed (obj w)) eqn:E.
  - now intros [= <-].
  - intro H. apply parse_values_inv in H. destruct H as (m & ft & p & H).
    exact (pa_parsed _ _ _ _ _ H).
Qed.

(** How the item index is first built. *)
Lemma items_unbuilt w its w' :
  _built (obj w) = false -> items w = (Ok its, w') ->
  exists w1,
    ensure_parsed w = (Ok tt, w1) /\ _parsed (obj w1) = true
    /\ match cls_kind (cls (obj w1)), _input_items (obj w1) with
       | Abstract, None => w' = w1 /\ its = _sequence_items (obj w1)
       | Abstract, Some input =>
           exists raw,
             build_from_input_abstract input w1 = (Ok raw, w1)
             /\ its = dict_update (_sequence_items (obj w1)) (sorted_items raw)
             /\ w' = store_items w1 its
       | File, Some input =>
           exists raw,
             build_from_input_file input w1 = (Ok raw, w1)
             /\ its = dict_update (_sequence_items (obj w1)) (sorted_items raw)
             /\ w' = store_items w1 its
       | File, None =>
           exists raw,
             build_from_disk w1 = (Ok raw, w1)
             /\ its = dict_update (_sequence_items (obj w1)) (sorted_items raw)
             /\ w' = store_items w1 its
       end.
Proof.
  intros Hb. unfold items, bind at 1, get. rewrite Hb.
  unfold bind at 1. unfold bind at 1.
  unfold loadSequenceItems, bind at 1.
  destruct (ensure_parsed w) as [[[]|e] w1] eqn:Ep; [|discriminate].
  pose proof (ensure_parsed_ok _ _ Ep) as Hp.
  pose proof (ensure_parsed_same _ _ _ Ep) as Hsame.
  destruct Hsame as (_ & _ & _ & _ & _ & _ & _ & Eb & _).
  rewrite Hb in Eb.
  unfold bind at 1, get. unfold bind at 1. rewrite Eb.
  intro H. exists w1. split; [reflexivity|]. split; [assumption|].
  destruct (cls_kind (cls (obj w1))), (_input_items (obj w1)) as [input|].
  - unfold bind at 1 in H.
    pose proof (steady_build_from_input_abstract input w1 Hp) as Hs.
    destruct (build_from_input_abstract input w1) as [[raw|e] w2];
      cbn [snd] in Hs; subst w2; [|discriminate].
    exists raw. split; [reflexivity|].
    unfold modify, bind, ret, get in H. cbn in H.
    injection H as <- <-. split; reflexivity.
  - unfold bind, ret, get in H. now injection H as <- <-.
  - unfold bind at 1 in H.
    pose proof (steady_build_from_input_file input w1 Hp) as Hs.
    destruct (build_from_input_file input w1) as [[raw|e] w2];
      cbn [snd] in Hs; subst w2; [|discriminate].
    exists raw. split; [reflexivity|].
    unfold modify, bind, ret, get in H. cbn in H.
    injection H as <- <-. split; reflexivity.
  - unfold bind at 1 in H.
    pose proof (steady_build_from_disk w1 Hp) as Hs.
    destruct (build_from_disk w1) as [[raw|e] w2];
      cbn [snd] in Hs; subst w2; [|discriminate].
    exists raw. split; [reflexivity|].
    unfold modify, bind, ret, get in H. cbn in H.
    injection H as <- <-. split; reflexivity.
Qed.

Lemma key_eqb_eq a b : key_eqb a b = true <-> a = b.
Proof.
  destruct a as [x|], b as [y|]; cbn; split; try discriminate; auto.
  - intro H. apply Z.eqb_eq in H. now subst.
  - intros [= ->]. apply Z.eqb_refl.
Qed.

Lemma key_eqb_refl a : key_eqb a a = true.
Proof. now apply key_eqb_eq. Qed.

Lemma key_eqb_neq a b : key_eqb a b = false <-> a <> b.
Proof.
  split.
  - intros H E. apply key_eqb_eq in E. congruence.
  - intro H. destruct (key_eqb a b) eqn:E; [|reflexivity].
    apply key_eqb_eq in E. contradiction.
Qed.

Lemma key_eqb_sym a b : key_eqb a b = key_eqb b a.
Proof.
  destruct a as [x|], b as [y|]; cbn; auto. apply Z.eqb_sym.
Qed.

Lemma key_ltb_trans a b c :
  key_ltb a b = true -> key_ltb b c = true -> key_ltb a c = true.
Proof.
  unfold key_ltb. destruct a as [x|], b as [y|], c as [z|]; cbn;
    try discriminate; auto.
  rewrite !andb_true_iff, !negb_true_iff, !Z.leb_le, !Z.eqb_neq. lia.
Qed.

Lemma key_ltb_irrefl a : key_ltb a a = false.
Proof. unfold key_ltb. now rewrite key_eqb_refl, andb_false_r. Qed.

Lemma key_leb_false a b : key_leb a b = false -> key_ltb b a = true.
Proof.
  unfold key_ltb. destruct a as [x|], b as [y|]; cbn; try discriminate; auto.
  rewrite Z.leb_gt, andb_true_iff, negb_true_iff, Z.leb_le, Z.eqb_neq. lia.
Qed.

Lemma key_leb_neq a b : key_leb a b = true -> a <> b -> key_ltb a b = true.
Proof.
  intros H Hn. unfold key_ltb. rewrite H. apply key_eqb_neq in Hn.
  now rewrite Hn.
Qed.

Lemma key_ascending_cons x l :
  key_ascending (x :: l)
  <-> (forall y, In y l -> key_ltb x y = true) /\ key_ascending l.
Proof.
  revert x. induction l as [|y l IH]; intro x.
  - cbn. split; [intros _; split; [now intros|exact I]|trivial].
  - cbn [key_ascending]. fold (key_ascending (y :: l)). split.
    + intros [Hxy Hl]. split; [|exact Hl].
      intros z [<-|Hz]; [exact Hxy|].
      apply (key_ltb_trans x y z Hxy). now apply (proj1 (IH y) Hl).
    + intros [Hall Hl]. split; [apply Hall; now left|exact Hl].
Qed.

Lemma key_ascending_NoDup l : key_ascending l -> NoDup l.
Proof.
  induction l as [|x l IH]; [constructor|].
  intro H. apply key_ascending_cons in H as [Hall Hl].
  constructor; [|now apply IH].
  intro Hin. specialize (Hall x Hin). now rewrite key_ltb_irrefl in Hall.
Qed.

Lemma keys_insert_sorted kv l x :
  In x (keys (insert_sorted kv l)) <-> x = fst kv \/ In x (keys l).
Proof.
  unfold keys. induction l as [|kv' l IH]; cbn [insert_sorted map In].
  - intuition.
  - destruct (key_leb (fst kv') (fst kv)); cbn [map In]; [rewrite IH|];
      intuition.
Qed.

Lemma insert_sorted_ascending kv l :
  key_ascending (keys l) -> ~ In (fst kv) (keys l) ->
  key_ascending (keys (insert_sorted kv l)).
Proof.
  unfold keys. induction l as [|kv' l IH]; intros Hl Hn.
  - exact I.
  - cbn [insert_sorted]. cbn [map] in Hl, Hn.
    apply key_ascending_cons in Hl as [Hall Hl].
    destruct (key_leb (fst kv') (fst kv)) eqn:E; cbn [map].
    + apply key_ascending_cons. split.
      * intros y Hy. apply keys_insert_sorted in Hy as [->|Hy].
        -- apply key_leb_neq; [exact E|]. intro E'. apply Hn. now left.
        -- now apply Hall.
      * apply IH; [exact Hl|]. intro H. apply Hn. now right.
    + apply key_leb_false in E. apply key_ascending_cons. split.
      * intros y [<-|Hy]; [exact E|].
        apply (key_ltb_trans _ _ _ E). now apply Hall.
      * apply key_ascending_cons. now split.
Qed.

Lemma sorted_items_from acc d :
  key_ascending (keys acc) -> NoDup (keys d) ->
  (forall x, In x (keys d) -> ~ In x (keys acc)) ->
  key_ascending (keys (fold_left (fun acc kv => insert_sorted kv acc) d acc))
  /\ forall x, In x (keys (fold_left (fun acc kv => insert_sorted kv acc)
                                      d acc))
               <-> In x (keys acc) \/ In x (keys d).
Proof.
  revert acc. induction d as [|kv d IH]; intros acc Ha Hd Hdis.
  - cbn. split; [exact Ha|]. intuition.
  - cbn [fold_left]. unfold keys in Hd. cbn [map] in Hd.
    apply NoDup_cons_iff in Hd as [Hkv Hd].
    destruct (IH (insert_sorted kv acc)) as [H1 H2].
    + apply insert_sorted_ascending; [exact Ha|].
      apply Hdis. now left.
    + exact Hd.
    + intros x Hx Hin. apply keys_insert_sorted in Hin as [->|Hin].
      * contradiction.
      * apply (Hdis x); [now right|exact Hin].
    + split; [exact H1|]. intro x. rewrite H2, keys_insert_sorted.
      unfold keys. cbn [map In]. intuition.
Qed.

Lemma sorted_items_ascending d :
  NoDup (keys d) -> key_ascending (keys (sorted_items d)).
Proof.
  intro H. apply (sorted_items_from [] d); auto. exact I.
Qed.

Lemma dict_set_new k v d :
  ~ In k (keys d) -> dict_set k v d = d ++ [(k, v)].
Proof.
  unfold keys. induction d as [|[k' v'] d IH]; intro H; [reflexivity|].
  cbn [dict_set map In fst] in *.
  destruct (key_eqb k' k) eqn:E.
  - apply key_eqb_eq in E. subst. exfalso. apply H. now left.
  - cbn [app]. f_equal. apply IH. intro Hin. apply H. now right.
Qed.

Lemma dict_update_new d l :
  NoDup (keys l) -> (forall x, In x (keys l) -> ~ In x (keys d)) ->
  dict_update d l = d ++ l.
Proof.
  unfold dict_update. revert d. induction l as [|[k v] l IH]; intros d Hl Hdis.
  - cbn. now rewrite app_nil_r.
  - cbn [fold_left fst snd]. unfold keys in Hl. cbn [map fst] in Hl.
    apply NoDup_cons_iff in Hl as [Hk Hl].
    rewrite dict_set_new by (apply Hdis; now left).
    rewrite IH; [now rewrite <- app_assoc| exact Hl |].
    intros x Hx Hin. unfold keys in Hin. rewrite map_app in Hin.
    apply in_app_or in Hin as [Hin|[<-|[]]].
    + apply (Hdis x); [now right|exact Hin].
    + contradiction.
Qed.

Lemma ordered_dict_sorted d :
  NoDup (keys d) -> ordered_dict (sorted_items d) = sorted_items d.
Proof.
  intro H. unfold ordered_dict.
  rewrite dict_update_new; [reflexivity| |now intros].
  apply key_ascending_NoDup. now apply sorted_items_ascending.
Qed.

Lemma keys_dict_set k v d x :
  In x (keys (dict_set k v d)) <-> x = k \/ In x (keys d).
Proof.
  unfold keys. induction d as [|[k' v'] d IH]; cbn [dict_set map In fst].
  - intuition.
  - destruct (key_eqb k' k) eqn:E; cbn [map In fst].
    + apply key_eqb_eq in E. subst. intuition.
    + rewrite IH. intuition.
Qed.

Lemma dict_set_NoDup k v d : NoDup (keys d) -> NoDup (keys (dict_set k v d)).
Proof.
  unfold keys. induction d as [|[k' v'] d IH]; intro H.
  - cbn. constructor; [now intros []|constructor].
  - cbn [dict_set]. cbn [map fst] in H. apply NoDup_cons_iff in H as [Hk Hd].
    destruct (key_eqb k' k) eqn:E; cbn [map fst].
    + apply key_eqb_eq in E. subst. now constructor.
    + constructor; [|now apply IH].
      intro Hin. apply (keys_dict_set k v d k') in Hin as [->|Hin].
      * now rewrite key_eqb_refl in E.
      * contradiction.
Qed.

(** An invariant of the accumulator of a loop holds of its result. *)
Lemma for_each_invariant {A S} (P : S -> Prop) (l : list A)
      (body : A -> S -> M S) :
  (forall a acc w r w', P acc -> body a acc w = (Ok r, w') -> P r) ->
  forall acc w r w',
    P acc -> for_each l acc body w = (Ok r, w') -> P r.
Proof.
  intro Hb. induction l as [|a l IH]; intros acc w r w' Hacc H;
    cbn [for_each] in H.
  - unfold ret in H. now injection H as <- _.
  - unfold bind in H.
    destruct (body a acc w) as [[acc'|e] w1] eqn:E; [|discriminate].
    apply (IH acc' w1 r w'); [|exact H]. exact (Hb _ _ _ _ _ Hacc E).
Qed.

(** Case analysis on every value a hypothesis about a computation
    depends on. *)
Ltac monad_cases H :=
  unfold bind, ret, raise, lift, lift_opt in H;
  repeat match type of H with
         | context [match ?x with _ => _ end] =>
             let E := fresh "E" in destruct x eqn:E
         | context [if ?x then _ else _] =>
             let E := fresh "E" in destruct x eqn:E
         end;
  try discriminate.

Lemma build_from_input_abstract_NoDup input w raw w' :
  build_from_input_abstract input w = (Ok raw, w') -> NoDup (keys raw).
Proof.
  unfold build_from_input_abstract, bind at 1.
  destruct (for_each _ _ _ w) as [[r|e] w1] eqn:E; [|discriminate].
  assert (Hr : NoDup (keys r)).
  { apply (for_each_invariant (fun r => NoDup (keys r)) _ _) in E;
      [exact E| |constructor].
    intros a acc w2 r2 w3 Hacc H. monad_cases H.
    injection H as <- _. now apply dict_set_NoDup. }
  intro H. monad_cases H; injection H as <- _; auto using dict_set_NoDup.
Qed.

Lemma build_from_input_file_NoDup input w raw w' :
  build_from_input_file input w = (Ok raw, w') -> NoDup (keys raw).
Proof.
  unfold build_from_input_file, bind at 1.
  destruct (for_each _ _ _ w) as [[r|e] w1] eqn:E; [|discriminate].
  assert (Hr : NoDup (keys r)).
  { apply (for_each_invariant (fun r => NoDup (keys r)) _ _) in E;
      [exact E| |constructor].
    intros a acc w2 r2 w3 Hacc H. monad_cases H;
      injection H as <- _; auto using dict_set_NoDup. }
  intro H. monad_cases H; injection H as <- _; auto using dict_set_NoDup.
Qed.

Lemma build_from_disk_NoDup w raw w' :
  build_from_disk w = (Ok raw, w') -> NoDup (keys raw).
Proof.
  unfold build_from_disk, bind at 1, get. unfold bind at 1.
  destruct (padding w) as [[p|e] w1]; [|discriminate].
  unfold bind at 1.
  destruct (scan_files _ w1) as [[entries|e] w2]; [|discriminate].
  intro E.
  apply (for_each_invariant (fun r => NoDup (keys r)) _ _) in E;
    [exact E| |constructor].
  intros a acc w3 r3 w4 Hacc H. monad_cases H;
    injection H as <- _; auto using dict_set_NoDup.
Qed.

(** X6.  Whenever items succeeds on an object whose index has not been
    built (from explicit items or from the disk), the keys of the index
    it returns are in strictly ascending order (None before every
    integer), so no key occurs twice. *)
Theorem index_is_sorted (w0 w : world) (its : list (key * str)) :
  _built (obj w0) = false -> _sequence_items (obj w0) = [] ->
  items w0 = (Ok its, w) ->
  key_ascending (map fst its) /\ NoDup (map fst its).
Proof.
  intros Hb He Hi.
  assert (H : key_ascending (map fst its));
    [|split; [exact H|now apply key_ascending_NoDup]].
  destruct (items_unbuilt _ _ _ Hb Hi) as (w1 & Ep & Hp & H).
  destruct (ensure_parsed_same _ _ _ Ep) as (_ & _ & _ & _ & _ & _ & Ei & _).
  rewrite He in Ei. rewrite Ei in H.
  destruct (cls_kind (cls (obj w1))), (_input_items (obj w1)) as [input|].
  - destruct H as (raw & Hraw & -> & _).
    apply build_from_input_abstract_NoDup in Hraw.
    fold (ordered_dict (sorted_items raw)).
    rewrite ordered_dict_sorted by assumption.
    now apply sorted_items_ascending.
  - destruct H as (_ & ->). exact I.
  - destruct H as (raw & Hraw & -> & _).
    apply build_from_input_file_NoDup in Hraw.
    fold (ordered_dict (sorted_items raw)).
    rewrite ordered_dict_sorted by assumption.
    now apply sorted_items_ascending.
  - destruct H as (raw & Hraw & -> & _).
    apply build_from_disk_NoDup in Hraw.
    fold (ordered_dict (sorted_items raw)).
    rewrite ordered_dict_sorted by assumption.
    now apply sorted_items_ascending.
Qed.

Lemma index_is_sorted_witness :
  let w0 := world_of FileSequence "/p/a.0007.jpg"
              (Some ["/p/a.0009.jpg"; "/p/a.0003.jpg"; "/p/a.0009.jpg"]%string)
  in
  _built (obj w0) = false /\ _sequence_items (obj w0) = []
  /\ fst (items w0)
     = Ok [(Some 3%Z, lit "/p/a.0003.jpg"); (Some 7%Z, lit "/p/a.0007.jpg");
           (Some 9%Z, lit "/p/a.0009.jpg")]
  /\ key_ascending [Some 3%Z; Some 7%Z; Some 9%Z].
Proof.
  cbv zeta.
  assert (Hi : items (world_of FileSequence "/p/a.0007.jpg"
                 (Some ["/p/a.0009.jpg"; "/p/a.0003.jpg"; "/p/a.0009.jpg"]
                       %string))
               = (Ok [(Some 3%Z, lit "/p/a.0003.jpg");
                      (Some 7%Z, lit "/p/a.0007.jpg");
                      (Some 9%Z, lit "/p/a.0009.jpg")],
                  snd (items (world_of FileSequence "/p/a.0007.jpg"
                     (Some ["/p/a.0009.jpg"; "/p/a.0003.jpg";
                            "/p/a.0009.jpg"]%string)))))
    by (vm_compute; reflexivity).
  refine (conj eq_refl (conj eq_refl (conj _ _))).
  - now rewrite Hi.
  - match type of Hi with
    | items ?w = _ =>
        exact (proj1 (index_is_sorted w _ _ eq_refl eq_refl Hi))
    end.
Defined.

Lemma in_dict_set k v d kv :
  In kv (dict_set k v d) -> kv = (k, v) \/ In kv d.
Proof.
  induction d as [|[k' v'] d IH]; cbn [dict_set In].
  - intuition.
  - destruct (key_eqb k' k); cbn [In]; intuition.
Qed.

Lemma in_insert_sorted kv l x :
  In x (insert_sorted kv l) <-> x = kv \/ In x l.
Proof.
  induction l as [|kv' l IH]; cbn [insert_sorted In].
  - intuition.
  - destruct (key_leb (fst kv') (fst kv)); cbn [In]; [rewrite IH|]; intuition.
Qed.

Lemma in_sorted_items d x : In x (sorted_items d) <-> In x d.
Proof.
  unfold sorted_items.
  assert (H : forall acc,
             In x (fold_left (fun acc kv => insert_sorted kv acc) d acc)
             <-> In x acc \/ In x d).
  { induction d as [|kv d IH]; intro acc; cbn [fold_left In].
    - intuition.
    - rewrite IH, in_insert_sorted. intuition. }
  rewrite H. cbn. intuition.
Qed.

(** On a parsed object, an invariant of the accumulator of a steady
    loop holds of its result. *)
Lemma for_each_steady {A S} (P : S -> Prop) (l : list A)
      (body : A -> S -> M S) w :
  _parsed (obj w) = true ->
  (forall a acc, steady (body a acc)) ->
  (forall a acc r, P acc -> body a acc w = (Ok r, w) -> P r) ->
  forall acc r w', P acc -> for_each l acc body w = (Ok r, w') -> P r.
Proof.
  intros Hw Hs Hb. induction l as [|a l IH]; intros acc r w' Hacc H;
    cbn [for_each] in H.
  - unfold ret in H. now injection H as <- _.
  - unfold bind in H. pose proof (Hs a acc w Hw) as E.
    destruct (body a acc w) as [[acc'|e] w1] eqn:Eb; [|discriminate].
    cbn [snd] in E. subst w1.
    apply (IH acc' r w'); [|exact H]. exact (Hb _ _ _ Hacc Eb).
Qed.

Lemma filed_dict_set s k v d :
  filed s d -> num_pure s v = Ok k -> filed s (dict_set k v d).
Proof.
  intros Hd Hv kv Hin. apply in_dict_set in Hin as [->|Hin]; auto.
Qed.

Lemma build_from_input_file_filed input w raw w' :
  _parsed (obj w) = true ->
  build_from_input_file input w = (Ok raw, w') -> filed (obj w) raw.
Proof.
  intros Hw. unfold build_from_input_file, bind at 1.
  destruct (for_each _ _ _ w) as [[r|e] w1] eqn:E; [|discriminate].
  assert (Hw1 : w1 = w).
  { pose proof (steady_for_each input []
                  (fun path result =>
                     part <- is_part_of_sequence path ;;
                     if part
                     then n <- num path ;; ret (dict_set n path result)
                     else ret result)) as Hs.
    rewrite <- (Hs ltac:(intros; pose proof steady_num;
                         pose proof steady_is_part_of_sequence;
                         steady_tac) w Hw).
    now rewrite E. }
  subst w1.
  assert (Hr : filed (obj w) r).
  { apply (for_each_steady (filed (obj w)) _ _ w Hw) in E;
      [exact E| | |now intros ? []].
    - intros. pose proof steady_num. pose proof steady_is_part_of_sequence.
      steady_tac.
    - intros a acc r2 Hacc H. unfold bind at 1 in H.
      rewrite is_part_of_sequence_parsed in H by assumption.
      destruct (is_part_pure (obj w) a); unfold bind, ret in H.
      + rewrite num_parsed in H by assumption.
        destruct (num_pure (obj w) a) as [n|] eqn:En; [|discriminate].
        injection H as <-. now apply filed_dict_set.
      + now injection H as <-. }
  unfold sourcePath, bind at 1, get. unfold bind at 1, ret.
  unfold bind at 1. rewrite is_part_of_sequence_parsed by assumption.
  destruct (is_part_pure (obj w) (_string (obj w))).
  - unfold sourceNumber, bind at 1, get. unfold bind at 1.
    destruct (cls_kind (cls (obj w))); [discriminate|].
    unfold sourcePath, bind at 1, get. unfold bind at 1, ret.
    rewrite num_parsed by assumption.
    destruct (num_pure (obj w) (_string (obj w))) as [n|] eqn:En;
      [|discriminate].
    unfold bind, ret. intros [= <- _]. now apply filed_dict_set.
  - unfold ret. now intros [= <- _].
Qed.

Lemma build_from_input_abstract_filed input w raw w' :
  _parsed (obj w) = true ->
  num_pure (obj w) (_string (obj w)) = Ok (_current_item_number (obj w)) ->
  build_from_input_abstract input w = (Ok raw, w') -> filed (obj w) raw.
Proof.
  intros Hw Hown. unfold build_from_input_abstract, bind at 1.
  destruct (for_each _ _ _ w) as [[r|e] w1] eqn:E; [|discriminate].
  assert (Hw1 : w1 = w).
  { pose proof (steady_for_each input []
                  (fun item result =>
                     n <- num item ;; ret (dict_set n item result))) as Hs.
    rewrite <- (Hs ltac:(intros; pose proof steady_num; steady_tac) w Hw).
    now rewrite E. }
  subst w1.
  assert (Hr : filed (obj w) r).
  { apply (for_each_steady (filed (obj w)) _ _ w Hw) in E;
      [exact E| | |now intros ? []].
    - intros. pose proof steady_num. steady_tac.
    - intros a acc r2 Hacc H. unfold bind, ret in H.
      rewrite num_parsed in H by assumption.
      destruct (num_pure (obj w) a) as [n|] eqn:En; [|discriminate].
      injection H as <-. now apply filed_dict_set. }
  unfold bind at 1. rewrite currentItemNumber_parsed by assumption.
  destruct (_current_item_number (obj w)) as [c|] eqn:Ec.
  - destruct (c =? 0)%Z.
    + unfold ret. now intros [= <- _].
    + unfold bind, get, ret. intros [= <- _]. now apply filed_dict_set.
  - unfold ret. now intros [= <- _].
Qed.

Lemma nums_of_filed s its acc :
  filed s its -> nums_of s its acc = Ok (acc ++ map fst its).
Proof.
  revert acc. induction its as [|kv its IH]; intros acc H; cbn [nums_of map].
  - now rewrite app_nil_r.
  - rewrite (H kv) by now left.
    rewrite IH by (intros x Hx; apply H; now right).
    now rewrite <- app_assoc.
Qed.

Lemma filed_sorted s raw :
  NoDup (keys raw) -> filed s raw ->
  filed s (dict_update [] (sorted_items raw)).
Proof.
  intros Hn Hf. fold (ordered_dict (sorted_items raw)).
  rewrite ordered_dict_sorted by assumption.
  intros kv Hin. apply Hf. now apply in_sorted_items.
Qed.

Lemma cleared_fields s :
  cleared s ->
  _parsed s = false /\ _built s = false /\ _sequence_items s = []
  /\ _current_item_number s = None /\ _regex_string s = None
  /\ _range s = None.
Proof. intro H. rewrite <- H. now repeat split. Qed.

(** The object a cleared source parses to files its own string under
    its current number. *)
Lemma parsed_own_number w0 w1 :
  known_class (cls (obj w0)) -> cleared (obj w0) ->
  ensure_parsed w0 = (Ok tt, w1) ->
  cls_kind (cls (obj w0)) = Abstract ->
  num_pure (obj w1) (_string (obj w1)) = Ok (_current_item_number (obj w1)).
Proof.
  intros Hc Hcl Ep Hk.
  destruct (cleared_fields _ Hcl) as (Hp & _ & _ & Hn0 & _).
  destruct (validate_split w0 w1 Hc Hp Ep)
    as ((pre & u & sf & t & ft & Hs) & Hsame).
  destruct Hsame as (_ & _ & Ecls & _).
  rewrite <- Ecls in Hc, Hk.
  apply (own_num _ _ _ _ _ _ Hs Hc).
  - right. exact (ms_plain _ _ _ _ _ _ _ _ (ss_match _ _ _ _ _ _ Hs) Hk).
  - intro Hft. rewrite <- Hn0.
    unfold ensure_parsed, bind, get in Ep. rewrite Hp in Ep.
    apply (parse_values_number _ _ Ep).
    rewrite (ss_format _ _ _ _ _ _ Hs). congruence.
Qed.

(** X7.  For a new AbstractSequence or FileSequence given explicit
    items, once items has succeeded, numbers returns exactly the keys of
    the index, in its order, which is strictly ascending; a second call
    of items returns the same index. *)
Theorem numbers_are_the_keys (w0 w : world) (input : list str)
        (its : list (key * str)) :
  known_class (cls (obj w0)) -> cleared (obj w0) ->
  _input_items (obj w0) = Some input ->
  items w0 = (Ok its, w) ->
  numbers w = (Ok (map fst its), w)
  /\ key_ascending (map fst its)
  /\ items w = (Ok its, w).
Proof.
  intros Hc Hcl Hin Hi.
  destruct (cleared_fields _ Hcl) as (Hp & Hb & He & Hn0 & _).
  destruct (items_unbuilt _ _ _ Hb Hi) as (w1 & Ep & Hp1 & H).
  destruct (ensure_parsed_same _ _ _ Ep)
    as (_ & _ & Ecls & _ & Einp & _ & Eits & _).
  rewrite Einp, Hin, Eits, He in H.
  assert (Hfiled : exists raw,
             NoDup (keys raw) /\ filed (obj w1) raw
             /\ its = dict_update [] (sorted_items raw)
             /\ w = store_items w1 its).
  { destruct (cls_kind (cls (obj w1))) eqn:Ek;
      destruct H as (raw & Hraw & Hits & Hw); exists raw.
    - split; [exact (build_from_input_abstract_NoDup _ _ _ _ Hraw)|].
      split; [|now split].
      apply (build_from_input_abstract_filed input w1 raw w1 Hp1); [|exact Hraw].
      apply (parsed_own_number w0 w1 Hc Hcl Ep). now rewrite <- Ecls.
    - split; [exact (build_from_input_file_NoDup _ _ _ _ Hraw)|].
      split; [|now split].
      exact (build_from_input_file_filed input w1 raw w1 Hp1 Hraw). }
  destruct Hfiled as (raw & Hnd & Hf & Hits & Hw).
  assert (Hready : ready (obj w)) by (subst w; split; [exact Hp1|reflexivity]).
  assert (Hf' : filed (obj w) its).
  { subst w. rewrite Hits. exact (filed_sorted _ _ Hnd Hf). }
  assert (Es : _sequence_items (obj w) = its) by (now subst w).
  split; [|split].
  - rewrite (numbers_ready w Hready). unfold numbers_pure. rewrite Es.
    now rewrite (nums_of_filed _ _ [] Hf').
  - exact (proj1 (index_is_sorted _ _ _ Hb He Hi)).
  - rewrite (items_ready w Hready). now rewrite Es.
Qed.

Lemma numbers_are_the_keys_witness :
  let w0 := world_of AbstractSequence "aaa010.####"
              (Some ["aaa010.0003"; "aaa010.0001"; "aaa010.0002"]%string) in
  let w := snd (items w0) in
  known_class (cls (obj w0)) /\ cleared (obj w0)
  /\ numbers w = (Ok [Some 1%Z; Some 2%Z; Some 3%Z], w).
Proof.
  cbv zeta.
  assert (Hi : items (world_of AbstractSequence "aaa010.####"
                 (Some ["aaa010.0003"; "aaa010.0001"; "aaa010.0002"]%string))
               = (Ok [(Some 1%Z, lit "aaa010.0001");
                      (Some 2%Z, lit "aaa010.0002");
                      (Some 3%Z, lit "aaa010.0003")],
                  snd (items (world_of AbstractSequence "aaa010.####"
                     (Some ["aaa010.0003"; "aaa010.0001"; "aaa010.0002"]
                           %string)))))
    by (vm_compute; reflexivity).
  refine (conj (or_introl eq_refl) (conj eq_refl _)).
  match type of Hi with
  | items ?w = _ =>
      exact (proj1 (numbers_are_the_keys w _ _ _ (or_introl eq_refl) eq_refl
                                         eq_refl Hi))
  end.
Defined.

Lemma items_settled w :
  settled (obj w) -> items w = (Ok (_sequence_items (obj w)), w).
Proof.
  intros [Hp Hb]. unfold items, bind at 1, get.
  destruct (_built (obj w)) eqn:Eb; [reflexivity|].
  destruct Hb as [Hb|[Hk Hi]]; [discriminate|].
  unfold bind at 1. unfold bind at 1. unfold loadSequenceItems, bind at 1.
  rewrite (ensure_parsed_parsed w Hp). unfold bind at 1, get.
  unfold bind at 1. now rewrite Eb, Hk, Hi.
Qed.

Lemma steady_items_settled w :
  settled (obj w) -> snd (items w) = w.
Proof. intro H. now rewrite items_settled. Qed.

Lemma dict_mem_get k d :
  dict_mem k d = match dict_get k d with Some _ => true | None => false end.
Proof.
  unfold dict_mem. induction d as [|[k' v] d IH]; [reflexivity|].
  cbn [existsb dict_get fst]. now destruct (key_eqb k' k).
Qed.

Lemma dict_get_filter k d :
  NoDup (keys d) ->
  match dict_get k d with Some v => [v] | None => [] end
  = map snd (filter (fun kv => key_eqb (fst kv) k) d).
Proof.
  unfold keys. induction d as [|[k' v] d IH]; intro H; [reflexivity|].
  cbn [map fst] in H. apply NoDup_cons_iff in H as [Hk Hd].
  cbn [dict_get filter fst]. destruct (key_eqb k' k) eqn:E.
  - apply key_eqb_eq in E. subst k'. cbn [map snd]. f_equal.
    clear IH Hd. induction d as [|[k2 v2] d IH]; [reflexivity|].
    cbn [filter fst map] in *. destruct (key_eqb k2 k) eqn:E2.
    + apply key_eqb_eq in E2. subst. exfalso. apply Hk. now left.
    + apply IH. intro Hin. apply Hk. now right.
  - now apply IH.
Qed.

Lemma filter_none {A} (f : A -> bool) l :
  (forall x, In x l -> f x = false) -> filter f l = [].
Proof.
  induction l as [|x l IH]; intro H; [reflexivity|].
  cbn [filter]. rewrite (H x) by now left.
  apply IH. intros y Hy. apply H. now right.
Qed.

Lemma filter_all {A} (f : A -> bool) l :
  (forall x, In x l -> f x = true) -> filter f l = l.
Proof.
  induction l as [|x l IH]; intro H; [reflexivity|].
  cbn [filter]. rewrite (H x) by now left.
  f_equal. apply IH. intros y Hy. apply H. now right.
Qed.

(** In a sorted index, the entries up to [c] are those below [c],
    then the entry of [c]. *)
Lemma filter_between_step a c d :
  (a <= c)%Z -> key_ascending (keys d) ->
  filter (fun kv => between a c (fst kv)) d
  = filter (fun kv => between a (c - 1) (fst kv)) d
    ++ filter (fun kv => key_eqb (fst kv) (Some c)) d.
Proof.
  intros Hac. unfold keys. induction d as [|[k v] d IH]; intro H;
    [reflexivity|].
  cbn [map fst] in H. apply key_ascending_cons in H as [Hall Hd].
  specialize (IH Hd). cbn [filter fst].
  destruct k as [z|].
  - assert (B1 : between a c (Some z) = ((a <=? z)%Z && (z <=? c)%Z))
      by reflexivity.
    assert (B2 : between a (c - 1) (Some z)
                 = ((a <=? z)%Z && (z <=? c - 1)%Z)) by reflexivity.
    assert (B3 : key_eqb (Some z) (Some c) = (z =? c)%Z) by reflexivity.
    rewrite B1, B2, B3. clear B1 B2 B3.
    destruct (Z.compare_spec z c) as [->|Hlt|Hgt].
    + assert (Hrest : forall P : key * str -> bool,
                 (forall kv, P kv = true -> key_leb (fst kv) (Some c) = true) ->
                 filter P d = []).
      { intros P HP. apply filter_none. intros kv Hin.
        destruct (P kv) eqn:E; [|reflexivity]. apply HP in E.
        specialize (Hall (fst kv) (in_map fst _ _ Hin)).
        unfold key_ltb in Hall. destruct (fst kv) as [y|]; cbn in *;
          [|discriminate].
        apply andb_prop in Hall as [H1 H2]. apply negb_true_iff in H2.
        apply Z.leb_le in H1, E. apply Z.eqb_neq in H2. lia. }
      rewrite !Hrest.
      * rewrite Z.eqb_refl.
        replace (a <=? c)%Z with true by (symmetry; now apply Z.leb_le).
        rewrite Z.leb_refl.
        replace (c <=? c - 1)%Z with false by (symmetry; apply Z.leb_gt; lia).
        reflexivity.
      * intros kv E. apply key_eqb_eq in E. rewrite E. cbn. apply Z.leb_refl.
      * intros kv E. unfold between in E. destruct (fst kv); [|discriminate].
        apply andb_prop in E as [_ E]. cbn. apply Z.leb_le in E.
        apply Z.leb_le. lia.
      * intros kv E. unfold between in E. destruct (fst kv); [|discriminate].
        apply andb_prop in E as [_ E]. exact E.
    + replace (z =? c)%Z with false by (symmetry; apply Z.eqb_neq; lia).
      replace (z <=? c)%Z with true by (symmetry; apply Z.leb_le; lia).
      replace (z <=? c - 1)%Z with true by (symmetry; apply Z.leb_le; lia).
      destruct (a <=? z)%Z; cbn [andb app]; now rewrite IH.
    + replace (z =? c)%Z with false by (symmetry; apply Z.eqb_neq; lia).
      replace (z <=? c)%Z with false by (symmetry; apply Z.leb_gt; lia).
      replace (z <=? c - 1)%Z with false by (symmetry; apply Z.leb_gt; lia).
      rewrite andb_false_r. exact IH.
  - exact IH.
Qed.

(** The values of a sorted index found by walking the numbers from [a]
    up. *)
Lemma walk_sorted d a n :
  key_ascending (keys d) ->
  flat_map (fun x => match dict_get (Some x) d with
                     | Some v => [v]
                     | None => []
                     end)
           (map (fun i => (a + Z.of_nat i)%Z) (seq 0 n))
  = map snd (filter (fun kv => between a (a + Z.of_nat n - 1) (fst kv)) d).
Proof.
  intro Hd. induction n as [|n IH].
  - cbn [seq map flat_map]. rewrite filter_none; [reflexivity|].
    intros kv _. unfold between. destruct (fst kv) as [z|]; [|reflexivity].
    destruct (Z.leb_spec a z), (Z.leb_spec z (a + Z.of_nat 0 - 1));
      try reflexivity.
    lia.
  - rewrite seq_S, map_app, flat_map_app, IH. cbn [map flat_map Nat.add].
    rewrite app_nil_r.
    rewrite (dict_get_filter _ _ (key_ascending_NoDup _ Hd)).
    rewrite <- map_app.
    replace (a + Z.of_nat (S n) - 1)%Z with (a + Z.of_nat n)%Z by lia.
    now rewrite (filter_between_step a (a + Z.of_nat n)) by (auto; lia).
Qed.

Lemma py_range_up a b :
  py_range a (b + 1) 1
  = map (fun i => (a + Z.of_nat i)%Z) (seq 0 (Z.to_nat (b + 1 - a))).
Proof.
  unfold py_range. cbn [Z.ltb Z.compare].
  rewrite Z.div_1_r. replace (b + 1 - a + 1 - 1)%Z with (b + 1 - a)%Z by lia.
  apply map_ext. intro i. lia.
Qed.

Section SliceLoop.

Variable w : world.
Hypothesis Hw : settled (obj w).

Let d := _sequence_items (obj w).

Lemma slice_loop xs acc :
  for_each xs acc
    (fun x result =>
       its <- items ;;
       if dict_mem (Some x) its
       then its <- items ;;
            v <- lift_opt KeyError (dict_get (Some x) its) ;;
            ret (result ++ [v])
       else ret result) w
  = (Ok (acc ++ flat_map (fun x => match dict_get (Some x) d with
                                   | Some v => [v]
                                   | None => []
                                   end) xs), w).
Proof.
  revert acc. induction xs as [|x xs IH]; intro acc; cbn [for_each flat_map].
  - unfold ret. now rewrite app_nil_r.
  - unfold bind at 1. unfold bind at 1. rewrite (items_settled w Hw).
    rewrite dict_mem_get. fold d.
    destruct (dict_get (Some x) d) as [v|] eqn:E.
    + unfold bind at 1. rewrite (items_settled w Hw). fold d. rewrite E.
      unfold lift_opt, bind at 1, ret at 1. unfold ret at 1.
      rewrite IH. now rewrite <- app_assoc.
    + unfold ret at 1. rewrite IH. reflexivity.
Qed.

End SliceLoop.

(** X8.  On an object whose index is stored and sorted, seq[a:b] with
    integer bounds returns the values of exactly the keys k with a <= k
    <= b, both ends included, in ascending order of the keys. *)
Theorem slice_is_inclusive (w : world) (a b : Z) :
  settled (obj w) ->
  key_ascending (map fst (_sequence_items (obj w))) ->
  getitem_slice (Some a) (Some b) None w
  = (Ok (map snd (filter (fun kv => between a b (fst kv))
                         (_sequence_items (obj w)))), w).
Proof.
  intros Hw Hd. unfold getitem_slice, parse_slice_indices.
  unfold bind at 1. unfold bind at 1. unfold bind at 1. unfold ret at 1.
  unfold bind at 1, ret at 1. unfold ret at 1. cbv iota beta.
  unfold slice_range. cbn [Z.eqb]. unfold bind at 1, ret at 1.
  rewrite (slice_loop w Hw). cbn [app]. rewrite py_range_up.
  rewrite (walk_sorted _ a _ Hd). do 3 f_equal.
  destruct (Z.le_gt_cases a (b + 1)) as [H|H].
  - rewrite Z2Nat.id by lia.
    apply filter_ext. intro kv. f_equal. lia.
  - replace (Z.to_nat (b + 1 - a)) with 0%nat by lia.
    rewrite !filter_none; [reflexivity| |];
      intros kv _; unfold between; destruct (fst kv) as [z|]; try reflexivity;
        destruct (Z.leb_spec a z); cbn [andb]; try reflexivity;
          apply Z.leb_gt; lia.
Qed.

Lemma slice_is_inclusive_witness :
  let w := built_world AbstractSequence "aaa010.####"
             (Some ["aaa010.0001"; "aaa010.0002"; "aaa010.0003";
                    "aaa010.0005"]%string) in
  settled (obj w)
  /\ key_ascending (map fst (_sequence_items (obj w)))
  /\ getitem_slice (Some 2%Z) (Some 4%Z) None w
     = (Ok [lit "aaa010.0002"; lit "aaa010.0003"], w).
Proof.
  cbv zeta.
  assert (Hs : settled (obj (built_world AbstractSequence "aaa010.####"
                 (Some ["aaa010.0001"; "aaa010.0002"; "aaa010.0003";
                        "aaa010.0005"]%string))))
    by (split; [|left]; vm_compute; reflexivity).
  assert (Ha : key_ascending
                 (map fst (_sequence_items
                    (obj (built_world AbstractSequence "aaa010.####"
                       (Some ["aaa010.0001"; "aaa010.0002"; "aaa010.0003";
                              "aaa010.0005"]%string))))))
    by (vm_compute; auto).
  refine (conj Hs (conj Ha _)).
  rewrite (slice_is_inclusive _ 2 4 Hs Ha). vm_compute. reflexivity.
Defined.

Lemma key_ascending_last l d k :
  key_ascending l -> In k l -> key_leb k (last l d) = true.
Proof.
  revert k. induction l as [|x l IH]; intro k; [now intros _ []|].
  intros H Hin. apply key_ascending_cons in H as [Hall Hl].
  destruct l as [|y l'].
  - destruct Hin as [<-|[]]. cbn. destruct x; cbn; auto. apply Z.leb_refl.
  - change (last (x :: y :: l') d) with (last (y :: l') d).
    destruct Hin as [<-|Hin]; [|now apply IH].
    assert (Hx : key_ltb x y = true) by (apply Hall; now left).
    assert (Hy : key_leb y (last (y :: l') d) = true)
      by (apply IH; [exact Hl|now left]).
    unfold key_ltb in Hx. apply andb_prop in Hx as [Hx _].
    revert Hy. generalize (last (y :: l') d). intros L Hy.
    destruct x as [a|], y as [b|], L as [c|];
      cbn in *; try discriminate; auto.
    apply Z.leb_le in Hx, Hy. apply Z.leb_le. lia.
Qed.

Lemma key_ascending_first x l k :
  key_ascending (x :: l) -> In k (x :: l) -> key_leb x k = true.
Proof.
  intros H [<-|Hin].
  - destruct x; cbn; auto. apply Z.leb_refl.
  - apply key_ascending_cons in H as [Hall _]. specialize (Hall k Hin).
    unfold key_ltb in Hall. now apply andb_prop in Hall as [Hx _].
Qed.

Lemma nth_error_last {A} (l : list A) (d : A) :
  l <> [] -> nth_error l (length l - 1) = Some (last l d).
Proof.
  induction l as [|x l IH]; [contradiction|]. intros _.
  destruct l as [|y l']; [reflexivity|].
  change (last (x :: y :: l') d) with (last (y :: l') d).
  rewrite <- IH by discriminate. cbn [length]. rewrite !Nat.sub_succ, !Nat.sub_0_r.
  reflexivity.
Qed.

Section Ends.

Variable w : world.
Hypothesis Hw : settled (obj w).

Let d := _sequence_items (obj w).

Lemma firstItemNumber_settled :
  firstItemNumber w
  = (Ok match d with [] => None | kv :: _ => fst kv end, w).
Proof.
  unfold firstItemNumber, bind at 1. rewrite (items_settled w Hw). fold d.
  destruct d as [|kv d'] eqn:E; [reflexivity|].
  unfold bind. rewrite (items_settled w Hw). fold d. now rewrite E.
Qed.

Lemma lastItemNumber_settled :
  lastItemNumber w
  = (Ok match d with [] => None | kv :: d' => last (keys d) None end, w).
Proof.
  unfold lastItemNumber, bind at 1. rewrite (items_settled w Hw). fold d.
  destruct d as [|kv d'] eqn:E; [reflexivity|].
  unfold bind. rewrite (items_settled w Hw). fold d. rewrite E.
  rewrite <- (length_map fst).
  rewrite (nth_error_last (map fst (kv :: d')) None) by discriminate.
  reflexivity.
Qed.

Lemma getitem_settled k :
  getitem k w = (match dict_get k d with
                 | Some v => Ok v
                 | None => Raise KeyError
                 end, w).
Proof.
  unfold getitem, bind. rewrite (items_settled w Hw). fold d.
  now destruct (dict_get k d).
Qed.

(** The body of [__getitem__] for a slice whose bounds are known. *)
Lemma slice_walk a b :
  key_ascending (keys d) ->
  bind (slice_range (Some a) (Some b) 1)
       (fun xs =>
          for_each xs []
            (fun x result =>
               its <- items ;;
               if dict_mem (Some x) its
               then its <- items ;;
                    v <- lift_opt KeyError (dict_get (Some x) its) ;;
                    ret (result ++ [v])
               else ret result)) w
  = (Ok (map snd (filter (fun kv => between a b (fst kv)) d)), w).
Proof.
  intro Hd. unfold slice_range. cbn [Z.eqb]. unfold bind at 1, ret at 1.
  rewrite (slice_loop w Hw). cbn [app]. rewrite py_range_up.
  fold d. rewrite (walk_sorted _ a _ Hd). do 3 f_equal.
  destruct (Z.le_gt_cases a (b + 1)) as [H|H].
  - rewrite Z2Nat.id by lia.
    apply filter_ext. intro kv. f_equal. lia.
  - replace (Z.to_nat (b + 1 - a)) with 0%nat by lia.
    rewrite !filter_none; [reflexivity| |];
      intros kv _; unfold between; destruct (fst kv) as [z|]; try reflexivity;
        destruct (Z.leb_spec a z); cbn [andb]; try reflexivity;
          apply Z.leb_gt; lia.
Qed.

End Ends.

(** X9.  On an object whose index is stored and sorted, firstItemNumber
    and lastItemNumber are both None when the index is empty, and
    otherwise are keys of the index with firstItemNumber <= k <=
    lastItemNumber for every key k. *)
Theorem first_and_last_numbers (w : world) :
  settled (obj w) ->
  key_ascending (map fst (_sequence_items (obj w))) ->
  exists lo hi,
    firstItemNumber w = (Ok lo, w) /\ lastItemNumber w = (Ok hi, w)
    /\ (_sequence_items (obj w) = [] -> lo = None /\ hi = None)
    /\ (_sequence_items (obj w) <> [] ->
        In lo (map fst (_sequence_items (obj w)))
        /\ In hi (map fst (_sequence_items (obj w))))
    /\ forall k, In k (map fst (_sequence_items (obj w))) ->
                 key_leb lo k = true /\ key_leb k hi = true.
Proof.
  intros Hw Hd.
  rewrite (firstItemNumber_settled w Hw), (lastItemNumber_settled w Hw).
  destruct (_sequence_items (obj w)) as [|kv d'] eqn:E.
  - exists None, None. repeat split; auto; try contradiction.
  - exists (fst kv), (last (keys (kv :: d')) None).
    split; [reflexivity|]. split; [reflexivity|].
    split; [discriminate|]. split.
    + intros _. split; [now left|].
      unfold keys. destruct (exists_last (l := map fst (kv :: d')))
        as (l' & x & Ex); [discriminate|].
      rewrite Ex, last_last. apply in_or_app. right. now left.
    + intros k Hk. split.
      * exact (key_ascending_first _ _ _ Hd Hk).
      * exact (key_ascending_last _ None _ Hd Hk).
Qed.

Lemma first_and_last_numbers_witness :
  let w := built_world AbstractSequence "aaa010.####"
             (Some ["aaa010.0003"; "aaa010.0001"; "aaa010.0002"]%string) in
  settled (obj w)
  /\ key_ascending (map fst (_sequence_items (obj w)))
  /\ firstItemNumber w = (Ok (Some 1%Z), w)
  /\ lastItemNumber w = (Ok (Some 3%Z), w)
  /\ exists lo hi,
       firstItemNumber w = (Ok lo, w) /\ lastItemNumber w = (Ok hi, w)
       /\ (_sequence_items (obj w) = [] -> lo = None /\ hi = None)
       /\ (_sequence_items (obj w) <> [] ->
           In lo (map fst (_sequence_items (obj w)))
           /\ In hi (map fst (_sequence_items (obj w))))
       /\ forall k, In k (map fst (_sequence_items (obj w))) ->
                    key_leb lo k = true /\ key_leb k hi = true.
Proof.
  cbv zeta.
  assert (Hs : settled (obj (built_world AbstractSequence "aaa010.####"
                 (Some ["aaa010.0003"; "aaa010.0001"; "aaa010.0002"]
                       %string))))
    by (split; [|left]; vm_compute; reflexivity).
  assert (Ha : key_ascending
                 (map fst (_sequence_items
                    (obj (built_world AbstractSequence "aaa010.####"
                       (Some ["aaa010.0003"; "aaa010.0001"; "aaa010.0002"]
                             %string))))))
    by (vm_compute; auto).
  refine (conj Hs (conj Ha (conj _ (conj _ _)))).
  - vm_compute. reflexivity.
  - vm_compute. reflexivity.
  - exact (first_and_last_numbers _ Hs Ha).
Defined.

Lemma parse_slice_indices_defaults w :
  settled (obj w) ->
  parse_slice_indices None None None w
  = (Ok (match _sequence_items (obj w) with
         | [] => None
         | kv :: _ => fst kv
         end,
         match _sequence_items (obj w) with
         | [] => None
         | _ :: _ => last (keys (_sequence_items (obj w))) None
         end, 1%Z), w).
Proof.
  intro Hw. unfold parse_slice_indices, bind at 1.
  rewrite (firstItemNumber_settled w Hw).
  unfold bind at 1. now rewrite (lastItemNumber_settled w Hw).
Qed.

(** X10.  On an object whose index is stored and sorted, the slice
    without bounds seq[:] raises TypeError when the index is empty, and
    returns every value in key order when the index is not empty and all
    its keys are integers. *)
Theorem full_slice (w : world) :
  settled (obj w) ->
  key_ascending (map fst (_sequence_items (obj w))) ->
  (_sequence_items (obj w) = [] ->
   getitem_slice None None None w = (Raise TypeError, w))
  /\ (_sequence_items (obj w) <> [] ->
      Forall (fun k => k <> None) (map fst (_sequence_items (obj w))) ->
      getitem_slice None None None w
      = (Ok (map snd (_sequence_items (obj w))), w)).
Proof.
  intros Hw Hd. split.
  - intro E. unfold getitem_slice, bind at 1.
    rewrite (parse_slice_indices_defaults w Hw), E. reflexivity.
  - intros Hne Hint. unfold getitem_slice, bind at 1.
    rewrite (parse_slice_indices_defaults w Hw).
    destruct (_sequence_items (obj w)) as [|kv d'] eqn:E; [contradiction|].
    assert (Hlo : In (fst kv) (keys (kv :: d'))) by now left.
    assert (Hhi : In (last (keys (kv :: d')) None) (keys (kv :: d'))).
    { unfold keys. destruct (exists_last (l := map fst (kv :: d')))
        as (l' & x & Ex); [discriminate|].
      rewrite Ex, last_last. apply in_or_app. right. now left. }
    rewrite Forall_forall in Hint.
    pose proof (Hint _ Hlo) as Hlo'. pose proof (Hint _ Hhi) as Hhi'.
    destruct (fst kv) as [lo|] eqn:Elo; [|contradiction].
    destruct (last (keys (kv :: d')) None) as [hi|] eqn:Ehi; [|contradiction].
    cbv iota beta.
    match goal with
    | |- bind (slice_range _ _ _) ?f w = _ =>
        change (bind (slice_range (Some lo) (Some hi) 1) f w
                = (Ok (map snd (kv :: d')), w))
    end.
    rewrite <- E in *. rewrite (slice_walk w Hw lo hi Hd).
    do 3 f_equal. apply filter_all. intros x Hx.
    apply (in_map fst) in Hx.
    pose proof (key_ascending_last _ None _ Hd Hx) as H2.
    assert (H1 : key_leb (Some lo) (fst x) = true).
    { rewrite E in Hd, Hx. cbn [map] in Hd, Hx. rewrite Elo in Hd, Hx.
      exact (key_ascending_first _ _ _ Hd Hx). }
    unfold keys in Ehi. rewrite Ehi in H2.
    unfold between. destruct (fst x) as [z|]; [|discriminate].
    cbn in H1, H2. now rewrite H1, H2.
Qed.

Lemma full_slice_witness :
  let w := built_world AbstractSequence "aaa010.####"
             (Some ["aaa010.0003"; "aaa010.0001"]%string) in
  settled (obj w)
  /\ key_ascending (map fst (_sequence_items (obj w)))
  /\ getitem_slice None None None w
     = (Ok [lit "aaa010.0001"; lit "aaa010.0003"], w).
Proof.
  cbv zeta.
  assert (Hs : settled (obj (built_world AbstractSequence "aaa010.####"
                 (Some ["aaa010.0003"; "aaa010.0001"]%string))))
    by (split; [|left]; vm_compute; reflexivity).
  assert (Ha : key_ascending
                 (map fst (_sequence_items
                    (obj (built_world AbstractSequence "aaa010.####"
                       (Some ["aaa010.0003"; "aaa010.0001"]%string))))))
    by (vm_compute; auto).
  refine (conj Hs (conj Ha _)).
  rewrite (proj2 (full_slice _ Hs Ha)).
  - vm_compute. reflexivity.
  - vm_compute. discriminate.
  - vm_compute. repeat constructor; discriminate.
Defined.

Lemma dict_get_in k v d :
  NoDup (keys d) -> dict_get k d = Some v <-> In (k, v) d.
Proof.
  unfold keys. induction d as [|[k' v'] d IH]; intro H.
  - cbn. split; [discriminate|contradiction].
  - cbn [map fst] in H. apply NoDup_cons_iff in H as [Hk Hd].
    cbn [dict_get In]. destruct (key_eqb k' k) eqn:E.
    + apply key_eqb_eq in E. subst k'. split.
      * intros [= ->]. now left.
      * intros [[= ->]|Hin]; [reflexivity|].
        exfalso. apply Hk. apply (in_map fst) in Hin. exact Hin.
    + rewrite (IH Hd). split; [now right|].
      intros [[= -> ->]|Hin]; [|exact Hin].
      now rewrite key_eqb_refl in E.
Qed.

Lemma dict_get_same k d1 d2 :
  NoDup (keys d1) -> NoDup (keys d2) ->
  (forall x, In x d1 <-> In x d2) -> dict_get k d1 = dict_get k d2.
Proof.
  intros H1 H2 H.
  destruct (dict_get k d1) as [v|] eqn:E1.
  - symmetry. apply (dict_get_in _ _ _ H2), H, (dict_get_in _ _ _ H1), E1.
  - destruct (dict_get k d2) as [v|] eqn:E2; [|reflexivity].
    apply (dict_get_in _ _ _ H2), H, (dict_get_in _ _ _ H1) in E2. congruence.
Qed.

Lemma dict_get_set k i v d :
  dict_get k (dict_set i v d)
  = if key_eqb i k then Some v else dict_get k d.
Proof.
  induction d as [|[k' v'] d IH]; cbn [dict_set dict_get].
  - reflexivity.
  - destruct (key_eqb k' i) eqn:E; cbn [dict_get].
    + apply key_eqb_eq in E. subst k'. now destruct (key_eqb i k).
    + destruct (key_eqb k' k) eqn:E2; [|exact IH].
      apply key_eqb_eq in E2. subst k'. now rewrite key_eqb_sym, E.
Qed.

Lemma dict_get_del k i d :
  NoDup (keys d) ->
  dict_get k (dict_del i d) = if key_eqb i k then None else dict_get k d.
Proof.
  unfold keys. induction d as [|[k' v'] d IH]; intro H.
  - cbn. now destruct (key_eqb i k).
  - cbn [map fst] in H. apply NoDup_cons_iff in H as [Hk Hd].
    cbn [dict_del dict_get]. destruct (key_eqb k' i) eqn:E.
    + apply key_eqb_eq in E. subst k'. destruct (key_eqb i k) eqn:E2;
        [|reflexivity].
      apply key_eqb_eq in E2. subst k.
      destruct (dict_get i d) as [v|] eqn:E3; [|reflexivity].
      exfalso. apply Hk. apply (dict_get_in _ _ _ Hd) in E3.
      apply (in_map fst) in E3. exact E3.
    + cbn [dict_get]. destruct (key_eqb k' k) eqn:E2; [|now apply IH].
      apply key_eqb_eq in E2. subst k'. now rewrite key_eqb_sym, E.
Qed.

Lemma in_dict_del i d x : In x (dict_del i d) -> In x d.
Proof.
  induction d as [|[k' v'] d IH]; [trivial|].
  cbn [dict_del]. destruct (key_eqb k' i); cbn [In]; intuition.
Qed.

Lemma dict_del_ascending i d :
  key_ascending (keys d) -> key_ascending (keys (dict_del i d)).
Proof.
  unfold keys. induction d as [|[k' v'] d IH]; intro H; [exact I|].
  cbn [map fst] in H. apply key_ascending_cons in H as [Hall Hd].
  cbn [dict_del]. destruct (key_eqb k' i); [exact Hd|].
  cbn [map fst]. apply key_ascending_cons. split; [|now apply IH].
  intros y Hy. apply Hall. apply in_map_iff in Hy as (x & <- & Hx).
  apply in_map. exact (in_dict_del _ _ _ Hx).
Qed.

Lemma dict_del_absent i d : dict_mem i d = false -> dict_del i d = d.
Proof.
  unfold dict_mem. induction d as [|[k' v'] d IH]; [reflexivity|].
  cbn [existsb fst dict_del]. destruct (key_eqb k' i); [discriminate|].
  cbn [orb]. intro H. now rewrite IH.
Qed.

Lemma dict_mem_false i d : dict_mem i d = false -> ~ In i (keys d).
Proof.
  unfold dict_mem, keys. intros H Hin.
  apply in_map_iff in Hin as (kv & <- & Hkv).
  assert (E : existsb (fun kv0 => key_eqb (fst kv0) (fst kv)) d = true).
  { apply existsb_exists. exists kv. split; [exact Hkv|apply key_eqb_refl]. }
  congruence.
Qed.

Lemma settled_put_index w its : settled (obj w) -> settled (obj (put_index w its)).
Proof. intros [Hp Hb]. split; [exact Hp|exact Hb]. Qed.

(** What [__setitem__] does on an object whose index is stored. *)
Lemma setitem_settled w index value :
  settled (obj w) ->
  setitem index value w
  = match num_pure (obj w) value with
    | Ok n =>
        if key_eqb n index
        then (Ok tt,
              put_index w (ordered_dict
                             (sorted_items
                                (dict_set index value
                                          (_sequence_items (obj w))))))
        else (Raise ValueError, w)
    | Raise _ => (Raise ValueError, w)
    end.
Proof.
  intros Hw. pose proof (proj1 Hw) as Hp.
  unfold setitem, bind at 1. rewrite (is_part_of_sequence_parsed w Hp).
  unfold num_pure at 1.
  destruct (is_part_pure (obj w) value) eqn:Epart; [|reflexivity].
  cbn [negb]. unfold bind at 1. rewrite (num_parsed w Hp).
  unfold num_pure. rewrite Epart.
  destruct (Py.isdigit (slot_of (obj w) value)).
  - destruct (Py.int (slot_of (obj w) value)) as [v|]; [|reflexivity].
    destruct (key_eqb (Some (Z.of_nat v)) index) eqn:E; [|reflexivity].
    cbn [negb]. unfold bind at 1. rewrite (items_settled w Hw).
    destruct (dict_mem index (_sequence_items (obj w))) eqn:Em.
    + unfold bind at 1, modify at 1. unfold bind at 1.
      match goal with
      | |- context [items ?w2] =>
          rewrite (items_settled w2 (settled_put_index w _ Hw))
      end.
      reflexivity.
    + unfold bind at 1, ret at 1. unfold bind at 1.
      rewrite (items_settled w Hw).
      rewrite <- (dict_set_new index value _ (dict_mem_false _ _ Em)).
      reflexivity.
  - destruct (key_eqb None index) eqn:E; [|reflexivity].
    cbn [negb]. unfold bind at 1. rewrite (items_settled w Hw).
    destruct (dict_mem index (_sequence_items (obj w))) eqn:Em.
    + unfold bind at 1, modify at 1. unfold bind at 1.
      match goal with
      | |- context [items ?w2] =>
          rewrite (items_settled w2 (settled_put_index w _ Hw))
      end.
      reflexivity.
    + unfold bind at 1, ret at 1. unfold bind at 1.
      rewrite (items_settled w Hw).
      rewrite <- (dict_set_new index value _ (dict_mem_false _ _ Em)).
      reflexivity.
Qed.



(** What [__delitem__] does on an object whose index is stored. *)
Lemma delitem_settled w index :
  settled (obj w) ->
  delitem index w
  = (Ok tt,
     if dict_mem index (_sequence_items (obj w))
     then put_index w (dict_del index (_sequence_items (obj w)))
     else w).
Proof.
  intro Hw. unfold delitem, bind at 1. rewrite (items_settled w Hw).
  destruct (dict_mem index (_sequence_items (obj w))); [|reflexivity].
  unfold bind. now rewrite (items_settled w Hw).
Qed.



(** ** The memoized pattern literal *)

Lemma replace1_not_nil old new (x y : str) c :
  new <> [] -> Py.replace1 old new (x ++ c :: y) <> [].
Proof.
  intros Hn E. rewrite replace1_app in E. apply app_eq_nil in E as [_ E].
  unfold Py.replace1 in E. cbn [flat_map] in E.
  apply app_eq_nil in E as [E _].
  destruct (Ascii.eqb c old); [contradiction|discriminate].
Qed.

(** X13.  Once get_regex_string has returned a string, every later call
    returns that same string and leaves the object unchanged, whatever
    padding it is given: the first result is memoized in _regex_string. *)
Theorem regex_string_is_memoized (w w1 : world) (p1 : option nat) (s : str) :
  get_regex_string p1 w = (Ok s, w1) ->
  forall p2, get_regex_string p2 w1 = (Ok s, w1).
Proof.
  unfold get_regex_string at 1. unfold bind at 1, get.
  assert (Hhit : forall w' c r, _regex_string (obj w') = Some (c :: r) ->
                   forall p2, get_regex_string p2 w' = (Ok (c :: r), w')).
  { intros w' c r E p2. unfold get_regex_string, bind at 1, get. now rewrite E. }
  assert (Hmiss :
            (ensure_parsed ;;;
             p <- default_padding p1 ;;
             s0 <- get ;;
             let result :=
               Py.replace1 "[" (lit "\[") (join_base s0 (regex_substr p)) in
             modify (fun s1 => with_regex_string s1 (Some result)) ;;;
             ret result) w = (Ok s, w1) ->
            forall p2, get_regex_string p2 w1 = (Ok s, w1)).
  { unfold bind at 1.
    destruct (ensure_parsed w) as [[[]|e] w2]; [|discriminate].
    unfold bind at 1.
    destruct (default_padding p1 w2) as [[p|e] w3]; [|discriminate].
    unfold bind, get, modify, ret. cbv zeta.
    assert (Hne : Py.replace1 "[" (lit "\[")
                    (join_base (obj w3) (regex_substr p)) <> []).
    { unfold join_base, regex_substr. cbn [lit list_ascii_of_string app].
      apply replace1_not_nil. discriminate. }
    revert Hne.
    generalize (Py.replace1 "[" (lit "\[")
                  (join_base (obj w3) (regex_substr p))).
    intros [|c r] Hne; [contradiction|]. intros [= <- <-].
    apply Hhit. reflexivity. }
  destruct (_regex_string (obj w)) as [[|c r]|] eqn:E.
  - exact Hmiss.
  - unfold ret. intros [= <- <-]. now apply Hhit.
  - exact Hmiss.
Qed.

Lemma regex_string_is_memoized_witness :
  let w := world_of AbstractSequence "aaa010.0001" None in
  let w1 := snd (get_regex_string (Some 3) w) in
  get_regex_string (Some 3) w = (Ok (lit "aaa010.\d{3}"), w1)
  /\ get_regex_string (Some 5) w1 = (Ok (lit "aaa010.\d{3}"), w1)
  /\ get_regex_string None w1 = (Ok (lit "aaa010.\d{3}"), w1).
Proof.
  cbv zeta.
  assert (H : get_regex_string (Some 3)
                (world_of AbstractSequence "aaa010.0001" None)
              = (Ok (lit "aaa010.\d{3}"),
                 snd (get_regex_string (Some 3)
                        (world_of AbstractSequence "aaa010.0001" None))))
    by (vm_compute; reflexivity).
  refine (conj H (conj _ _)).
  - exact (regex_string_is_memoized _ _ _ _ H (Some 5)).
  - exact (regex_string_is_memoized _ _ _ _ H None).
Defined.

(** ** Normalized paths *)

Lemma replace1_length_slash (x : str) :
  length (Py.replace1 "\" ["/"] x) = length x.
Proof.
  unfold Py.replace1. induction x as [|c x IH]; [reflexivity|].
  cbn [flat_map]. rewrite length_app, IH. now destruct (Ascii.eqb c "\").
Qed.

Lemma replace1_no_backslash (x : str) :
  forallb (fun c => negb (Ascii.eqb c "\")) (Py.replace1 "\" ["/"] x) = true.
Proof.
  unfold Py.replace1. induction x as [|c x IH]; [reflexivity|].
  cbn [flat_map]. rewrite forallb_app, IH, andb_true_r.
  destruct (Ascii.eqb c "\") eqn:E; cbn [forallb]; [reflexivity|].
  now rewrite E.
Qed.

Lemma replace_double_slash_cons c1 c2 (y : str) :
  replace_double_slash (c1 :: c2 :: y)
  = if Ascii.eqb c1 "/" && Ascii.eqb c2 "/"
    then "/" :: replace_double_slash y
    else c1 :: replace_double_slash (c2 :: y).
Proof. reflexivity. Qed.

Lemma replace_double_slash_length (x : str) :
  length (replace_double_slash x) <= length x.
Proof.
  assert (H : forall n (x : str), length x <= n ->
                length (replace_double_slash x) <= length x).
  { induction n as [|n IH]; intros [|c1 [|c2 y]] Hn; cbn [length] in *;
      try lia; try (cbn [replace_double_slash length]; lia).
    rewrite replace_double_slash_cons.
    destruct (Ascii.eqb c1 "/" && Ascii.eqb c2 "/"); cbn [length].
    - specialize (IH y ltac:(lia)). lia.
    - specialize (IH (c2 :: y) ltac:(cbn [length]; lia)). cbn [length] in IH.
      lia. }
  now apply (H (length x)).
Qed.

Lemma replace_double_slash_keeps (P : ascii -> bool) (x : str) :
  forallb P x = true -> forallb P (replace_double_slash x) = true.
Proof.
  assert (H : forall n (x : str), length x <= n -> forallb P x = true ->
                forallb P (replace_double_slash x) = true).
  { induction n as [|n IH]; intros [|c1 [|c2 y]] Hn Hx; cbn [length] in *;
      try lia; try (cbn [replace_double_slash]; now auto).
    rewrite replace_double_slash_cons.
    cbn [forallb] in Hx. apply andb_prop in Hx as [H1 Hx].
    pose proof Hx as Hx'. cbn [forallb] in Hx'.
    apply andb_prop in Hx' as [H2 Hy].
    destruct (Ascii.eqb c1 "/" && Ascii.eqb c2 "/") eqn:E; cbn [forallb].
    - apply andb_prop in E as [E1 E2]. apply Ascii.eqb_eq in E1. subst c1.
      rewrite H1. apply IH; [lia|exact Hy].
    - rewrite H1. apply IH; [cbn [length]; lia|exact Hx]. }
  now apply (H (length x)).
Qed.

Lemma replace_double_slash_single (x : str) :
  single_slashes x = true -> replace_double_slash x = x.
Proof.
  assert (H : forall n (x : str), length x <= n -> single_slashes x = true ->
                replace_double_slash x = x).
  { induction n as [|n IH]; intros [|c1 [|c2 y]] Hn Hx; cbn [length] in *;
      try lia; try (cbn [replace_double_slash]; now auto).
    rewrite replace_double_slash_cons.
    cbn [single_slashes] in Hx. apply andb_prop in Hx as [H1 Hx].
    apply negb_true_iff in H1. rewrite H1. f_equal.
    apply IH; [cbn [length]; lia|exact Hx]. }
  now apply (H (length x)).
Qed.

(** X14.  path_normalize (default arguments) returns a path without
    backslash that is no longer than its input, and returns unchanged a
    path that has no backslash and no doubled slash after its first
    character; one pass does not remove every doubled slash ('a////b'
    becomes 'a//b'). *)
Theorem path_normalize_slashes (p : str) :
  forallb (fun c => negb (Ascii.eqb c "\")) (path_normalize p) = true
  /\ length (path_normalize p) <= length p
  /\ (forallb (fun c => negb (Ascii.eqb c "\")) p = true ->
      single_slashes (tl p) = true -> path_normalize p = p)
  /\ path_normalize (lit "a////b") = lit "a//b".
Proof.
  unfold path_normalize. split; [|split; [|split]].
  - pose proof (replace1_no_backslash p) as H.
    destruct (Py.replace1 "\" ["/"] p) as [|c f]; [reflexivity|].
    cbn [forallb] in *. apply andb_prop in H as [Hc Hf]. rewrite Hc.
    now apply replace_double_slash_keeps.
  - rewrite <- (replace1_length_slash p).
    destruct (Py.replace1 "\" ["/"] p) as [|c f]; [reflexivity|].
    cbn [length]. pose proof (replace_double_slash_length f). lia.
  - intros Hb Hs. rewrite (replace1_id _ _ p Hb).
    destruct p as [|c f]; [reflexivity|]. cbn [tl] in Hs.
    now rewrite replace_double_slash_single.
  - reflexivity.
Qed.

Lemma path_normalize_slashes_witness :
  path_normalize (lit "/p/shot.0001.exr") = lit "/p/shot.0001.exr"
  /\ path_normalize (lit "c:\p\\shot.0001.exr") = lit "c:/p/shot.0001.exr".
Proof.
  split.
  - apply (proj1 (proj2 (proj2 (path_normalize_slashes _)))); reflexivity.
  - reflexivity.
Defined.

(** ** A new source *)

Lemma clearProperties_idem s : cleared (clearProperties s).
Proof. reflexivity. Qed.

(** X15.  FileSequence.setSource(p) never raises and never touches the
    disk: it leaves the object cleared, with the normalized p as its
    string and the same explicit items, so that a later successful
    validate gives exactly the object a new sequence of that class made
    from p with these items would give. *)
Theorem setSource_starts_afresh (w : world) (p : str) :
  cls_kind (cls (obj w)) = File ->
  exists w1,
    setSource p w = (Ok tt, w1)
    /\ cleared (obj w1)
    /\ _string (obj w1) = path_normalize p
    /\ _input_items (obj w1) = _input_items (obj w)
    /\ fs w1 = fs w /\ events w1 = events w
    /\ forall w2, validate w1 = (Ok tt, w2) ->
                  validate (renewed w p) = (Ok tt, w2).
Proof.
  intro Hk. unfold setSource, bind, get. rewrite Hk.
  eexists. split; [reflexivity|].
  split; [reflexivity|]. split; [reflexivity|]. split; [reflexivity|].
  split; [reflexivity|]. split; [reflexivity|].
  assert (Hv : forall w', _parsed (obj w') = false ->
                 validate w' = parse_values w').
  { intros w' E. unfold validate, ensure_parsed, bind, get. now rewrite E. }
  intro w2. rewrite !Hv by reflexivity.
  unfold renewed, new_sequence, modify. rewrite Hk. cbn [snd].
  unfold parse_values, bind, modify, get, get_fs, lift, lift_opt, ret, raise.
  cbn [obj fs events with_range with_source clearProperties cls
       validateExists _string].
  destruct (validate_path _ _ _ _) as [[m ft]|e]; [|discriminate].
  cbn [obj fs events with_parse cls _string].
  destruct (parse_padding_from_match _ _ m ft) as [q|e];
    destruct (seq_span m) as [a b];
    destruct ft; try destruct (Py.int _); try discriminate;
      intros [= <-]; reflexivity.
Qed.

Lemma setSource_starts_afresh_witness :
  let w := built_world FileSequence "/p/a.0001.jpg"
             (Some ["/p/a.0001.jpg"; "/p/a.0002.jpg"]%string) in
  let w1 := snd (setSource (lit "/q\b.###.exr") w) in
  cls_kind (cls (obj w)) = File
  /\ _string (obj w1) = lit "/q/b.###.exr"
  /\ fst (formatType w1) = Ok (Some pounds)
  /\ exists w1,
       setSource (lit "/q\b.###.exr") w = (Ok tt, w1)
       /\ cleared (obj w1)
       /\ _string (obj w1) = path_normalize (lit "/q\b.###.exr")
       /\ _input_items (obj w1) = _input_items (obj w)
       /\ fs w1 = fs w /\ events w1 = events w
       /\ forall w2, validate w1 = (Ok tt, w2) ->
                     validate (renewed w (lit "/q\b.###.exr")) = (Ok tt, w2).
Proof.
  cbv zeta.
  assert (Hk : cls_kind (cls (obj (built_world FileSequence "/p/a.0001.jpg"
                  (Some ["/p/a.0001.jpg"; "/p/a.0002.jpg"]%string)))) = File)
    by (vm_compute; reflexivity).
  refine (conj Hk (conj _ (conj _ _))).
  - vm_compute. reflexivity.
  - vm_compute. reflexivity.
  - exact (setSource_starts_afresh _ _ Hk).
Defined.

(** ** What never touches the disk *)

Lemma quiet_missing : quiet missing.
Proof. pose proof quiet_numbers. unfold missing. quiet_tac. Qed.

Lemma quiet_getitem k : quiet (getitem k).
Proof. pose proof quiet_items. unfold getitem. quiet_tac. Qed.

Lemma quiet_firstItemNumber : quiet firstItemNumber.
Proof. pose proof quiet_items. unfold firstItemNumber. quiet_tac. Qed.

Lemma quiet_lastItemNumber : quiet lastItemNumber.
Proof. pose proof quiet_items. unfold lastItemNumber. quiet_tac. Qed.

Lemma quiet_midItemNumber : quiet midItemNumber.
Proof. pose proof quiet_items. unfold midItemNumber. quiet_tac. Qed.

Lemma quiet_parse_slice_indices a b c : quiet (parse_slice_indices a b c).
Proof.
  pose proof quiet_firstItemNumber. pose proof quiet_lastItemNumber.
  unfold parse_slice_indices. quiet_tac.
Qed.

Lemma quiet_slice_range a b c : quiet (slice_range a b c).
Proof. unfold slice_range. quiet_tac. Qed.

Lemma quiet_getitem_slice a b c : quiet (getitem_slice a b c).
Proof.
  pose proof quiet_items. pose proof quiet_parse_slice_indices.
  pose proof quiet_slice_range. unfold getitem_slice. quiet_tac.
Qed.

Lemma quiet_setitem k v : quiet (setitem k v).
Proof.
  pose proof quiet_items. pose proof quiet_num.
  pose proof quiet_is_part_of_sequence. unfold setitem. quiet_tac.
Qed.

Lemma quiet_delitem k : quiet (delitem k).
Proof. pose proof quiet_items. unfold delitem. quiet_tac. Qed.

Lemma quiet_delitem_slice a b c : quiet (delitem_slice a b c).
Proof.
  pose proof quiet_delitem. pose proof quiet_parse_slice_indices.
  pose proof quiet_slice_range. unfold delitem_slice. quiet_tac.
Qed.

Lemma quiet_set_currentItemNumber n : quiet (set_currentItemNumber n).
Proof. pose proof quiet_padding. unfold set_currentItemNumber. quiet_tac. Qed.

(** X16.  validate, the accessors (formatType, padding, prefix, suffix,
    currentItemNumber and its setter, items, numbers, range, missing),
    is_part_of_sequence, num, the five renderers, get_next_item,
    get_previous_item, item lookup and slices, __setitem__, __delitem__
    and setSource never change the set of files and folders and never
    call os.rename, whatever they return or raise. *)
Theorem operations_leave_the_disk_alone :
  quiet validate /\ quiet formatType /\ quiet padding /\ quiet prefix
  /\ quiet suffix /\ quiet currentItemNumber
  /\ (forall n, quiet (set_currentItemNumber n))
  /\ (forall x, quiet (is_part_of_sequence x)) /\ (forall x, quiet (num x))
  /\ (forall n p, quiet (get_string n p))
  /\ (forall p, quiet (get_pound_string p))
  /\ (forall p k, quiet (get_format_string p k))
  /\ (forall p, quiet (get_percent_string p))
  /\ (forall p, quiet (get_regex_string p))
  /\ quiet items /\ quiet numbers /\ quiet range /\ quiet missing
  /\ (forall n, quiet (get_next_item n))
  /\ (forall n, quiet (get_previous_item n))
  /\ (forall k, quiet (getitem k))
  /\ (forall a b c, quiet (getitem_slice a b c))
  /\ (forall k v, quiet (setitem k v))
  /\ (forall k, quiet (delitem k))
  /\ (forall a b c, quiet (delitem_slice a b c))
  /\ (forall x, quiet (setSource x)).
Proof.
  assert (Hn : forall step edge n, quiet (neighbour step edge n)).
  { intros. pose proof quiet_ensure_parsed. pose proof quiet_currentItemNumber.
    pose proof quiet_numbers. pose proof quiet_items.
    pose proof quiet_get_string. unfold neighbour. quiet_tac. }
  assert (Hf : quiet formatType).
  { pose proof quiet_ensure_parsed. unfold formatType. quiet_tac. }
  repeat match goal with |- _ /\ _ => split end;
    auto using quiet_ensure_parsed, quiet_padding, quiet_prefix, quiet_suffix,
      quiet_currentItemNumber, quiet_set_currentItemNumber,
      quiet_is_part_of_sequence, quiet_num, quiet_get_string,
      quiet_get_pound_string, quiet_get_format_string,
      quiet_get_percent_string, quiet_get_regex_string, quiet_items,
      quiet_numbers, quiet_range, quiet_missing, quiet_getitem,
      quiet_getitem_slice, quiet_setitem, quiet_delitem,
      quiet_delitem_slice, quiet_setSource.
  - intro n. apply Hn.
  - intro n. apply Hn.
Qed.

(** ** Assigning the current number *)

Lemma set_currentItemNumber_parsed w n :
  _parsed (obj w) = true ->
  set_currentItemNumber n w
  = (Ok tt,
     {| obj := with_current_item (obj w)
                 (Some (Py.zero_pad (_padding (obj w)) n)) (Some n);
        fs := fs w; events := events w |}).
Proof.
  intro Hp. unfold set_currentItemNumber, bind at 1, modify at 1.
  unfold bind at 1. rewrite padding_parsed by exact Hp.
  reflexivity.
Qed.

(** X17.  On a parsed object, assigning currentItemNumber = n (n >= 0)
    makes currentItemNumber return n and currentItem the number
    zero-padded to the padding, which reads back as n; on an object that
    is not parsed yet and whose source has digits, the assignment is
    lost: reading the padding parses the source, and currentItemNumber
    is the number of the source. *)
Theorem assigned_number (n : Z) :
  (forall w, _parsed (obj w) = true -> (0 <= n)%Z ->
     exists w',
       set_currentItemNumber n w = (Ok tt, w')
       /\ currentItemNumber w' = (Ok (Some n), w')
       /\ currentItem w'
          = (Ok (Some (Py.zero_pad (_padding (obj w)) n)), w')
       /\ Py.int (Py.zero_pad (_padding (obj w)) n) = Some (Z.to_nat n)
       /\ padding w' = (Ok (_padding (obj w)), w')
       /\ _string (obj w') = _string (obj w)
       /\ _sequence_items (obj w') = _sequence_items (obj w))
  /\ (forall w0 w1 m,
        _parsed (obj w0) = false ->
        validate w0 = (Ok tt, w1) ->
        _current_item_number (obj w1) = Some m ->
        _format_type (obj w1) = Some nums ->
        exists w',
          set_currentItemNumber n w0 = (Ok tt, w')
          /\ currentItemNumber w' = (Ok (Some m), w')).
Proof.
  split.
  - intros w Hp Hn. rewrite (set_currentItemNumber_parsed w n Hp).
    eexists. split; [reflexivity|].
    split; [now rewrite currentItemNumber_parsed|].
    split; [now rewrite currentItem_parsed|].
    split; [|split; [now rewrite padding_parsed|split; reflexivity]].
    unfold Py.zero_pad. destruct (Z.ltb_spec n 0); [lia|].
    rewrite (int_zeros _ _ _ (int_str_nat (Z.abs_nat n))).
    f_equal. lia.
  - intros w0 w1 m Hp Hv Hm Hft.
    unfold validate, ensure_parsed, bind, get in Hv. rewrite Hp in Hv.
    unfold set_currentItemNumber, bind at 1, modify at 1.
    unfold bind at 1, padding, bind at 1, ensure_parsed, bind at 1, get.
    cbn [obj with_current_item _parsed]. rewrite Hp.
    revert Hv.
    unfold parse_values, bind, modify, get, get_fs, lift, lift_opt, ret, raise.
    cbn [obj fs events with_range with_current_item cls validateExists
         _string].
    destruct (validate_path _ _ _ _) as [[mt ft]|e]; [|discriminate].
    cbn [obj fs events with_parse cls _string].
    destruct (parse_padding_from_match _ _ mt ft) as [q|e];
      destruct (seq_span mt) as [a b];
      destruct ft; try destruct (Py.int _) as [v|]; try discriminate;
        intros [= <-]; cbn in Hm, Hft; try discriminate.
    injection Hm as <-. cbn. eexists. split; reflexivity.
Qed.

Lemma assigned_number_witness :
  let w := snd (validate (world_of AbstractSequence "aaa010.#####" None)) in
  let w0 := world_of AbstractSequence "aaa010.0001" None in
  _parsed (obj w) = true
  /\ fst (currentItem (snd (set_currentItemNumber 2 w))) = Ok (Some (lit "00002"))
  /\ fst (currentItemNumber (snd (set_currentItemNumber 2 w))) = Ok (Some 2%Z)
  /\ _parsed (obj w0) = false
  /\ fst (currentItemNumber (snd (set_currentItemNumber 2 w0))) = Ok (Some 1%Z).
Proof.
  cbv zeta.
  assert (Hp : _parsed (obj (snd (validate
                 (world_of AbstractSequence "aaa010.#####" None)))) = true)
    by (vm_compute; reflexivity).
  assert (Hv : validate (world_of AbstractSequence "aaa010.0001" None)
               = (Ok tt, snd (validate
                                (world_of AbstractSequence "aaa010.0001" None))))
    by (vm_compute; reflexivity).
  refine (conj Hp (conj _ (conj _ (conj eq_refl _)))).
  - destruct (proj1 (assigned_number 2) _ Hp ltac:(lia))
      as (w' & E & _ & E2 & _).
    rewrite E. cbn [snd]. rewrite E2. vm_compute. reflexivity.
  - destruct (proj1 (assigned_number 2) _ Hp ltac:(lia))
      as (w' & E & E1 & _).
    rewrite E. cbn [snd]. now rewrite E1.
  - assert (Hm : _current_item_number
                   (obj (snd (validate
                                (world_of AbstractSequence "aaa010.0001" None))))
                 = Some 1%Z) by (vm_compute; reflexivity).
    assert (Hf : _format_type
                   (obj (snd (validate
                                (world_of AbstractSequence "aaa010.0001" None))))
                 = Some nums) by (vm_compute; reflexivity).
    destruct (proj2 (assigned_number 2)
                (world_of AbstractSequence "aaa010.0001" None) _ 1%Z
                eq_refl Hv Hm Hf)
      as (w' & E & E1).
    rewrite E. cbn [snd]. now rewrite E1.
Defined.

(** ** Deleting a slice *)

Lemma put_index_same w : put_index w (_sequence_items (obj w)) = w.
Proof. destruct w as [[] ? ?]. reflexivity. Qed.

Lemma put_index_twice w d d' : put_index (put_index w d) d' = put_index w d'.
Proof. reflexivity. Qed.

Lemma items_put_index w d : _sequence_items (obj (put_index w d)) = d.
Proof. reflexivity. Qed.

Lemma dict_del_filter i d :
  NoDup (keys d) ->
  dict_del i d = filter (fun kv => negb (key_eqb (fst kv) i)) d.
Proof.
  unfold keys. induction d as [|[k v] d IH]; intro H; [reflexivity|].
  cbn [map fst] in H. apply NoDup_cons_iff in H as [Hk Hd].
  cbn [dict_del filter fst]. destruct (key_eqb k i) eqn:E; cbn [negb].
  - apply key_eqb_eq in E. subst k. symmetry. apply filter_all.
    intros kv Hkv. destruct (key_eqb (fst kv) i) eqn:E2; [|reflexivity].
    apply key_eqb_eq in E2. exfalso. apply Hk. rewrite <- E2.
    now apply in_map.
  - f_equal. now apply IH.
Qed.

Lemma NoDup_keys_filter f (d : list (key * str)) :
  NoDup (keys d) -> NoDup (keys (filter f d)).
Proof.
  unfold keys. induction d as [|kv d IH]; intro H; [exact H|].
  cbn [map] in H. apply NoDup_cons_iff in H as [Hk Hd].
  cbn [filter]. destruct (f kv); [|now apply IH].
  cbn [map]. apply NoDup_cons; [|now apply IH].
  intro Hin. apply Hk. apply in_map_iff in Hin as (x & Ex & Hx).
  apply filter_In in Hx as [Hx _]. rewrite <- Ex. now apply in_map.
Qed.

Lemma key_ascending_filter f (d : list (key * str)) :
  key_ascending (keys d) -> key_ascending (keys (filter f d)).
Proof.
  unfold keys. induction d as [|kv d IH]; intro H; [exact I|].
  cbn [map] in H. apply key_ascending_cons in H as [Hall Hd].
  cbn [filter]. destruct (f kv); [|now apply IH].
  cbn [map]. apply key_ascending_cons. split; [|now apply IH].
  intros y Hy. apply Hall. apply in_map_iff in Hy as (x & <- & Hx).
  apply filter_In in Hx as [Hx _]. now apply in_map.
Qed.

Lemma filter_filter {A} (f g : A -> bool) l :
  filter f (filter g l) = filter (fun x => g x && f x) l.
Proof.
  induction l as [|x l IH]; [reflexivity|]. cbn [filter].
  destruct (g x); cbn [filter andb]; [destruct (f x)|]; now rewrite IH.
Qed.

(** The loop of [__delitem__] over the numbers of a slice. *)
Lemma delete_loop xs : forall w,
  settled (obj w) ->
  NoDup (keys (_sequence_items (obj w))) ->
  for_each xs tt (fun x _ => delitem (Some x)) w
  = (Ok tt,
     put_index w (filter (fun kv => negb (visited xs (fst kv)))
                         (_sequence_items (obj w)))).
Proof.
  induction xs as [|x xs IH]; intros w Hw Hd.
  - cbn [for_each]. unfold ret. f_equal.
    rewrite filter_all; [now rewrite put_index_same|].
    intros kv _. unfold visited. now destruct (fst kv).
  - cbn [for_each]. unfold bind at 1. rewrite (delitem_settled w _ Hw).
    set (d := _sequence_items (obj w)) in *.
    assert (E : (if dict_mem (Some x) d
                 then put_index w (dict_del (Some x) d) else w)
                = put_index w (filter (fun kv => negb (key_eqb (fst kv) (Some x)))
                                      d)).
    { destruct (dict_mem (Some x) d) eqn:Em.
      - now rewrite dict_del_filter.
      - rewrite <- dict_del_filter by exact Hd.
        rewrite dict_del_absent by exact Em. symmetry. apply put_index_same. }
    rewrite E. rewrite IH.
    + rewrite items_put_index, put_index_twice, filter_filter.
      do 2 f_equal. apply filter_ext. intros [k v]. cbn [fst].
      destruct k as [z|]; [|reflexivity].
      cbn [key_eqb visited existsb]. rewrite negb_orb. reflexivity.
    + now apply settled_put_index.
    + rewrite items_put_index. now apply NoDup_keys_filter.
Qed.

(** The numbers of [range(a, e, step)] for a positive step. *)
Lemma in_py_range a e step x :
  (0 < step)%Z ->
  In x (py_range a e step)
  <-> (a <= x < e)%Z /\ ((x - a) mod step = 0)%Z.
Proof.
  intro Hs. unfold py_range.
  destruct (Z.ltb_spec 0 step) as [_|]; [|lia].
  rewrite in_map_iff. split.
  - intros (i & <- & Hi). apply in_seq in Hi.
    assert (Hn : (Z.of_nat i < (e - a + step - 1) / step)%Z) by lia.
    assert (Hq : (Z.of_nat i * step < e - a)%Z).
    { destruct (Z.lt_ge_cases (Z.of_nat i * step) (e - a)) as [|Hge];
        [assumption|exfalso].
      assert ((e - a + step - 1) / step < Z.of_nat i + 1)%Z; [|lia].
      apply Z.div_lt_upper_bound; [lia|]. nia. }
    split; [nia|].
    replace (a + Z.of_nat i * step - a)%Z with (Z.of_nat i * step)%Z by lia.
    apply Z.mod_mul. lia.
  - intros [Hx Hm].
    apply Z.mod_divide in Hm; [|lia]. destruct Hm as [q Hq].
    assert (Hq0 : (0 <= q)%Z) by nia.
    exists (Z.to_nat q). split; [rewrite Z2Nat.id by lia; lia|].
    apply in_seq. split; [lia|]. cbn [plus].
    assert (q + 1 <= (e - a + step - 1) / step)%Z; [|lia].
    apply Z.div_le_lower_bound; [lia|]. nia.
Qed.

Lemma visited_py_range a b step k :
  (0 < step)%Z ->
  visited (py_range a (b + 1) step) k = on_stride a b step k.
Proof.
  intro Hs. destruct k as [z|]; [|reflexivity]. cbn [visited on_stride].
  apply eq_true_iff_eq. rewrite existsb_exists, !andb_true_iff.
  rewrite !Z.leb_le, Z.eqb_eq. split.
  - intros (x & Hx & E). apply Z.eqb_eq in E. subst x.
    apply (in_py_range _ _ _ _ Hs) in Hx. lia.
  - intros [[H1 H2] H3]. exists z. split; [|apply Z.eqb_refl].
    apply (in_py_range _ _ _ _ Hs). lia.
Qed.

Lemma on_stride_one a b k : on_stride a b 1 k = between a b k.
Proof.
  destruct k as [z|]; [|reflexivity]. cbn [on_stride between].
  rewrite Z.mod_1_r. cbn [Z.eqb]. now rewrite andb_true_r.
Qed.

Lemma getitem_slice_settled w a b :
  settled (obj w) ->
  key_ascending (keys (_sequence_items (obj w))) ->
  getitem_slice (Some a) (Some b) None w
  = (Ok (map snd (filter (fun kv => between a b (fst kv))
                         (_sequence_items (obj w)))), w).
Proof. intros Hw Hd. exact (slice_walk w Hw a b Hd). Qed.



(** ** Flattening a list of paths *)

Lemma str_dict_get_set_same {V} k (v : V) r :
  str_dict_get k (str_dict_set k v r) = Some v.
Proof.
  induction r as [|[k' v'] r IH]; cbn [str_dict_set str_dict_get].
  - now rewrite str_eqb_refl.
  - destruct (Py.str_eqb k' k) eqn:E; cbn [str_dict_get]; now rewrite E.
Qed.

Lemma str_dict_get_set_other {V} k k' (v : V) r :
  k' <> k -> str_dict_get k' (str_dict_set k v r) = str_dict_get k' r.
Proof.
  intro Hk. induction r as [|[k2 v2] r IH]; cbn [str_dict_set str_dict_get].
  - destruct (Py.str_eqb k k') eqn:E; [|reflexivity].
    apply str_eqb_eq in E. congruence.
  - destruct (Py.str_eqb k2 k) eqn:E; cbn [str_dict_get].
    + apply str_eqb_eq in E. subst k2.
      destruct (Py.str_eqb k k') eqn:E2; [|reflexivity].
      apply str_eqb_eq in E2. congruence.
    + now rewrite IH.
Qed.

Lemma str_dict_mem_get {V} k (r : list (str * V)) :
  str_dict_mem k r = true <-> str_dict_get k r <> None.
Proof.
  unfold str_dict_mem. induction r as [|[k' v'] r IH];
    cbn [existsb str_dict_get fst].
  - split; [discriminate|congruence].
  - destruct (Py.str_eqb k' k); cbn [orb]; [|exact IH].
    split; [discriminate|reflexivity].
Qed.

Lemma str_dict_mem_set {V} k k' (v : V) r :
  str_dict_mem k' r = true -> str_dict_mem k' (str_dict_set k v r) = true.
Proof.
  rewrite !str_dict_mem_get. intro H.
  destruct (Py.str_eqb k' k) eqn:E.
  - apply str_eqb_eq in E. subst k'. now rewrite str_dict_get_set_same.
  - rewrite str_dict_get_set_other; [exact H|].
    intro E2. subst k'. now rewrite str_eqb_refl in E.
Qed.

Lemma list_remove_in x l :
  In x l ->
  exists l', list_remove x l = Some l'
             /\ S (length l') = length l
             /\ (forall y, In y l' -> In y l)
             /\ (forall y, In y l -> y = x \/ In y l').
Proof.
  induction l as [|y l IH]; [contradiction|]. intro H.
  cbn [list_remove]. destruct (Py.str_eqb y x) eqn:E.
  - apply str_eqb_eq in E. subst y. exists l.
    split; [reflexivity|]. split; [reflexivity|].
    split; [intros z Hz; now right|].
    intros z [Hz|Hz]; [now left|now right].
  - destruct H as [H|H]; [subst y; now rewrite str_eqb_refl in E|].
    destruct (IH H) as (l' & E1 & Hl & H1 & H2). exists (y :: l').
    rewrite E1. split; [reflexivity|]. split; [cbn [length]; lia|].
    split.
    + intros z [Hz|Hz]; [now left|right; now apply H1].
    + intros z [Hz|Hz]; [right; now left|].
      destruct (H2 z Hz); [now left|right; now right].
Qed.

(** The inner loop on a parsed object: it ends, removes nothing but
    parts of the sequence, and leaves the object as it is. *)
Lemma drop_parts_parsed w :
  _parsed (obj w) = true ->
  forall fuel idx paths,
    length paths - idx < fuel ->
    exists paths',
      drop_parts fuel idx paths w = (Ok (Some paths'), w)
      /\ length paths' <= length paths
      /\ (forall p, In p paths' -> In p paths)
      /\ (forall p, In p paths ->
                    In p paths' \/ is_part_pure (obj w) p = true).
Proof.
  intro Hp. induction fuel as [|fuel IH]; intros idx paths Hf; [lia|].
  cbn [drop_parts]. destruct (nth_error paths idx) as [path|] eqn:En.
  - assert (Hlt : idx < length paths)
      by (apply nth_error_Some; congruence).
    apply nth_error_In in En. unfold bind at 1.
    rewrite (is_part_of_sequence_parsed w Hp).
    destruct (is_part_pure (obj w) path) eqn:Epart.
    + destruct (list_remove_in _ _ En) as (l' & E1 & Hl & H1 & H2).
      unfold bind at 1. rewrite E1. unfold lift_opt, ret at 1.
      destruct (IH (S idx) l') as (r & Er & Hr & H3 & H4); [lia|].
      exists r. split; [exact Er|]. split; [lia|]. split.
      * intros p Hin. apply H1, H3, Hin.
      * intros p Hin. destruct (H2 p Hin) as [->|Hin'];
          [now right|now apply H4].
    + destruct (IH (S idx) paths) as (r & Er & Hr & H3 & H4); [lia|].
      exists r. auto.
  - exists paths. split; [reflexivity|]. auto.
Qed.

Section Flatten.

Variables (check_exists normalize : bool) (d : disk) (ev : list event).

Lemma FileSequence_init_cases p :
  (exists e w, FileSequence_init p check_exists normalize d ev = (Raise e, w)
               /\ fs w = d /\ events w = ev)
  \/ (exists w, makes check_exists normalize d ev p w
                /\ fs w = d /\ events w = ev
                /\ _parsed (obj w) = true).
Proof.
  unfold makes, FileSequence_init, validate.
  match goal with |- context [ensure_parsed ?w0] =>
    pose proof (quiet_ensure_parsed w0) as [Hf He];
    pose proof (ensure_parsed_ok w0) as Hok;
    destruct (ensure_parsed w0) as [[[]|e] w] eqn:E
  end; cbn [snd fs events] in Hf, He.
  - right. exists w. split; [reflexivity|]. split; [exact Hf|].
    split; [exact He|]. now apply Hok.
  - left. exists e, w. auto.
Qed.

Lemma pound_parsed w :
  _parsed (obj w) = true ->
  get_pound_string None w
  = (Ok (join_base (obj w) (repeat "#"%char (_padding (obj w)))), w).
Proof.
  intro Hp. unfold get_pound_string, bind at 1.
  rewrite (ensure_parsed_parsed w Hp).
  unfold default_padding, bind at 1. now rewrite (padding_parsed w Hp).
Qed.

Lemma flatten_loop_flattened fuel : forall paths results,
  length paths < fuel ->
  exists results',
    flatten_loop fuel check_exists normalize paths results d ev
    = Some (Ok results', d, ev)
    /\ flattened check_exists normalize d ev paths results results'.
Proof.
  induction fuel as [|fuel IH]; intros paths results Hf; [lia|].
  cbn [flatten_loop].
  destruct (rev paths) as [|path rest] eqn:Er.
  - exists results. split; [reflexivity|].
    assert (paths = []) as ->.
    { rewrite <- (rev_involutive paths), Er. reflexivity. }
    split; auto. intros p [].
  - assert (Ep : paths = rev rest ++ [path]).
    { rewrite <- (rev_involutive paths), Er. reflexivity. }
    assert (Hlen : length (rev rest) < fuel).
    { rewrite Ep, length_app in Hf. cbn [length] in Hf. lia. }
    assert (Hin : forall p, In p paths <-> p = path \/ In p (rev rest)).
    { intro p. rewrite Ep, in_app_iff. cbn [In]. intuition. }
    destruct (FileSequence_init_cases path)
      as [(e & w & E & Hfs & Hev)|(w & E & Hfs & Hev & Hp)].
    + rewrite E, Hfs, Hev.
      destruct (IH (rev rest) (str_dict_set path None results) Hlen)
        as (results' & Erun & [H1 H2 H3 H4]).
      exists results'. split; [exact Erun|]. split.
      * intros k Hk. now apply H1, str_dict_mem_set.
      * intros k Hk. apply H2.
        destruct (Py.str_eqb k path) eqn:Ek.
        -- apply str_eqb_eq in Ek. subst k. apply str_dict_get_set_same.
        -- rewrite str_dict_get_set_other; [exact Hk|].
           intros ->. now rewrite str_eqb_refl in Ek.
      * intros k val Hk. destruct (H3 k val Hk) as [Hold|[Hn|Hs]].
        -- destruct (Py.str_eqb k path) eqn:Ek.
           ++ apply str_eqb_eq in Ek. subst k.
              rewrite str_dict_get_set_same in Hold. injection Hold as <-.
              right. left. split; [reflexivity|]. split; [now apply Hin; left|].
              now exists e, w.
           ++ rewrite str_dict_get_set_other in Hold; [now left|].
              intros ->. now rewrite str_eqb_refl in Ek.
        -- right. left. destruct Hn as (Hv & Hk' & Hfl).
           split; [exact Hv|]. split; [apply Hin; now right|exact Hfl].
        -- right. right. destruct Hs as (p & w' & Hp' & Hrest).
           exists p, w'. split; [apply Hin; now right|exact Hrest].
      * intros p Hp'. apply Hin in Hp' as [->|Hp'].
        -- left. split; [now exists e, w|].
           apply H2, str_dict_get_set_same.
        -- destruct (H4 p Hp') as [Hl|(q & w' & k & Hq & Hrest)];
             [now left|right].
           exists q, w', k. split; [apply Hin; now right|exact Hrest].
    + unfold makes in E. rewrite E. rewrite (pound_parsed w Hp).
      set (k0 := join_base (obj w) (repeat "#"%char (_padding (obj w)))).
      destruct (drop_parts_parsed w Hp (S (length (rev rest))) 0 (rev rest))
        as (paths' & Ed & Hl & Hsub & Hcov); [lia|].
      rewrite Ed, Hfs, Hev.
      set (results1 := if str_dict_mem k0 results then results
                       else str_dict_set k0 (Some (obj w)) results).
      assert (Hm0 : str_dict_mem k0 results1 = true).
      { unfold results1. destruct (str_dict_mem k0 results) eqn:Em;
          [exact Em|].
        apply str_dict_mem_get. now rewrite str_dict_get_set_same. }
      assert (Hget1 : forall k val,
                 str_dict_get k results1 = Some val ->
                 str_dict_get k results = Some val
                 \/ (k = k0 /\ val = Some (obj w))).
      { intros k val Hk. unfold results1 in Hk.
        destruct (str_dict_mem k0 results); [now left|].
        destruct (Py.str_eqb k k0) eqn:Ek.
        - apply str_eqb_eq in Ek. subst k.
          rewrite str_dict_get_set_same in Hk. injection Hk as <-.
          now right.
        - rewrite str_dict_get_set_other in Hk; [now left|].
          intros ->. now rewrite str_eqb_refl in Ek. }
      assert (Hset1 : forall k val,
                 str_dict_get k results = Some val ->
                 str_dict_get k results1 = Some val).
      { intros k val Hk. unfold results1.
        destruct (str_dict_mem k0 results) eqn:Em; [exact Hk|].
        rewrite str_dict_get_set_other; [exact Hk|].
        intros ->. assert (Hne : str_dict_get k0 results <> None)
          by congruence.
        apply str_dict_mem_get in Hne. congruence. }
      destruct (IH paths' results1) as (results' & Erun & [H1 H2 H3 H4]);
        [lia|].
      exists results'. split; [exact Erun|].
      assert (Hpound : get_pound_string None w = (Ok k0, w))
        by exact (pound_parsed w Hp).
      split.
      * intros k Hk. apply H1. apply str_dict_mem_get.
        apply str_dict_mem_get in Hk.
        destruct (str_dict_get k results) as [val|] eqn:Eg; [|congruence].
        now rewrite (Hset1 _ _ Eg).
      * intros k Hk. now apply H2, Hset1.
      * intros k val Hk. destruct (H3 k val Hk) as [Hold|[Hn|Hs]].
        -- destruct (Hget1 _ _ Hold) as [Ho|[-> ->]]; [now left|].
           right. right. exists path, w.
           split; [apply Hin; now left|]. split; [exact E|].
           split; [reflexivity|exact Hpound].
        -- right. left. destruct Hn as (Hv & Hk' & Hfl).
           split; [exact Hv|]. split; [apply Hin; right; now apply Hsub|].
           exact Hfl.
        -- right. right. destruct Hs as (p & w' & Hp' & Hrest).
           exists p, w'. split; [apply Hin; right; now apply Hsub|].
           exact Hrest.
      * intros p Hp'. apply Hin in Hp' as [->|Hp'].
        -- right. exists path, w, k0. split; [apply Hin; now left|].
           split; [exact E|]. split; [exact Hpound|].
           split; [now apply H1|now left].
        -- destruct (Hcov p Hp') as [Hin'|Hpart].
           ++ destruct (H4 p Hin') as [Hl'|(q & w' & k & Hq & Hrest)];
                [now left|right].
              exists q, w', k.
              split; [apply Hin; right; now apply Hsub|exact Hrest].
           ++ right. exists path, w, k0. split; [apply Hin; now left|].
              split; [exact E|]. split; [exact Hpound|].
              split; [now apply H1|right].
              rewrite (is_part_of_sequence_parsed w Hp). now rewrite Hpart.
Qed.

End Flatten.

(** X19.  flatten_sequences always returns, without raising and without
    touching the disk, and accounts for every path: a path that fails to
    make a FileSequence is a key with value None; every other path is
    the path of, or is part of, a sequence made from one of the paths
    whose pound string is a key. Conversely a key with value None is an
    input path that fails, and a key with a sequence is the pound string
    of that sequence, made from an input path. *)
Theorem flatten_accounts_for_every_path
        (paths : list str) (check_exists normalize : bool)
        (d : disk) (ev : list event) :
  exists results,
    flatten_sequences paths check_exists normalize d ev
    = Some (Ok results, d, ev)
    /\ (forall k,
           str_dict_get k results = Some None ->
           In k paths /\ fails check_exists normalize d ev k)
    /\ (forall k s,
           str_dict_get k results = Some (Some s) ->
           exists p w, In p paths
                       /\ makes check_exists normalize d ev p w
                       /\ s = obj w
                       /\ get_pound_string None w = (Ok k, w))
    /\ (forall p,
           In p paths ->
           (fails check_exists normalize d ev p
            /\ str_dict_get p results = Some None)
           \/ (exists q w k,
                  In q paths
                  /\ makes check_exists normalize d ev q w
                  /\ get_pound_string None w = (Ok k, w)
                  /\ str_dict_mem k results = true
                  /\ (p = q \/ is_part_of_sequence p w = (Ok true, w)))).
Proof.
  destruct (flatten_loop_flattened check_exists normalize d ev
              (S (length paths)) paths [])
    as (results & E & [H1 H2 H3 H4]); [lia|].
  exists results. split; [exact E|]. split; [|split; [|exact H4]].
  - intros k Hk. destruct (H3 _ _ Hk) as [Ho|[(_ & Hin & Hf)|Hs]].
    + discriminate.
    + now split.
    + destruct Hs as (p & w & _ & _ & Hv & _). discriminate.
  - intros k s Hk. destruct (H3 _ _ Hk) as [Ho|[(Hv & _)|Hs]].
    + discriminate.
    + discriminate.
    + destruct Hs as (p & w & Hin & Hm & Hv & Hpd).
      injection Hv as ->. now exists p, w.
Qed.

Lemma flatten_accounts_for_every_path_witness :
  exists results,
    flatten_sequences
      [lit "a.0001.exr"; lit "a.0002.exr"; lit "b.txt"; lit "a.0003.exr"]
      false false {| files := []; folders := [] |} []
    = Some (Ok results, {| files := []; folders := [] |}, [])
    /\ length results = 2
    /\ str_dict_get (lit "b.txt") results = Some None
    /\ option_map (option_map _string)
                  (str_dict_get (lit "a.####.exr") results)
       = Some (Some (lit "a.0003.exr")).
Proof.
  destruct (flatten_accounts_for_every_path
              [lit "a.0001.exr"; lit "a.0002.exr"; lit "b.txt";
               lit "a.0003.exr"]
              false false {| files := []; folders := [] |} [])
    as (results & E & _).
  exists results. split; [exact E|].
  vm_compute in E. injection E as <-.
  refine (conj _ (conj _ _)); vm_compute; reflexivity.
Defined.

(** ** Making a sequence from the paths of its items *)

Lemma parse_values_given_none w :
  parse_values_given None w = parse_values w.
Proof.
  unfold parse_values_given, parse_values.
  unfold bind, modify, get, get_fs, lift, lift_opt, ret, raise.
  cbn [obj fs events with_range cls validateExists _string].
  destruct (validate_path _ _ _ _) as [[m ft]|e]; reflexivity.
Qed.

Lemma parse_values_given_own w m ft :
  validate_path (cls (obj w)) (validateExists (obj w)) (fs w)
                (_string (obj w)) = Ok (m, ft) ->
  parse_values_given (Some (_string (obj w), m, ft)) w = parse_values w.
Proof.
  intro E. unfold parse_values_given, parse_values.
  unfold bind, modify, get, get_fs, lift, lift_opt, ret, raise.
  cbn [obj fs events with_range cls validateExists _string].
  now rewrite E.
Qed.

(** X20.  FileSequence.from_item_paths raises IndexError on an empty
    list; when the normalized first path is unchanged by a second
    path_normalize, it returns (or raises) exactly what
    FileSequence(first, items=normalized paths) followed by validate()
    does, whatever skipValidate is, so skipValidate does not skip the
    validation. For 'a////b.0001.exr', which a second normalization
    changes, the text around the item is cut at the wrong place ('a/b.0'
    and 'exr'). *)
Theorem from_item_paths_is_the_constructor
        (check_exists : bool) (d : disk) (ev : list event) :
  (forall skipValidate,
      from_item_paths [] skipValidate check_exists d ev
      = (Raise IndexError, d, ev))
  /\ (forall skipValidate paths first rest,
         map path_normalize paths = first :: rest ->
         path_normalize first = first ->
         from_item_paths paths skipValidate check_exists d ev
         = FileSequence_new first (Some (first :: rest)) check_exists d ev)
  /\ (exists s,
         from_item_paths [lit "a////b.0001.exr"] false false d ev
         = (Ok s, d, ev)
         /\ _string s = lit "a/b.0001.exr"
         /\ _base_sequence_items s = (lit "a/b.0", lit "exr")).
Proof.
  split; [reflexivity|]. split; [|eexists; vm_compute; auto].
  intros skipValidate paths first rest E Hn.
  unfold from_item_paths, FileSequence_new.
  rewrite E. cbv zeta.
  set (w := {| obj := _; fs := d; events := ev |}).
  assert (Es : _string (obj w) = first) by exact Hn.
  assert (Hv : validate w = parse_values w) by reflexivity.
  rewrite Hv.
  destruct skipValidate.
  - now rewrite parse_values_given_none.
  - destruct (validate_path FileSequence check_exists d first)
      as [[m ft]|e] eqn:Ev.
    + rewrite <- Es at 1. rewrite parse_values_given_own; [reflexivity|].
      rewrite Es. exact Ev.
    + unfold parse_values, bind, modify, get, get_fs, lift, raise.
      cbn [obj fs events with_range cls validateExists _string].
      change (cls (obj w)) with FileSequence.
      change (validateExists (obj w)) with check_exists.
      change (_string (obj w)) with (path_normalize first).
      change (fs w) with d. rewrite Hn, Ev. reflexivity.
Qed.

Lemma from_item_paths_is_the_constructor_witness :
  let d := {| files := []; folders := [] |} in
  let paths := [lit "x\a.0001.exr"; lit "x\a.0002.exr"] in
  map path_normalize paths = [lit "x/a.0001.exr"; lit "x/a.0002.exr"]
  /\ path_normalize (lit "x/a.0001.exr") = lit "x/a.0001.exr"
  /\ from_item_paths paths false false d []
     = FileSequence_new (lit "x/a.0001.exr")
         (Some [lit "x/a.0001.exr"; lit "x/a.0002.exr"]) false d []
  /\ from_item_paths paths true false d []
     = from_item_paths paths false false d [].
Proof.
  cbv zeta.
  assert (H1 : map path_normalize [lit "x\a.0001.exr"; lit "x\a.0002.exr"]
               = [lit "x/a.0001.exr"; lit "x/a.0002.exr"])
    by (vm_compute; reflexivity).
  assert (H2 : path_normalize (lit "x/a.0001.exr") = lit "x/a.0001.exr")
    by (vm_compute; reflexivity).
  refine (conj H1 (conj H2 (conj _ _))).
  - exact (proj1 (proj2 (from_item_paths_is_the_constructor
                           false {| files := []; folders := [] |} []))
                 false _ _ _ H1 H2).
  - rewrite (proj1 (proj2 (from_item_paths_is_the_constructor
                             false {| files := []; folders := [] |} []))
                   true _ _ _ H1 H2).
    rewrite (proj1 (proj2 (from_item_paths_is_the_constructor
                             false {| files := []; folders := [] |} []))
                   false _ _ _ H1 H2).
    reflexivity.
Defined.

(** ** The mapping interface *)

Lemma length_insert_sorted kv l :
  length (insert_sorted kv l) = S (length l).
Proof.
  induction l as [|kv' l IH]; [reflexivity|]. cbn [insert_sorted].
  destruct (key_leb (fst kv') (fst kv)); cbn [length]; now rewrite ?IH.
Qed.

Lemma length_sorted_items d : length (sorted_items d) = length d.
Proof.
  unfold sorted_items.
  assert (H : forall acc,
             length (fold_left (fun acc kv => insert_sorted kv acc) d acc)
             = length acc + length d).
  { induction d as [|kv d IH]; intro acc; cbn [fold_left length]; [lia|].
    rewrite IH, length_insert_sorted. lia. }
  exact (H []).
Qed.

(** X21.  On an object whose index is stored (its keys distinct, as in a
    dictionary), iteration yields the keys of the index in strictly
    ascending order, len is the number of keys yielded, seq[k] succeeds
    for every key yielded and raises KeyError for every other key; none
    of the three changes the object. *)
Theorem mapping_protocol (w : world) :
  settled (obj w) ->
  NoDup (keys (_sequence_items (obj w))) ->
  exists ks,
    iter w = (Ok ks, w)
    /\ len w = (Ok (length ks), w)
    /\ key_ascending ks
    /\ (forall k, In k ks <-> In k (keys (_sequence_items (obj w))))
    /\ (forall k, In k ks -> exists v, getitem k w = (Ok v, w))
    /\ (forall k, ~ In k ks -> getitem k w = (Raise KeyError, w)).
Proof.
  intros Hw Hd. set (d := _sequence_items (obj w)) in *.
  exists (keys (sorted_items d)).
  assert (Hin : forall k, In k (keys (sorted_items d)) <-> In k (keys d)).
  { intro k. unfold keys. rewrite !in_map_iff.
    split; intros (x & E & Hx); exists x; (split; [exact E|]);
      now apply in_sorted_items. }
  split; [|split; [|split; [|split; [|split]]]].
  - unfold iter, bind. now rewrite (items_settled w Hw).
  - unfold len, bind. rewrite (items_settled w Hw). unfold ret.
    unfold keys. now rewrite length_map, length_sorted_items.
  - now apply sorted_items_ascending.
  - exact Hin.
  - intros k Hk. apply Hin in Hk. rewrite (getitem_settled w Hw). fold d.
    unfold keys in Hk. apply in_map_iff in Hk as ([k' v] & E & Hx).
    cbn [fst] in E. subst k'. apply (dict_get_in _ _ _ Hd) in Hx.
    rewrite Hx. now exists v.
  - intros k Hk. rewrite (getitem_settled w Hw). fold d.
    destruct (dict_get k d) as [v|] eqn:E; [|reflexivity].
    exfalso. apply Hk, Hin. apply (dict_get_in _ _ _ Hd) in E.
    unfold keys. apply in_map_iff. now exists (k, v).
Qed.

(** ** Image sequences *)

Lemma rfind_none c s : rfind c s = None -> without c s = true.
Proof.
  unfold without. induction s as [|x s IH]; [reflexivity|].
  cbn [rfind forallb]. destruct (rfind c s); [discriminate|].
  destruct (Ascii.eqb x c); [discriminate|]. intros _. now rewrite IH.
Qed.

Lemma rfind_some c s i :
  rfind c s = Some i ->
  exists a b, s = a ++ c :: b /\ length a = i /\ without c b = true.
Proof.
  revert i. induction s as [|x s IH]; intros i; [discriminate|].
  cbn [rfind]. destruct (rfind c s) as [j|] eqn:E.
  - intros [= <-]. destruct (IH j eq_refl) as (a & b & -> & <- & Hb).
    exists (x :: a), b. auto.
  - destruct (Ascii.eqb_spec x c) as [->|]; [|discriminate].
    intros [= <-]. exists [], s. split; [reflexivity|].
    split; [reflexivity|]. now apply rfind_none.
Qed.

Lemma rfind_without c s : without c s = true -> rfind c s = None.
Proof.
  unfold without. induction s as [|x s IH]; [reflexivity|].
  cbn [forallb rfind]. intro H. apply andb_true_iff in H as [Hx Hs].
  rewrite (IH Hs). now destruct (Ascii.eqb x c).
Qed.

Lemma rfind_last c a b :
  without c b = true -> rfind c (a ++ c :: b) = Some (length a).
Proof.
  intro Hb. induction a as [|x a IH]; cbn [app rfind length].
  - now rewrite (rfind_without _ _ Hb), Ascii.eqb_refl.
  - now rewrite IH.
Qed.

Lemma rfind_app_without c a t :
  without c t = true -> rfind c (a ++ t) = rfind c a.
Proof.
  intro Ht. induction a as [|x a IH]; cbn [app rfind].
  - now apply rfind_without.
  - now rewrite IH.
Qed.

Lemma rfind_bound c s i : rfind c s = Some i -> i < length s.
Proof.
  intro H. destruct (rfind_some _ _ _ H) as (a & b & -> & <- & _).
  rewrite length_app. cbn [length]. lia.
Qed.

Lemma lstrip_without c s : without c s = true -> Py.lstrip [c] s = s.
Proof.
  destruct s as [|x s]; [reflexivity|]. unfold without. cbn [forallb].
  intro H. apply andb_true_iff in H as [Hx _].
  cbn [Py.lstrip existsb]. apply negb_true_iff in Hx. now rewrite Hx.
Qed.

Lemma without_app c x y :
  without c (x ++ y) = without c x && without c y.
Proof. apply forallb_app. Qed.

Lemma mem_in p l : mem p l = true <-> In p l.
Proof.
  unfold mem. rewrite existsb_exists. split.
  - intros (x & Hx & E). apply str_eqb_eq in E. now subst.
  - intro H. exists p. split; [exact H|apply str_eqb_refl].
Qed.

Lemma image_extension_plain e :
  In e IMAGE_EXTENSIONS ->
  without "." e = true /\ without "/" e = true.
Proof.
  intro H. unfold IMAGE_EXTENSIONS in H. cbn [map In] in H.
  repeat (destruct H as [<-|H]; [split; reflexivity|]). contradiction.
Qed.

Lemma forallb_firstn_false {A} (f : A -> bool) x c y n :
  f c = false -> length x < n -> forallb f (firstn n (x ++ c :: y)) = false.
Proof.
  intros Hc. revert n. induction x as [|a x IH]; intros n Hn.
  - destruct n; [cbn in Hn; lia|]. cbn [app firstn forallb]. now rewrite Hc.
  - destruct n; [cbn in Hn; lia|]. cbn [app firstn forallb].
    rewrite IH; [apply andb_false_r|cbn [length] in Hn; lia].
Qed.

(** The extension of a path that ends with a dot and a plain word, when
    the file name has a character other than a dot before it. *)
Lemma splitext_ext_plain a c b e :
  c <> "."%char -> c <> "/"%char ->
  without "/" b = true -> without "." e = true -> without "/" e = true ->
  splitext_ext ((a ++ c :: b) ++ "." :: e) = "." :: e.
Proof.
  intros Hc1 Hc2 Hb He1 He2. unfold splitext_ext.
  rewrite (rfind_last "." (a ++ c :: b) e He1).
  assert (Et : (a ++ c :: b) ++ "." :: e = a ++ (c :: b ++ "." :: e))
    by (now rewrite <- app_assoc).
  assert (Ht : without "/" (c :: b ++ "." :: e) = true).
  { unfold without. cbn [forallb]. fold (without "/" (b ++ "." :: e)).
    rewrite without_app, Hb. unfold without at 1. cbn [forallb].
    fold (without "/" e). rewrite He2.
    destruct (Ascii.eqb_spec c "/"); [contradiction|reflexivity]. }
  assert (Er : rfind "/" ((a ++ c :: b) ++ "." :: e) = rfind "/" a).
  { rewrite Et. now apply rfind_app_without. }
  rewrite Er.
  set (fi := match rfind "/" a with Some sepIndex => S sepIndex | None => 0 end).
  assert (Hfi : fi <= length a).
  { unfold fi. destruct (rfind "/" a) as [si|] eqn:E; [|lia].
    apply rfind_bound in E. lia. }
  assert (Hlen : length (a ++ c :: b) = length a + S (length b))
    by (rewrite length_app; reflexivity).
  destruct (Nat.leb_spec fi (length (a ++ c :: b))) as [_|]; [|lia].
  assert (Esk : skipn fi ((a ++ c :: b) ++ "." :: e)
                = skipn fi a ++ c :: (b ++ "." :: e)).
  { rewrite Et, skipn_app.
    replace (fi - length a) with 0 by lia. reflexivity. }
  rewrite Esk, forallb_firstn_false.
  - rewrite skipn_app, Nat.sub_diag, skipn_all. reflexivity.
  - destruct (Ascii.eqb_spec "."%char c); [congruence|reflexivity].
  - rewrite length_skipn. lia.
Qed.

(** X22.  ImageSequence.validate_path returns what the inherited
    FileSequence.validate_path returns, and only for a path that ends
    with a dot and one of IMAGE_EXTENSIONS (lower case); it does accept
    such a path when the file name has a character other than a dot
    before that last dot, and it passes on the exception of the
    inherited method. 'shot.0001.EXR' and 'shot.0001/.exr' are rejected
    with ValueError. *)
Theorem image_path_has_an_image_extension
        (check_exists : bool) (d : disk) (path : str) :
  (forall r,
      ImageSequence_validate_path check_exists d path = Ok r ->
      validate_path ImageSequence check_exists d path = Ok r
      /\ exists stem e, path = stem ++ "." :: e /\ In e IMAGE_EXTENSIONS)
  /\ (forall r a c b e,
         validate_path ImageSequence check_exists d path = Ok r ->
         path = (a ++ c :: b) ++ "." :: e ->
         In e IMAGE_EXTENSIONS ->
         c <> "."%char -> c <> "/"%char -> without "/" b = true ->
         ImageSequence_validate_path check_exists d path = Ok r)
  /\ (forall e,
         validate_path ImageSequence check_exists d path = Raise e ->
         ImageSequence_validate_path check_exists d path = Raise e)
  /\ ImageSequence_validate_path false d (lit "shot.0001.EXR")
     = Raise ValueError
  /\ ImageSequence_validate_path false d (lit "shot.0001/.exr")
     = Raise ValueError.
Proof.
  split; [|split; [|split; [|split]]].
  - intros r H. unfold ImageSequence_validate_path in H.
    destruct (validate_path ImageSequence check_exists d path)
      as [r'|e'] eqn:Ev; [|discriminate].
    cbv zeta in H.
    destruct (mem (Py.lstrip ["."] (splitext_ext path)) IMAGE_EXTENSIONS)
      eqn:Em; [|discriminate].
    cbn [negb] in H. injection H as <-. split; [reflexivity|].
    unfold splitext_ext in Em.
    destruct (rfind "." path) as [di|] eqn:Ed; [|discriminate].
    destruct (rfind_some _ _ _ Ed) as (stem & e & Ep & Hl & He).
    assert (Ee : skipn di path = "." :: e).
    { rewrite Ep, <- Hl, skipn_app, Nat.sub_diag, skipn_all. reflexivity. }
    destruct (_ <=? di)%nat; [|discriminate].
    destruct (forallb _ _); [discriminate|].
    rewrite Ee in Em. cbn [Py.lstrip existsb Ascii.eqb Bool.eqb orb] in Em.
    rewrite (lstrip_without _ _ He) in Em. apply mem_in in Em.
    now exists stem, e.
  - intros r a c b e Hv Ep He Hc1 Hc2 Hb.
    destruct (image_extension_plain _ He) as [He1 He2].
    unfold ImageSequence_validate_path. rewrite Hv. cbv zeta.
    rewrite Ep, (splitext_ext_plain a c b e Hc1 Hc2 Hb He1 He2).
    cbn [Py.lstrip existsb Ascii.eqb Bool.eqb orb].
    rewrite (lstrip_without _ _ He1).
    apply mem_in in He. now rewrite He.
  - intros e Hv. unfold ImageSequence_validate_path. now rewrite Hv.
  - vm_compute. reflexivity.
  - vm_compute. reflexivity.
Qed.

Lemma image_path_has_an_image_extension_witness :
  exists r,
    ImageSequence_validate_path false {| files := []; folders := [] |}
                                (lit "shots/shot.0001.exr") = Ok r
    /\ validate_path ImageSequence false {| files := []; folders := [] |}
                     (lit "shots/shot.0001.exr") = Ok r
    /\ snd r = nums.
Proof.
  destruct (validate_path ImageSequence false {| files := []; folders := [] |}
                          (lit "shots/shot.0001.exr")) as [r|e] eqn:Ev;
    [|vm_compute in Ev; discriminate].
  exists r.
  assert (Hi : ImageSequence_validate_path false
                 {| files := []; folders := [] |}
                 (lit "shots/shot.0001.exr") = Ok r).
  { apply (proj1 (proj2 (image_path_has_an_image_extension
                           false {| files := []; folders := [] |}
                           (lit "shots/shot.0001.exr")))
                 r (lit "shots/shot.000") "1"%char [] (lit "exr")).
    - exact Ev.
    - reflexivity.
    - vm_compute. tauto.
    - discriminate.
    - discriminate.
    - reflexivity. }
  split; [exact Hi|].
  split; [reflexivity|].
  vm_compute in Ev. now injection Ev as <-.
Defined.

Lemma mapping_protocol_witness :
  let w := built_world BaseSequence "aaa010.####"
             (Some ["aaa010.0003"; "aaa010.0001"; "aaa010.0002"]%string) in
  settled (obj w)
  /\ NoDup (keys (_sequence_items (obj w)))
  /\ iter w = (Ok [Some 1%Z; Some 2%Z; Some 3%Z], w)
  /\ len w = (Ok 3, w)
  /\ getitem (Some 4%Z) w = (Raise KeyError, w).
Proof.
  cbv zeta.
  assert (Hs : settled (obj (built_world BaseSequence "aaa010.####"
                 (Some ["aaa010.0003"; "aaa010.0001"; "aaa010.0002"]
                       %string))))
    by (split; [|left]; vm_compute; reflexivity).
  assert (Hd : NoDup (keys (_sequence_items
                 (obj (built_world BaseSequence "aaa010.####"
                    (Some ["aaa010.0003"; "aaa010.0001"; "aaa010.0002"]
                          %string))))))
    by (apply key_ascending_NoDup; vm_compute; auto).
  destruct (mapping_protocol _ Hs Hd) as (ks & Ei & El & _ & _ & _ & Hno).
  assert (Ek : ks = [Some 1%Z; Some 2%Z; Some 3%Z]).
  { assert (E : fst (iter (built_world BaseSequence "aaa010.####"
                 (Some ["aaa010.0003"; "aaa010.0001"; "aaa010.0002"]
                       %string)))
                = Ok [Some 1%Z; Some 2%Z; Some 3%Z])
      by (vm_compute; reflexivity).
    rewrite Ei in E. cbn [fst] in E. now injection E. }
  subst ks. refine (conj Hs (conj Hd (conj Ei (conj El _)))).
  apply Hno. cbn [In]. intros [H|[H|[H|[]]]]; discriminate.
Defined.

(** ** The index built from the disk *)

Lemma get_path_parsed w n :
  _parsed (obj w) = true ->
  get_path n None w
  = (py_format (formatStringKey (cls (obj w))) n
       (join_base (obj w)
          (format_substr (formatStringKey (cls (obj w))) (_padding (obj w))))
       None, w).
Proof.
  intro Hp. unfold get_path, bind at 1. rewrite (ensure_parsed_parsed w Hp).
  unfold bind at 1, get_format_string, bind at 1.
  rewrite (ensure_parsed_parsed w Hp).
  unfold bind at 1, get. unfold default_padding, bind at 1.
  rewrite (padding_parsed w Hp). unfold ret at 1. unfold bind.
  destruct (py_format _ _ _ _); reflexivity.
Qed.

Section DiskLoop.

Variable w : world.
Hypothesis Hp : _parsed (obj w) = true.

(** The body of the loop of the scan over the entries of the folder. *)
Let body : str -> list (key * str) -> M (list (key * str)) :=
  fun path result =>
    part <- is_part_of_sequence path ;;
    if negb part then ret result
    else if (length path
             <? fst (seq_span (the_match (obj w))) + _padding (obj w))%nat
    then ret result
    else
      let n := Py.slice path (fst (seq_span (the_match (obj w))))
                        (fst (seq_span (the_match (obj w)))
                         + _padding (obj w)) in
      if negb (Py.isdigit n) then ret result
      else if Py.isdigit
                (Py.slice path (fst (seq_span (the_match (obj w))))
                          (fst (seq_span (the_match (obj w)))
                           + _padding (obj w) + 1))
      then ret result
      else
        match Py.int n with
        | None => raise ValueError
        | Some v =>
            path' <- get_path (Z.of_nat v) None ;;
            ret (dict_set (Some (Z.of_nat v)) path' result)
        end.

Lemma disk_body_skip path acc r w' :
  frame_number (obj w) path = None ->
  body path acc w = (Ok r, w') -> r = acc /\ w' = w.
Proof.
  unfold frame_number, body. unfold bind at 1.
  rewrite (is_part_of_sequence_parsed w Hp).
  destruct (is_part_pure (obj w) path); cbn [negb];
    [|intros _ [= <- <-]; now split].
  destruct (length path <? _)%nat; [intros _ [= <- <-]; now split|].
  cbv zeta.
  destruct (Py.isdigit (Py.slice path _ (_ + _padding (obj w))));
    cbn [negb]; [|intros _ [= <- <-]; now split].
  destruct (Py.isdigit (Py.slice path _ (_ + _ + 1)));
    [intros _ [= <- <-]; now split|].
  intros ->. discriminate.
Qed.

Lemma disk_body_frame path acc r w' v :
  frame_number (obj w) path = Some v ->
  body path acc w = (Ok r, w') ->
  w' = w
  /\ exists p', get_path (Z.of_nat v) None w = (Ok p', w)
                /\ r = dict_set (Some (Z.of_nat v)) p' acc.
Proof.
  unfold frame_number, body. unfold bind at 1.
  rewrite (is_part_of_sequence_parsed w Hp).
  destruct (is_part_pure (obj w) path); cbn [negb]; [|discriminate].
  destruct (length path <? _)%nat; [discriminate|].
  cbv zeta.
  destruct (Py.isdigit (Py.slice path _ (_ + _padding (obj w))));
    cbn [negb]; [|discriminate].
  destruct (Py.isdigit (Py.slice path _ (_ + _ + 1))); [discriminate|].
  intros ->. unfold bind.
  pose proof (steady_get_path (Z.of_nat v) None w Hp) as Hs.
  destruct (get_path (Z.of_nat v) None w) as [[p'|e] w1] eqn:Eg;
    cbn [snd] in Hs; subst w1; [|discriminate].
  intros [= <- <-]. split; [reflexivity|]. now exists p'.
Qed.

Lemma disk_loop entries : forall acc r w',
  for_each entries acc body w = (Ok r, w') ->
  w' = w
  /\ (forall kv,
         In kv r ->
         In kv acc
         \/ exists n path,
             In path entries /\ frame_number (obj w) path = Some n
             /\ fst kv = Some (Z.of_nat n)
             /\ get_path (Z.of_nat n) None w = (Ok (snd kv), w))
  /\ (forall k, In k (keys acc) -> In k (keys r))
  /\ (forall path n,
         In path entries -> frame_number (obj w) path = Some n ->
         In (Some (Z.of_nat n)) (keys r)).
Proof.
  induction entries as [|path entries IH]; intros acc r w' H.
  - cbn [for_each] in H. unfold ret in H. injection H as <- <-.
    split; [reflexivity|]. split; [now left|]. split; [trivial|].
    intros path n [].
  - cbn [for_each] in H. unfold bind at 1 in H.
    destruct (body path acc w) as [[acc1|e] w1] eqn:Eb; [|discriminate].
    destruct (frame_number (obj w) path) as [v|] eqn:Ef.
    + destruct (disk_body_frame _ _ _ _ _ Ef Eb) as (-> & p' & Eg & ->).
      destruct (IH _ _ _ H) as (-> & H1 & H2 & H3).
      split; [reflexivity|]. split; [|split].
      * intros kv Hkv.
        destruct (H1 kv Hkv) as [Hl|(n & p0 & Hin & Hrest)].
        -- apply in_dict_set in Hl as [->|Hl]; [right|now left].
           exists v, path. split; [now left|]. split; [exact Ef|].
           split; [reflexivity|exact Eg].
        -- right. exists n, p0. split; [now right|exact Hrest].
      * intros k Hk. apply H2. apply keys_dict_set. now right.
      * intros p0 n [<-|Hin] Hfn.
        -- rewrite Ef in Hfn. injection Hfn as <-.
           apply H2. apply keys_dict_set. now left.
        -- exact (H3 p0 n Hin Hfn).
    + destruct (disk_body_skip _ _ _ _ Ef Eb) as (-> & ->).
      destruct (IH _ _ _ H) as (-> & H1 & H2 & H3).
      split; [reflexivity|]. split; [|split; [exact H2|]].
      * intros kv Hkv.
        destruct (H1 kv Hkv) as [Hl|(n & p0 & Hin & Hrest)];
          [now left|right].
        exists n, p0. split; [now right|exact Hrest].
      * intros p0 n [<-|Hin] Hfn; [congruence|]. exact (H3 p0 n Hin Hfn).
Qed.

(** What [_build_sequence_items_from_disk] files. *)
Lemma build_from_disk_frames raw w' :
  build_from_disk w = (Ok raw, w') ->
  mem (dirname (_string (obj w))) (folders (fs w)) = true
  /\ (forall kv,
         In kv raw ->
         exists n path,
           In path (files (fs w))
           /\ dirname path = dirname (_string (obj w))
           /\ frame_number (obj w) path = Some n
           /\ fst kv = Some (Z.of_nat n)
           /\ get_path (Z.of_nat n) None w = (Ok (snd kv), w))
  /\ (forall path n,
         In path (files (fs w)) ->
         dirname path = dirname (_string (obj w)) ->
         frame_number (obj w) path = Some n ->
         In (Some (Z.of_nat n)) (keys raw)).
Proof.
  unfold build_from_disk, bind at 1, get. unfold bind at 1.
  rewrite (padding_parsed w Hp). unfold bind at 1, scan_files, bind at 1.
  unfold get_fs.
  destruct (mem (dirname (_string (obj w))) (folders (fs w))) eqn:Em;
    [|discriminate].
  unfold ret at 1. intro H. apply disk_loop in H.
  destruct H as (_ & H1 & _ & H3). split; [reflexivity|]. split.
  - intros kv Hkv. destruct (H1 kv Hkv) as [[]|(n & path & Hin & Hrest)].
    apply filter_In in Hin as [Hin Hd]. apply str_eqb_eq in Hd.
    exists n, path. auto.
  - intros path n Hin Hd Hf. apply (H3 path n); [|exact Hf].
    apply filter_In. split; [exact Hin|]. now apply str_eqb_eq.
Qed.

End DiskLoop.

(** X23.  When items succeeds on a FileSequence without explicit items
    whose index is empty and has not been built, the folder of the
    source exists, the disk is unchanged, and the index lists exactly
    the numbers read at the place of the current item in the files of
    that folder that pass is_part_of_sequence and have digits there with
    no further digit behind: every such file gives a key, and every key
    comes from such a file. The value filed under a number is
    get_path(number), not the file's own path, so it can name a file
    that is not on the disk. *)
Theorem disk_index_lists_the_frames (w0 w : world) (its : list (key * str)) :
  cls_kind (cls (obj w0)) = File -> _input_items (obj w0) = None ->
  _built (obj w0) = false -> _sequence_items (obj w0) = [] ->
  items w0 = (Ok its, w) ->
  let folder := dirname (_string (obj w0)) in
  mem folder (folders (fs w0)) = true
  /\ fs w = fs w0
  /\ (forall k v,
         In (k, v) its ->
         exists n path,
           In path (files (fs w0)) /\ dirname path = folder
           /\ frame_number (obj w) path = Some n
           /\ k = Some (Z.of_nat n)
           /\ get_path (Z.of_nat n) None w = (Ok v, w))
  /\ (forall path n,
         In path (files (fs w0)) -> dirname path = folder ->
         frame_number (obj w) path = Some n ->
         exists v, In (Some (Z.of_nat n), v) its).
Proof.
  intros Hk Hi Hb He Hit folder.
  destruct (items_unbuilt _ _ _ Hb Hit) as (w1 & Ep & Hp & H).
  destruct (ensure_parsed_same _ _ _ Ep)
    as (Efs & _ & Ec & Es & Ein & _ & Eit & _).
  rewrite Ec, Hk, Ein, Hi in H. destruct H as (raw & Hraw & Hits & ->).
  rewrite Eit, He in Hits. fold (ordered_dict (sorted_items raw)) in Hits.
  pose proof (build_from_disk_NoDup _ _ _ Hraw) as Hnd.
  rewrite ordered_dict_sorted in Hits by exact Hnd.
  destruct (build_from_disk_frames w1 Hp _ _ Hraw) as (Hm & H1 & H2).
  rewrite Es, Efs in *. fold folder in Hm, H1, H2.
  subst its.
  assert (Hpw : _parsed (obj (store_items w1 (sorted_items raw))) = true)
    by exact Hp.
  split; [exact Hm|]. split; [exact Efs|]. split.
  - intros k v Hkv. apply (proj1 (in_sorted_items _ _)) in Hkv.
    destruct (H1 _ Hkv) as (n & path & Hin & Hd & Hf & Hfst & Hg).
    exists n, path. split; [exact Hin|]. split; [exact Hd|].
    split; [exact Hf|]. split; [exact Hfst|].
    rewrite (get_path_parsed _ _ Hpw). rewrite (get_path_parsed _ _ Hp) in Hg.
    injection Hg as Hg. f_equal. exact Hg.
  - intros path n Hin Hd Hf. pose proof (H2 path n Hin Hd Hf) as Hkey.
    unfold keys in Hkey. apply in_map_iff in Hkey as ([k v] & E & Hkv).
    cbn [fst] in E. subst k. exists v.
    now apply (proj2 (in_sorted_items _ _)).
Qed.

Lemma disk_index_lists_the_frames_witness :
  let w0 :=
    {| obj := new_sequence FileSequence (lit "/p/a.0001.jpg") None false;
       fs := {| files := [lit "/p/a.0001.jpg"; lit "/p/aX0002.jpg";
                          lit "/p/a.0003.jpg"; lit "/p/b.txt";
                          lit "/q/a.0004.jpg"; lit "/p/a.00005.jpg"];
                folders := [lit "/p"; lit "/q"] |};
       events := [] |} in
  fst (items w0)
  = Ok [(Some 1%Z, lit "/p/a.0001.jpg"); (Some 2%Z, lit "/p/a.0002.jpg");
        (Some 3%Z, lit "/p/a.0003.jpg")]
  /\ mem (lit "/p/a.0002.jpg") (files (fs w0)) = false
  /\ frame_number (obj (snd (items w0))) (lit "/p/aX0002.jpg") = Some 2
  /\ exists n path,
       In path (files (fs w0)) /\ dirname path = lit "/p"
       /\ frame_number (obj (snd (items w0))) path = Some n
       /\ Some 2%Z = Some (Z.of_nat n)
       /\ get_path (Z.of_nat n) None (snd (items w0))
          = (Ok (lit "/p/a.0002.jpg"), snd (items w0)).
Proof.
  cbv zeta.
  set (w0 := {| obj := new_sequence FileSequence (lit "/p/a.0001.jpg")
                                    None false;
                fs := _; events := [] |}).
  assert (Hi : items w0
               = (Ok [(Some 1%Z, lit "/p/a.0001.jpg");
                      (Some 2%Z, lit "/p/a.0002.jpg");
                      (Some 3%Z, lit "/p/a.0003.jpg")], snd (items w0)))
    by (vm_compute; reflexivity).
  refine (conj _ (conj _ (conj _ _))).
  - now rewrite Hi.
  - vm_compute. reflexivity.
  - vm_compute. reflexivity.
  - destruct (disk_index_lists_the_frames w0 _ _ eq_refl eq_refl eq_refl
                eq_refl Hi) as (_ & _ & H & _).
    apply (H (Some 2%Z) (lit "/p/a.0002.jpg")). right. now left.
Defined.

(** ** The memoized range *)

Lemma range_cached w r : _range (obj w) = Some r -> range w = (Ok r, w).
Proof. intro E. unfold range, bind, get. now rewrite E. Qed.

Lemma ready_settled s : ready s -> settled s.
Proof. intros [Hp Hb]. split; [exact Hp|now left]. Qed.


